(** * The per-isolate executor of isolated-vm: Scope, CpuTimer, WallTimer,
      Lock and Unlock (src/isolate/executor.cc)

    The development is a shallow embedding of [executor.cc] as a state and
    abort monad over one thread's view of the process:

    - the shared part of the state is the store of [Executor] objects and of
      [CpuTimer] objects (both are reached through pointers in the source, so
      both live in a store indexed by object identity);
    - the thread-local slots [current_executor] and [cpu_timer_thread] are
      plain fields of the state, because the development follows one thread;
    - the clocks are functions of a logical instant which every clock read
      advances, so that an arbitrary amount of time may pass between any two
      reads;
    - an object is named by a natural number that no earlier object had, the
      way two live objects never share an address;
    - [assert] is the debug-build assertion: a failing one aborts;
    - every operation also appends to a ghost [trace] the mutex operations and
      the field accesses it performs, in program order, together with the
      calls it makes to the external collaborators (the quota timer, the
      engine locker and the engine scopes).

    Scoped objects are constructed and destroyed by a small machine whose
    stack of live objects enforces destruction in reverse order of
    construction.

    Durations are unbounded integers: the 64-bit signed nanosecond counters of
    the source do not wrap, their overflow is undefined and out of reach. *)

From stdpp Require Import base option list gmap.
From Stdlib Require Import ZArith Lia.

Open Scope Z_scope.

(** ** Platform: clocks and thread identity *)

(** The compile-time clock choice, the two clocks as functions of the logical
    instant, and the identity of the thread that runs the code. *)
Class Platform := {
  USE_CLOCK_THREAD_CPUTIME_ID : bool;
  clock_thread_cputime : nat → Z;
  steady_clock_now : nat → Z;
  this_thread_get_id : nat
}.

Definition monotone (clk : nat → Z) : Prop :=
  ∀ i j : nat, (i ≤ j)%nat → clk i ≤ clk j.

(** ** Data model *)

(** An [Executor] is identified with the [IsolateEnvironment] that owns it:
    [env.executor] and [executor.env] are inverse references, so one natural
    number names both. *)
Record Executor := mkExecutor {
  env : nat;
  default_executor : nat;
  default_thread : nat;
  cpu_timer : option nat;
  wall_timer : option nat;
  cpu_time : Z;
  wall_time : Z
}.

Record CpuTimer := mkCpuTimer {
  ct_executor : nat;
  ct_last : option nat;
  ct_time : Z
}.

Record WallTimer := mkWallTimer {
  wt_this : nat;
  wt_executor : nat;
  wt_cpu_timer : option nat;
  wt_time : Z
}.

Record Scope := mkScope {
  sc_last : option nat
}.

Record Lock := mkLock {
  lk_scope : Scope;
  lk_wall_timer : WallTimer;
  lk_locker : nat;
  lk_cpu_timer : nat
}.

Record Unlock := mkUnlock {
  ul_pause_scope : option nat;
  ul_unlocker : nat
}.

Inductive field := f_cpu_time | f_wall_time | f_cpu_timer | f_wall_timer.

Inductive event :=
| EvAcquire (e : nat)              (* lock_guard on e's timer_mutex taken *)
| EvRelease (e : nat)              (* ... and released *)
| EvRead (e : nat) (f : field)
| EvWrite (e : nat) (f : field)
| EvStart (c e : nat)              (* CpuTimer c constructed on e *)
| EvStop (c e : nat)               (* CpuTimer c destroyed *)
| EvPause (c e : nat)              (* c->Pause() *)
| EvResume (c e : nat)             (* c->Resume() *)
| EvHolderPause (e : nat)          (* timer_t::pause(env.timer_holder) *)
| EvHolderResume (e : nat)         (* timer_t::resume(env.timer_holder) *)
| EvLocker (e : nat)               (* v8::Locker constructed: may block *)
| EvLockerExit (e : nat)
| EvUnlocker (e : nat)             (* v8::Unlocker constructed *)
| EvUnlockerExit (e : nat)         (* v8::Unlocker destroyed: may block *)
| EvIsolateScope (e : nat)
| EvIsolateScopeExit (e : nat)
| EvHandleScope (e : nat)
| EvHandleScopeExit (e : nat).

Global Instance field_eq_dec : EqDecision field.
Proof. solve_decision. Defined.

Global Instance event_eq_dec : EqDecision event.
Proof. solve_decision. Defined.

Record State := mkState {
  executors : gmap nat Executor;
  cpu_timers : gmap nat CpuTimer;
  current_executor : option nat;      (* thread_local *)
  cpu_timer_thread : option nat;      (* thread_local *)
  next_object : nat;
  instant : nat;
  trace : list event
}.

Inductive failure :=
| AssertInstall      (* CpuTimer(): assert(executor.cpu_timer == nullptr) *)
| AssertClear        (* ~CpuTimer(): assert(executor.cpu_timer == this) *)
| AssertPause        (* Pause(): assert(executor.cpu_timer == this) *)
| AssertResume       (* Resume(): assert(executor.cpu_timer == nullptr) *)
| BadPointer         (* a null or dangling pointer is dereferenced *)
| Misuse.            (* not a C++ program: a second construction of one
                        object, or the end of a scope that was not opened *)

Inductive result (A : Type) :=
| Ok (a : A)
| Abort (f : failure).
Arguments Ok {A} a.
Arguments Abort {A} f.

(** ** The state and abort monad *)

Definition M (A : Type) : Type := State → result (A * State).

Global Instance M_ret : MRet M := λ A a σ, Ok (a, σ).

Global Instance M_bind : MBind M := λ A B f m σ,
  match m σ with
  | Ok (a, σ') => f a σ'
  | Abort x => Abort x
  end.

Definition abort {A} (f : failure) : M A := λ _, Abort f.

Definition assert (b : bool) (f : failure) : M () :=
  if b then mret () else abort f.

Definition get_current_executor : M (option nat) :=
  λ σ, Ok (current_executor σ, σ).

Definition set_current_executor (v : option nat) : M () :=
  λ σ, Ok ((), mkState (executors σ) (cpu_timers σ) v (cpu_timer_thread σ)
                       (next_object σ) (instant σ) (trace σ)).

Definition get_cpu_timer_thread : M (option nat) :=
  λ σ, Ok (cpu_timer_thread σ, σ).

Definition set_cpu_timer_thread (v : option nat) : M () :=
  λ σ, Ok ((), mkState (executors σ) (cpu_timers σ) (current_executor σ) v
                       (next_object σ) (instant σ) (trace σ)).

Definition emit (ev : event) : M () :=
  λ σ, Ok ((), mkState (executors σ) (cpu_timers σ) (current_executor σ)
                       (cpu_timer_thread σ) (next_object σ) (instant σ)
                       (trace σ ++ [ev])).

(** The identity of a newly constructed object ([this]). *)
Definition new_object : M nat :=
  λ σ, Ok (next_object σ,
           mkState (executors σ) (cpu_timers σ) (current_executor σ)
                   (cpu_timer_thread σ) (S (next_object σ)) (instant σ)
                   (trace σ)).

Definition deref_executor (e : nat) : M Executor :=
  λ σ, match executors σ !! e with
       | Some E => Ok (E, σ)
       | None => Abort BadPointer
       end.

Definition store_executor (e : nat) (E : Executor) : M () :=
  λ σ, Ok ((), mkState (<[e := E]> (executors σ)) (cpu_timers σ)
                       (current_executor σ) (cpu_timer_thread σ)
                       (next_object σ) (instant σ) (trace σ)).

Definition deref_timer (c : nat) : M CpuTimer :=
  λ σ, match cpu_timers σ !! c with
       | Some C => Ok (C, σ)
       | None => Abort BadPointer
       end.

Definition store_timer (c : nat) (C : CpuTimer) : M () :=
  λ σ, Ok ((), mkState (executors σ) (<[c := C]> (cpu_timers σ))
                       (current_executor σ) (cpu_timer_thread σ)
                       (next_object σ) (instant σ) (trace σ)).

(** Reading a clock returns its value at the current instant and lets time
    pass. *)
Definition read_clock (clk : nat → Z) : M Z :=
  λ σ, Ok (clk (instant σ),
           mkState (executors σ) (cpu_timers σ) (current_executor σ)
                   (cpu_timer_thread σ) (next_object σ) (S (instant σ))
                   (trace σ)).

(** Accesses to the four guarded fields of an executor. *)

Definition read_cpu_timer (e : nat) : M (option nat) :=
  emit (EvRead e f_cpu_timer);; E ← deref_executor e; mret (cpu_timer E).

Definition write_cpu_timer (e : nat) (v : option nat) : M () :=
  emit (EvWrite e f_cpu_timer);;
  E ← deref_executor e;
  store_executor e (mkExecutor (env E) (default_executor E) (default_thread E)
                               v (wall_timer E) (cpu_time E) (wall_time E)).

Definition read_wall_timer (e : nat) : M (option nat) :=
  emit (EvRead e f_wall_timer);; E ← deref_executor e; mret (wall_timer E).

Definition write_wall_timer (e : nat) (v : option nat) : M () :=
  emit (EvWrite e f_wall_timer);;
  E ← deref_executor e;
  store_executor e (mkExecutor (env E) (default_executor E) (default_thread E)
                               (cpu_timer E) v (cpu_time E) (wall_time E)).

(** [executor.cpu_time += d] *)
Definition add_cpu_time (e : nat) (d : Z) : M () :=
  emit (EvRead e f_cpu_time);;
  emit (EvWrite e f_cpu_time);;
  E ← deref_executor e;
  store_executor e (mkExecutor (env E) (default_executor E) (default_thread E)
                               (cpu_timer E) (wall_timer E)
                               (cpu_time E + d) (wall_time E)).

(** [executor.wall_time += d] *)
Definition add_wall_time (e : nat) (d : Z) : M () :=
  emit (EvRead e f_wall_time);;
  emit (EvWrite e f_wall_time);;
  E ← deref_executor e;
  store_executor e (mkExecutor (env E) (default_executor E) (default_thread E)
                               (cpu_timer E) (wall_timer E)
                               (cpu_time E) (wall_time E + d)).

(** [std::lock_guard<std::mutex> lock{executor.timer_mutex}] around the rest
    of the block. *)
Definition lock_guard {A} (e : nat) (body : M A) : M A :=
  emit (EvAcquire e);; a ← body; emit (EvRelease e);; mret a.

Section Code.
Context `{Platform}.

(** ** Executor::Executor *)

(** Modelled from the spec: the member initialisers of [Executor] are in
    executor.h, which is not part of the sources at hand. Section 3 describes
    [cpu_timer] and [wall_timer] as pointers "or null" and the two totals as
    "accumulated" nanoseconds: a new executor has no timer installed and has
    accumulated nothing. *)
Definition Executor_init (env dflt thr : nat) : Executor :=
  mkExecutor env dflt thr None None 0 0.

Definition lookup_executor (e : nat) : M (option Executor) :=
  λ σ, Ok (executors σ !! e, σ).

(** The constructor runs once per [IsolateEnvironment]: constructing the
    executor of an environment that already has one is not a C++ program.
    [this] is the new executor, and the environment that owns it. *)
Definition Executor_ctor (this : nat) : M () :=
  old ← lookup_executor this;
  assert (bool_decide (old = None)) Misuse;;
  cur ← get_current_executor;
  dflt ← match cur with
         | None => set_current_executor (Some this);; mret this
         | Some d => mret d
         end;
  thr ← (if bool_decide (dflt = this) then mret this_thread_get_id
         else D ← deref_executor dflt; mret (default_thread D));
  store_executor this (Executor_init this dflt thr).

(** ** CpuTimer *)

(** [Now()] reads the per-thread CPU clock where the platform has one and
    the steady clock otherwise. *)
Definition CpuTimer_Now : M Z :=
  read_clock (if USE_CLOCK_THREAD_CPUTIME_ID then clock_thread_cputime
              else steady_clock_now).

Definition CpuTimer_ctor (executor : nat) : M nat :=
  this ← new_object;
  last ← get_cpu_timer_thread;
  time ← CpuTimer_Now;
  store_timer this (mkCpuTimer executor last time);;
  emit (EvStart this executor);;
  set_cpu_timer_thread (Some this);;
  lock_guard executor (
    cur ← read_cpu_timer executor;
    assert (bool_decide (cur = None)) AssertInstall;;
    write_cpu_timer executor (Some this));;
  mret this.

Definition CpuTimer_dtor (this : nat) : M () :=
  C ← deref_timer this;
  emit (EvStop this (ct_executor C));;
  set_cpu_timer_thread (ct_last C);;
  lock_guard (ct_executor C) (
    now ← CpuTimer_Now;
    add_cpu_time (ct_executor C) (now - ct_time C);;
    cur ← read_cpu_timer (ct_executor C);
    assert (bool_decide (cur = Some this)) AssertClear;;
    write_cpu_timer (ct_executor C) None).

Definition CpuTimer_Pause (this : nat) : M () :=
  C ← deref_timer this;
  emit (EvPause this (ct_executor C));;
  lock_guard (ct_executor C) (
    now ← CpuTimer_Now;
    add_cpu_time (ct_executor C) (now - ct_time C);;
    cur ← read_cpu_timer (ct_executor C);
    assert (bool_decide (cur = Some this)) AssertPause;;
    write_cpu_timer (ct_executor C) None;;
    E ← deref_executor (ct_executor C);
    emit (EvHolderPause (env E))).

Definition CpuTimer_Resume (this : nat) : M () :=
  C ← deref_timer this;
  emit (EvResume this (ct_executor C));;
  lock_guard (ct_executor C) (
    now ← CpuTimer_Now;
    store_timer this (mkCpuTimer (ct_executor C) (ct_last C) now);;
    cur ← read_cpu_timer (ct_executor C);
    assert (bool_decide (cur = None)) AssertResume;;
    write_cpu_timer (ct_executor C) (Some this);;
    E ← deref_executor (ct_executor C);
    emit (EvHolderResume (env E))).

(** [Delta] takes the caller's guard on [timer_mutex] and does not use it.
    Durations are counted in nanoseconds, so the cast to nanoseconds is the
    identity. *)
Definition CpuTimer_Delta (this : nat) (lock : nat) : M Z :=
  C ← deref_timer this;
  now ← CpuTimer_Now;
  mret (now - ct_time C).

(** ** WallTimer *)

(** An optional pointer is followed only when it is not null. *)
Definition when_set (p : option nat) (f : nat → M ()) : M () :=
  match p with
  | Some c => f c
  | None => mret ()
  end.

(** A WallTimer that does not install itself leaves its [time] member as it
    was default-constructed, at the epoch of the clock. *)
Definition WallTimer_ctor (executor : nat) : M WallTimer :=
  this ← new_object;
  cpu_timer ← get_cpu_timer_thread;
  when_set cpu_timer CpuTimer_Pause;;
  w ← read_wall_timer executor;
  if bool_decide (w = None) then
    lock_guard executor (
      write_wall_timer executor (Some this);;
      now ← read_clock steady_clock_now;
      mret (mkWallTimer this executor cpu_timer now))
  else mret (mkWallTimer this executor cpu_timer 0).

Definition WallTimer_dtor (this : WallTimer) : M () :=
  when_set (wt_cpu_timer this) CpuTimer_Resume;;
  w ← read_wall_timer (wt_executor this);
  if bool_decide (w = Some (wt_this this)) then
    lock_guard (wt_executor this) (
      write_wall_timer (wt_executor this) None;;
      now ← read_clock steady_clock_now;
      add_wall_time (wt_executor this) (now - wt_time this))
  else mret ().

Definition WallTimer_Delta (this : WallTimer) (lock : nat) : M Z :=
  now ← read_clock steady_clock_now;
  mret (now - wt_time this).

(** ** Scope *)

Definition Scope_ctor (env : nat) : M Scope :=
  last ← get_current_executor;
  set_current_executor (Some env);;
  mret (mkScope last).

(** Modelled from the spec: the destructor of [Scope] is defined in
    executor.h, which is not part of the sources at hand. Section 4.4:
    "Destruction restores [last]. No locking, no timer interaction." *)
Definition Scope_dtor (this : Scope) : M () :=
  set_current_executor (sc_last this).

(** ** Lock *)

(** The members are constructed in the order in which the class declares
    them: the order of the initialiser list, which is the fixed order of
    section 4.5. The locker and the two engine scopes are external and leave
    an event only. *)
Definition Lock_ctor (env : nat) : M Lock :=
  scope ← Scope_ctor env;
  wall_timer ← WallTimer_ctor env;
  emit (EvLocker env);;
  cpu_timer ← CpuTimer_ctor env;
  emit (EvIsolateScope env);;
  emit (EvHandleScope env);;
  mret (mkLock scope wall_timer env cpu_timer).

(** The implicit destructor destroys the members in reverse order. *)
Definition Lock_dtor (this : Lock) : M () :=
  emit (EvHandleScopeExit (lk_locker this));;
  emit (EvIsolateScopeExit (lk_locker this));;
  CpuTimer_dtor (lk_cpu_timer this);;
  emit (EvLockerExit (lk_locker this));;
  WallTimer_dtor (lk_wall_timer this);;
  Scope_dtor (lk_scope this).

(** ** Unlock *)

(** Modelled from the spec: [CpuTimer::PauseScope] is defined in executor.h,
    which is not part of the sources at hand. Section 4.6: Unlock "constructs
    a scoped pause of the current CpuTimer and releases the isolate mutex
    [...]. Destruction re-acquires and resumes in the reverse order." The
    scope is given the pointer read from [env.executor.cpu_timer]; outside of
    a Lock that pointer is null and following it is undefined. *)
Definition PauseScope_ctor (timer : option nat) : M () :=
  match timer with
  | Some c => CpuTimer_Pause c
  | None => abort BadPointer
  end.

(** Modelled from the spec: see [PauseScope_ctor]. *)
Definition PauseScope_dtor (timer : option nat) : M () :=
  match timer with
  | Some c => CpuTimer_Resume c
  | None => abort BadPointer
  end.

Definition Unlock_ctor (env : nat) : M Unlock :=
  timer ← read_cpu_timer env;
  PauseScope_ctor timer;;
  emit (EvUnlocker env);;
  mret (mkUnlock timer env).

Definition Unlock_dtor (this : Unlock) : M () :=
  emit (EvUnlockerExit (ul_unlocker this));;
  PauseScope_dtor (ul_pause_scope this).

(** ** Scoped usage: a stack of live objects *)

Inductive kind :=
| KScope (env : nat)
| KCpuTimer (executor : nat)
| KWallTimer (executor : nat)
| KLock (env : nat)
| KUnlock (env : nat).

Inductive frame :=
| FScope (s : Scope)
| FCpuTimer (c : nat)
| FWallTimer (w : WallTimer)
| FLock (l : Lock)
| FUnlock (u : Unlock).

Inductive action :=
| Enter (k : kind)       (* a scoped object is declared *)
| Exit                   (* the innermost open block ends *)
| New (env : nat).       (* an IsolateEnvironment (and its Executor) is made *)

Definition construct (k : kind) : M frame :=
  match k with
  | KScope e => s ← Scope_ctor e; mret (FScope s)
  | KCpuTimer e => c ← CpuTimer_ctor e; mret (FCpuTimer c)
  | KWallTimer e => w ← WallTimer_ctor e; mret (FWallTimer w)
  | KLock e => l ← Lock_ctor e; mret (FLock l)
  | KUnlock e => u ← Unlock_ctor e; mret (FUnlock u)
  end.

Definition destroy (f : frame) : M () :=
  match f with
  | FScope s => Scope_dtor s
  | FCpuTimer c => CpuTimer_dtor c
  | FWallTimer w => WallTimer_dtor w
  | FLock l => Lock_dtor l
  | FUnlock u => Unlock_dtor u
  end.

Definition step (a : action) (fs : list frame) : M (list frame) :=
  match a with
  | Enter k => f ← construct k; mret (f :: fs)
  | Exit => match fs with
            | f :: fs' => destroy f;; mret fs'
            | [] => abort Misuse
            end
  | New e => Executor_ctor e;; mret fs
  end.

Fixpoint exec (acts : list action) (fs : list frame) : M (list frame) :=
  match acts with
  | [] => mret fs
  | a :: rest => fs' ← step a fs; exec rest fs'
  end.

End Code.


(** ** Closed forms of the CpuTimer operations

    The state each operation leaves when it does not abort; the equations are
    proved in [CpuTimer_ctor_eq], [CpuTimer_dtor_eq], [CpuTimer_Pause_eq] and
    [CpuTimer_Resume_eq]. *)

Section ClosedForms.
Context `{Platform}.

Definition cpu_clock : nat → Z :=
  if USE_CLOCK_THREAD_CPUTIME_ID then clock_thread_cputime
  else steady_clock_now.

(** [executor.cpu_timer = t] *)
Definition install (E : Executor) (t : option nat) : Executor :=
  mkExecutor (env E) (default_executor E) (default_thread E) t (wall_timer E)
             (cpu_time E) (wall_time E).

(** [executor.cpu_time += d; executor.cpu_timer = nullptr] *)
Definition flush (E : Executor) (d : Z) : Executor :=
  mkExecutor (env E) (default_executor E) (default_thread E) None
             (wall_timer E) (cpu_time E + d) (wall_time E).

Definition start_events (c e : nat) : list event :=
  [EvStart c e; EvAcquire e; EvRead e f_cpu_timer; EvWrite e f_cpu_timer;
   EvRelease e].

Definition stop_events (c e : nat) : list event :=
  [EvStop c e; EvAcquire e; EvRead e f_cpu_time; EvWrite e f_cpu_time;
   EvRead e f_cpu_timer; EvWrite e f_cpu_timer; EvRelease e].

Definition pause_events (c e env : nat) : list event :=
  [EvPause c e; EvAcquire e; EvRead e f_cpu_time; EvWrite e f_cpu_time;
   EvRead e f_cpu_timer; EvWrite e f_cpu_timer; EvHolderPause env;
   EvRelease e].

Definition resume_events (c e env : nat) : list event :=
  [EvResume c e; EvAcquire e; EvRead e f_cpu_timer; EvWrite e f_cpu_timer;
   EvHolderResume env; EvRelease e].

Definition started (e : nat) (E : Executor) (σ : State) : State :=
  mkState (<[e := install E (Some (next_object σ))]> (executors σ))
          (<[next_object σ :=
               mkCpuTimer e (cpu_timer_thread σ) (cpu_clock (instant σ))]>
             (cpu_timers σ))
          (current_executor σ) (Some (next_object σ)) (S (next_object σ))
          (S (instant σ)) (trace σ ++ start_events (next_object σ) e).

Definition stopped (c : nat) (C : CpuTimer) (E : Executor) (σ : State) : State :=
  mkState (<[ct_executor C :=
               flush E (cpu_clock (instant σ) - ct_time C)]>
             (executors σ))
          (cpu_timers σ) (current_executor σ) (ct_last C) (next_object σ)
          (S (instant σ)) (trace σ ++ stop_events c (ct_executor C)).

Definition paused (c : nat) (C : CpuTimer) (E : Executor) (σ : State) : State :=
  mkState (<[ct_executor C :=
               flush E (cpu_clock (instant σ) - ct_time C)]>
             (executors σ))
          (cpu_timers σ) (current_executor σ) (cpu_timer_thread σ)
          (next_object σ) (S (instant σ))
          (trace σ ++ pause_events c (ct_executor C) (env E)).

Definition resumed (c : nat) (C : CpuTimer) (E : Executor) (σ : State) : State :=
  mkState (<[ct_executor C := install E (Some c)]> (executors σ))
          (<[c := mkCpuTimer (ct_executor C) (ct_last C)
                             (cpu_clock (instant σ))]> (cpu_timers σ))
          (current_executor σ) (cpu_timer_thread σ) (next_object σ)
          (S (instant σ))
          (trace σ ++ resume_events c (ct_executor C) (env E)).

(** *** Ghost steps, thread-local rebinding *)

Definition logged (evs : list event) (σ : State) : State :=
  mkState (executors σ) (cpu_timers σ) (current_executor σ)
          (cpu_timer_thread σ) (next_object σ) (instant σ) (trace σ ++ evs).

Definition rebind (v : option nat) (σ : State) : State :=
  mkState (executors σ) (cpu_timers σ) v (cpu_timer_thread σ)
          (next_object σ) (instant σ) (trace σ).

(** *** WallTimer: the part after the pause, the part after the resume *)

Definition alloc (σ : State) : State :=
  mkState (executors σ) (cpu_timers σ) (current_executor σ)
          (cpu_timer_thread σ) (S (next_object σ)) (instant σ) (trace σ).

Definition set_wall_timer (E : Executor) (w : option nat) : Executor :=
  mkExecutor (env E) (default_executor E) (default_thread E) (cpu_timer E) w
             (cpu_time E) (wall_time E).

Definition add_wall (E : Executor) (d : Z) : Executor :=
  mkExecutor (env E) (default_executor E) (default_thread E) (cpu_timer E)
             (wall_timer E) (cpu_time E) (wall_time E + d).

Definition wall_enter_events (e : nat) : list event :=
  [EvRead e f_wall_timer; EvAcquire e; EvWrite e f_wall_timer; EvRelease e].

Definition wall_leave_events (e : nat) : list event :=
  [EvRead e f_wall_timer; EvAcquire e; EvWrite e f_wall_timer;
   EvRead e f_wall_time; EvWrite e f_wall_time; EvRelease e].

Definition wall_skip_events (e : nat) : list event :=
  [EvRead e f_wall_timer].

Definition wall_entered (this e : nat) (E : Executor) (σ : State) : State :=
  if bool_decide (wall_timer E = None) then
    mkState (<[e := set_wall_timer E (Some this)]> (executors σ))
            (cpu_timers σ) (current_executor σ) (cpu_timer_thread σ)
            (next_object σ) (S (instant σ)) (trace σ ++ wall_enter_events e)
  else
    mkState (executors σ) (cpu_timers σ) (current_executor σ)
            (cpu_timer_thread σ) (next_object σ) (instant σ)
            (trace σ ++ wall_skip_events e).

Definition wall_object (this e : nat) (captured : option nat) (E : Executor)
    (σ : State) : WallTimer :=
  mkWallTimer this e captured
    (if bool_decide (wall_timer E = None) then steady_clock_now (instant σ)
     else 0).

Definition wall_left (w : WallTimer) (E : Executor) (σ : State) : State :=
  if bool_decide (wall_timer E = Some (wt_this w)) then
    mkState (<[wt_executor w :=
                 add_wall (set_wall_timer E None)
                          (steady_clock_now (instant σ) - wt_time w)]>
               (executors σ))
            (cpu_timers σ) (current_executor σ) (cpu_timer_thread σ)
            (next_object σ) (S (instant σ))
            (trace σ ++ wall_leave_events (wt_executor w))
  else
    mkState (executors σ) (cpu_timers σ) (current_executor σ)
            (cpu_timer_thread σ) (next_object σ) (instant σ)
            (trace σ ++ wall_skip_events (wt_executor w)).

(** *** Executor::Executor *)

Definition born (this dflt thr : nat) (cur : option nat) (σ : State) : State :=
  mkState (<[this := Executor_init this dflt thr]> (executors σ))
          (cpu_timers σ) cur (cpu_timer_thread σ) (next_object σ)
          (instant σ) (trace σ).

End ClosedForms.

(** ** Live scoped objects *)

(** The executor a live object puts back into [current_executor] when it is
    destroyed. *)
Definition frame_saved (f : frame) : option (option nat) :=
  match f with
  | FScope s => Some (sc_last s)
  | FLock l => Some (sc_last (lk_scope l))
  | _ => None
  end.

(** The CpuTimer a live object owns. *)
Definition frame_timer (f : frame) : option nat :=
  match f with
  | FCpuTimer c => Some c
  | FLock l => Some (lk_cpu_timer l)
  | _ => None
  end.

(** The WallTimer a live object owns. *)
Definition frame_wall (f : frame) : option WallTimer :=
  match f with
  | FWallTimer w => Some w
  | FLock l => Some (lk_wall_timer l)
  | _ => None
  end.

(** The CpuTimer a live object has paused and resumes when it is destroyed. *)
Definition frame_captured (f : frame) : option nat :=
  match f with
  | FWallTimer w => wt_cpu_timer w
  | FLock l => wt_cpu_timer (lk_wall_timer l)
  | FUnlock u => ul_pause_scope u
  | _ => None
  end.

(** The values of [current_executor] that the live objects will restore,
    innermost first. *)
Definition saved (fs : list frame) : list (option nat) := omap frame_saved fs.

(** The CpuTimers that the live objects own, innermost first. *)
Definition owned (fs : list frame) : list nat := omap frame_timer fs.

(** What [current_executor] becomes once every live object is destroyed: what
    the outermost of them has saved. *)
Definition entry_executor (fs : list frame) (cur : option nat) : option nat :=
  default cur (last (saved fs)).

(** What [cpu_timer_thread] becomes once every live object is destroyed: the
    [last] field of the outermost live CpuTimer. *)
Definition entry_timer (timers : gmap nat CpuTimer) (fs : list frame)
    (head : option nat) : option nat :=
  match last (owned fs) with
  | Some c => timers !! c ≫= ct_last
  | None => head
  end.

(** What every operation keeps: object identities are handed out in
    increasing order, time does not go back, executors stay where they are
    with the owner and the defaults they were constructed with, and a
    CpuTimer keeps its executor and its [last] link. *)
Definition extends (σ σ' : State) : Prop :=
  (next_object σ ≤ next_object σ')%nat ∧
  (instant σ ≤ instant σ')%nat ∧
  (∀ e E, executors σ !! e = Some E →
     ∃ E', executors σ' !! e = Some E' ∧ env E' = env E ∧
           default_executor E' = default_executor E ∧
           default_thread E' = default_thread E) ∧
  (∀ c C, (c < next_object σ)%nat → cpu_timers σ !! c = Some C →
     ∃ C', cpu_timers σ' !! c = Some C' ∧ ct_executor C' = ct_executor C ∧
           ct_last C' = ct_last C).

(** The CpuTimers of a list have been constructed. *)
Definition timers_live (σ : State) (L : list nat) : Prop :=
  Forall (λ c, (c < next_object σ)%nat ∧ is_Some (cpu_timers σ !! c)) L.

(** ** Reading the trace *)

Fixpoint release (e : nat) (held : list nat) : list nat :=
  match held with
  | [] => []
  | x :: h => if bool_decide (x = e) then h else x :: release e h
  end.

(** The mutexes held after a trace, from the ones held before it. *)
Fixpoint held_after (held : list nat) (tr : list event) : list nat :=
  match tr with
  | [] => held
  | EvAcquire e :: tr' => held_after (e :: held) tr'
  | EvRelease e :: tr' => held_after (release e held) tr'
  | _ :: tr' => held_after held tr'
  end.

(** The accesses to an executor's timer fields that a trace makes without
    that executor's [timer_mutex]. *)
Fixpoint unguarded (held : list nat) (tr : list event) : list event :=
  match tr with
  | [] => []
  | EvAcquire e :: tr' => unguarded (e :: held) tr'
  | EvRelease e :: tr' => unguarded (release e held) tr'
  | EvRead e f :: tr' =>
    if bool_decide (e ∈ held) then unguarded held tr'
    else EvRead e f :: unguarded held tr'
  | EvWrite e f :: tr' =>
    if bool_decide (e ∈ held) then unguarded held tr'
    else EvWrite e f :: unguarded held tr'
  | _ :: tr' => unguarded held tr'
  end.

(** The reads that select a branch or an argument before any locking: the
    test of [wall_timer] in the WallTimer constructor and destructor, and the
    pointer Unlock takes from [cpu_timer]. *)
Definition pointer_read (ev : event) : bool :=
  match ev with
  | EvRead _ f_wall_timer | EvRead _ f_cpu_timer => true
  | _ => false
  end.

Definition is_locker (ev : event) : bool :=
  match ev with EvLocker _ | EvLockerExit _ => true | _ => false end.

Definition is_start (ev : event) : bool :=
  match ev with EvStart _ _ => true | _ => false end.

Definition is_stop (ev : event) : bool :=
  match ev with EvStop _ _ => true | _ => false end.

(** Whether CpuTimer [c] is paused after a trace: whether its last Pause
    comes after its last Resume. *)
Fixpoint paused_after (st : bool) (c : nat) (tr : list event) : bool :=
  match tr with
  | [] => st
  | EvPause c' _ :: tr' =>
    paused_after (if bool_decide (c' = c) then true else st) c tr'
  | EvResume c' _ :: tr' =>
    paused_after (if bool_decide (c' = c) then false else st) c tr'
  | _ :: tr' => paused_after st c tr'
  end.

Definition is_paused (c : nat) (tr : list event) : bool :=
  paused_after false c tr.

(** The calls made on the quota timer of environment [e], oldest first:
    [true] for [pause], [false] for [resume]. *)
Fixpoint holder_calls (e : nat) (tr : list event) : list bool :=
  match tr with
  | [] => []
  | EvHolderPause e' :: tr' =>
    if bool_decide (e' = e) then true :: holder_calls e tr'
    else holder_calls e tr'
  | EvHolderResume e' :: tr' =>
    if bool_decide (e' = e) then false :: holder_calls e tr'
    else holder_calls e tr'
  | _ :: tr' => holder_calls e tr'
  end.

(** The quota timer is left paused when the last call made on it is a
    [pause]; ... *)
Definition left_paused (e : nat) (tr : list event) : bool :=
  match last (holder_calls e tr) with
  | Some true => true
  | _ => false
  end.

(** ... and also when pauses are counted, if more pauses than resumes were
    made. *)
Definition pause_depth (e : nat) (tr : list event) : Z :=
  Z.of_nat (length (filter (λ b, b = true) (holder_calls e tr))) -
  Z.of_nat (length (filter (λ b, b = false) (holder_calls e tr))).

(** ** Scoped usage through Lock, Scope and Unlock *)

Global Instance kind_eq_dec : EqDecision kind.
Proof. solve_decision. Defined.

(** The innermost open object that is not a plain Scope. *)
Fixpoint innermost (open : list kind) : option kind :=
  match open with
  | [] => None
  | KScope _ :: o => innermost o
  | k :: _ => Some k
  end.

Definition may_lock (open : list kind) : bool :=
  match innermost open with
  | None | Some (KLock _) => true
  | _ => false
  end.

Definition may_unlock (e : nat) (open : list kind) : bool :=
  bool_decide (innermost open = Some (KLock e)).

(** Usage through the public scoped types: environments are made before they
    are entered, Unlock(e) is declared inside Lock(e), and nothing is locked
    while an Unlock is alive. *)
Fixpoint scoped_usage (known : list nat) (open : list kind)
    (acts : list action) : bool :=
  match acts with
  | [] => true
  | New e :: rest =>
    bool_decide (e ∉ known) && scoped_usage (e :: known) open rest
  | Exit :: rest =>
    match open with
    | [] => false
    | _ :: o => scoped_usage known o rest
    end
  | Enter k :: rest =>
    match k with
    | KScope e => bool_decide (e ∈ known)
    | KLock e => bool_decide (e ∈ known) && may_lock open
    | KUnlock e => may_unlock e open
    | _ => false
    end && scoped_usage known (k :: open) rest
  end.

(** The executor an action enters. *)
Definition enters (a : action) : option nat :=
  match a with
  | Enter (KScope e) | Enter (KCpuTimer e) | Enter (KWallTimer e)
  | Enter (KLock e) | Enter (KUnlock e) => Some e
  | New e => Some e
  | Exit => None
  end.

(** No CpuTimer is installed on any executor and none is on the thread's
    stack. *)
Definition idle (σ : State) : Prop :=
  cpu_timer_thread σ = None ∧
  ∀ e E, executors σ !! e = Some E → cpu_timer E = None.

(** The CpuTimer of the innermost Lock. *)
Fixpoint lock_head (fs : list frame) : option nat :=
  match fs with
  | [] => None
  | FLock l :: _ => Some (lk_cpu_timer l)
  | _ :: fs' => lock_head fs'
  end.

(** ** Saved executors *)

(** Only the outermost live Scope may have saved a null [current_executor]. *)
Fixpoint saved_ok (L : list (option nat)) : Prop :=
  match L with
  | [] => True
  | x :: L' => (L' ≠ [] → x ≠ None) ∧ saved_ok L'
  end.

(** ** Default executors *)

(** Every executor has the default thread of its default executor. *)
Definition chained (σ : State) : Prop :=
  ∀ e E, executors σ !! e = Some E →
    ∃ D, executors σ !! default_executor E = Some D ∧
         default_thread D = default_thread E.

(** The [n]-th executor on the chain of default executors of [e]. *)
Fixpoint ancestor (σ : State) (n : nat) (e : nat) : option nat :=
  match n with
  | O => Some e
  | S n' => executors σ !! e ≫= λ E, ancestor σ n' (default_executor E)
  end.

(** An action that declares a scoped object or ends a block. *)
Definition is_scoped (a : action) : bool :=
  match a with
  | New _ => false
  | _ => true
  end.

(** ** Views of one executor *)

(** The WallTimers that the live objects own, innermost first. *)
Definition walls (fs : list frame) : list WallTimer := omap frame_wall fs.

(** The CpuTimers that the live objects have paused, innermost first. *)
Definition captured (fs : list frame) : list nat := omap frame_captured fs.

Definition wall_view (m : gmap nat Executor) (e : nat) : option (option nat * Z) :=
  (λ E, (wall_timer E, wall_time E)) <$> m !! e.

Definition cpu_view (m : gmap nat Executor) (e : nat) : option (option nat * Z) :=
  (λ E, (cpu_timer E, cpu_time E)) <$> m !! e.

(** A CpuTimer that does not belong to executor [A]. *)
Definition foreign (A : nat) (σ : State) (p : nat) : Prop :=
  ∀ C, cpu_timers σ !! p = Some C → ct_executor C ≠ A.

(** No CpuTimer is installed on [A], its CPU time is [v], and none of the
    paused CpuTimers of the list belongs to [A]. *)
Definition suspended (A : nat) (v : Z) (σ : State) (L : list nat) : Prop :=
  cpu_view (executors σ) A = Some (None, v) ∧ Forall (foreign A σ) L.

(** The actions that do not enter [A]. *)
Definition avoids (A : nat) (acts : list action) : bool :=
  forallb (λ a, bool_decide (enters a ≠ Some A)) acts.

(** ** Accumulated times *)

Section Timed.
Context `{Platform}.

(** The start time of every CpuTimer was read from the clock. *)
Definition timers_past (σ : State) : Prop :=
  ∀ c C k, cpu_timers σ !! c = Some C → (instant σ ≤ k)%nat →
    ct_time C ≤ cpu_clock k.

(** The wall timer installed on an executor has been constructed. *)
Definition walls_bounded (σ : State) : Prop :=
  ∀ e E w, executors σ !! e = Some E → wall_timer E = Some w →
    (w < next_object σ)%nat.

(** The WallTimers of a list have been constructed, and the start time of
    an installed one was read from the clock. *)
Definition walls_past (W : list WallTimer) (σ : State) : Prop :=
  Forall (λ w, (wt_this w < next_object σ)%nat ∧
               ∀ E k, executors σ !! wt_executor w = Some E →
                 wall_timer E = Some (wt_this w) → (instant σ ≤ k)%nat →
                 wt_time w ≤ steady_clock_now k) W.

Definition timed (W : list WallTimer) (σ : State) : Prop :=
  timers_past σ ∧ walls_bounded σ ∧ walls_past W σ.

End Timed.

(** No accumulated time of [σ] is larger than in [σ']. *)
Definition grows (σ σ' : State) : Prop :=
  ∀ e E, executors σ !! e = Some E →
    ∃ E', executors σ' !! e = Some E' ∧
          cpu_time E ≤ cpu_time E' ∧ wall_time E ≤ wall_time E'.

(** ** The mutex discipline of a run *)

(** From [σ] to [σ'] the trace grows by events that release every mutex
    they take and whose accesses without the mutex are those of [L], in
    this order. *)
Definition reads (σ σ' : State) (L : list event) : Prop :=
  ∃ evs, trace σ' = trace σ ++ evs ∧ held_after [] evs = [] ∧
         unguarded [] evs = L.

(** The accesses that the declaration of a scoped object makes without the
    mutex: a WallTimer, on its own or as the member of a Lock, tests
    [wall_timer] before it locks, and Unlock takes the pointer it pauses
    from [cpu_timer]. *)
Definition ctor_reads (k : kind) : list event :=
  match k with
  | KWallTimer e | KLock e => [EvRead e f_wall_timer]
  | KUnlock e => [EvRead e f_cpu_timer]
  | KScope _ | KCpuTimer _ => []
  end.

(** The accesses that the end of its block makes without the mutex: the
    destructor of a WallTimer tests [wall_timer] before it locks. *)
Definition dtor_reads (k : kind) : list event :=
  match k with
  | KWallTimer e | KLock e => [EvRead e f_wall_timer]
  | KScope _ | KCpuTimer _ | KUnlock _ => []
  end.

(** A live object is of the kind it was declared as, and its WallTimer is
    on the executor it was declared on. *)
Definition declared_as (k : kind) (f : frame) : Prop :=
  match k, f with
  | KScope _, FScope _ => True
  | KCpuTimer _, FCpuTimer _ => True
  | KWallTimer e, FWallTimer w => wt_executor w = e
  | KLock e, FLock l => wt_executor (lk_wall_timer l) = e
  | KUnlock _, FUnlock _ => True
  | _, _ => False
  end.

(** The accesses that a run makes without the mutex, from the kinds of the
    objects that are open when it starts, innermost first. *)
Fixpoint unlocked_reads (open : list kind) (acts : list action) : list event :=
  match acts with
  | [] => []
  | Enter k :: rest => ctor_reads k ++ unlocked_reads (k :: open) rest
  | Exit :: rest =>
    match open with
    | k :: open' => dtor_reads k ++ unlocked_reads open' rest
    | [] => []
    end
  | New _ :: rest => unlocked_reads open rest
  end.

(** No event of a kind occurs in a list. *)
Definition quiet (P : event → bool) (evs : list event) : Prop :=
  Forall (λ ev, P ev = false) evs.

(** ** The configurations of scoped usage *)

(** A pointer to an executor is null or points to a constructed one. *)
Definition valid (σ : State) (p : option nat) : Prop :=
  ∀ d, p = Some d → is_Some (executors σ !! d).

(** The live objects are those that the usage has opened, and each Lock has
    paused the CpuTimer of the Lock around it. *)
Fixpoint linked (σ : State) (open : list kind) (fs : list frame) : Prop :=
  match open, fs with
  | [], [] => True
  | KScope e :: o, FScope s :: fs' => valid σ (sc_last s) ∧ linked σ o fs'
  | KLock e :: o, FLock l :: fs' =>
    lk_locker l = e ∧ may_lock o = true ∧
    wt_executor (lk_wall_timer l) = e ∧
    wt_cpu_timer (lk_wall_timer l) = lock_head fs' ∧
    (lk_cpu_timer l < next_object σ)%nat ∧
    (∃ C, cpu_timers σ !! lk_cpu_timer l = Some C ∧ ct_executor C = e ∧
          ct_last C = lock_head fs') ∧
    is_Some (executors σ !! e) ∧
    valid σ (sc_last (lk_scope l)) ∧
    linked σ o fs'
  | KUnlock e :: o, FUnlock u :: fs' =>
    ul_unlocker u = e ∧ ul_pause_scope u = lock_head fs' ∧
    innermost o = Some (KLock e) ∧ linked σ o fs'
  | _, _ => False
  end.

(** The CpuTimer of the innermost Lock is installed on its executor, unless
    an Unlock has paused it, and no other CpuTimer is installed anywhere. *)
Definition charging (σ : State) (open : list kind) (fs : list frame) : Prop :=
  ∀ e E, executors σ !! e = Some E →
    cpu_timer E = match innermost open with
                  | Some (KLock e') =>
                    if bool_decide (e = e') then lock_head fs else None
                  | _ => None
                  end.

Definition usage_state (known : list nat) (open : list kind)
    (fs : list frame) (σ : State) : Prop :=
  (∀ e, e ∈ known ↔ is_Some (executors σ !! e)) ∧
  valid σ (current_executor σ) ∧
  cpu_timer_thread σ = lock_head fs ∧
  linked σ open fs ∧
  charging σ open fs.

(** The executors that exist are the same. *)
Definition same_executors (σ σ' : State) : Prop :=
  ∀ e, is_Some (executors σ' !! e) ↔ is_Some (executors σ !! e).

(** The CpuTimer installed on each executor that exists. *)
Definition charged (σ : State) (X : nat → option nat) : Prop :=
  ∀ e E, executors σ !! e = Some E → cpu_timer E = X e.

(** ** Installed timers and live objects *)

(** The thread has no current CpuTimer and no executor has a timer
    installed. *)
Definition clean (σ : State) : Prop :=
  cpu_timer_thread σ = None ∧
  ∀ e E, executors σ !! e = Some E → cpu_timer E = None ∧ wall_timer E = None.

(** A CpuTimer installed on an executor is one of the list and attributes to
    that executor. *)
Definition cpu_installed (O : list nat) (σ : State) : Prop :=
  ∀ e E c, executors σ !! e = Some E → cpu_timer E = Some c →
    c ∈ O ∧ ∃ C, cpu_timers σ !! c = Some C ∧ ct_executor C = e.

(** A WallTimer installed on an executor is one of the list and was
    constructed on that executor. *)
Definition wall_installed (W : list WallTimer) (σ : State) : Prop :=
  ∀ e E w, executors σ !! e = Some E → wall_timer E = Some w →
    ∃ x, x ∈ W ∧ wt_this x = w ∧ wt_executor x = e.

(** Every timer that an executor points to belongs to a live object. *)
Definition installed_live (fs : list frame) (σ : State) : Prop :=
  cpu_installed (owned fs) σ ∧ wall_installed (walls fs) σ.

(** The [last] link of each CpuTimer of the list is the next one. *)
Fixpoint stacked (ts : gmap nat CpuTimer) (L : list nat) : Prop :=
  match L with
  | [] => True
  | c :: L' => (∃ C, ts !! c = Some C ∧ ct_last C = head L') ∧ stacked ts L'
  end.

(** The CpuTimer that a live object has paused is owned by an object that
    was declared before it. *)
Fixpoint captured_below (fs : list frame) : Prop :=
  match fs with
  | [] => True
  | f :: fs' =>
    (∀ c, frame_captured f = Some c → c ∈ owned fs') ∧ captured_below fs'
  end.

Definition nest (O : list nat) (W : list WallTimer) (σ : State) : Prop :=
  cpu_installed O σ ∧ wall_installed W σ ∧ cpu_timer_thread σ = head O ∧
  timers_live σ O ∧ stacked (cpu_timers σ) O.

(** ** Calls on the quota timer *)

(** The quota timer that is paused and resumed together with CpuTimer [c]:
    the [timer_holder] of the environment of its executor. *)
Definition holder_of (σ : State) (c : nat) : option nat :=
  C ← cpu_timers σ !! c; E ← executors σ !! ct_executor C; Some (env E).

(** How many of the CpuTimers of a list pause the quota timer of [e]. *)
Definition holders (σ : State) (e : nat) (L : list nat) : nat :=
  length (filter (λ c, holder_of σ c = Some e) L).

(** The pauses of the quota timer of [e] that the live objects have made
    and not undone yet. *)
Definition pending (σ : State) (e : nat) (fs : list frame) : nat :=
  holders σ e (captured fs).

(** Every CpuTimer object has an identity that was handed out. *)
Definition allocated (σ : State) : Prop :=
  ∀ c, is_Some (cpu_timers σ !! c) → (c < next_object σ)%nat.

(** A step that makes no call on any quota timer. *)
Definition calm (σ σ' : State) : Prop :=
  extends σ σ' ∧ (allocated σ → allocated σ') ∧
  ∃ evs, trace σ' = trace σ ++ evs ∧ ∀ e, holder_calls e evs = [].

Definition balanced (e : nat) (base : Z) (L : list nat) (σ : State) : Prop :=
  allocated σ ∧ Forall (λ c, is_Some (holder_of σ c)) L ∧
  pause_depth e (trace σ) = base + Z.of_nat (holders σ e L).

(** ** Critical sections *)

(** The events of a trace that are out of place, from the mutexes held
    before it: a [timer_mutex] taken while one is held already, a call on a
    quota timer made while none is held, and an acquisition of the isolate
    locker, by a Locker or at the end of an Unlocker, made while one is
    held. *)
Fixpoint out_of_place (held : list nat) (tr : list event) : list event :=
  match tr with
  | [] => []
  | EvAcquire e :: tr' =>
    (if bool_decide (held = []) then [] else [EvAcquire e]) ++
    out_of_place (e :: held) tr'
  | EvRelease e :: tr' => out_of_place (release e held) tr'
  | EvHolderPause e :: tr' =>
    (if bool_decide (held = []) then [EvHolderPause e] else []) ++
    out_of_place held tr'
  | EvHolderResume e :: tr' =>
    (if bool_decide (held = []) then [EvHolderResume e] else []) ++
    out_of_place held tr'
  | EvLocker e :: tr' =>
    (if bool_decide (held = []) then [] else [EvLocker e]) ++
    out_of_place held tr'
  | EvUnlockerExit e :: tr' =>
    (if bool_decide (held = []) then [] else [EvUnlockerExit e]) ++
    out_of_place held tr'
  | _ :: tr' => out_of_place held tr'
  end.

(** The blocks of events that the operations append to the trace. *)
Inductive block : list event → Prop :=
| block_start c e : block (start_events c e)
| block_stop c e : block (stop_events c e)
| block_pause c e x : block (pause_events c e x)
| block_resume c e x : block (resume_events c e x)
| block_wall_enter e : block (wall_enter_events e)
| block_wall_leave e : block (wall_leave_events e)
| block_wall_skip e : block (wall_skip_events e)
| block_locker e : block [EvLocker e]
| block_scopes e : block [EvIsolateScope e; EvHandleScope e]
| block_scopes_exit e : block [EvHandleScopeExit e; EvIsolateScopeExit e]
| block_locker_exit e : block [EvLockerExit e]
| block_pointer e : block [EvRead e f_cpu_timer]
| block_unlocker e : block [EvUnlocker e]
| block_unlocker_exit e : block [EvUnlockerExit e].

(** From [σ] to [σ'] the trace grows by a sequence of blocks. *)
Definition blockwise (σ σ' : State) : Prop :=
  ∃ bs, Forall block bs ∧ trace σ' = trace σ ++ concat bs.

(** ** Usage without a CpuTimer of its own *)

(** A CpuTimer declared on its own, and not as a member of a Lock. *)
Definition bare_timer (a : action) : bool :=
  match a with
  | Enter (KCpuTimer _) => true
  | _ => false
  end.

(** ** The charge of one executor *)

(** The accumulated times of executor [e], zero before it is constructed. *)
Definition charged_cpu (σ : State) (e : nat) : Z :=
  default 0 (cpu_time <$> executors σ !! e).

Definition charged_wall (σ : State) (e : nat) : Z :=
  default 0 (wall_time <$> executors σ !! e).

(** The WallTimers of a list have identities that were handed out. *)
Definition walls_fresh (W : list WallTimer) (σ : State) : Prop :=
  Forall (λ w, (wt_this w < next_object σ)%nat) W.

Section Bound.
Context `{Platform}.

(** The CPU time of [e], together with what the CpuTimer installed on [e]
    has yet to charge, is within [B] plus the reading of the clock. *)
Definition cpu_bound (e : nat) (B : Z) (σ : State) : Prop :=
  charged_cpu σ e ≤ B + cpu_clock (instant σ) ∧
  ∀ E c C, executors σ !! e = Some E → cpu_timer E = Some c →
    cpu_timers σ !! c = Some C → cpu_time E ≤ B + ct_time C.

(** The same for the wall time of [e] and the WallTimer installed on it. *)
Definition wall_bound (e : nat) (B : Z) (W : list WallTimer) (σ : State) : Prop :=
  charged_wall σ e ≤ B + steady_clock_now (instant σ) ∧
  ∀ E w, executors σ !! e = Some E → w ∈ W → wt_executor w = e →
    wall_timer E = Some (wt_this w) → wall_time E ≤ B + wt_time w.

Definition bounded (e : nat) (Bc Bw : Z) (O : list nat) (W : list WallTimer)
    (σ : State) : Prop :=
  nest O W σ ∧ walls_fresh W σ ∧ cpu_bound e Bc σ ∧ wall_bound e Bw W σ.

End Bound.

(** ** CPU time and wall time of one executor *)

(** Every CpuTimer of a stack of live objects is the timer of a Lock, on
    the executor of the WallTimer of that Lock. *)
Fixpoint paired (σ : State) (fs : list frame) : Prop :=
  match fs with
  | [] => True
  | FCpuTimer _ :: _ => False
  | FLock l :: fs' =>
    (∃ C, cpu_timers σ !! lk_cpu_timer l = Some C ∧
          ct_executor C = wt_executor (lk_wall_timer l)) ∧
    paired σ fs'
  | _ :: fs' => paired σ fs'
  end.

(** Every CpuTimer of the list is on the executor of a WallTimer of the
    list. *)
Definition covered (O : list nat) (W : list WallTimer) (σ : State) : Prop :=
  ∀ c C, c ∈ O → cpu_timers σ !! c = Some C →
    ∃ w, w ∈ W ∧ wt_executor w = ct_executor C.

Section Ratio.
Context `{Platform}.

(** The clock of the CpuTimers advances no faster than the steady clock. *)
Definition cpu_clock_slower : Prop :=
  ∀ i j : nat, (i ≤ j)%nat →
    cpu_clock j - cpu_clock i ≤ steady_clock_now j - steady_clock_now i.

(** What the CpuTimer installed on an executor has yet to charge. *)
Definition cpu_pending (σ : State) (E : Executor) : Z :=
  match cpu_timer E with
  | Some c => match cpu_timers σ !! c with
              | Some C => cpu_clock (instant σ) - ct_time C
              | None => 0
              end
  | None => 0
  end.

(** The CPU time of [e] exceeds its wall time by at most [B], the time that
    the installed timers have yet to charge counted in; and [e] has no
    CpuTimer installed while it has no WallTimer installed. *)
Definition ratio (e : nat) (B : Z) (W : list WallTimer) (σ : State) : Prop :=
  (executors σ !! e = None → 0 ≤ B) ∧
  ∀ E, executors σ !! e = Some E →
    (wall_timer E = None → cpu_timer E = None ∧ cpu_time E - wall_time E ≤ B) ∧
    (∀ w, w ∈ W → wt_executor w = e → wall_timer E = Some (wt_this w) →
       cpu_time E + cpu_pending σ E -
         (wall_time E + (steady_clock_now (instant σ) - wt_time w)) ≤ B).

End Ratio.

(** ** The other threads of the process *)

(** CpuTimer [c] is the one installed on its executor. *)
Definition installed (σ : State) (c : nat) : bool :=
  match cpu_timers σ !! c with
  | Some C =>
    match executors σ !! ct_executor C with
    | Some E => bool_decide (cpu_timer E = Some c)
    | None => false
    end
  | None => false
  end.

(** What the other threads may have done between two operations of the
    thread that is followed, when the live objects of this thread own the
    CpuTimers [O] and the executors [R] are entered by this thread only.
    [current_executor] and [cpu_timer_thread] are thread-local and keep
    their values. Objects were constructed, each with an identity of its
    own, and the clocks were read. A CpuTimer keeps the executor it was
    constructed on, which is a reference member.

    Two things are assumed of the other threads. They enter no executor
    of [R]: these executors are as they were. And they operate on
    CpuTimers of their own, never on one of [O], with the assertions of
    these operations holding: the members of the CpuTimers of [O] are then
    as they were, and so is whether each is installed, since the
    constructor and Resume of another CpuTimer find [executor.cpu_timer]
    null and set it to that timer, and its destructor and Pause find it
    pointing to that timer and clear it. *)
Definition others (R O : list nat) (σ σ' : State) : Prop :=
  current_executor σ' = current_executor σ ∧
  cpu_timer_thread σ' = cpu_timer_thread σ ∧
  (next_object σ ≤ next_object σ')%nat ∧
  (instant σ ≤ instant σ')%nat ∧
  (allocated σ → allocated σ') ∧
  (∀ c C, cpu_timers σ !! c = Some C →
     ∃ C', cpu_timers σ' !! c = Some C' ∧ ct_executor C' = ct_executor C) ∧
  (∀ c, c ∈ O →
     cpu_timers σ' !! c = cpu_timers σ !! c ∧ installed σ' c = installed σ c) ∧
  (∀ e, e ∈ R → executors σ' !! e = executors σ !! e).

(** The CpuTimer that a live object has paused is, when the thread owns it,
    the innermost of the CpuTimers declared before that object. *)
Fixpoint captured_top (fs : list frame) : Prop :=
  match fs with
  | [] => True
  | f :: fs' =>
    (∀ c, frame_captured f = Some c → c ∈ owned fs' →
       head (owned fs') = Some c) ∧
    captured_top fs'
  end.

(** The CpuTimers [O] of the thread, innermost first: the thread's current
    timer is the innermost, they are linked by [last], and none but the
    current one is installed. *)
Definition own (O : list nat) (σ : State) : Prop :=
  cpu_timer_thread σ = head O ∧ timers_live σ O ∧
  stacked (cpu_timers σ) O ∧
  ∀ c, c ∈ O → installed σ c = true → cpu_timer_thread σ = Some c.

(** No CpuTimer of a list is installed. *)
Definition all_paused (O : list nat) (σ : State) : Prop :=
  ∀ c, c ∈ O → installed σ c = false.

(** The CpuTimers of a list are installed in [σ'] only if they are in
    [σ]. *)
Definition fewer (O : list nat) (σ σ' : State) : Prop :=
  ∀ c, c ∈ O → installed σ' c = true → installed σ c = true.

(** The WallTimer installed on [e], none when [e] is not constructed. *)
Definition installed_wall (σ : State) (e : nat) : option nat :=
  executors σ !! e ≫= wall_timer.

(** The WallTimers of a list that were constructed on [e]. *)
Definition walls_on (e : nat) (W : list WallTimer) : list WallTimer :=
  filter (λ w, wt_executor w = e) W.

(** The WallTimer installed on [e] is the outermost of the WallTimers of the
    list (innermost first) that were constructed on [e], and none is
    installed when there is none. *)
Definition outermost (e : nat) (W : list WallTimer) (σ : State) : Prop :=
  walls_fresh W σ ∧ NoDup (wt_this <$> W) ∧
  installed_wall σ e = wt_this <$> last (walls_on e W).

(** The CpuTimer installed on an executor of [R] is one of the list, and
    it is on that executor. *)
Definition mine (R O : list nat) (σ : State) : Prop :=
  ∀ e E c, e ∈ R → executors σ !! e = Some E → cpu_timer E = Some c →
    c ∈ O ∧ ∃ C, cpu_timers σ !! c = Some C ∧ ct_executor C = e.

(** The CpuTimer that a live object has paused is one of the CpuTimers
    declared before that object, or it is on an executor that is not of
    [R]. *)
Fixpoint captured_mine (R : list nat) (σ : State) (fs : list frame) : Prop :=
  match fs with
  | [] => True
  | f :: fs' =>
    (∀ c, frame_captured f = Some c →
       c ∈ owned fs' ∨
       ∃ C, cpu_timers σ !! c = Some C ∧ ct_executor C ∉ R) ∧
    captured_mine R σ fs'
  end.

(** What the thread knows of the executors [R] that it enters alone. *)
Definition alone (R : list nat) (fs : list frame) (σ : State) : Prop :=
  allocated σ ∧ own (owned fs) σ ∧ captured_top fs ∧
  mine R (owned fs) σ ∧ captured_mine R σ fs.

Section Threads.
Context `{Platform}.

(** A run of the thread in which the other threads act between its
    operations. *)
Inductive concurrent (R : list nat) :
    list action → list frame → State → list frame → State → Prop :=
| concurrent_done fs σ : concurrent R [] fs σ fs σ
| concurrent_step a acts fs σ fs1 σ1 fs' σ' :
    step a fs σ = Ok (fs1, σ1) →
    concurrent R acts fs1 σ1 fs' σ' →
    concurrent R (a :: acts) fs σ fs' σ'
| concurrent_others acts fs σ σ1 fs' σ' :
    others R (owned fs) σ σ1 →
    concurrent R acts fs σ1 fs' σ' →
    concurrent R acts fs σ fs' σ'.

End Threads.

(** The CPU time accumulated by the executors of a list together. *)
Definition total_on (R : list nat) (σ : State) : Z :=
  foldr Z.add 0 (charged_cpu σ <$> R).

Section Share.
Context `{Platform}.

(** What the thread knows of one executor [e] that it enters alone: the
    CpuTimer installed on it is the thread's, the WallTimer installed on
    it is the outermost of the thread's, and its CPU time exceeds its wall
    time by at most [B]. *)
Definition rated (e : nat) (B : Z) (O : list nat) (W : list WallTimer)
    (σ : State) : Prop :=
  timers_live σ O ∧ mine [e] O σ ∧ outermost e W σ ∧ ratio e B W σ.

(** The total charge of the executors of [R], together with what the
    thread's current CpuTimer has yet to charge while it is installed, is
    within [B] plus the reading of the clock. *)
Definition budget (R : list nat) (B : Z) (σ : State) : Prop :=
  total_on R σ ≤ B + cpu_clock (instant σ) ∧
  ∀ c C, cpu_timer_thread σ = Some c → cpu_timers σ !! c = Some C →
    installed σ c = true → total_on R σ ≤ B + ct_time C.

End Share.

(** ** Example runs *)

(** The state of a thread that has not entered anything yet. *)
Definition initial : State := mkState ∅ ∅ None None 0 0 [].

(** A platform to run examples on: a per-thread CPU clock that advances by
    7 ns and a steady clock that advances by 10 ns between two readings. *)
Definition demo : Platform := {|
  USE_CLOCK_THREAD_CPUTIME_ID := true;
  clock_thread_cputime := λ k, 50 + 7 * Z.of_nat k;
  steady_clock_now := λ k, 1000 + 10 * Z.of_nat k;
  this_thread_get_id := 1
|}.

Definition demo_run (acts : list action) : result (list frame * State) :=
  @exec demo acts [] initial.

Definition final {A} (r : result (A * State)) : State :=
  match r with
  | Ok (_, σ) => σ
  | Abort _ => initial
  end.

Definition live (r : result (list frame * State)) : list frame :=
  match r with
  | Ok (fs, _) => fs
  | Abort _ => []
  end.

(** Two isolates 5 and 6 made by one thread. *)
Definition two_isolates : State := final (demo_run [New 5; New 6]).

(** ... and the thread inside Lock(5). *)
Definition inside_five : State :=
  final (demo_run [New 5; New 6; Enter (KLock 5)]).

(** Lock(5), and Lock(5) again inside it. *)
Definition nested_same : list action :=
  [New 5; Enter (KLock 5); Enter (KLock 5)].

(** Lock(5); inside it Unlock(5); inside it Lock(6). *)
Definition lock_in_unlock : list action :=
  [New 5; New 6; Enter (KLock 5); Enter (KUnlock 5); Enter (KLock 6)].

(** Lock(5); inside it Scope(6) and Lock(6); then an Unlock(5) window. *)
Definition callbacks : list action :=
  [Enter (KLock 5); Enter (KScope 6); Enter (KLock 6); Exit; Exit;
   Enter (KUnlock 5); Exit; Exit].

(** The state the callbacks example leaves, and the one it leaves when it
    is run a second time from there. *)
Definition served : State := final (demo_run (New 5 :: New 6 :: callbacks)).

Definition served_again : State := final (@exec demo callbacks [] served).

Definition no_wall_timer : WallTimer := mkWallTimer 0 0 None 0.

Definition no_lock : Lock := mkLock (mkScope None) no_wall_timer 0 0.

(** Lock(6) constructed inside Lock(5). *)
Definition lock_six : Lock :=
  match @Lock_ctor demo 6 inside_five with
  | Ok (l, _) => l
  | Abort _ => no_lock
  end.

Definition inside_six : State := final (@Lock_ctor demo 6 inside_five).

(** A second WallTimer on isolate 5 inside Lock(5). *)
Definition inner_wall : WallTimer :=
  match @WallTimer_ctor demo 5 inside_five with
  | Ok (w, _) => w
  | Abort _ => no_wall_timer
  end.

Definition inside_inner_wall : State := final (@WallTimer_ctor demo 5 inside_five).
(** ** More example data *)

(** Two isolates, and then Lock(5). *)
Definition enter_five : list action := [New 5; New 6; Enter (KLock 5)].

(** Executor 5 and its CpuTimer (object 1) inside Lock(5). *)
Definition executor_five : Executor :=
  default (Executor_init 0 0 0) (executors inside_five !! 5%nat).

Definition timer_one : CpuTimer :=
  default (mkCpuTimer 0 None 0) (cpu_timers inside_five !! 1%nat).

(** The WallTimer of Lock(5) (object 0). *)
Definition wall_zero : WallTimer :=
  match live (demo_run enter_five) with
  | FLock l :: _ => lk_wall_timer l
  | _ => no_wall_timer
  end.

(** Inside Lock(5), after its CpuTimer is paused. *)
Definition paused_five : State := final (@CpuTimer_Pause demo 1 inside_five).

(** The whole run of the callbacks example. *)
Definition full_run : list action := New 5 :: New 6 :: callbacks.

(** An operation that another thread performs: it runs with the
    thread-local slots of that thread, which has entered nothing, and the
    slots and the trace of the thread that is followed are as they were. *)
Definition elsewhere {A} (m : M A) (σ : State) : State :=
  match m (mkState (executors σ) (cpu_timers σ) None None (next_object σ)
                   (instant σ) []) with
  | Ok (_, σ1) =>
    mkState (executors σ1) (cpu_timers σ1) (current_executor σ)
            (cpu_timer_thread σ) (next_object σ1) (instant σ1) (trace σ)
  | Abort _ => σ
  end.

(** Inside Lock(5), after another thread has entered Lock(6). *)
Definition met_six : State := elsewhere (@Lock_ctor demo 6) inside_five.

(** ... and after Lock(5) is left. *)
Definition left_five : State :=
  final (@exec demo [Exit] (live (demo_run enter_five)) met_six).

(** Lock(5) nested in Lock(5), with isolate 6 for another thread. *)
Definition nested_five : list action :=
  [New 5; New 6; Enter (KLock 5); Enter (KLock 5)].

(** Inside the inner Lock(5), after another thread has entered Lock(6). *)
Definition met_nested : State :=
  elsewhere (@Lock_ctor demo 6) (final (demo_run nested_five)).


(** * Proofs *)

Lemma bind_Ok {A B} (m : M A) (f : A → M B) σ b σ' :
  (m ≫= f) σ = Ok (b, σ') ↔ ∃ a σ1, m σ = Ok (a, σ1) ∧ f a σ1 = Ok (b, σ').
Proof.
  unfold mbind, M_bind. split.
  - destruct (m σ) as [[a σ1]|x]; [eauto|discriminate].
  - intros (a & σ1 & -> & Hf). exact Hf.
Qed.

Ltac unfold_M :=
  unfold lock_guard, add_cpu_time, add_wall_time, read_cpu_timer,
    write_cpu_timer, read_wall_timer, write_wall_timer, CpuTimer_Now,
    read_clock, emit, deref_executor, deref_timer, store_executor,
    store_timer, assert, abort, new_object, get_cpu_timer_thread,
    set_cpu_timer_thread, get_current_executor, set_current_executor,
    lookup_executor, when_set, mbind, M_bind, mret, M_ret in *.

Ltac norm_state :=
  cbn [executors cpu_timers current_executor cpu_timer_thread next_object
       instant trace env default_executor default_thread cpu_timer wall_timer
       cpu_time wall_time ct_executor ct_last ct_time] in *.

(* run the monadic code of the goal on a state where the executor and
   timer lookups are known *)
Ltac run_M :=
  unfold_M;
  repeat (norm_state;
          repeat match goal with
                 | HE : ?m !! ?k = _ |- context [?m !! ?k] => rewrite HE
                 end;
          rewrite ?lookup_insert_eq, ?insert_insert_eq).

Section Equations.
Context `{Platform}.

Lemma CpuTimer_ctor_eq e σ :
  CpuTimer_ctor e σ =
  match executors σ !! e with
  | None => Abort BadPointer
  | Some E => if bool_decide (cpu_timer E = None)
              then Ok (next_object σ, started e E σ)
              else Abort AssertInstall
  end.
Proof.
  unfold CpuTimer_ctor.
  destruct (executors σ !! e) as [E|] eqn:HE; run_M; [|reflexivity].
  case_bool_decide; run_M; [|reflexivity].
  unfold started, start_events, install, cpu_clock. rewrite <- !app_assoc. reflexivity.
Qed.

Lemma CpuTimer_dtor_eq c σ :
  CpuTimer_dtor c σ =
  match cpu_timers σ !! c with
  | None => Abort BadPointer
  | Some C =>
    match executors σ !! ct_executor C with
    | None => Abort BadPointer
    | Some E => if bool_decide (cpu_timer E = Some c)
                then Ok ((), stopped c C E σ)
                else Abort AssertClear
    end
  end.
Proof.
  unfold CpuTimer_dtor.
  destruct (cpu_timers σ !! c) as [C|] eqn:HC; run_M; [|reflexivity].
  destruct (executors σ !! ct_executor C) as [E|] eqn:HE; run_M; [|reflexivity].
  case_bool_decide; run_M; [|reflexivity].
  unfold stopped, stop_events, flush, cpu_clock. rewrite <- !app_assoc. reflexivity.
Qed.

Lemma CpuTimer_Pause_eq c σ :
  CpuTimer_Pause c σ =
  match cpu_timers σ !! c with
  | None => Abort BadPointer
  | Some C =>
    match executors σ !! ct_executor C with
    | None => Abort BadPointer
    | Some E => if bool_decide (cpu_timer E = Some c)
                then Ok ((), paused c C E σ)
                else Abort AssertPause
    end
  end.
Proof.
  unfold CpuTimer_Pause.
  destruct (cpu_timers σ !! c) as [C|] eqn:HC; run_M; [|reflexivity].
  destruct (executors σ !! ct_executor C) as [E|] eqn:HE; run_M; [|reflexivity].
  case_bool_decide; run_M; [|reflexivity].
  unfold paused, pause_events, flush, cpu_clock. rewrite <- !app_assoc. reflexivity.
Qed.

Lemma CpuTimer_Resume_eq c σ :
  CpuTimer_Resume c σ =
  match cpu_timers σ !! c with
  | None => Abort BadPointer
  | Some C =>
    match executors σ !! ct_executor C with
    | None => Abort BadPointer
    | Some E => if bool_decide (cpu_timer E = None)
                then Ok ((), resumed c C E σ)
                else Abort AssertResume
    end
  end.
Proof.
  unfold CpuTimer_Resume.
  destruct (cpu_timers σ !! c) as [C|] eqn:HC; run_M; [|reflexivity].
  destruct (executors σ !! ct_executor C) as [E|] eqn:HE; run_M; [|reflexivity].
  case_bool_decide; run_M; [|reflexivity].
  unfold resumed, resume_events, install, cpu_clock. rewrite <- !app_assoc. reflexivity.
Qed.

Lemma WallTimer_ctor_eq e σ :
  WallTimer_ctor e σ =
  match when_set (cpu_timer_thread σ) CpuTimer_Pause (alloc σ) with
  | Abort x => Abort x
  | Ok (_, σ1) =>
    match executors σ1 !! e with
    | None => Abort BadPointer
    | Some E => Ok (wall_object (next_object σ) e (cpu_timer_thread σ) E σ1,
                    wall_entered (next_object σ) e E σ1)
    end
  end.
Proof.
  unfold WallTimer_ctor.
  unfold mbind at 1 2 3, M_bind, new_object, get_cpu_timer_thread. norm_state.
  fold (alloc σ).
  destruct (when_set _ _ (alloc σ)) as [[[] σ1]|x]; [|reflexivity].
  destruct (executors σ1 !! e) as [E|] eqn:HE; run_M; [|reflexivity].
  unfold wall_object, wall_entered, wall_enter_events, wall_skip_events, set_wall_timer.
  case_bool_decide; run_M; rewrite <- ?app_assoc; reflexivity.
Qed.

Lemma WallTimer_dtor_eq w σ :
  WallTimer_dtor w σ =
  match when_set (wt_cpu_timer w) CpuTimer_Resume σ with
  | Abort x => Abort x
  | Ok (_, σ1) =>
    match executors σ1 !! wt_executor w with
    | None => Abort BadPointer
    | Some E => Ok ((), wall_left w E σ1)
    end
  end.
Proof.
  unfold WallTimer_dtor.
  unfold mbind at 1 2, M_bind.
  destruct (when_set _ _ σ) as [[[] σ1]|x]; [|reflexivity].
  destruct (executors σ1 !! wt_executor w) as [E|] eqn:HE; run_M; [|reflexivity].
  unfold wall_left, wall_leave_events, wall_skip_events, set_wall_timer, add_wall.
  case_bool_decide; run_M; rewrite <- ?app_assoc; reflexivity.
Qed.

Lemma Executor_ctor_eq this σ :
  Executor_ctor this σ =
  match executors σ !! this with
  | Some _ => Abort Misuse
  | None =>
    match current_executor σ with
    | None => Ok ((), born this this this_thread_get_id (Some this) σ)
    | Some d =>
      if bool_decide (d = this)
      then Ok ((), born this d this_thread_get_id (Some d) σ)
      else match executors σ !! d with
           | None => Abort BadPointer
           | Some D => Ok ((), born this d (default_thread D) (Some d) σ)
           end
    end
  end.
Proof.
  unfold Executor_ctor. unfold_M.
  destruct (executors σ !! this) as [E|] eqn:HE; simpl; [reflexivity|].
  destruct (current_executor σ) as [d|] eqn:Hc; simpl.
  - unfold born. rewrite <- Hc.
    destruct (bool_decide (d = this)); simpl; [reflexivity|].
    destruct (executors σ !! d) as [D|] eqn:HD; reflexivity.
  - rewrite bool_decide_eq_true_2 by reflexivity. reflexivity.
Qed.
End Equations.

Section Composite.
Context `{Platform}.

Lemma when_set_Ok p f σ σ' :
  when_set p f σ = Ok ((), σ') ↔
  (p = None ∧ σ' = σ) ∨ (∃ c, p = Some c ∧ f c σ = Ok ((), σ')).
Proof.
  destruct p as [c|]; simpl; split.
  - eauto.
  - intros [[? _]|(c' & [= <-] & ?)]; [discriminate|done].
  - intros [= <-]. eauto.
  - intros [[_ ->]|(c' & ? & _)]; [reflexivity|discriminate].
Qed.

Lemma CpuTimer_ctor_Ok e σ c σ' :
  CpuTimer_ctor e σ = Ok (c, σ') ↔
  ∃ E, executors σ !! e = Some E ∧ cpu_timer E = None ∧
       c = next_object σ ∧ σ' = started e E σ.
Proof.
  rewrite CpuTimer_ctor_eq. split.
  - destruct (executors σ !! e) as [E|]; [|discriminate].
    case_bool_decide; [|discriminate]. intros [= <- <-]. eauto.
  - intros (E & -> & HE & -> & ->). rewrite bool_decide_eq_true_2; done.
Qed.

Lemma CpuTimer_dtor_Ok c σ σ' :
  CpuTimer_dtor c σ = Ok ((), σ') ↔
  ∃ C E, cpu_timers σ !! c = Some C ∧ executors σ !! ct_executor C = Some E ∧
         cpu_timer E = Some c ∧ σ' = stopped c C E σ.
Proof.
  rewrite CpuTimer_dtor_eq. split.
  - destruct (cpu_timers σ !! c) as [C|]; [|discriminate].
    destruct (executors σ !! ct_executor C) as [E|] eqn:HE; [|discriminate].
    case_bool_decide; [|discriminate]. intros [= <-]. eauto 6.
  - intros (C & E & -> & -> & HE & ->). rewrite bool_decide_eq_true_2; done.
Qed.

Lemma CpuTimer_Pause_Ok c σ σ' :
  CpuTimer_Pause c σ = Ok ((), σ') ↔
  ∃ C E, cpu_timers σ !! c = Some C ∧ executors σ !! ct_executor C = Some E ∧
         cpu_timer E = Some c ∧ σ' = paused c C E σ.
Proof.
  rewrite CpuTimer_Pause_eq. split.
  - destruct (cpu_timers σ !! c) as [C|]; [|discriminate].
    destruct (executors σ !! ct_executor C) as [E|] eqn:HE; [|discriminate].
    case_bool_decide; [|discriminate]. intros [= <-]. eauto 6.
  - intros (C & E & -> & -> & HE & ->). rewrite bool_decide_eq_true_2; done.
Qed.

Lemma CpuTimer_Resume_Ok c σ σ' :
  CpuTimer_Resume c σ = Ok ((), σ') ↔
  ∃ C E, cpu_timers σ !! c = Some C ∧ executors σ !! ct_executor C = Some E ∧
         cpu_timer E = None ∧ σ' = resumed c C E σ.
Proof.
  rewrite CpuTimer_Resume_eq. split.
  - destruct (cpu_timers σ !! c) as [C|]; [|discriminate].
    destruct (executors σ !! ct_executor C) as [E|] eqn:HE; [|discriminate].
    case_bool_decide; [|discriminate]. intros [= <-]. eauto 6.
  - intros (C & E & -> & -> & HE & ->). rewrite bool_decide_eq_true_2; done.
Qed.

Lemma WallTimer_ctor_Ok e σ w σ' :
  WallTimer_ctor e σ = Ok (w, σ') ↔
  ∃ σ1 E, when_set (cpu_timer_thread σ) CpuTimer_Pause (alloc σ) = Ok ((), σ1) ∧
          executors σ1 !! e = Some E ∧
          w = wall_object (next_object σ) e (cpu_timer_thread σ) E σ1 ∧
          σ' = wall_entered (next_object σ) e E σ1.
Proof.
  rewrite WallTimer_ctor_eq. split.
  - destruct (when_set _ _ _) as [[[] σ1]|] eqn:Hp; [|discriminate].
    destruct (executors σ1 !! e) as [E|] eqn:HE; [|discriminate].
    intros [= <- <-]. by exists σ1, E.
  - intros (σ1 & E & -> & -> & -> & ->). done.
Qed.

Lemma WallTimer_dtor_Ok w σ σ' :
  WallTimer_dtor w σ = Ok ((), σ') ↔
  ∃ σ1 E, when_set (wt_cpu_timer w) CpuTimer_Resume σ = Ok ((), σ1) ∧
          executors σ1 !! wt_executor w = Some E ∧ σ' = wall_left w E σ1.
Proof.
  rewrite WallTimer_dtor_eq. split.
  - destruct (when_set _ _ _) as [[[] σ1]|] eqn:Hp; [|discriminate].
    destruct (executors σ1 !! wt_executor w) as [E|] eqn:HE; [|discriminate].
    intros [= <-]. by exists σ1, E.
  - intros (σ1 & E & -> & -> & ->). done.
Qed.

Lemma Scope_ctor_eq e σ :
  Scope_ctor e σ = Ok (mkScope (current_executor σ), rebind (Some e) σ).
Proof. reflexivity. Qed.

Lemma Scope_dtor_eq s σ : Scope_dtor s σ = Ok ((), rebind (sc_last s) σ).
Proof. reflexivity. Qed.

Lemma emit_eq ev σ : emit ev σ = Ok ((), logged [ev] σ).
Proof. reflexivity. Qed.

Lemma logged_logged a b σ : logged b (logged a σ) = logged (a ++ b) σ.
Proof. unfold logged. simpl. by rewrite app_assoc. Qed.

Lemma Lock_ctor_eq e σ :
  Lock_ctor e σ =
  match WallTimer_ctor e (rebind (Some e) σ) with
  | Abort x => Abort x
  | Ok (w, σ1) =>
    match CpuTimer_ctor e (logged [EvLocker e] σ1) with
    | Abort x => Abort x
    | Ok (c, σ2) =>
      Ok (mkLock (mkScope (current_executor σ)) w e c,
          logged [EvIsolateScope e; EvHandleScope e] σ2)
    end
  end.
Proof.
  unfold Lock_ctor. unfold mbind, M_bind. rewrite Scope_ctor_eq.
  destruct (WallTimer_ctor e _) as [[w σ1]|]; [|reflexivity].
  rewrite emit_eq.
  destruct (CpuTimer_ctor e _) as [[c σ2]|]; [|reflexivity].
  rewrite !emit_eq. unfold mret, M_ret. by rewrite logged_logged.
Qed.

Lemma Lock_dtor_eq l σ :
  Lock_dtor l σ =
  match CpuTimer_dtor (lk_cpu_timer l)
          (logged [EvHandleScopeExit (lk_locker l);
                   EvIsolateScopeExit (lk_locker l)] σ) with
  | Abort x => Abort x
  | Ok (_, σ1) =>
    match WallTimer_dtor (lk_wall_timer l)
            (logged [EvLockerExit (lk_locker l)] σ1) with
    | Abort x => Abort x
    | Ok (_, σ2) => Ok ((), rebind (sc_last (lk_scope l)) σ2)
    end
  end.
Proof.
  unfold Lock_dtor. unfold mbind, M_bind. rewrite !emit_eq, logged_logged.
  simpl app.
  destruct (CpuTimer_dtor _ _) as [[[] σ1]|]; [|reflexivity].
  rewrite emit_eq.
  destruct (WallTimer_dtor _ _) as [[[] σ2]|]; reflexivity.
Qed.

Lemma Unlock_ctor_eq e σ :
  Unlock_ctor e σ =
  match executors σ !! e with
  | None => Abort BadPointer
  | Some E =>
    match PauseScope_ctor (cpu_timer E) (logged [EvRead e f_cpu_timer] σ) with
    | Abort x => Abort x
    | Ok (_, σ1) => Ok (mkUnlock (cpu_timer E) e, logged [EvUnlocker e] σ1)
    end
  end.
Proof.
  unfold Unlock_ctor, read_cpu_timer, deref_executor. unfold mbind, M_bind.
  rewrite emit_eq. simpl executors.
  destruct (executors σ !! e) as [E|]; [|reflexivity]. unfold mret, M_ret.
  destruct (PauseScope_ctor _ _) as [[[] σ1]|]; reflexivity.
Qed.

Lemma Unlock_dtor_eq u σ :
  Unlock_dtor u σ =
  PauseScope_dtor (ul_pause_scope u) (logged [EvUnlockerExit (ul_unlocker u)] σ).
Proof. reflexivity. Qed.

Lemma Lock_ctor_Ok e σ l σ' :
  Lock_ctor e σ = Ok (l, σ') ↔
  ∃ w σ1 c σ2,
    WallTimer_ctor e (rebind (Some e) σ) = Ok (w, σ1) ∧
    CpuTimer_ctor e (logged [EvLocker e] σ1) = Ok (c, σ2) ∧
    l = mkLock (mkScope (current_executor σ)) w e c ∧
    σ' = logged [EvIsolateScope e; EvHandleScope e] σ2.
Proof.
  rewrite Lock_ctor_eq. split.
  - destruct (WallTimer_ctor e _) as [[w σ1]|] eqn:Hw; [|discriminate].
    destruct (CpuTimer_ctor e _) as [[c σ2]|] eqn:Hc; [|discriminate].
    intros [= <- <-]. by exists w, σ1, c, σ2.
  - intros (w & σ1 & c & σ2 & -> & -> & -> & ->). done.
Qed.

Lemma Lock_dtor_Ok l σ σ' :
  Lock_dtor l σ = Ok ((), σ') ↔
  ∃ σ1 σ2,
    CpuTimer_dtor (lk_cpu_timer l)
      (logged [EvHandleScopeExit (lk_locker l);
               EvIsolateScopeExit (lk_locker l)] σ) = Ok ((), σ1) ∧
    WallTimer_dtor (lk_wall_timer l)
      (logged [EvLockerExit (lk_locker l)] σ1) = Ok ((), σ2) ∧
    σ' = rebind (sc_last (lk_scope l)) σ2.
Proof.
  rewrite Lock_dtor_eq. split.
  - destruct (CpuTimer_dtor _ _) as [[[] σ1]|] eqn:Hc; [|discriminate].
    destruct (WallTimer_dtor _ _) as [[[] σ2]|] eqn:Hw; [|discriminate].
    intros [= <-]. by exists σ1, σ2.
  - intros (σ1 & σ2 & -> & -> & ->). done.
Qed.

Lemma Unlock_ctor_Ok e σ u σ' :
  Unlock_ctor e σ = Ok (u, σ') ↔
  ∃ E c σ1,
    executors σ !! e = Some E ∧ cpu_timer E = Some c ∧
    CpuTimer_Pause c (logged [EvRead e f_cpu_timer] σ) = Ok ((), σ1) ∧
    u = mkUnlock (Some c) e ∧ σ' = logged [EvUnlocker e] σ1.
Proof.
  rewrite Unlock_ctor_eq. split.
  - destruct (executors σ !! e) as [E|]; [|discriminate].
    destruct (cpu_timer E) as [c|] eqn:Hc; simpl; [|discriminate].
    destruct (CpuTimer_Pause _ _) as [[[] σ1]|] eqn:HP; [|discriminate].
    intros [= <- <-]. exists E, c, σ1. done.
  - intros (E & c & σ1 & -> & -> & HP & -> & ->). simpl. by rewrite HP.
Qed.

Lemma Unlock_dtor_Ok u σ σ' :
  Unlock_dtor u σ = Ok ((), σ') ↔
  ∃ c, ul_pause_scope u = Some c ∧
       CpuTimer_Resume c (logged [EvUnlockerExit (ul_unlocker u)] σ) = Ok ((), σ').
Proof.
  rewrite Unlock_dtor_eq. destruct (ul_pause_scope u) as [c|]; simpl; split.
  - eauto.
  - by intros (c' & [= <-] & ?).
  - discriminate.
  - by intros (c' & ? & _).
Qed.

Lemma Executor_ctor_Ok this σ σ' :
  Executor_ctor this σ = Ok ((), σ') ↔
  executors σ !! this = None ∧
  ((current_executor σ = None ∧
    σ' = born this this this_thread_get_id (Some this) σ) ∨
   (∃ d D, current_executor σ = Some d ∧ d ≠ this ∧ executors σ !! d = Some D ∧
           σ' = born this d (default_thread D) (Some d) σ) ∨
   (current_executor σ = Some this ∧
    σ' = born this this this_thread_get_id (Some this) σ)).
Proof.
  rewrite Executor_ctor_eq. split.
  - destruct (executors σ !! this) as [E|] eqn:HE; [discriminate|].
    destruct (current_executor σ) as [d|].
    + case_bool_decide as Hd.
      * subst d. intros [= <-]. auto.
      * destruct (executors σ !! d) as [D|] eqn:HD; [|discriminate].
        intros [= <-]. split; [done|]. right. left. eauto 6.
    + intros [= <-]. auto.
  - intros [-> [[-> ->]|[(d & D & -> & Hd & HD & ->)|[-> ->]]]].
    + done.
    + rewrite bool_decide_eq_false_2 by done. by rewrite HD.
    + by rewrite bool_decide_eq_true_2.
Qed.

Lemma step_Ok a fs σ fs' σ' :
  step a fs σ = Ok (fs', σ') ↔
  match a with
  | Enter k => ∃ f, construct k σ = Ok (f, σ') ∧ fs' = f :: fs
  | Exit => ∃ f, fs = f :: fs' ∧ destroy f σ = Ok ((), σ')
  | New e => Executor_ctor e σ = Ok ((), σ') ∧ fs' = fs
  end.
Proof.
  destruct a as [k| |e]; simpl.
  - rewrite bind_Ok. split.
    + intros (f & σ1 & Hc & [= <- <-]). eauto.
    + intros (f & Hc & ->). exists f, σ'. done.
  - destruct fs as [|f fs0].
    + split; [discriminate|]. by intros (f & ? & _).
    + rewrite bind_Ok. split.
      * intros ([] & σ1 & Hd & [= <- <-]). eauto.
      * intros (f' & [= <- <-] & Hd). exists (), σ'. done.
  - rewrite bind_Ok. split.
    + intros ([] & σ1 & Hc & [= <- <-]). eauto.
    + intros (Hc & ->). exists (), σ'. done.
Qed.

Lemma construct_Ok k σ f σ' :
  construct k σ = Ok (f, σ') ↔
  match k with
  | KScope e => f = FScope (mkScope (current_executor σ)) ∧ σ' = rebind (Some e) σ
  | KCpuTimer e => ∃ c, CpuTimer_ctor e σ = Ok (c, σ') ∧ f = FCpuTimer c
  | KWallTimer e => ∃ w, WallTimer_ctor e σ = Ok (w, σ') ∧ f = FWallTimer w
  | KLock e => ∃ l, Lock_ctor e σ = Ok (l, σ') ∧ f = FLock l
  | KUnlock e => ∃ u, Unlock_ctor e σ = Ok (u, σ') ∧ f = FUnlock u
  end.
Proof.
  destruct k; simpl; rewrite bind_Ok; (split;
    [intros (x & σ1 & Hc & [= <- <-]) | ]).
  - rewrite Scope_ctor_eq in Hc. by injection Hc as <- <-.
  - intros [-> ->]. eexists _, _. split; [apply Scope_ctor_eq|done].
  - eauto.
  - intros (x & Hc & ->). eexists _, _. split; [done|done].
  - eauto.
  - intros (x & Hc & ->). eexists _, _. split; [done|done].
  - eauto.
  - intros (x & Hc & ->). eexists _, _. split; [done|done].
  - eauto.
  - intros (x & Hc & ->). eexists _, _. split; [done|done].
Qed.

(** The machine never looks below the innermost live object. *)
Lemma exec_frame acts fs σ fs' σ' base :
  exec acts fs σ = Ok (fs', σ') → exec acts (fs ++ base) σ = Ok (fs' ++ base, σ').
Proof.
  revert fs σ. induction acts as [|a acts IH]; intros fs σ; simpl.
  - by intros [= <- <-].
  - rewrite !bind_Ok. intros (fs0 & σ0 & Hs & He).
    exists (fs0 ++ base), σ0. split; [|by apply IH].
    apply step_Ok in Hs. apply step_Ok. destruct a as [k| |e].
    + destruct Hs as (f & ? & ->). eauto.
    + destruct Hs as (f & -> & ?). eauto.
    + destruct Hs as [? ->]. done.
Qed.

End Composite.
(** Decompose a successful step into the closed forms of the operations it
    ran. *)
Ltac inv_when H :=
  apply when_set_Ok in H as [[? ->]|(? & ? & H)].

Ltac inv_op :=
  match goal with
  | H : step _ _ _ = Ok _ |- _ => apply step_Ok in H
  | H : construct _ _ = Ok _ |- _ => apply construct_Ok in H
  | H : destroy _ _ = Ok _ |- _ => unfold destroy in H
  | H : Lock_ctor _ _ = Ok _ |- _ =>
    apply Lock_ctor_Ok in H as (? & ? & ? & ? & ? & ? & -> & ->)
  | H : Lock_dtor _ _ = Ok _ |- _ =>
    apply Lock_dtor_Ok in H as (? & ? & ? & ? & ->)
  | H : Unlock_ctor _ _ = Ok _ |- _ =>
    apply Unlock_ctor_Ok in H as (? & ? & ? & ? & ? & ? & -> & ->)
  | H : Unlock_dtor _ _ = Ok _ |- _ =>
    apply Unlock_dtor_Ok in H as (? & ? & ?)
  | H : WallTimer_ctor _ _ = Ok _ |- _ =>
    apply WallTimer_ctor_Ok in H as (? & ? & ? & ? & -> & ->)
  | H : WallTimer_dtor _ _ = Ok _ |- _ =>
    apply WallTimer_dtor_Ok in H as (? & ? & ? & ? & ->)
  | H : when_set _ _ _ = Ok _ |- _ => inv_when H
  | H : CpuTimer_ctor _ _ = Ok _ |- _ =>
    apply CpuTimer_ctor_Ok in H as (? & ? & ? & -> & ->)
  | H : CpuTimer_dtor _ _ = Ok _ |- _ =>
    apply CpuTimer_dtor_Ok in H as (? & ? & ? & ? & ? & ->)
  | H : CpuTimer_Pause _ _ = Ok _ |- _ =>
    apply CpuTimer_Pause_Ok in H as (? & ? & ? & ? & ? & ->)
  | H : CpuTimer_Resume _ _ = Ok _ |- _ =>
    apply CpuTimer_Resume_Ok in H as (? & ? & ? & ? & ? & ->)
  | H : Scope_dtor _ _ = Ok _ |- _ =>
    rewrite Scope_dtor_eq in H; injection H as <-
  | H : Executor_ctor _ _ = Ok _ |- _ =>
    apply Executor_ctor_Ok in H as
      [? [[? ->]|[(? & ? & ? & ? & ? & ->)|[? ->]]]]
  | H : ∃ _, _ |- _ => destruct H as [? H]
  | H : _ ∧ _ |- _ => destruct H as [? ?]
  end.

Ltac inv_step :=
  repeat (inv_op; subst).

Section Tls.
Context `{Platform}.

Lemma wall_entered_current this e E σ :
  current_executor (wall_entered this e E σ) = current_executor σ.
Proof. unfold wall_entered. by case_bool_decide. Qed.

Lemma wall_left_current w E σ :
  current_executor (wall_left w E σ) = current_executor σ.
Proof. unfold wall_left. by case_bool_decide. Qed.

Lemma step_current a fs σ fs' σ' :
  step a fs σ = Ok (fs', σ') →
  match a with
  | Enter k =>
    match k with
    | KScope e | KLock e =>
      current_executor σ' = Some e ∧ saved fs' = current_executor σ :: saved fs
    | _ => current_executor σ' = current_executor σ ∧ saved fs' = saved fs
    end
  | Exit =>
    (current_executor σ' = current_executor σ ∧ saved fs' = saved fs) ∨
    saved fs = current_executor σ' :: saved fs'
  | New e =>
    saved fs' = saved fs ∧
    current_executor σ' = Some (default e (current_executor σ))
  end.
Proof.
  intros Hs. destruct a as [k| |e].
  - destruct k; inv_step; simpl; rewrite ?wall_entered_current; auto.
  - apply step_Ok in Hs as (f & -> & Hd). destruct f; inv_step; simpl;
      rewrite ?wall_left_current; auto.
  - inv_step; simpl.
    all: match goal with Hc : current_executor _ = _ |- _ => rewrite Hc end.
    all: auto.
Qed.

End Tls.
(** ** What every operation keeps *)

Create HintDb ext.

Section Extends.
Context `{Platform}.

Lemma extends_refl σ : extends σ σ.
Proof. repeat split; eauto. Qed.

Lemma extends_trans σ1 σ2 σ3 : extends σ1 σ2 → extends σ2 σ3 → extends σ1 σ3.
Proof.
  intros (Hn & Hi & He & Ht) (Hn' & Hi' & He' & Ht'). repeat split; [lia|lia| |].
  - intros e E HE. destruct (He e E HE) as (E' & HE' & ? & ? & ?).
    destruct (He' e E' HE') as (E'' & ? & ? & ? & ?).
    exists E''. repeat split; congruence.
  - intros c C Hc HC. destruct (Ht c C Hc HC) as (C' & HC' & ? & ?).
    destruct (Ht' c C' ltac:(lia) HC') as (C'' & ? & ? & ?).
    exists C''. repeat split; congruence.
Qed.

(** An update of one executor that keeps its identity fields. *)
Lemma extends_executor σ0 σ e E E' ts cur head n i tr :
  extends σ0 σ → executors σ !! e = Some E →
  env E' = env E → default_executor E' = default_executor E →
  default_thread E' = default_thread E →
  (next_object σ ≤ n)%nat → (instant σ ≤ i)%nat →
  (∀ c C, (c < next_object σ)%nat → cpu_timers σ !! c = Some C →
     ∃ C', ts !! c = Some C' ∧ ct_executor C' = ct_executor C ∧
           ct_last C' = ct_last C) →
  extends σ0 (mkState (<[e := E']> (executors σ)) ts cur head n i tr).
Proof.
  intros H0 HE ? ? ? ? ? Hts. eapply extends_trans; [exact H0|].
  repeat split; simpl; [done|done| |done].
  intros e1 E1 HE1. destruct (decide (e1 = e)) as [->|Hne].
  - rewrite lookup_insert_eq. exists E'. repeat split; congruence.
  - rewrite lookup_insert_ne by done. eauto.
Qed.

Lemma extends_plain σ0 σ cur head n i tr :
  extends σ0 σ → (next_object σ ≤ n)%nat → (instant σ ≤ i)%nat →
  extends σ0 (mkState (executors σ) (cpu_timers σ) cur head n i tr).
Proof.
  intros H0 ? ?. eapply extends_trans; [exact H0|].
  repeat split; simpl; eauto.
Qed.

Lemma extends_logged σ0 evs σ : extends σ0 σ → extends σ0 (logged evs σ).
Proof. intros. by apply extends_plain. Qed.

Lemma extends_rebind σ0 v σ : extends σ0 σ → extends σ0 (rebind v σ).
Proof. intros. by apply extends_plain. Qed.

Lemma extends_alloc σ0 σ : extends σ0 σ → extends σ0 (alloc σ).
Proof. intros. apply extends_plain; simpl; auto. Qed.

Lemma extends_started σ0 e E σ :
  extends σ0 σ → executors σ !! e = Some E → extends σ0 (started e E σ).
Proof.
  intros H0 HE. eapply extends_executor; eauto.
  intros c C Hc HC. rewrite lookup_insert_ne by lia. eauto.
Qed.

Lemma extends_stopped σ0 c C E σ :
  extends σ0 σ → executors σ !! ct_executor C = Some E →
  extends σ0 (stopped c C E σ).
Proof. intros H0 HE. eapply extends_executor; eauto. Qed.

Lemma extends_paused σ0 c C E σ :
  extends σ0 σ → executors σ !! ct_executor C = Some E →
  extends σ0 (paused c C E σ).
Proof. intros H0 HE. eapply extends_executor; eauto. Qed.

Lemma extends_resumed σ0 c C E σ :
  extends σ0 σ → cpu_timers σ !! c = Some C →
  executors σ !! ct_executor C = Some E → extends σ0 (resumed c C E σ).
Proof.
  intros H0 HC HE. eapply extends_executor; eauto.
  intros c1 C1 Hc1 HC1. destruct (decide (c1 = c)) as [->|Hne].
  - rewrite lookup_insert_eq. simplify_eq. eauto.
  - rewrite lookup_insert_ne by done. eauto.
Qed.

Lemma extends_wall_entered σ0 this e E σ :
  extends σ0 σ → executors σ !! e = Some E →
  extends σ0 (wall_entered this e E σ).
Proof.
  intros H0 HE. unfold wall_entered. case_bool_decide.
  - eapply extends_executor; eauto.
  - by apply extends_plain.
Qed.

Lemma extends_wall_left σ0 w E σ :
  extends σ0 σ → executors σ !! wt_executor w = Some E →
  extends σ0 (wall_left w E σ).
Proof.
  intros H0 HE. unfold wall_left. case_bool_decide.
  - eapply extends_executor; eauto.
  - by apply extends_plain.
Qed.

Lemma extends_born σ0 this dflt thr cur σ :
  extends σ0 σ → executors σ !! this = None →
  extends σ0 (born this dflt thr cur σ).
Proof.
  intros H0 HE. eapply extends_trans; [exact H0|].
  repeat split; simpl; [done|done| |eauto].
  intros e E HE'. rewrite lookup_insert_ne by congruence. eauto.
Qed.

Hint Resolve extends_refl extends_logged extends_rebind extends_alloc
  extends_started extends_stopped extends_paused extends_resumed
  extends_wall_entered extends_wall_left extends_born : ext.

Lemma step_extends a fs σ fs' σ' :
  step a fs σ = Ok (fs', σ') → extends σ σ'.
Proof.
  intros Hs. destruct a as [k| |e].
  - destruct k; inv_step; eauto 10 with ext.
  - apply step_Ok in Hs as (f & -> & Hd). destruct f; inv_step; eauto 10 with ext.
  - inv_step; eauto with ext.
Qed.

Lemma exec_extends acts fs σ fs' σ' :
  exec acts fs σ = Ok (fs', σ') → extends σ σ'.
Proof.
  revert fs σ. induction acts as [|a acts IH]; intros fs σ; simpl.
  - intros [= <- <-]. apply extends_refl.
  - rewrite bind_Ok. intros (fs1 & σ1 & Hs & He).
    eapply extends_trans; [by eapply step_extends|by eapply IH].
Qed.

End Extends.
(** ** Properly nested scopes restore the thread-local state *)

Section Nesting.
Context `{Platform}.

Lemma exec_invariant (P : action → bool) (I : list frame → State → Prop) :
  (∀ a fs σ fs' σ', P a = true → I fs σ → step a fs σ = Ok (fs', σ') → I fs' σ') →
  ∀ acts fs σ fs' σ',
    forallb P acts = true → I fs σ → exec acts fs σ = Ok (fs', σ') → I fs' σ'.
Proof.
  intros Hstep acts. induction acts as [|a acts IH]; intros fs σ fs' σ'; simpl.
  - by intros _ HI [= <- <-].
  - intros [Ha Hacts]%andb_prop HI. rewrite bind_Ok.
    intros (fs1 & σ1 & Hs & He).
    eapply IH; [exact Hacts|by eapply Hstep|exact He].
Qed.

Lemma wall_entered_head this e E σ :
  cpu_timer_thread (wall_entered this e E σ) = cpu_timer_thread σ.
Proof. unfold wall_entered. by case_bool_decide. Qed.

Lemma wall_left_head w E σ :
  cpu_timer_thread (wall_left w E σ) = cpu_timer_thread σ.
Proof. unfold wall_left. by case_bool_decide. Qed.

Lemma wall_entered_next this e E σ :
  next_object (wall_entered this e E σ) = next_object σ.
Proof. unfold wall_entered. by case_bool_decide. Qed.

Lemma wall_entered_timers this e E σ :
  cpu_timers (wall_entered this e E σ) = cpu_timers σ.
Proof. unfold wall_entered. by case_bool_decide. Qed.

Lemma wall_left_timers w E σ :
  cpu_timers (wall_left w E σ) = cpu_timers σ.
Proof. unfold wall_left. by case_bool_decide. Qed.

Lemma step_owned a fs σ fs' σ' :
  step a fs σ = Ok (fs', σ') →
  (owned fs' = owned fs ∧ cpu_timer_thread σ' = cpu_timer_thread σ) ∨
  (∃ c C, owned fs' = c :: owned fs ∧ (next_object σ ≤ c < next_object σ')%nat ∧
          cpu_timer_thread σ' = Some c ∧ cpu_timers σ' !! c = Some C ∧
          ct_last C = cpu_timer_thread σ) ∨
  (∃ c, owned fs = c :: owned fs' ∧
        cpu_timer_thread σ' = cpu_timers σ !! c ≫= ct_last).
Proof.
  intros Hs. destruct a as [k| |e].
  - destruct k; inv_step; simpl;
      rewrite ?wall_entered_head, ?wall_entered_next, ?wall_entered_timers;
      simpl; auto.
    + right. left. eexists _, _. rewrite lookup_insert_eq. split_and!; eauto; lia.
    + right. left. eexists _, _. rewrite lookup_insert_eq. simpl.
      split_and!; eauto; lia.
    + right. left. eexists _, _. rewrite lookup_insert_eq. simpl.
      split_and!; eauto; lia.
  - apply step_Ok in Hs as (f & -> & Hd). destruct f; inv_step; simpl;
      rewrite ?wall_left_head; simpl; auto.
    all: right; right; eexists; split; [reflexivity|].
    all: match goal with
         | HC : cpu_timers _ !! _ = Some _ |- _ => simpl in HC; rewrite HC
         end; reflexivity.
  - inv_step; simpl; auto.
Qed.

Lemma step_entry a fs σ fs' σ' :
  is_scoped a = true → timers_live σ (owned fs) →
  step a fs σ = Ok (fs', σ') →
  timers_live σ' (owned fs') ∧
  entry_executor fs' (current_executor σ') = entry_executor fs (current_executor σ) ∧
  entry_timer (cpu_timers σ') fs' (cpu_timer_thread σ') =
    entry_timer (cpu_timers σ) fs (cpu_timer_thread σ).
Proof.
  intros Ha Hlive Hs.
  pose proof (step_extends _ _ _ _ _ Hs) as (Hn & _ & _ & Hts).
  pose proof (step_current _ _ _ _ _ Hs) as Hcur.
  pose proof (step_owned _ _ _ _ _ Hs) as Hown.
  assert (Hkeep : ∀ c, (c < next_object σ)%nat → is_Some (cpu_timers σ !! c) →
            (c < next_object σ')%nat ∧ is_Some (cpu_timers σ' !! c) ∧
            cpu_timers σ' !! c ≫= ct_last = cpu_timers σ !! c ≫= ct_last).
  { intros c Hc [C HC]. destruct (Hts c C Hc HC) as (C' & HC' & _ & Hl).
    rewrite HC, HC'. simpl. split_and!; [lia|eauto|done]. }
  assert (Hlive' : timers_live σ' (owned fs)).
  { eapply Forall_impl; [exact Hlive|]. intros c [? ?].
    destruct (Hkeep c) as (? & ? & _); auto. }
  split_and!.
  - destruct Hown as [[-> _]|[(c & C & -> & ? & _ & HC & _)|(c & Hc & _)]].
    + done.
    + apply Forall_cons. split; [|done]. split; [lia|eauto].
    + rewrite Hc in Hlive'. by apply Forall_cons in Hlive' as [_ ?].
  - unfold entry_executor.
    destruct a as [k| |e]; [| |discriminate Ha].
    + destruct k; destruct Hcur as [Hc ->]; rewrite ?Hc; try done.
      all: rewrite last_cons; destruct (last (saved fs)); done.
    + destruct Hcur as [[-> ->]| ->]; [done|].
      rewrite last_cons; destruct (last (saved fs')); done.
  - unfold entry_timer.
    destruct Hown as [[-> ->]|[(c & C & -> & ? & -> & HC & Hl)|(c & Hc & ->)]].
    + destruct (last (owned fs)) as [c|] eqn:Hlast; [|done].
      apply last_Some_elem_of in Hlast.
      unfold timers_live in Hlive.
      rewrite Forall_forall in Hlive. destruct (Hlive c Hlast).
      destruct (Hkeep c) as (_ & _ & ?); auto.
    + rewrite last_cons.
      destruct (last (owned fs)) as [c1|] eqn:Hlast.
      * apply last_Some_elem_of in Hlast.
        unfold timers_live in Hlive.
        rewrite Forall_forall in Hlive. destruct (Hlive c1 Hlast).
        destruct (Hkeep c1) as (_ & _ & ?); auto.
      * by rewrite HC, <- Hl.
    + rewrite Hc, last_cons.
      destruct (last (owned fs')) as [c1|] eqn:Hlast; [|done].
      apply last_Some_elem_of in Hlast.
      rewrite Hc in Hlive. unfold timers_live in Hlive.
      rewrite Forall_forall in Hlive.
      destruct (Hlive c1) as [? ?]; [by right|].
      destruct (Hkeep c1) as (_ & _ & ?); auto.
Qed.

Lemma exec_entry acts fs σ fs' σ' :
  forallb is_scoped acts = true → timers_live σ (owned fs) →
  exec acts fs σ = Ok (fs', σ') →
  timers_live σ' (owned fs') ∧
  entry_executor fs' (current_executor σ') = entry_executor fs (current_executor σ) ∧
  entry_timer (cpu_timers σ') fs' (cpu_timer_thread σ') =
    entry_timer (cpu_timers σ) fs (cpu_timer_thread σ).
Proof.
  intros Hacts Hlive He.
  apply (exec_invariant is_scoped
    (λ fs1 σ1, timers_live σ1 (owned fs1) ∧
       entry_executor fs1 (current_executor σ1) =
         entry_executor fs (current_executor σ) ∧
       entry_timer (cpu_timers σ1) fs1 (cpu_timer_thread σ1) =
         entry_timer (cpu_timers σ) fs (cpu_timer_thread σ)))
    with (acts := acts) (fs := fs) (σ := σ); auto.
  intros a fs1 σ1 fs2 σ2 Ha (Hl & He1 & He2) Hs.
  destruct (step_entry _ _ _ _ _ Ha Hl Hs) as (? & ? & ?).
  split_and!; congruence.
Qed.

(** C7. Whatever sequence of properly nested Scope, CpuTimer, WallTimer,
    Lock and Unlock objects a thread declares, once the outermost of them is
    destroyed [cpu_timer_thread] and [current_executor] have the values they
    had on entry. *)
Theorem nested_scopes_restore_thread_state acts σ σ' :
  forallb is_scoped acts = true →
  exec acts [] σ = Ok ([], σ') →
  cpu_timer_thread σ' = cpu_timer_thread σ ∧
  current_executor σ' = current_executor σ.
Proof.
  intros Hacts He.
  destruct (exec_entry acts [] σ [] σ' Hacts) as (_ & Hc & Ht); auto.
  by constructor.
Qed.

End Nesting.
(** ** Executor construction *)

Section Construction.
Context `{Platform}.

Lemma saved_ok_cons x L : saved_ok (x :: L) ↔ (L ≠ [] → x ≠ None) ∧ saved_ok L.
Proof. reflexivity. Qed.

(** In every configuration reached from a thread without live objects, a
    null [current_executor] means that no Scope is alive, and only the
    outermost Scope can have saved a null. *)
Lemma step_saved a fs σ fs' σ' :
  saved_ok (saved fs) ∧ (current_executor σ = None → saved fs = []) →
  step a fs σ = Ok (fs', σ') →
  saved_ok (saved fs') ∧ (current_executor σ' = None → saved fs' = []).
Proof.
  intros [Hok Hnone] Hs. apply step_current in Hs.
  destruct a as [k| |e].
  - destruct k; destruct Hs as [Hc ->]; rewrite Hc; try done.
    all: split; [|done]; apply saved_ok_cons; split; [|done].
    all: intros HL Hcur; auto.
  - destruct Hs as [[-> ->]|Hsv]; [done|].
    rewrite Hsv in Hok. apply saved_ok_cons in Hok as [Hx Hok]. split; [done|].
    intros Hcur. destruct (saved fs') as [|y L]; [done|].
    exfalso. by apply Hx.
  - destruct Hs as [-> ->]. done.
Qed.

Lemma exec_saved acts σ0 fs σ :
  exec acts [] σ0 = Ok (fs, σ) →
  saved_ok (saved fs) ∧ (current_executor σ = None → saved fs = []).
Proof.
  intros He.
  apply (exec_invariant (λ _, true)
    (λ fs1 σ1, saved_ok (saved fs1) ∧ (current_executor σ1 = None → saved fs1 = [])))
    with (acts := acts) (fs := []) (σ := σ0); [|by apply forallb_forall|done|done].
  intros a fs1 σ1 fs2 σ2 _. apply step_saved.
Qed.

(** Once [current_executor] is set and every live Scope has saved a non-null
    value, it stays set. *)
Lemma step_current_set a fs σ fs' σ' :
  current_executor σ ≠ None ∧ Forall (λ x, x ≠ None) (saved fs) →
  step a fs σ = Ok (fs', σ') →
  current_executor σ' ≠ None ∧ Forall (λ x, x ≠ None) (saved fs').
Proof.
  intros [Hcur Hall] Hs. apply step_current in Hs.
  destruct a as [k| |e].
  - destruct k; destruct Hs as [Hc ->]; rewrite Hc; try done.
    all: split; [done|]; by apply Forall_cons.
  - destruct Hs as [[-> ->]|Hsv]; [done|].
    rewrite Hsv in Hall. by apply Forall_cons in Hall.
  - destruct Hs as [-> ->]. done.
Qed.

(** C10. Constructing an Executor on a thread whose [current_executor] is
    null sets it to the new executor, and nothing the thread does afterwards
    through the scoped objects of the core or through further constructions
    makes it null again; constructing one while [current_executor] is set
    leaves it as it is. *)
Theorem Executor_ctor_sets_current_executor acts0 σ0 fs σ this σ1 :
  exec acts0 [] σ0 = Ok (fs, σ) →
  Executor_ctor this σ = Ok ((), σ1) →
  (current_executor σ = None →
     current_executor σ1 = Some this ∧
     ∀ acts fs' σ2, exec acts fs σ1 = Ok (fs', σ2) → current_executor σ2 ≠ None) ∧
  (current_executor σ ≠ None → current_executor σ1 = current_executor σ).
Proof.
  intros Hreach Hctor. apply exec_saved in Hreach as [_ Hnone].
  apply Executor_ctor_Ok in Hctor as [_ Hctor]. split.
  - intros Hcur. rewrite Hcur in Hctor.
    destruct Hctor as [[_ ->]|[(d & D & ? & _)|[? _]]]; [|done|done].
    split; [done|]. intros acts fs' σ2 He.
    apply (exec_invariant (λ _, true)
      (λ fs1 σ1, current_executor σ1 ≠ None ∧ Forall (λ x, x ≠ None) (saved fs1)))
      with (acts := acts) (fs := fs) (σ := born this this this_thread_get_id (Some this) σ)
      in He as [? _]; [done| |by apply forallb_forall|].
    + intros a fs1 σ3 fs2 σ4 _. apply step_current_set.
    + split; [done|]. rewrite (Hnone Hcur). constructor.
  - intros Hcur.
    destruct Hctor as [[? _]|[(d & D & Hd & _ & _ & ->)|[Hd ->]]]; [done| |];
      by rewrite Hd.
Qed.

(** The default thread of an executor is the default thread of every
    executor on its chain of defaults. *)
Lemma chained_ancestor σ n e E a A :
  chained σ → executors σ !! e = Some E → ancestor σ n e = Some a →
  executors σ !! a = Some A → default_thread A = default_thread E.
Proof.
  intros Hch. revert e E. induction n as [|n IH]; intros e E HE; simpl.
  - intros [= <-] HA. congruence.
  - rewrite HE. simpl. intros Ha HA.
    destruct (Hch e E HE) as (D & HD & <-). by eapply IH.
Qed.

(** C9. The constructor takes the thread's current executor as default
    executor; without one the new executor is its own default and records
    the constructing thread, otherwise it takes over the default thread of
    its default executor, so that the default thread is the same all along
    a chain of defaults. *)
Theorem Executor_ctor_defaults σ this σ' :
  (∀ d, current_executor σ = Some d → is_Some (executors σ !! d)) →
  Executor_ctor this σ = Ok ((), σ') →
  ∃ E, executors σ' !! this = Some E ∧
    (current_executor σ = None →
       default_executor E = this ∧ default_thread E = this_thread_get_id) ∧
    (∀ d, current_executor σ = Some d →
       default_executor E = d ∧
       ∃ D, executors σ !! d = Some D ∧ default_thread E = default_thread D) ∧
    (chained σ →
       chained σ' ∧
       ∀ n e' E' a A, executors σ' !! e' = Some E' → ancestor σ' n e' = Some a →
         executors σ' !! a = Some A → default_thread A = default_thread E').
Proof.
  intros Hvalid Hctor. apply Executor_ctor_Ok in Hctor as [Hfresh Hctor].
  assert (Hcase : ∃ d thr cur, σ' = born this d thr cur σ ∧
    (current_executor σ = None → d = this ∧ thr = this_thread_get_id) ∧
    (∀ d', current_executor σ = Some d' →
       d' = d ∧ ∃ D, executors σ !! d = Some D ∧ thr = default_thread D)).
  { destruct Hctor as [[Hc ->]|[(d & D & Hc & Hne & HD & ->)|[Hc ->]]].
    - eexists _, _, _. split; [done|]. split; [done|]. intros d'. by rewrite Hc.
    - eexists _, _, _. split; [done|]. split; [by rewrite Hc|].
      intros d'. rewrite Hc. intros [= <-]. eauto.
    - destruct (Hvalid this Hc) as [D HD]. congruence. }
  destruct Hcase as (d & thr & cur & -> & Hnone & Hsome).
  eexists. split; [apply lookup_insert_eq|]. simpl.
  split; [done|]. split.
  { intros d' Hd'. destruct (Hsome d' Hd') as (-> & D & ? & ?). eauto. }
  intros Hch.
  assert (Hch' : chained (born this d thr cur σ)).
  { intros e E. unfold born. simpl. destruct (decide (e = this)) as [->|Hne].
    - rewrite lookup_insert_eq. intros [= <-]. simpl.
      destruct (current_executor σ) as [d'|] eqn:Hc.
      + destruct (Hsome d' eq_refl) as (<- & D & HD & ->).
        exists D. split; [|done]. rewrite lookup_insert_ne; [done|congruence].
      + destruct (Hnone eq_refl) as [-> ->]. rewrite lookup_insert_eq. eauto.
    - rewrite lookup_insert_ne by done. intros HE.
      destruct (Hch e E HE) as (D & HD & ?). exists D. split; [|done].
      rewrite lookup_insert_ne; [done|congruence]. }
  split; [done|]. intros n e' E' a A HE Ha HA.
  exact (chained_ancestor _ n e' E' a A Hch' HE Ha HA).
Qed.

End Construction.
(** ** Wall time of nested entries *)

Create HintDb wallkeep.

Section Wall.
Context `{Platform}.

Lemma wall_view_insert m e' E' E'' e :
  m !! e' = Some E' → wall_timer E'' = wall_timer E' →
  wall_time E'' = wall_time E' →
  wall_view (<[e' := E'']> m) e = wall_view m e.
Proof.
  intros HE Ht Hd. unfold wall_view. destruct (decide (e = e')) as [->|Hne].
  - rewrite lookup_insert_eq, HE. simpl. by rewrite Ht, Hd.
  - by rewrite lookup_insert_ne.
Qed.

Section Keep.
Variables (e w0 : nat) (t : Z).

(** The executor [e] has [w0] installed as its wall timer and [t] as its
    wall time. *)
Let P (σ : State) : Prop := wall_view (executors σ) e = Some (Some w0, t).

Lemma wall_keep_logged evs σ : P σ → P (logged evs σ).
Proof. done. Qed.

Lemma wall_keep_rebind x σ : P σ → P (rebind x σ).
Proof. done. Qed.

Lemma wall_keep_alloc σ : P σ → P (alloc σ).
Proof. done. Qed.

Lemma wall_keep_started e' E' σ :
  P σ → executors σ !! e' = Some E' → P (started e' E' σ).
Proof. unfold P. simpl. intros <- HE. by eapply wall_view_insert. Qed.

Lemma wall_keep_stopped c C E' σ :
  P σ → executors σ !! ct_executor C = Some E' → P (stopped c C E' σ).
Proof. unfold P. simpl. intros <- HE. by eapply wall_view_insert. Qed.

Lemma wall_keep_paused c C E' σ :
  P σ → executors σ !! ct_executor C = Some E' → P (paused c C E' σ).
Proof. unfold P. simpl. intros <- HE. by eapply wall_view_insert. Qed.

Lemma wall_keep_resumed c C E' σ :
  P σ → executors σ !! ct_executor C = Some E' → P (resumed c C E' σ).
Proof. unfold P. simpl. intros <- HE. by eapply wall_view_insert. Qed.

Lemma wall_keep_born this d thr cur σ :
  P σ → executors σ !! this = None → P (born this d thr cur σ).
Proof.
  unfold P, wall_view. simpl. intros HP HE.
  destruct (decide (e = this)) as [->|Hne].
  - by rewrite HE in HP.
  - by rewrite lookup_insert_ne.
Qed.

Lemma wall_keep_entered this e' E' σ :
  P σ → executors σ !! e' = Some E' → P (wall_entered this e' E' σ).
Proof.
  unfold P, wall_entered, wall_view. intros HP HE.
  case_bool_decide as Hnull; simpl; [|done].
  destruct (decide (e = e')) as [->|Hne].
  - rewrite HE in HP. simpl in HP. congruence.
  - by rewrite lookup_insert_ne.
Qed.

Lemma wall_keep_left w E' σ :
  P σ → executors σ !! wt_executor w = Some E' → wt_this w ≠ w0 →
  P (wall_left w E' σ).
Proof.
  unfold P, wall_left, wall_view. intros HP HE Hw.
  case_bool_decide as Hinst; simpl; [|done].
  destruct (decide (e = wt_executor w)) as [->|Hne].
  - rewrite HE in HP. simpl in HP. congruence.
  - by rewrite lookup_insert_ne.
Qed.

Hint Resolve wall_keep_logged wall_keep_rebind wall_keep_alloc
  wall_keep_started wall_keep_stopped wall_keep_paused wall_keep_resumed
  wall_keep_born wall_keep_entered wall_keep_left : wallkeep.

Lemma step_wall a fs σ fs' σ' :
  P σ → (w0 < next_object σ)%nat →
  Forall (λ w, wt_this w ≠ w0) (walls fs) →
  step a fs σ = Ok (fs', σ') →
  P σ' ∧ Forall (λ w, wt_this w ≠ w0) (walls fs').
Proof.
  intros HP Hw0 Hfs Hs. destruct a as [k| |e'].
  - destruct k; inv_step; simpl walls.
    all: (split; [eauto 10 with wallkeep|]).
    all: try done.
    all: (apply Forall_cons; split; [simpl; lia|done]).
  - apply step_Ok in Hs as (f & -> & Hd). destruct f; simpl walls in Hfs.
    all: try apply Forall_cons in Hfs as [Hw Hfs].
    all: inv_step.
    all: (split; [eauto 10 with wallkeep|done]).
  - inv_step; split; eauto with wallkeep.
Qed.

End Keep.

Hint Resolve wall_keep_logged wall_keep_rebind wall_keep_alloc
  wall_keep_started wall_keep_stopped wall_keep_paused wall_keep_resumed
  wall_keep_born wall_keep_entered wall_keep_left : wallkeep.

(** C4. A WallTimer constructed on an executor that already has a wall
    timer changes neither [wall_timer] nor [wall_time] of that executor, not
    when it is constructed, not while the objects nested in it live, and not
    when it is destroyed. A WallTimer constructed on an executor without one
    installs itself with the current steady time, and its destruction then
    removes it and adds the steady time elapsed since. *)
Theorem nested_WallTimer_leaves_wall_time e σ E w σ1 :
  executors σ !! e = Some E →
  WallTimer_ctor e σ = Ok (w, σ1) →
  (∀ w0, wall_timer E = Some w0 → (w0 < next_object σ)%nat →
     wall_view (executors σ1) e = wall_view (executors σ) e ∧
     ∀ acts fs σ2, exec acts [] σ1 = Ok (fs, σ2) →
       wall_view (executors σ2) e = wall_view (executors σ) e ∧
       ∀ σ3, WallTimer_dtor w σ2 = Ok ((), σ3) →
         wall_view (executors σ3) e = wall_view (executors σ) e) ∧
  (wall_timer E = None →
     ∃ k, (instant σ ≤ k < instant σ1)%nat ∧ wt_time w = steady_clock_now k ∧
     wall_view (executors σ1) e = Some (Some (wt_this w), wall_time E) ∧
     ∀ σ2 σ3 t, wall_view (executors σ2) e = Some (Some (wt_this w), t) →
       WallTimer_dtor w σ2 = Ok ((), σ3) →
       ∃ k', (instant σ2 ≤ k' < instant σ3)%nat ∧
       wall_view (executors σ3) e =
         Some (None, t + (steady_clock_now k' - wt_time w))).
Proof.
  intros HE Hctor. split.
  - intros w0 Hw0 Hlt.
    assert (HP : wall_view (executors σ) e = Some (Some w0, wall_time E)).
    { unfold wall_view. rewrite HE. simpl. by rewrite Hw0. }
    assert (Hthis : wt_this w = next_object σ).
    { clear HP. inv_step; reflexivity. }
    assert (HP1 : wall_view (executors σ1) e = Some (Some w0, wall_time E)).
    { clear Hthis. inv_step; eauto 10 with wallkeep. }
    rewrite HP. split; [done|]. intros acts fs σ2 He.
    pose proof (exec_extends _ _ _ _ _ He) as (Hn2 & _).
    assert (Hn1 : (next_object σ ≤ next_object σ1)%nat).
    { clear HP1 Hthis HP. inv_step; simpl; rewrite ?wall_entered_next; simpl; lia. }
    apply (exec_invariant (λ _, true)
      (λ fs1 σ', (wall_view (executors σ') e = Some (Some w0, wall_time E) ∧
                 (w0 < next_object σ')%nat) ∧
                 Forall (λ w, wt_this w ≠ w0) (walls fs1)))
      with (acts := acts) (fs := []) (σ := σ1) in He as [[HP2 _] _].
    + split; [done|]. intros σ3 Hd. inv_step; eapply wall_keep_left;
        eauto 10 with wallkeep; lia.
    + intros a fs1 σ3 fs2 σ4 _ [[HP3 Hlt3] Hfs] Hs.
      pose proof (step_extends _ _ _ _ _ Hs) as (? & _).
      destruct (step_wall e w0 _ _ _ _ _ _ HP3 Hlt3 Hfs Hs). split; [split|]; [done|lia|done].
    + by apply forallb_forall.
    + split; [split; [done|lia]|constructor].
  - intros Hnull.
    apply WallTimer_ctor_Ok in Hctor as (σp & Ep & Hp & HEp & -> & ->).
    assert (Hv : wall_view (executors σp) e = wall_view (executors σ) e
                 ∧ (instant σ ≤ instant σp)%nat).
    { clear HEp. inv_step; simpl; [done|]. split; [|lia].
      by eapply wall_view_insert. }
    destruct Hv as [Hv Hi]. unfold wall_view in Hv. rewrite HE, HEp in Hv.
    simpl in Hv. injection Hv as Hv1 Hv2. rewrite Hnull in Hv1.
    exists (instant σp). unfold wall_object, wall_entered.
    rewrite !bool_decide_eq_true_2 by done. simpl.
    split; [lia|]. split; [done|]. split.
    { unfold wall_view. rewrite lookup_insert_eq. simpl. by rewrite Hv2. }
    intros σ2 σ3 t Hv2' Hd.
    apply WallTimer_dtor_Ok in Hd as (σr & Er & Hr & HEr & ->). simpl in *.
    assert (Hvr : wall_view (executors σr) e = wall_view (executors σ2) e
                  ∧ (instant σ2 ≤ instant σr)%nat).
    { clear HEr Hp. inv_step; simpl; [done|]. split; [|lia].
      by eapply wall_view_insert. }
    destruct Hvr as [Hvr Hir]. rewrite Hv2' in Hvr. unfold wall_view in Hvr.
    rewrite HEr in Hvr. simpl in Hvr. injection Hvr as Hr1 Hr2.
    exists (instant σr). unfold wall_left. simpl.
    rewrite bool_decide_eq_true_2 by done. simpl. split; [lia|].
    unfold wall_view. rewrite lookup_insert_eq. simpl. by rewrite Hr2.
Qed.

End Wall.
(** ** CPU time of a paused executor *)

Section Suspended.
Context `{Platform}.

Lemma cpu_view_insert m e' E' E'' e :
  m !! e' = Some E' → cpu_timer E'' = cpu_timer E' →
  cpu_time E'' = cpu_time E' →
  cpu_view (<[e' := E'']> m) e = cpu_view m e.
Proof.
  intros HE Ht Hd. unfold cpu_view. destruct (decide (e = e')) as [->|Hne].
  - rewrite lookup_insert_eq, HE. simpl. by rewrite Ht, Hd.
  - by rewrite lookup_insert_ne.
Qed.

Lemma cpu_view_wall_entered this e' E' σ e :
  executors σ !! e' = Some E' →
  cpu_view (executors (wall_entered this e' E' σ)) e = cpu_view (executors σ) e.
Proof.
  intros HE. unfold wall_entered. case_bool_decide; [|done].
  by eapply cpu_view_insert.
Qed.

Lemma cpu_view_wall_left w E' σ e :
  executors σ !! wt_executor w = Some E' →
  cpu_view (executors (wall_left w E' σ)) e = cpu_view (executors σ) e.
Proof.
  intros HE. unfold wall_left. case_bool_decide; [|done].
  by eapply cpu_view_insert.
Qed.

Section Keep.
Variables (A : nat) (v : Z).

Lemma suspended_plain σ σ' L :
  suspended A v σ L → executors σ' = executors σ →
  cpu_timers σ' = cpu_timers σ → suspended A v σ' L.
Proof.
  intros [Hv HL] He Ht. split; [by rewrite He|].
  eapply Forall_impl; [exact HL|]. intros p Hp C. rewrite Ht. apply Hp.
Qed.

Lemma suspended_logged evs σ L :
  suspended A v σ L → suspended A v (logged evs σ) L.
Proof. intros. by eapply suspended_plain. Qed.

Lemma suspended_rebind x σ L :
  suspended A v σ L → suspended A v (rebind x σ) L.
Proof. intros. by eapply suspended_plain. Qed.

Lemma suspended_alloc σ L : suspended A v σ L → suspended A v (alloc σ) L.
Proof. intros. by eapply suspended_plain. Qed.

Lemma suspended_wall_entered this e' E' σ L :
  suspended A v σ L → executors σ !! e' = Some E' →
  suspended A v (wall_entered this e' E' σ) L.
Proof.
  intros [Hv HL] HE. split; [by rewrite cpu_view_wall_entered|].
  eapply Forall_impl; [exact HL|]. intros p Hp C.
  rewrite wall_entered_timers. apply Hp.
Qed.

Lemma suspended_wall_left w E' σ L :
  suspended A v σ L → executors σ !! wt_executor w = Some E' →
  suspended A v (wall_left w E' σ) L.
Proof.
  intros [Hv HL] HE. split; [by rewrite cpu_view_wall_left|].
  eapply Forall_impl; [exact HL|]. intros p Hp C.
  rewrite wall_left_timers. apply Hp.
Qed.

(** A timer that flushes successfully does not belong to [A]. *)
Lemma suspended_flush σ c C E :
  cpu_view (executors σ) A = Some (None, v) →
  executors σ !! ct_executor C = Some E → cpu_timer E = Some c →
  ct_executor C ≠ A.
Proof.
  unfold cpu_view. intros Hv HE Hc HA. rewrite HA in HE. rewrite HE in Hv.
  simpl in Hv. congruence.
Qed.

Lemma suspended_born this d thr cur σ L :
  suspended A v σ L → executors σ !! this = None →
  suspended A v (born this d thr cur σ) L.
Proof.
  intros [Hv HL] HE. split; [|done]. unfold cpu_view in *. simpl.
  destruct (decide (A = this)) as [->|Hne].
  - by rewrite HE in Hv.
  - by rewrite lookup_insert_ne.
Qed.

Lemma suspended_ctor e σ c σ' L :
  e ≠ A → suspended A v σ L → CpuTimer_ctor e σ = Ok (c, σ') →
  suspended A v σ' L.
Proof.
  intros Hne [Hv HL] Hc. inv_step. split.
  - unfold cpu_view in *. simpl. by rewrite lookup_insert_ne.
  - eapply Forall_impl; [exact HL|]. intros p Hp C. simpl.
    destruct (decide (p = next_object σ)) as [->|Hp'].
    + rewrite lookup_insert_eq. by intros [= <-].
    + rewrite lookup_insert_ne by done. apply Hp.
Qed.

Lemma suspended_dtor σ c σ' L :
  suspended A v σ L → CpuTimer_dtor c σ = Ok ((), σ') → suspended A v σ' L.
Proof.
  intros [Hv HL] Hc. inv_step. split; [|done].
  unfold cpu_view in *. simpl. rewrite lookup_insert_ne; [done|].
  by eapply suspended_flush.
Qed.

Lemma suspended_Pause σ c σ' L :
  suspended A v σ L → CpuTimer_Pause c σ = Ok ((), σ') →
  suspended A v σ' (c :: L).
Proof.
  intros [Hv HL] Hc. inv_step.
  assert (ct_executor x ≠ A) by by eapply suspended_flush.
  split.
  - unfold cpu_view in *. simpl. by rewrite lookup_insert_ne.
  - apply Forall_cons. split; [|done]. intros C. simpl. congruence.
Qed.

Lemma suspended_Resume σ c σ' L :
  suspended A v σ (c :: L) → CpuTimer_Resume c σ = Ok ((), σ') →
  suspended A v σ' L.
Proof.
  intros [Hv [Hc HL]%Forall_cons] Hr. inv_step.
  assert (ct_executor x ≠ A) by by apply Hc.
  split.
  - unfold cpu_view in *. simpl. by rewrite lookup_insert_ne.
  - eapply Forall_impl; [exact HL|]. intros p Hp C. simpl.
    destruct (decide (p = c)) as [->|Hp'].
    + rewrite lookup_insert_eq. by intros [= <-].
    + rewrite lookup_insert_ne by done. apply Hp.
Qed.

Lemma suspended_WallTimer_ctor e σ w σ' L :
  suspended A v σ L → WallTimer_ctor e σ = Ok (w, σ') →
  suspended A v σ' (captured [FWallTimer w] ++ L).
Proof.
  intros HS Hw. apply WallTimer_ctor_Ok in Hw as (σ1 & E & Hp & HE & -> & ->).
  apply suspended_wall_entered; [|done]. unfold captured. simpl.
  apply when_set_Ok in Hp as [[-> ->]|(c & -> & Hp)]; simpl.
  - by apply suspended_alloc.
  - eapply suspended_Pause; [|done]. by apply suspended_alloc.
Qed.

Lemma suspended_WallTimer_dtor σ w σ' L :
  suspended A v σ (captured [FWallTimer w] ++ L) →
  WallTimer_dtor w σ = Ok ((), σ') → suspended A v σ' L.
Proof.
  intros HS Hw. apply WallTimer_dtor_Ok in Hw as (σ1 & E & Hp & HE & ->).
  apply suspended_wall_left; [|done]. unfold captured in HS. simpl in HS.
  apply when_set_Ok in Hp as [[Hn ->]|(c & Hc & Hp)].
  - by rewrite Hn in HS.
  - rewrite Hc in HS. by eapply suspended_Resume.
Qed.

Lemma captured_cons f fs : captured (f :: fs) = captured [f] ++ captured fs.
Proof. unfold captured. simpl. by destruct (frame_captured f). Qed.

Lemma step_suspended a fs σ fs' σ' :
  enters a ≠ Some A → suspended A v σ (captured fs) →
  step a fs σ = Ok (fs', σ') → suspended A v σ' (captured fs').
Proof.
  intros Ha HS Hs. apply step_Ok in Hs. destruct a as [k| |e].
  - destruct Hs as (f & Hc & ->). apply construct_Ok in Hc.
    destruct k as [e|e|e|e|e]; simpl in Ha.
    + destruct Hc as [-> ->]. by apply suspended_rebind.
    + destruct Hc as (c & Hc & ->). eapply suspended_ctor; [|done|done]. congruence.
    + destruct Hc as (w & Hc & ->). rewrite captured_cons.
      by apply (suspended_WallTimer_ctor e σ).
    + destruct Hc as (l & Hc & ->).
      apply Lock_ctor_Ok in Hc as (w & σ1 & c & σ2 & Hw & Hc & -> & ->).
      rewrite captured_cons.
      change (captured [FLock (mkLock (mkScope (current_executor σ)) w e c)])
        with (captured [FWallTimer w]).
      apply suspended_logged.
      eapply suspended_ctor; [|  |exact Hc]; [congruence|].
      apply suspended_logged.
      eapply (suspended_WallTimer_ctor e _ w); [|exact Hw].
      by apply suspended_rebind.
    + destruct Hc as (u & Hc & ->).
      apply Unlock_ctor_Ok in Hc as (E & c & σ1 & HE & Hcpu & Hp & -> & ->).
      apply suspended_logged.
      eapply suspended_Pause; [|exact Hp]. by apply suspended_logged.
  - destruct Hs as (f & -> & Hd). destruct f as [s|c|w|l|u]; simpl in Hd.
    + rewrite Scope_dtor_eq in Hd. injection Hd as <-. by apply suspended_rebind.
    + by eapply suspended_dtor.
    + rewrite captured_cons in HS. by eapply suspended_WallTimer_dtor.
    + apply Lock_dtor_Ok in Hd as (σ1 & σ2 & Hc & Hw & ->).
      rewrite captured_cons in HS.
      change (captured [FLock l]) with (captured [FWallTimer (lk_wall_timer l)]) in HS.
      apply suspended_rebind.
      eapply suspended_WallTimer_dtor; [|exact Hw].
      apply suspended_logged.
      eapply suspended_dtor; [|exact Hc]. by apply suspended_logged.
    + apply Unlock_dtor_Ok in Hd as (c & Hu & Hr).
      eapply suspended_Resume; [|exact Hr].
      apply suspended_logged.
      unfold captured in *. simpl in *. by rewrite Hu in HS.
  - destruct Hs as [Hc ->]. simpl in Ha.
    apply Executor_ctor_Ok in Hc as [Hf [[_ ->]|[(d & D & _ & _ & _ & ->)|[_ ->]]]];
      by apply suspended_born.
Qed.

Lemma exec_suspended acts fs σ fs' σ' :
  avoids A acts = true → suspended A v σ (captured fs) →
  exec acts fs σ = Ok (fs', σ') → suspended A v σ' (captured fs').
Proof.
  intros Ha HS He.
  by apply (exec_invariant (λ a, bool_decide (enters a ≠ Some A))
    (λ fs1 σ1, suspended A v σ1 (captured fs1)))
    with (acts := acts) (fs := fs) (σ := σ);
    [intros a fs1 σ1 fs2 σ2 Hen%bool_decide_eq_true; by apply step_suspended| | |].
Qed.

End Keep.
End Suspended.
#[local] Hint Resolve extends_refl extends_logged extends_rebind extends_alloc
  extends_started extends_stopped extends_paused extends_resumed
  extends_wall_entered extends_wall_left extends_born : ext.

Section Attribution.
Context `{Platform}.

Lemma CpuTimer_dtor_extends c σ σ' :
  CpuTimer_dtor c σ = Ok ((), σ') → extends σ σ'.
Proof. intros. inv_step. eauto with ext. Qed.

Lemma wall_left_instant w E σ :
  (instant σ ≤ instant (wall_left w E σ))%nat.
Proof. unfold wall_left. case_bool_decide; simpl; lia. Qed.

Lemma suspended_nil A v σ L : suspended A v σ L → suspended A v σ [].
Proof. intros [? _]. split; [done|constructor]. Qed.

(** C5, as amended. When a thread whose current CpuTimer charges executor
    [A] enters Lock(B) for another executor [B], the timer is paused: no
    CpuTimer is installed on [A] and the CPU time of [A] does not change for
    as long as the thread stays inside Lock(B) without entering [A] again;
    leaving Lock(B) installs the timer on [A] again with a new start time,
    from which the next flush counts. *)
Theorem paused_executor_accrues_nothing σ A B cA CA lB σB :
  A ≠ B →
  cpu_timer_thread σ = Some cA → (cA < next_object σ)%nat →
  cpu_timers σ !! cA = Some CA → ct_executor CA = A →
  Lock_ctor B σ = Ok (lB, σB) →
  ∃ v, cpu_view (executors σB) A = Some (None, v) ∧
    ∀ acts fs σ', avoids A acts = true → exec acts [] σB = Ok (fs, σ') →
      cpu_view (executors σ') A = Some (None, v) ∧
      ∀ σ'', Lock_dtor lB σ' = Ok ((), σ'') →
        cpu_view (executors σ'') A = Some (Some cA, v) ∧
        ∃ k C, (instant σ' ≤ k < instant σ'')%nat ∧
          cpu_timers σ'' !! cA = Some C ∧ ct_time C = cpu_clock k ∧
          ∀ σ3, CpuTimer_Pause cA σ'' = Ok ((), σ3) →
            cpu_view (executors σ3) A =
              Some (None, v + (cpu_clock (instant σ'') - cpu_clock k)).
Proof.
  intros HAB Hhead HcA HCA HA Hlock.
  assert (Hext : extends σ σB).
  { apply (step_extends (Enter (KLock B)) [] σ [FLock lB] σB).
    apply step_Ok. eexists. split; [|done]. apply construct_Ok. eauto. }
  apply Lock_ctor_Ok in Hlock as (w & σ1 & c & σ2 & Hw & Hc & -> & ->).
  apply WallTimer_ctor_Ok in Hw as (σp & Ew & Hp & HEw & -> & ->).
  simpl in *. rewrite Hhead in *. simpl in Hp.
  apply CpuTimer_Pause_Ok in Hp as (C & E & HC & HE & Hinst & ->).
  simpl in HC, HE. rewrite HCA in HC. injection HC as <-. rewrite HA in *.
  set (v := cpu_time E + (cpu_clock (instant σ) - ct_time CA)).
  assert (HS : suspended A v
            (logged [EvIsolateScope B; EvHandleScope B] σ2) []).
  { apply suspended_logged. eapply suspended_ctor; [| |exact Hc]; [done|].
    apply suspended_logged. apply suspended_wall_entered; [|done].
    split; [|constructor]. unfold cpu_view. simpl. rewrite HA.
    by rewrite lookup_insert_eq. }
  exists v. split; [apply HS|]. intros acts fs σ' Hav He.
  pose proof (exec_extends _ _ _ _ _ He) as Hext'.
  eapply exec_suspended in He; [|done|exact HS].
  split; [apply He|]. intros σ'' Hd.
  apply suspended_nil in He.
  apply Lock_dtor_Ok in Hd as (σd & σw & Hd & Hwd & ->). simpl in *.
  assert (Hextd : extends σ σd).
  { eapply extends_trans; [exact Hext|]. eapply extends_trans; [exact Hext'|].
    apply CpuTimer_dtor_extends in Hd. eapply extends_trans; [|exact Hd].
    eauto with ext. }
  assert (Hid : (instant σ' < instant σd)%nat).
  { pose proof Hd as Hd'.
    apply CpuTimer_dtor_Ok in Hd' as (? & ? & _ & _ & _ & ->). simpl. lia. }
  eapply suspended_dtor in Hd; [|by apply suspended_logged].
  apply WallTimer_dtor_Ok in Hwd as (σr & Er & Hr & HEr & ->). simpl in *.
  apply CpuTimer_Resume_Ok in Hr as (C' & E' & HC' & HE' & Hnull & ->).
  simpl in HC', HE'.
  destruct Hextd as (_ & _ & _ & Hts).
  destruct (Hts cA CA HcA HCA) as (C2 & HC2 & Hex & Hlast).
  rewrite HC' in HC2. injection HC2 as <-.
  assert (HexA : ct_executor C' = A) by congruence. clear Hex.
  rewrite HexA in HE'.
  destruct Hd as [Hv _]. unfold cpu_view in Hv. rewrite HE' in Hv.
  simpl in Hv. injection Hv as _ Hv.
  split.
  { rewrite cpu_view_wall_left by done. unfold cpu_view. simpl.
    rewrite HexA, lookup_insert_eq. simpl. by rewrite Hv. }
  exists (instant σd), (mkCpuTimer A (ct_last C') (cpu_clock (instant σd))).
  split.
  { pose proof (wall_left_instant
      (wall_object (next_object σ) B (Some cA) Ew
         (paused cA CA E (alloc (rebind (Some B) σ)))) Er
      (resumed cA C' E' (logged [EvLockerExit B] σd))) as Hi.
    simpl in Hi. lia. }
  rewrite wall_left_timers. simpl. rewrite HexA, lookup_insert_eq.
  split; [done|]. split; [done|]. intros σ3 Hp.
  apply CpuTimer_Pause_Ok in Hp as (C3 & E3 & HC3 & HE3 & Hinst3 & ->).
  simpl in HC3. rewrite wall_left_timers in HC3. simpl in HC3.
  rewrite lookup_insert_eq in HC3. injection HC3 as <-. simpl in *.
  assert (Hv3 : cpu_view (executors
            (wall_left (wall_object (next_object σ) B (Some cA) Ew
                          (paused cA CA E (alloc (rebind (Some B) σ)))) Er
               (resumed cA C' E' (logged [EvLockerExit B] σd)))) A =
          Some (Some cA, v)).
  { rewrite cpu_view_wall_left by done. unfold cpu_view. simpl.
    rewrite HexA, lookup_insert_eq. simpl. by rewrite Hv. }
  rewrite HexA in HE3. unfold cpu_view in Hv3. rewrite HE3 in Hv3. simpl in Hv3.
  injection Hv3 as _ Hv3.
  unfold cpu_view. rewrite HexA, lookup_insert_eq. simpl. by rewrite Hv3.
Qed.

End Attribution.
(** ** Accumulated times never decrease *)

Section Monotone.
Context `{Platform}.
Hypothesis cputime_monotone : monotone clock_thread_cputime.
Hypothesis steady_monotone : monotone steady_clock_now.

Lemma cpu_clock_monotone : monotone cpu_clock.
Proof. unfold cpu_clock. by destruct USE_CLOCK_THREAD_CPUTIME_ID. Qed.

Lemma grows_refl σ : grows σ σ.
Proof. intros e E HE. exists E. split; [done|lia]. Qed.

Lemma grows_trans σ1 σ2 σ3 : grows σ1 σ2 → grows σ2 σ3 → grows σ1 σ3.
Proof.
  intros H1 H2 e E HE. destruct (H1 e E HE) as (E' & HE' & ? & ?).
  destruct (H2 e E' HE') as (E'' & ? & ? & ?). exists E''. split; [done|lia].
Qed.

Lemma grows_same σ σ' : executors σ' = executors σ → grows σ σ'.
Proof. intros He e E HE. exists E. rewrite He. split; [done|lia]. Qed.

Lemma timed_plain W σ σ' :
  timed W σ → executors σ' = executors σ → cpu_timers σ' = cpu_timers σ →
  (next_object σ ≤ next_object σ')%nat → (instant σ ≤ instant σ')%nat →
  timed W σ'.
Proof.
  intros (Ht & Hb & Hw) He Hts Hn Hi. split_and!.
  - intros c C k. rewrite Hts. intros HC Hk. apply (Ht c C k HC). lia.
  - intros e E w. rewrite He. intros HE Hwt. specialize (Hb e E w HE Hwt). lia.
  - eapply Forall_impl; [exact Hw|]. intros w [Hlt Hp]. split; [lia|].
    intros E k. rewrite He. intros HE Hwt Hk. apply (Hp E k HE Hwt). lia.
Qed.

(** An update of the CPU fields of one executor, together with an update of
    the CpuTimer store. *)
Lemma timed_cpu W σ e E E' ts cur head n i tr :
  timed W σ → executors σ !! e = Some E →
  wall_timer E' = wall_timer E → wall_time E' = wall_time E →
  cpu_time E ≤ cpu_time E' →
  (∀ c C k, ts !! c = Some C → (i ≤ k)%nat → ct_time C ≤ cpu_clock k) →
  (next_object σ ≤ n)%nat → (instant σ ≤ i)%nat →
  timed W (mkState (<[e := E']> (executors σ)) ts cur head n i tr) ∧
  grows σ (mkState (<[e := E']> (executors σ)) ts cur head n i tr).
Proof.
  intros (Ht & Hb & Hw) HE Hwt Hwd Hcpu Hts Hn Hi. split; [split_and!|].
  - done.
  - intros e1 E1 w. simpl. destruct (decide (e1 = e)) as [->|Hne].
    + rewrite lookup_insert_eq. intros [= <-]. rewrite Hwt. intros Hw1.
      specialize (Hb e E w HE Hw1). lia.
    + rewrite lookup_insert_ne by done. intros HE1 Hw1.
      specialize (Hb e1 E1 w HE1 Hw1). lia.
  - eapply Forall_impl; [exact Hw|]. intros w [Hlt Hp]. split; [simpl; lia|].
    intros E1 k. simpl. destruct (decide (wt_executor w = e)) as [Heq|Hne].
    + rewrite Heq, lookup_insert_eq. intros [= <-]. rewrite Hwt. intros Hw1 Hk.
      rewrite Heq in Hp. apply (Hp E k HE Hw1). lia.
    + rewrite lookup_insert_ne by done. intros HE1 Hw1 Hk.
      apply (Hp E1 k HE1 Hw1). lia.
  - intros e1 E1 HE1. simpl. destruct (decide (e1 = e)) as [->|Hne].
    + rewrite lookup_insert_eq. exists E'. rewrite HE in HE1.
      injection HE1 as <-. split; [done|lia].
    + rewrite lookup_insert_ne by done. exists E1. split; [done|lia].
Qed.

Lemma timers_past_insert σ c last i e :
  timers_past σ → (instant σ ≤ i)%nat →
  ∀ c' C k, <[c := mkCpuTimer e last (cpu_clock (instant σ))]> (cpu_timers σ) !! c' = Some C →
    (i ≤ k)%nat → ct_time C ≤ cpu_clock k.
Proof.
  intros Ht Hi c' C k. destruct (decide (c' = c)) as [->|Hne].
  - rewrite lookup_insert_eq. intros [= <-] Hk. simpl.
    apply cpu_clock_monotone. lia.
  - rewrite lookup_insert_ne by done. intros HC Hk. apply (Ht c' C k HC). lia.
Qed.

Lemma timers_past_later σ i :
  timers_past σ → (instant σ ≤ i)%nat →
  ∀ c C k, cpu_timers σ !! c = Some C → (i ≤ k)%nat → ct_time C ≤ cpu_clock k.
Proof. intros Ht Hi c C k HC Hk. apply (Ht c C k HC). lia. Qed.

Lemma timed_ctor W e σ c σ' :
  timed W σ → CpuTimer_ctor e σ = Ok (c, σ') → timed W σ' ∧ grows σ σ'.
Proof.
  intros HT Hc. inv_step. destruct (HT) as (Ht & _).
  eapply timed_cpu; eauto; simpl; try lia.
  apply timers_past_insert; [done|lia].
Qed.

Lemma timed_dtor W σ c σ' :
  timed W σ → CpuTimer_dtor c σ = Ok ((), σ') → timed W σ' ∧ grows σ σ'.
Proof.
  intros HT Hc. inv_step. destruct (HT) as (Ht & _).
  eapply timed_cpu; eauto; simpl; try lia.
  - assert (ct_time x ≤ cpu_clock (instant σ)) by (eapply Ht; eauto). lia.
  - apply timers_past_later; [done|lia].
Qed.

Lemma timed_Pause W σ c σ' :
  timed W σ → CpuTimer_Pause c σ = Ok ((), σ') → timed W σ' ∧ grows σ σ'.
Proof.
  intros HT Hc. inv_step. destruct (HT) as (Ht & _).
  eapply timed_cpu; eauto; simpl; try lia.
  - assert (ct_time x ≤ cpu_clock (instant σ)) by (eapply Ht; eauto). lia.
  - apply timers_past_later; [done|lia].
Qed.

Lemma timed_Resume W σ c σ' :
  timed W σ → CpuTimer_Resume c σ = Ok ((), σ') → timed W σ' ∧ grows σ σ'.
Proof.
  intros HT Hc. inv_step. destruct (HT) as (Ht & _).
  eapply timed_cpu; eauto; simpl; try lia.
  apply timers_past_insert; [done|lia].
Qed.

Lemma timed_logged W evs σ : timed W σ → timed W (logged evs σ).
Proof. intros. by eapply timed_plain. Qed.

Lemma timed_rebind W x σ : timed W σ → timed W (rebind x σ).
Proof. intros. by eapply timed_plain. Qed.

Lemma timed_alloc W σ : timed W σ → timed W (alloc σ).
Proof. intros. eapply timed_plain; eauto; simpl; lia. Qed.

Lemma timed_when_Pause W p σ σ' :
  timed W σ → when_set p CpuTimer_Pause σ = Ok ((), σ') →
  timed W σ' ∧ grows σ σ'.
Proof.
  intros HT [[_ ->]|(c & _ & Hp)]%when_set_Ok.
  - split; [done|apply grows_refl].
  - by eapply timed_Pause.
Qed.

Lemma timed_when_Resume W p σ σ' :
  timed W σ → when_set p CpuTimer_Resume σ = Ok ((), σ') →
  timed W σ' ∧ grows σ σ'.
Proof.
  intros HT [[_ ->]|(c & _ & Hp)]%when_set_Ok.
  - split; [done|apply grows_refl].
  - by eapply timed_Resume.
Qed.

Lemma when_Pause_wall_view p σ σ' e :
  when_set p CpuTimer_Pause σ = Ok ((), σ') →
  wall_view (executors σ') e = wall_view (executors σ) e.
Proof. intros Hp. inv_step; [done|]. simpl. by eapply wall_view_insert. Qed.

Lemma when_Resume_wall_view p σ σ' e :
  when_set p CpuTimer_Resume σ = Ok ((), σ') →
  wall_view (executors σ') e = wall_view (executors σ) e.
Proof. intros Hp. inv_step; [done|]. simpl. by eapply wall_view_insert. Qed.

Lemma timed_WallTimer_ctor W e σ w σ' :
  timed W σ → WallTimer_ctor e σ = Ok (w, σ') →
  timed (w :: W) σ' ∧ grows σ σ'.
Proof.
  intros HT Hw. apply WallTimer_ctor_Ok in Hw as (σ1 & E & Hp & HE & -> & ->).
  assert (Hfresh : Forall (λ w, wt_this w ≠ next_object σ) W).
  { destruct HT as (_ & _ & HW). eapply Forall_impl; [exact HW|].
    intros w [? _]. lia. }
  assert (Hold : ∀ w0, wall_timer E = Some w0 → (w0 < next_object σ)%nat).
  { intros w0 Hw0. pose proof (when_Pause_wall_view _ _ _ e Hp) as Hv.
    unfold wall_view in Hv. rewrite HE in Hv. simpl in Hv.
    destruct (executors σ !! e) as [E0|] eqn:HE0; [|done].
    injection Hv as Hv _. destruct HT as (_ & Hb & _).
    apply (Hb e E0 w0 HE0). congruence. }
  assert (Hn1 : (next_object σ < next_object σ1)%nat).
  { apply when_set_Ok in Hp as [[_ ->]|(c & _ & Hp)]; [simpl; lia|].
    inv_step. simpl. lia. }
  eapply timed_when_Pause in Hp as [(Ht & Hb & HW) Hg]; [|by apply timed_alloc].
  assert (Hg0 : grows σ σ1).
  { eapply grows_trans; [|exact Hg]. by apply grows_same. }
  unfold walls_past in HW.
  unfold wall_entered, wall_object. case_bool_decide as Hnull.
  - split; [split_and!|].
    + intros c C k HC Hk. simpl in *. apply (Ht c C k HC). lia.
    + intros e1 E1 w1. simpl. destruct (decide (e1 = e)) as [->|Hne].
      * rewrite lookup_insert_eq. intros [= <-]. simpl. intros [= <-]. lia.
      * rewrite lookup_insert_ne by done. apply Hb.
    + apply Forall_cons. split.
      * simpl. split; [lia|]. intros E1 k _ _ Hk. apply steady_monotone. lia.
      * rewrite Forall_forall in Hfresh.
        rewrite Forall_forall in HW. apply Forall_forall. intros w Hin.
        destruct (HW w Hin) as [Hlt Hpast]. split; [done|].
        intros E1 k. simpl. destruct (decide (wt_executor w = e)) as [Heq|Hne].
        -- rewrite Heq, lookup_insert_eq. intros [= <-]. simpl. intros [= Hw].
           exfalso. by eapply Hfresh.
        -- rewrite lookup_insert_ne by done. intros HE1 Hw1 Hk.
           apply (Hpast E1 k HE1 Hw1). lia.
    + eapply grows_trans; [exact Hg0|]. intros e1 E1 HE1. simpl.
      destruct (decide (e1 = e)) as [->|Hne].
      * rewrite lookup_insert_eq. eexists. split; [done|]. simpl.
        rewrite HE in HE1. injection HE1 as <-. lia.
      * rewrite lookup_insert_ne by done. exists E1. split; [done|lia].
  - split; [split_and!|]; [done|done| |by apply (grows_trans _ σ1); [|apply grows_same]].
    apply Forall_cons. split; [|done]. simpl. split; [done|].
    intros E1 k. rewrite HE. intros [= <-] Hw. exfalso.
    specialize (Hold _ Hw). lia.
Qed.

Lemma timed_WallTimer_dtor W σ w σ' :
  timed (w :: W) σ → WallTimer_dtor w σ = Ok ((), σ') →
  timed W σ' ∧ grows σ σ'.
Proof.
  intros HT Hw. apply WallTimer_dtor_Ok in Hw as (σ1 & E & Hp & HE & ->).
  eapply timed_when_Resume in Hp as [(Ht & Hb & HW) Hg]; [|exact HT].
  apply Forall_cons in HW as [[Hlt Hpast] HW].
  unfold wall_left. case_bool_decide as Hinst.
  - split; [split_and!|].
    + intros c C k HC Hk. simpl in *. apply (Ht c C k HC). lia.
    + intros e1 E1 w1. simpl.
      destruct (decide (e1 = wt_executor w)) as [->|Hne].
      * rewrite lookup_insert_eq. by intros [= <-].
      * rewrite lookup_insert_ne by done. apply Hb.
    + eapply Forall_impl; [exact HW|]. intros w1 [Hlt1 Hpast1]. split; [done|].
      intros E1 k. simpl.
      destruct (decide (wt_executor w1 = wt_executor w)) as [Heq|Hne].
      * rewrite Heq, lookup_insert_eq. by intros [= <-].
      * rewrite lookup_insert_ne by done. intros HE1 Hw1 Hk.
        apply (Hpast1 E1 k HE1 Hw1). lia.
    + eapply grows_trans; [exact Hg|]. intros e1 E1 HE1. simpl.
      destruct (decide (e1 = wt_executor w)) as [->|Hne].
      * rewrite lookup_insert_eq. eexists. split; [done|]. simpl.
        rewrite HE in HE1. injection HE1 as <-.
        specialize (Hpast E (instant σ1) HE Hinst). lia.
      * rewrite lookup_insert_ne by done. exists E1. split; [done|lia].
  - split; [split_and!|]; [done|done|done|].
    by apply (grows_trans _ σ1); [|apply grows_same].
Qed.

Lemma timed_born W this d thr cur σ :
  timed W σ → executors σ !! this = None →
  timed W (born this d thr cur σ) ∧ grows σ (born this d thr cur σ).
Proof.
  intros (Ht & Hb & HW) Hf. split; [split_and!|].
  - done.
  - intros e1 E1 w1. simpl. destruct (decide (e1 = this)) as [->|Hne].
    + rewrite lookup_insert_eq. by intros [= <-].
    + rewrite lookup_insert_ne by done. apply Hb.
  - eapply Forall_impl; [exact HW|]. intros w1 [Hlt1 Hpast1]. split; [done|].
    intros E1 k. simpl.
    destruct (decide (wt_executor w1 = this)) as [Heq|Hne].
    + rewrite Heq, lookup_insert_eq. by intros [= <-].
    + rewrite lookup_insert_ne by done. apply Hpast1.
  - intros e1 E1 HE1. simpl. exists E1.
    rewrite lookup_insert_ne by congruence. split; [done|lia].
Qed.

Lemma walls_cons f fs : walls (f :: fs) = walls [f] ++ walls fs.
Proof. unfold walls. simpl. by destruct (frame_wall f). Qed.

Lemma step_timed a fs σ fs' σ' :
  timed (walls fs) σ → step a fs σ = Ok (fs', σ') →
  timed (walls fs') σ' ∧ grows σ σ'.
Proof.
  intros HT Hs. apply step_Ok in Hs. destruct a as [k| |e].
  - destruct Hs as (f & Hc & ->). apply construct_Ok in Hc.
    destruct k as [e|e|e|e|e].
    + destruct Hc as [-> ->]. split; [by apply timed_rebind|by apply grows_same].
    + destruct Hc as (c & Hc & ->). by eapply timed_ctor.
    + destruct Hc as (w & Hc & ->). by eapply timed_WallTimer_ctor.
    + destruct Hc as (l & Hc & ->).
      apply Lock_ctor_Ok in Hc as (w & σ1 & c & σ2 & Hw & Hc & -> & ->).
      eapply timed_WallTimer_ctor in Hw as [HT1 Hg1]; [|by apply timed_rebind].
      eapply timed_ctor in Hc as [HT2 Hg2]; [|by apply timed_logged].
      split; [by apply timed_logged|].
      eapply grows_trans; [|by apply grows_same].
      eapply grows_trans; [|exact Hg2].
      eapply grows_trans; [|by apply grows_same].
      eapply grows_trans; [|exact Hg1]. by apply grows_same.
    + destruct Hc as (u & Hc & ->).
      apply Unlock_ctor_Ok in Hc as (E & c & σ1 & HE & Hcpu & Hp & -> & ->).
      eapply timed_Pause in Hp as [HT1 Hg1]; [|by apply timed_logged].
      split; [by apply timed_logged|].
      eapply grows_trans; [|by apply grows_same].
      eapply grows_trans; [|exact Hg1]. by apply grows_same.
  - destruct Hs as (f & -> & Hd). destruct f as [s|c|w|l|u]; simpl in Hd.
    + rewrite Scope_dtor_eq in Hd. injection Hd as <-.
      split; [by apply timed_rebind|by apply grows_same].
    + by eapply timed_dtor.
    + change (walls (FWallTimer w :: fs')) with (w :: walls fs') in HT.
      by eapply timed_WallTimer_dtor.
    + apply Lock_dtor_Ok in Hd as (σ1 & σ2 & Hc & Hw & ->).
      change (walls (FLock l :: fs')) with (lk_wall_timer l :: walls fs') in HT.
      eapply timed_dtor in Hc as [HT1 Hg1]; [|by apply timed_logged].
      eapply timed_WallTimer_dtor in Hw as [HT2 Hg2]; [|by apply timed_logged].
      split; [by apply timed_rebind|].
      eapply grows_trans; [|by apply grows_same].
      eapply grows_trans; [|exact Hg2].
      eapply grows_trans; [|by apply grows_same].
      eapply grows_trans; [|exact Hg1]. by apply grows_same.
    + apply Unlock_dtor_Ok in Hd as (c & Hu & Hr).
      eapply timed_Resume in Hr as [HT1 Hg1]; [|by apply timed_logged].
      split; [done|]. eapply grows_trans; [|exact Hg1]. by apply grows_same.
  - destruct Hs as [Hc ->].
    apply Executor_ctor_Ok in Hc as [Hf [[_ ->]|[(d & D & _ & _ & _ & ->)|[_ ->]]]];
      by apply timed_born.
Qed.

Lemma exec_timed acts fs σ fs' σ' :
  timed (walls fs) σ → exec acts fs σ = Ok (fs', σ') → timed (walls fs') σ'.
Proof.
  revert fs σ. induction acts as [|a acts IH]; intros fs σ HT; simpl.
  - by intros [= <- <-].
  - rewrite bind_Ok. intros (fs1 & σ1 & Hs & He).
    destruct (step_timed _ _ _ _ _ HT Hs) as [HT1 _]. exact (IH fs1 σ1 HT1 He).
Qed.

(** C6. With clocks that never go back, no sequence of operations of the
    core makes the accumulated CPU time or the accumulated wall time of any
    executor smaller. *)
Theorem accumulated_times_never_decrease acts fs σ fs' σ' :
  timed (walls fs) σ →
  exec acts fs σ = Ok (fs', σ') →
  ∀ e E, executors σ !! e = Some E →
    ∃ E', executors σ' !! e = Some E' ∧
          cpu_time E ≤ cpu_time E' ∧ wall_time E ≤ wall_time E'.
Proof.
  revert fs σ. induction acts as [|a acts IH]; intros fs σ HT; simpl.
  - intros [= <- <-]. apply grows_refl.
  - rewrite bind_Ok. intros (fs1 & σ1 & Hs & He).
    destruct (step_timed _ _ _ _ _ HT Hs) as [HT1 Hg1].
    eapply grows_trans; [exact Hg1|]. exact (IH fs1 σ1 HT1 He).
Qed.

End Monotone.
(** ** Accesses under [timer_mutex] *)

Create HintDb guard.

Section Guard.
Context `{Platform}.

Lemma held_after_app h a b :
  held_after h (a ++ b) = held_after (held_after h a) b.
Proof.
  revert h. induction a as [|ev a IH]; intros h; [done|].
  destruct ev; simpl; apply IH.
Qed.

Lemma unguarded_app h a b :
  unguarded h (a ++ b) = unguarded h a ++ unguarded (held_after h a) b.
Proof.
  revert h. induction a as [|ev a IH]; intros h; [done|].
  destruct ev; simpl; rewrite ?IH; try done.
  all: by case_bool_decide.
Qed.

Lemma reads_refl σ : reads σ σ [].
Proof. exists []. by rewrite app_nil_r. Qed.

Lemma reads_trans σ1 σ2 σ3 L1 L2 :
  reads σ1 σ2 L1 → reads σ2 σ3 L2 → reads σ1 σ3 (L1 ++ L2).
Proof.
  intros (a & Ha & Hha & Hua) (b & Hb & Hhb & Hub). exists (a ++ b).
  split_and!.
  - by rewrite Hb, Ha, app_assoc.
  - by rewrite held_after_app, Hha.
  - by rewrite unguarded_app, Hha, Hua, Hub.
Qed.

(** A step whose accesses are all made under the mutex. *)
Lemma reads_emit σ0 σ σ' L evs :
  reads σ0 σ L → trace σ' = trace σ ++ evs →
  held_after [] evs = [] → unguarded [] evs = [] → reads σ0 σ' L.
Proof.
  intros H0 Htr Hh Hu. rewrite <- (app_nil_r L).
  eapply reads_trans; [exact H0|]. by exists evs.
Qed.

(** A step that makes one access without the mutex, after guarded ones. *)
Lemma reads_one σ0 σ σ' evs ev :
  reads σ0 σ [] → trace σ' = trace σ ++ evs →
  held_after [] evs = [] → unguarded [] evs = [ev] → reads σ0 σ' [ev].
Proof.
  intros H0 Htr Hh Hu. change [ev] with ([] ++ [ev]).
  eapply reads_trans; [exact H0|]. by exists evs.
Qed.

Lemma reads_silent σ0 σ σ' L :
  reads σ0 σ L → trace σ' = trace σ → reads σ0 σ' L.
Proof.
  intros H0 Htr. eapply (reads_emit _ _ _ _ []); eauto.
  by rewrite app_nil_r.
Qed.

(** A block of accesses to the fields of [e] under the mutex of [e]. *)
Ltac scan :=
  repeat (simpl; rewrite ?bool_decide_eq_true_2 by (done || set_solver)).

Lemma start_events_guarded c e :
  held_after [] (start_events c e) = [] ∧ unguarded [] (start_events c e) = [].
Proof. unfold start_events. by scan. Qed.

Lemma stop_events_guarded c e :
  held_after [] (stop_events c e) = [] ∧ unguarded [] (stop_events c e) = [].
Proof. unfold stop_events. by scan. Qed.

Lemma pause_events_guarded c e x :
  held_after [] (pause_events c e x) = [] ∧
  unguarded [] (pause_events c e x) = [].
Proof. unfold pause_events. by scan. Qed.

Lemma resume_events_guarded c e x :
  held_after [] (resume_events c e x) = [] ∧
  unguarded [] (resume_events c e x) = [].
Proof. unfold resume_events. by scan. Qed.

Lemma wall_enter_events_guarded e :
  held_after [] (wall_enter_events e) = [] ∧
  unguarded [] (wall_enter_events e) = [EvRead e f_wall_timer].
Proof. unfold wall_enter_events. by scan. Qed.

Lemma wall_leave_events_guarded e :
  held_after [] (wall_leave_events e) = [] ∧
  unguarded [] (wall_leave_events e) = [EvRead e f_wall_timer].
Proof. unfold wall_leave_events. by scan. Qed.

Lemma reads_started σ0 e E σ L :
  reads σ0 σ L → reads σ0 (started e E σ) L.
Proof.
  intros H0. destruct (start_events_guarded (next_object σ) e) as [Hh Hu].
  eapply reads_emit; eauto.
Qed.

Lemma reads_stopped σ0 c C E σ L :
  reads σ0 σ L → reads σ0 (stopped c C E σ) L.
Proof.
  intros H0. destruct (stop_events_guarded c (ct_executor C)) as [Hh Hu].
  eapply reads_emit; eauto.
Qed.

Lemma reads_paused σ0 c C E σ L :
  reads σ0 σ L → reads σ0 (paused c C E σ) L.
Proof.
  intros H0. destruct (pause_events_guarded c (ct_executor C) (env E)) as [Hh Hu].
  eapply reads_emit; eauto.
Qed.

Lemma reads_resumed σ0 c C E σ L :
  reads σ0 σ L → reads σ0 (resumed c C E σ) L.
Proof.
  intros H0. destruct (resume_events_guarded c (ct_executor C) (env E)) as [Hh Hu].
  eapply reads_emit; eauto.
Qed.

(** The constructor of a WallTimer tests [wall_timer] without the mutex,
    whether it installs itself or not. *)
Lemma reads_wall_entered σ0 this e E σ :
  reads σ0 σ [] → reads σ0 (wall_entered this e E σ) [EvRead e f_wall_timer].
Proof.
  intros H0. unfold wall_entered. case_bool_decide.
  - destruct (wall_enter_events_guarded e) as [Hh Hu].
    eapply reads_one; eauto.
  - eapply (reads_one _ _ _ (wall_skip_events e)); eauto.
Qed.

Lemma reads_wall_left σ0 w E σ :
  reads σ0 σ [] →
  reads σ0 (wall_left w E σ) [EvRead (wt_executor w) f_wall_timer].
Proof.
  intros H0. unfold wall_left. case_bool_decide.
  - destruct (wall_leave_events_guarded (wt_executor w)) as [Hh Hu].
    eapply reads_one; eauto.
  - eapply (reads_one _ _ _ (wall_skip_events (wt_executor w))); eauto.
Qed.

(** Unlock reads the pointer it pauses without the mutex. *)
Lemma reads_pointer σ0 e σ :
  reads σ0 σ [] →
  reads σ0 (logged [EvRead e f_cpu_timer] σ) [EvRead e f_cpu_timer].
Proof. intros H0. eapply reads_one; eauto. Qed.

Lemma reads_rebind σ0 x σ L : reads σ0 σ L → reads σ0 (rebind x σ) L.
Proof. intros. by eapply reads_silent. Qed.

Lemma reads_alloc σ0 σ L : reads σ0 σ L → reads σ0 (alloc σ) L.
Proof. intros. by eapply reads_silent. Qed.

Lemma reads_born σ0 this d thr cur σ L :
  reads σ0 σ L → reads σ0 (born this d thr cur σ) L.
Proof. intros. by eapply reads_silent. Qed.

Lemma reads_logged σ0 evs σ L :
  reads σ0 σ L → held_after [] evs = [] → unguarded [] evs = [] →
  reads σ0 (logged evs σ) L.
Proof. intros. by eapply reads_emit. Qed.

Hint Resolve reads_refl reads_started reads_stopped reads_paused
  reads_resumed reads_wall_entered reads_wall_left reads_pointer
  reads_rebind reads_alloc reads_born : guard.
Hint Extern 2 (reads _ (logged _ _) _) =>
  apply reads_logged; [|reflexivity|reflexivity] : guard.

Lemma construct_reads k σ f σ' :
  construct k σ = Ok (f, σ') → reads σ σ' (ctor_reads k) ∧ declared_as k f.
Proof.
  intros Hc. destruct k; inv_step; simpl; (split; [|done]);
    eauto 12 with guard.
Qed.

Lemma destroy_reads k f σ σ' :
  declared_as k f → destroy f σ = Ok ((), σ') → reads σ σ' (dtor_reads k).
Proof.
  intros Hk Hd. destruct k, f; simpl in Hk; try done; inv_step; simpl;
    eauto 12 with guard.
Qed.

Lemma exec_reads acts open fs σ fs' σ' :
  Forall2 declared_as open fs → exec acts fs σ = Ok (fs', σ') →
  reads σ σ' (unlocked_reads open acts).
Proof.
  revert open fs σ. induction acts as [|a acts IH]; intros open fs σ Ho; simpl.
  - intros [= <- <-]. apply reads_refl.
  - rewrite bind_Ok. intros (fs1 & σ1 & Hs & He).
    apply step_Ok in Hs. destruct a as [k| |e].
    + destruct Hs as (f & Hc & ->).
      apply construct_reads in Hc as [Hr Hk].
      eapply reads_trans; [exact Hr|].
      eapply IH; [|exact He]. by constructor.
    + destruct Hs as (f & -> & Hd).
      apply Forall2_cons_inv_r in Ho as (k & open' & Hk & Ho & ->).
      eapply reads_trans; [by eapply destroy_reads|]. by eapply IH.
    + destruct Hs as [Hc ->].
      change (unlocked_reads open acts) with ([] ++ unlocked_reads open acts).
      eapply reads_trans; [|by eapply IH].
      inv_step; eauto with guard.
Qed.

Lemma unlocked_reads_pointers open acts :
  Forall (λ ev, pointer_read ev = true) (unlocked_reads open acts).
Proof.
  revert open. induction acts as [|a acts IH]; intros open; simpl; [constructor|].
  destruct a as [k| |e].
  - apply Forall_app. split; [|apply IH]. destruct k; by repeat constructor.
  - destruct open as [|k open]; [constructor|].
    apply Forall_app. split; [|apply IH]. destruct k; by repeat constructor.
  - apply IH.
Qed.

(** The events of a Pause or of a Resume that a WallTimer performs on the
    CpuTimer it has captured. *)
Lemma when_Pause_reads p σ σ' :
  when_set p CpuTimer_Pause σ = Ok ((), σ') →
  reads σ σ' [] ∧ ∀ e, wall_view (executors σ') e = wall_view (executors σ) e.
Proof.
  intros Hp. inv_step.
  - split; [apply reads_refl|done].
  - split; [eauto with guard|]. intros e. simpl. by eapply wall_view_insert.
Qed.

Lemma when_Resume_reads p σ σ' :
  when_set p CpuTimer_Resume σ = Ok ((), σ') →
  reads σ σ' [] ∧ ∀ e, wall_view (executors σ') e = wall_view (executors σ) e.
Proof.
  intros Hp. inv_step.
  - split; [apply reads_refl|done].
  - split; [eauto with guard|]. intros e. simpl. by eapply wall_view_insert.
Qed.

(** C3, as amended. Every write of [cpu_time], [wall_time], [cpu_timer] and
    [wall_timer] and every read of [cpu_time] and [wall_time] is made under
    the [timer_mutex] of the executor accessed, and the accesses made
    without it are exactly these pointer reads, in the order of the run:
    one test of [wall_timer] by the constructor and one by the destructor
    of each WallTimer (declared on its own or as the member of a Lock), on
    the executor of the WallTimer, and one read of [cpu_timer] by the
    constructor of each Unlock, on the executor of its environment. The
    test of a WallTimer comes after the Pause or the Resume of the captured
    CpuTimer, which is guarded, and right before the WallTimer locks, if it
    locks at all; the read of Unlock comes first. The construction, the
    destruction, Pause and Resume of a CpuTimer and the end of an Unlock
    make no access without the mutex, and Scope and the constructor of
    Executor access none of the four fields. *)
Theorem timer_fields_written_under_timer_mutex :
  (∀ acts open fs σ fs' σ',
     Forall2 declared_as open fs → exec acts fs σ = Ok (fs', σ') →
     ∃ evs, trace σ' = trace σ ++ evs ∧ held_after [] evs = [] ∧
            unguarded [] evs = unlocked_reads open acts ∧
            Forall (λ ev, pointer_read ev = true) (unguarded [] evs)) ∧
  (∀ e σ c σ', CpuTimer_ctor e σ = Ok (c, σ') →
     ∃ evs, trace σ' = trace σ ++ evs ∧ unguarded [] evs = []) ∧
  (∀ c σ σ', CpuTimer_dtor c σ = Ok ((), σ') →
     ∃ evs, trace σ' = trace σ ++ evs ∧ unguarded [] evs = []) ∧
  (∀ c σ σ', CpuTimer_Pause c σ = Ok ((), σ') →
     ∃ evs, trace σ' = trace σ ++ evs ∧ unguarded [] evs = []) ∧
  (∀ c σ σ', CpuTimer_Resume c σ = Ok ((), σ') →
     ∃ evs, trace σ' = trace σ ++ evs ∧ unguarded [] evs = []) ∧
  (∀ e σ w σ', WallTimer_ctor e σ = Ok (w, σ') →
     ∃ E pre post,
       executors σ !! e = Some E ∧
       trace σ' = trace σ ++ pre ++ EvRead e f_wall_timer :: post ∧
       held_after [] pre = [] ∧ unguarded [] pre = [] ∧
       post = (if bool_decide (wall_timer E = None)
               then [EvAcquire e; EvWrite e f_wall_timer; EvRelease e]
               else [])) ∧
  (∀ w σ σ', WallTimer_dtor w σ = Ok ((), σ') →
     ∃ E pre post,
       executors σ !! wt_executor w = Some E ∧
       trace σ' = trace σ ++ pre ++ EvRead (wt_executor w) f_wall_timer :: post ∧
       held_after [] pre = [] ∧ unguarded [] pre = [] ∧
       post = (if bool_decide (wall_timer E = Some (wt_this w))
               then [EvAcquire (wt_executor w);
                     EvWrite (wt_executor w) f_wall_timer;
                     EvRead (wt_executor w) f_wall_time;
                     EvWrite (wt_executor w) f_wall_time;
                     EvRelease (wt_executor w)]
               else [])) ∧
  (∀ e σ u σ', Unlock_ctor e σ = Ok (u, σ') →
     ∃ post, trace σ' = trace σ ++ EvRead e f_cpu_timer :: post ∧
             held_after [] post = [] ∧ unguarded [] post = []) ∧
  (∀ u σ σ', Unlock_dtor u σ = Ok ((), σ') →
     ∃ evs, trace σ' = trace σ ++ evs ∧ unguarded [] evs = []) ∧
  (∀ e σ s σ', Scope_ctor e σ = Ok (s, σ') → trace σ' = trace σ) ∧
  (∀ s σ σ', Scope_dtor s σ = Ok ((), σ') → trace σ' = trace σ) ∧
  (∀ e σ σ', Executor_ctor e σ = Ok ((), σ') → trace σ' = trace σ).
Proof.
  split_and!.
  - intros acts open fs σ fs' σ' Ho He.
    destruct (exec_reads _ _ _ _ _ _ Ho He) as (evs & Htr & Hh & Hu).
    exists evs. split_and!; try done.
    rewrite Hu. apply unlocked_reads_pointers.
  - intros e σ c σ' Hc. inv_step. eexists. split; [reflexivity|].
    apply start_events_guarded.
  - intros c σ σ' Hc. inv_step. eexists. split; [reflexivity|].
    apply stop_events_guarded.
  - intros c σ σ' Hc. inv_step. eexists. split; [reflexivity|].
    apply pause_events_guarded.
  - intros c σ σ' Hc. inv_step. eexists. split; [reflexivity|].
    apply resume_events_guarded.
  - intros e σ w σ' Hw.
    apply WallTimer_ctor_Ok in Hw as (σ1 & E1 & Hp & HE1 & -> & ->).
    apply when_Pause_reads in Hp as [(pre & Htr & Hh & Hu) Hv].
    specialize (Hv e). unfold wall_view in Hv. rewrite HE1 in Hv.
    simpl in Hv. destruct (executors σ !! e) as [E|] eqn:HE; [|done].
    simpl in Hv. injection Hv as Hwt _.
    exists E, pre. eexists. split; [done|]. split_and!; [|done|done|reflexivity].
    rewrite <- Hwt. unfold wall_entered.
    case_bool_decide; simpl; rewrite Htr; simpl; by rewrite <- app_assoc.
  - intros w σ σ' Hw.
    apply WallTimer_dtor_Ok in Hw as (σ1 & E1 & Hp & HE1 & ->).
    apply when_Resume_reads in Hp as [(pre & Htr & Hh & Hu) Hv].
    specialize (Hv (wt_executor w)). unfold wall_view in Hv.
    rewrite HE1 in Hv. simpl in Hv.
    destruct (executors σ !! wt_executor w) as [E|] eqn:HE; [|done].
    simpl in Hv. injection Hv as Hwt _.
    exists E, pre. eexists. split; [done|]. split_and!; [|done|done|reflexivity].
    rewrite <- Hwt. unfold wall_left.
    case_bool_decide; simpl; rewrite Htr; simpl; by rewrite <- app_assoc.
  - intros e σ u σ' Hu. inv_step. eexists. split.
    + simpl. rewrite <- !app_assoc. reflexivity.
    + simpl. rewrite !bool_decide_eq_true_2 by set_solver. done.
  - intros u σ σ' Hu. inv_step. eexists. split.
    + simpl. rewrite <- !app_assoc. reflexivity.
    + simpl. rewrite !bool_decide_eq_true_2 by set_solver. done.
  - intros e σ s σ' Hs. rewrite Scope_ctor_eq in Hs. by injection Hs as <- <-.
  - intros s σ σ' Hs. rewrite Scope_dtor_eq in Hs. by injection Hs as <-.
  - intros e σ σ' He. by inv_step.
Qed.

End Guard.
(** ** The order of the steps of Lock *)

Section Order.
Context `{Platform}.

Lemma WallTimer_ctor_trace e σ w σ1 :
  WallTimer_ctor e σ = Ok (w, σ1) →
  ∃ pre, trace σ1 = trace σ ++ pre ∧
    quiet is_start pre ∧ quiet is_locker pre ∧
    (instant σ ≤ instant σ1)%nat ∧
    ∀ c, cpu_timer_thread σ = Some c →
      ∃ C E rest,
        cpu_timers σ !! c = Some C ∧ executors σ !! ct_executor C = Some E ∧
        cpu_timer E = Some c ∧
        pre = pause_events c (ct_executor C) (env E) ++ rest ∧
        cpu_view (executors σ1) (ct_executor C) =
          Some (None, cpu_time E + (cpu_clock (instant σ) - ct_time C)).
Proof.
  intros Hw. apply WallTimer_ctor_Ok in Hw as (σp & Ew & Hp & HEw & -> & ->).
  set (wall := if bool_decide (wall_timer Ew = None)
               then wall_enter_events e else wall_skip_events e).
  assert (Htr : trace (wall_entered (next_object σ) e Ew σp) = trace σp ++ wall).
  { unfold wall_entered, wall. by case_bool_decide. }
  assert (Hq : quiet is_start wall ∧ quiet is_locker wall).
  { unfold wall. case_bool_decide; split; by repeat constructor. }
  assert (Hi : (instant σp ≤ instant (wall_entered (next_object σ) e Ew σp))%nat).
  { unfold wall_entered. case_bool_decide; simpl; lia. }
  destruct Hq as [Hq1 Hq2].
  apply when_set_Ok in Hp as [[Hnone ->]|(c & Hsome & Hp)].
  - exists wall. rewrite Htr. split_and!; try done.
    intros c. by rewrite Hnone.
  - apply CpuTimer_Pause_Ok in Hp as (C & E & HC & HE & Hinst & ->).
    simpl in HC, HE.
    exists (pause_events c (ct_executor C) (env E) ++ wall). rewrite Htr.
    split_and!.
    + simpl. by rewrite <- !app_assoc.
    + apply Forall_app. split; [by repeat constructor|done].
    + apply Forall_app. split; [by repeat constructor|done].
    + simpl in *. lia.
    + intros c'. rewrite Hsome. intros [= <-]. exists C, E, wall.
      split_and!; try done.
      rewrite cpu_view_wall_entered by done. unfold cpu_view. simpl.
      by rewrite lookup_insert_eq.
Qed.

Lemma WallTimer_dtor_trace w σ σ' :
  WallTimer_dtor w σ = Ok ((), σ') →
  ∃ post, trace σ' = trace σ ++ post ∧
    quiet is_stop post ∧ quiet is_locker post ∧
    ∀ c, wt_cpu_timer w = Some c →
      ∃ C E rest,
        cpu_timers σ !! c = Some C ∧ executors σ !! ct_executor C = Some E ∧
        cpu_timer E = None ∧
        post = resume_events c (ct_executor C) (env E) ++ rest ∧
        cpu_view (executors σ') (ct_executor C) = Some (Some c, cpu_time E) ∧
        ct_time <$> cpu_timers σ' !! c = Some (cpu_clock (instant σ)).
Proof.
  intros Hw. apply WallTimer_dtor_Ok in Hw as (σr & Ew & Hr & HEw & ->).
  set (wall := if bool_decide (wall_timer Ew = Some (wt_this w))
               then wall_leave_events (wt_executor w)
               else wall_skip_events (wt_executor w)).
  assert (Htr : trace (wall_left w Ew σr) = trace σr ++ wall).
  { unfold wall_left, wall. by case_bool_decide. }
  assert (Hq : quiet is_stop wall ∧ quiet is_locker wall).
  { unfold wall. case_bool_decide; split; by repeat constructor. }
  destruct Hq as [Hq1 Hq2].
  apply when_set_Ok in Hr as [[Hnone ->]|(c & Hsome & Hr)].
  - exists wall. rewrite Htr. split_and!; try done.
    intros c. by rewrite Hnone.
  - apply CpuTimer_Resume_Ok in Hr as (C & E & HC & HE & Hinst & ->).
    exists (resume_events c (ct_executor C) (env E) ++ wall). rewrite Htr.
    split_and!.
    + simpl. by rewrite <- !app_assoc.
    + apply Forall_app. split; [by repeat constructor|done].
    + apply Forall_app. split; [by repeat constructor|done].
    + intros c'. rewrite Hsome. intros [= <-]. exists C, E, wall.
      split_and!; try done.
      * rewrite cpu_view_wall_left by done. unfold cpu_view. simpl.
        by rewrite lookup_insert_eq.
      * rewrite wall_left_timers. simpl. by rewrite lookup_insert_eq.
Qed.

(** C1. Lock pauses the thread's current CpuTimer before it asks for the
    isolate locker and constructs its own CpuTimer only once it has the
    locker: when the locker is requested the executor of the paused timer
    has no CpuTimer installed and has been charged up to the pause, and
    the new timer starts counting at a clock reading made after the locker
    is held. The destructor runs the inverse steps in the reverse order:
    the own timer is stopped, the locker is released, and then the paused
    timer is resumed. *)
Theorem Lock_pauses_before_and_starts_after_the_locker :
  (∀ e σ l σ', Lock_ctor e σ = Ok (l, σ') →
     ∃ pre σ1,
       WallTimer_ctor e (rebind (Some e) σ) = Ok (lk_wall_timer l, σ1) ∧
       trace σ1 = trace σ ++ pre ∧
       trace σ' = trace σ ++ pre ++ [EvLocker e] ++
                  start_events (lk_cpu_timer l) e ++
                  [EvIsolateScope e; EvHandleScope e] ∧
       quiet is_start pre ∧ quiet is_locker pre ∧
       (∀ c, cpu_timer_thread σ = Some c →
          ∃ C E rest,
            cpu_timers σ !! c = Some C ∧
            executors σ !! ct_executor C = Some E ∧
            pre = pause_events c (ct_executor C) (env E) ++ rest ∧
            cpu_view (executors σ1) (ct_executor C) =
              Some (None, cpu_time E + (cpu_clock (instant σ) - ct_time C))) ∧
       cpu_timer <$> executors σ1 !! e = Some None ∧
       cpu_timer <$> executors σ' !! e = Some (Some (lk_cpu_timer l)) ∧
       (instant σ ≤ instant σ1)%nat ∧
       ct_time <$> cpu_timers σ' !! lk_cpu_timer l =
         Some (cpu_clock (instant σ1))) ∧
  (∀ l σ σ', Lock_dtor l σ = Ok ((), σ') →
     ∃ C σ1 post,
       cpu_timers σ !! lk_cpu_timer l = Some C ∧
       CpuTimer_dtor (lk_cpu_timer l)
         (logged [EvHandleScopeExit (lk_locker l);
                  EvIsolateScopeExit (lk_locker l)] σ) = Ok ((), σ1) ∧
       trace σ' = trace σ ++
                  [EvHandleScopeExit (lk_locker l);
                   EvIsolateScopeExit (lk_locker l)] ++
                  stop_events (lk_cpu_timer l) (ct_executor C) ++
                  [EvLockerExit (lk_locker l)] ++ post ∧
       quiet is_stop post ∧ quiet is_locker post ∧
       cpu_timer <$> executors σ1 !! ct_executor C = Some None ∧
       (∀ c, wt_cpu_timer (lk_wall_timer l) = Some c →
          ∃ C' E' rest,
            cpu_timers σ1 !! c = Some C' ∧
            post = resume_events c (ct_executor C') (env E') ++ rest ∧
            cpu_timer <$> executors σ' !! ct_executor C' = Some (Some c) ∧
            ct_time <$> cpu_timers σ' !! c = Some (cpu_clock (instant σ1)))).
Proof.
  split.
  - intros e σ l σ' Hl.
    apply Lock_ctor_Ok in Hl as (w & σ1 & c & σ2 & Hw & Hc & -> & ->).
    destruct (WallTimer_ctor_trace _ _ _ _ Hw)
      as (pre & Htr & Hq1 & Hq2 & Hi & Hpause).
    apply CpuTimer_ctor_Ok in Hc as (E & HE & Hnull & -> & ->).
    simpl in *. exists pre, σ1. split_and!; try done.
    + rewrite Htr. by rewrite <- !app_assoc.
    + intros c Hc. destruct (Hpause c Hc) as (C & E0 & rest & ? & ? & ? & ? & ?).
      by exists C, E0, rest.
    + by rewrite HE, <- Hnull.
    + by rewrite lookup_insert_eq.
    + by rewrite lookup_insert_eq.
  - intros l σ σ' Hl.
    apply Lock_dtor_Ok in Hl as (σ1 & σ2 & Hc & Hw & ->).
    destruct (WallTimer_dtor_trace _ _ _ Hw) as (post & Htr & Hq1 & Hq2 & Hres).
    pose proof Hc as Hc'.
    apply CpuTimer_dtor_Ok in Hc' as (C & E & HC & HE & Hinst & Hσ1).
    simpl in *. exists C, σ1, post. split_and!; try done.
    + rewrite Htr. simpl. rewrite Hσ1. simpl. by rewrite <- !app_assoc.
    + rewrite Hσ1. simpl. by rewrite lookup_insert_eq.
    + intros c Hcap.
      destruct (Hres c Hcap) as (C' & E' & rest & ? & ? & ? & ? & Hv & ?).
      exists C', E', rest. split_and!; try done.
      unfold cpu_view in Hv. destruct (executors σ2 !! ct_executor C'); [|done].
      simpl in *. congruence.
Qed.

End Order.
(** ** The quota timer under nested entry *)

Section Quota.
Context `{Platform}.

Lemma holder_calls_app e a b :
  holder_calls e (a ++ b) = holder_calls e a ++ holder_calls e b.
Proof.
  induction a as [|ev a IH]; [done|].
  destruct ev; simpl; try done; case_bool_decide; simpl; by rewrite ?IH.
Qed.

(** Lock(e) on a thread whose current CpuTimer is installed on the same
    executor [e]: the quota timer of [e] is paused for the outer timer and
    is not resumed when the inner one is installed. *)
Lemma Lock_on_current_executor_pauses_quota_timer e σ c C E l σ' :
  cpu_timer_thread σ = Some c → cpu_timers σ !! c = Some C →
  ct_executor C = e → executors σ !! e = Some E → env E = e →
  Lock_ctor e σ = Ok (l, σ') →
  cpu_timer <$> executors σ' !! e = Some (Some (lk_cpu_timer l)) ∧
  holder_calls e (trace σ') = holder_calls e (trace σ) ++ [true].
Proof.
  intros Hhead HC HCe HE Henv Hl.
  apply Lock_ctor_Ok in Hl as (w & σ1 & c' & σ2 & Hw & Hc & -> & ->).
  apply WallTimer_ctor_Ok in Hw as (σp & Ew & Hp & HEw & _ & Hσ1).
  simpl in Hp. rewrite Hhead in Hp. simpl in Hp.
  apply CpuTimer_Pause_Ok in Hp as (C2 & E2 & HC2 & HE2 & _ & Hσp).
  simpl in HC2, HE2. rewrite HC in HC2. injection HC2 as <-.
  rewrite HCe in HE2. rewrite HE in HE2. injection HE2 as <-.
  apply CpuTimer_ctor_Ok in Hc as (E3 & _ & _ & -> & ->).
  split; [simpl; by rewrite lookup_insert_eq|].
  subst σ1 σp. unfold wall_entered.
  case_bool_decide; simpl; rewrite HCe, Henv;
    rewrite !holder_calls_app; simpl;
    rewrite bool_decide_eq_true_2 by done; by rewrite !app_nil_r.
Qed.

End Quota.

(** ** Scoped usage never aborts *)

Section Usage.
Context `{Platform}.

Lemma valid_extends σ σ' p : extends σ σ' → valid σ p → valid σ' p.
Proof.
  intros (_ & _ & He & _) Hv d Hd. destruct (Hv d Hd) as [E HE].
  destruct (He d E HE) as (E' & ? & _). eauto.
Qed.

Lemma linked_extends σ σ' open fs :
  extends σ σ' → linked σ open fs → linked σ' open fs.
Proof.
  intros Hext. revert fs. induction open as [|k o IH]; intros fs; [done|].
  destruct k as [e|e|e|e|e], fs as [|[s|c|w|l|u] fs']; simpl; try done.
  - intros [? ?]. split; [by eapply valid_extends|by apply IH].
  - intros (? & ? & ? & ? & Hlt & (C & HC & ? & ?) & [E HE] & Hv & Hl).
    pose proof Hext as (Hn & _ & He & Ht).
    destruct (Ht _ C Hlt HC) as (C' & ? & ? & ?).
    destruct (He e E HE) as (E' & ? & _).
    split; [done|]. split; [done|]. split; [done|]. split; [done|].
    split; [lia|]. split; [exists C'; split_and!; congruence|].
    split; [eauto|]. split; [|by apply IH].
    by eapply valid_extends.
  - intros (? & ? & ? & ?). split_and!; try done. by apply IH.
Qed.

(** Under Scopes only, no Lock is alive. *)
Lemma linked_no_lock σ open fs :
  linked σ open fs → innermost open = None → lock_head fs = None.
Proof.
  revert fs. induction open as [|k o IH]; intros fs.
  - by destruct fs.
  - destruct k as [e|e|e|e|e], fs as [|[s|c|w|l|u] fs']; simpl; try done.
    intros [_ Hl] Hi. by apply IH.
Qed.

(** The innermost Lock and its CpuTimer. *)
Lemma linked_lock σ open fs e :
  linked σ open fs → innermost open = Some (KLock e) →
  ∃ c C E, lock_head fs = Some c ∧ (c < next_object σ)%nat ∧
           cpu_timers σ !! c = Some C ∧ ct_executor C = e ∧
           executors σ !! e = Some E.
Proof.
  revert fs. induction open as [|k o IH]; intros fs; [done|].
  destruct k as [e'|e'|e'|e'|e'], fs as [|[s|c|w|l|u] fs']; simpl; try done.
  - intros [_ Hl] Hi. by apply IH.
  - intros (? & ? & ? & ? & Hlt & (C & HC & ? & ?) & [E HE] & _) [= <-].
    by exists (lk_cpu_timer l), C, E.
Qed.

Lemma may_lock_cases open :
  may_lock open = true →
  innermost open = None ∨ ∃ e, innermost open = Some (KLock e).
Proof.
  unfold may_lock. destruct (innermost open) as [[]|]; try done; eauto.
Qed.

Lemma same_executors_refl σ : same_executors σ σ.
Proof. done. Qed.

Lemma same_executors_plain σ0 σ σ' :
  same_executors σ0 σ → executors σ' = executors σ → same_executors σ0 σ'.
Proof. intros H0 He e. rewrite He. apply H0. Qed.

Lemma same_executors_insert σ0 σ e E E' ts cur head n i tr :
  same_executors σ0 σ → executors σ !! e = Some E →
  same_executors σ0 (mkState (<[e := E']> (executors σ)) ts cur head n i tr).
Proof.
  intros H0 HE e1. specialize (H0 e1). simpl.
  destruct (decide (e1 = e)) as [->|Hne].
  - rewrite lookup_insert_eq. rewrite HE in H0.
    split; [intros _; apply H0; eauto|eauto].
  - by rewrite lookup_insert_ne.
Qed.

Lemma same_executors_logged σ0 evs σ :
  same_executors σ0 σ → same_executors σ0 (logged evs σ).
Proof. intros. by eapply same_executors_plain. Qed.

Lemma same_executors_rebind σ0 x σ :
  same_executors σ0 σ → same_executors σ0 (rebind x σ).
Proof. intros. by eapply same_executors_plain. Qed.

Lemma same_executors_alloc σ0 σ :
  same_executors σ0 σ → same_executors σ0 (alloc σ).
Proof. intros. by eapply same_executors_plain. Qed.

Lemma same_executors_started σ0 e E σ :
  same_executors σ0 σ → executors σ !! e = Some E →
  same_executors σ0 (started e E σ).
Proof. intros. by eapply same_executors_insert. Qed.

Lemma same_executors_stopped σ0 c C E σ :
  same_executors σ0 σ → executors σ !! ct_executor C = Some E →
  same_executors σ0 (stopped c C E σ).
Proof. intros. by eapply same_executors_insert. Qed.

Lemma same_executors_paused σ0 c C E σ :
  same_executors σ0 σ → executors σ !! ct_executor C = Some E →
  same_executors σ0 (paused c C E σ).
Proof. intros. by eapply same_executors_insert. Qed.

Lemma same_executors_resumed σ0 c C E σ :
  same_executors σ0 σ → executors σ !! ct_executor C = Some E →
  same_executors σ0 (resumed c C E σ).
Proof. intros. by eapply same_executors_insert. Qed.

Lemma same_executors_wall_entered σ0 this e E σ :
  same_executors σ0 σ → executors σ !! e = Some E →
  same_executors σ0 (wall_entered this e E σ).
Proof.
  intros. unfold wall_entered. case_bool_decide.
  - by eapply same_executors_insert.
  - by eapply same_executors_plain.
Qed.

Lemma same_executors_wall_left σ0 w E σ :
  same_executors σ0 σ → executors σ !! wt_executor w = Some E →
  same_executors σ0 (wall_left w E σ).
Proof.
  intros. unfold wall_left. case_bool_decide.
  - by eapply same_executors_insert.
  - by eapply same_executors_plain.
Qed.

Lemma charged_plain σ σ' X :
  charged σ X → executors σ' = executors σ → charged σ' X.
Proof. intros HX He e E. rewrite He. apply HX. Qed.

Lemma charged_ext σ X Y :
  charged σ X → (∀ e, is_Some (executors σ !! e) → X e = Y e) → charged σ Y.
Proof. intros HX HXY e E HE. rewrite <- HXY by eauto. by apply HX. Qed.

Lemma charged_wall_entered this e E σ X :
  charged σ X → executors σ !! e = Some E →
  charged (wall_entered this e E σ) X.
Proof.
  intros HX HE e1 E1. unfold wall_entered. case_bool_decide; simpl; [|apply HX].
  destruct (decide (e1 = e)) as [->|Hne].
  - rewrite lookup_insert_eq. intros [= <-]. simpl. by apply HX.
  - rewrite lookup_insert_ne by done. apply HX.
Qed.

Lemma charged_wall_left w E σ X :
  charged σ X → executors σ !! wt_executor w = Some E →
  charged (wall_left w E σ) X.
Proof.
  intros HX HE e1 E1. unfold wall_left. case_bool_decide; simpl; [|apply HX].
  destruct (decide (e1 = wt_executor w)) as [->|Hne].
  - rewrite lookup_insert_eq. intros [= <-]. simpl. by apply HX.
  - rewrite lookup_insert_ne by done. apply HX.
Qed.

Lemma charged_update σ e E' t ts cur head n i tr X :
  charged σ X → cpu_timer E' = t →
  charged (mkState (<[e := E']> (executors σ)) ts cur head n i tr)
          (λ e1, if bool_decide (e1 = e) then t else X e1).
Proof.
  intros HX Ht e1 E1. simpl. case_bool_decide as Heq.
  - rewrite Heq, lookup_insert_eq. by intros [= <-].
  - rewrite lookup_insert_ne by done. apply HX.
Qed.

Lemma charged_born this d thr cur σ X :
  charged σ X → X this = None → charged (born this d thr cur σ) X.
Proof.
  intros HX Ht e1 E1. simpl. destruct (decide (e1 = this)) as [->|Hne].
  - rewrite lookup_insert_eq. by intros [= <-].
  - rewrite lookup_insert_ne by done. apply HX.
Qed.

Lemma charging_charged σ open fs :
  charging σ open fs ↔
  charged σ (λ e, match innermost open with
                  | Some (KLock e') =>
                    if bool_decide (e = e') then lock_head fs else None
                  | _ => None
                  end).
Proof. reflexivity. Qed.

End Usage.
Create HintDb same.

#[local] Hint Resolve same_executors_refl same_executors_logged
  same_executors_rebind same_executors_alloc same_executors_started
  same_executors_stopped same_executors_paused same_executors_resumed
  same_executors_wall_entered same_executors_wall_left : same.

Section Progress.
Context `{Platform}.

Lemma step_same_executors a fs σ fs' σ' :
  is_scoped a = true → step a fs σ = Ok (fs', σ') → same_executors σ σ'.
Proof.
  intros Ha Hs. destruct a as [k| |e]; [| |done].
  - destruct k; inv_step; eauto 10 with same.
  - apply step_Ok in Hs as (f & -> & Hd). destruct f; inv_step;
      eauto 10 with same.
Qed.

Lemma step_Enter k fs σ f σ' :
  construct k σ = Ok (f, σ') → step (Enter k) fs σ = Ok (f :: fs, σ').
Proof. intros Hc. apply step_Ok. eauto. Qed.

Lemma step_Exit f fs σ σ' :
  destroy f σ = Ok ((), σ') → step Exit (f :: fs) σ = Ok (fs, σ').
Proof. intros Hd. apply step_Ok. eauto. Qed.

Lemma usage_scope known open fs σ e :
  usage_state known open fs σ → e ∈ known →
  usage_state known (KScope e :: open)
    (FScope (mkScope (current_executor σ)) :: fs) (rebind (Some e) σ).
Proof.
  intros (Hk & Hvc & Hhead & Hl & Hch) He. split_and!; try done.
  - intros d [= <-]. by apply Hk.
  - simpl. split; [done|]. eapply linked_extends; [|done]. eauto with ext.
Qed.

(** Before the locker is requested: the CpuTimer of the Lock around, if
    there is one, is paused. *)
Lemma usage_pause known open fs σ x :
  usage_state known open fs σ → may_lock open = true →
  ∃ σp, when_set (lock_head fs) CpuTimer_Pause (alloc (rebind x σ)) = Ok ((), σp) ∧
        same_executors σ σp ∧ charged σp (λ _, None) ∧
        cpu_timers σp = cpu_timers σ ∧
        next_object σp = S (next_object σ) ∧
        cpu_timer_thread σp = lock_head fs ∧ current_executor σp = x.
Proof.
  intros (Hk & Hvc & Hhead & Hl & Hch) Hml.
  destruct (may_lock_cases _ Hml) as [Hi|[e' Hi]].
  - rewrite (linked_no_lock _ _ _ Hl Hi). eexists. split; [reflexivity|].
    split_and!; simpl; eauto with same.
    + eapply (charged_plain σ); [|done]. eapply charged_ext; [exact Hch|].
      intros e1 _. simpl. by rewrite Hi.
    + rewrite Hhead. by eapply linked_no_lock.
  - destruct (linked_lock _ _ _ _ Hl Hi) as (c & C & E & Hlh & Hlt & HC & HCe & HE).
    rewrite Hlh. simpl.
    assert (Hinst : cpu_timer E = Some c).
    { rewrite (Hch e' E HE), Hi. by rewrite bool_decide_eq_true_2. }
    exists (paused c C E (alloc (rebind x σ))). split.
    { apply CpuTimer_Pause_Ok. exists C, E. simpl. by rewrite HCe. }
    split_and!; simpl; try done.
    + apply same_executors_paused; [eauto with same|]. simpl. by rewrite HCe.
    + eapply charged_ext.
      { apply (charged_update σ); [exact Hch|]. reflexivity. }
      intros e1 _. simpl. rewrite Hi, HCe. by case_bool_decide.
    + by rewrite Hhead.
Qed.

Lemma usage_lock known open fs σ e :
  usage_state known open fs σ → e ∈ known → may_lock open = true →
  ∃ l σ', Lock_ctor e σ = Ok (l, σ') ∧
          usage_state known (KLock e :: open) (FLock l :: fs) σ'.
Proof.
  intros HU He Hml.
  destruct (usage_pause _ _ _ _ (Some e) HU Hml)
    as (σp & Hp & Hsame & Hidle & Hts & Hn & Hh & Hc).
  destruct HU as (Hk & Hvc & Hhead & Hl & Hch).
  assert (HE1 : is_Some (executors σp !! e)) by (apply Hsame, Hk, He).
  destruct HE1 as [E1 HE1].
  set (w := wall_object (next_object σ) e (lock_head fs) E1 σp).
  set (σ1 := wall_entered (next_object σ) e E1 σp).
  assert (Hidle1 : charged σ1 (λ _, None)) by by apply charged_wall_entered.
  assert (HE2 : is_Some (executors σ1 !! e)).
  { apply (same_executors_wall_entered σp _ _ E1 σp); eauto with same. }
  destruct HE2 as [E2 HE2].
  set (c := next_object σ1).
  set (σ2 := started e E2 (logged [EvLocker e] σ1)).
  set (l := mkLock (mkScope (current_executor σ)) w e c).
  assert (Hlock : Lock_ctor e σ =
            Ok (l, logged [EvIsolateScope e; EvHandleScope e] σ2)).
  { apply Lock_ctor_Ok. exists w, σ1, c, σ2. split_and!; try done.
    - apply WallTimer_ctor_Ok. exists σp, E1. simpl. rewrite Hhead.
      split_and!; done.
    - apply CpuTimer_ctor_Ok. exists E2. split_and!; try done.
      by apply (Hidle1 e). }
  exists l, (logged [EvIsolateScope e; EvHandleScope e] σ2).
  split; [done|].
  pose proof (step_Enter (KLock e) fs σ (FLock l) _
    (proj2 (construct_Ok (KLock e) _ _ _) (ex_intro _ l (conj Hlock eq_refl))))
    as Hstep.
  pose proof (step_extends _ _ _ _ _ Hstep) as Hext.
  pose proof (step_same_executors (Enter _) _ _ _ _ eq_refl Hstep) as Hsame'.
  assert (Hn1 : next_object σ1 = S (next_object σ)).
  { unfold σ1. by rewrite wall_entered_next. }
  assert (Hh1 : cpu_timer_thread σ1 = lock_head fs).
  { unfold σ1. by rewrite wall_entered_head. }
  assert (Hc1 : current_executor σ1 = Some e).
  { unfold σ1. by rewrite wall_entered_current. }
  split_and!.
  - intros e1. split; intros Hx; [apply Hsame', Hk, Hx|apply Hk, Hsame', Hx].
  - simpl. rewrite Hc1. intros d [= <-]. apply Hsame', Hk, He.
  - done.
  - simpl. split_and!; try done.
    + unfold c. lia.
    + eexists. rewrite lookup_insert_eq. split_and!; [done|done|]. simpl. done.
    + apply Hsame', Hk, He.
    + by eapply valid_extends.
    + by eapply linked_extends.
  - apply charging_charged. simpl.
    eapply (charged_plain σ2); [|done].
    by apply (charged_update (logged [EvLocker e] σ1)).
Qed.

Lemma usage_unlock known open fs σ e :
  usage_state known open fs σ → innermost open = Some (KLock e) →
  ∃ u σ', Unlock_ctor e σ = Ok (u, σ') ∧
          usage_state known (KUnlock e :: open) (FUnlock u :: fs) σ'.
Proof.
  intros (Hk & Hvc & Hhead & Hl & Hch) Hi.
  destruct (linked_lock _ _ _ _ Hl Hi) as (c & C & E & Hlh & Hlt & HC & HCe & HE).
  assert (Hinst : cpu_timer E = Some c).
  { rewrite (Hch e E HE), Hi. by rewrite bool_decide_eq_true_2. }
  set (σp := paused c C E (logged [EvRead e f_cpu_timer] σ)).
  assert (Hu : Unlock_ctor e σ = Ok (mkUnlock (Some c) e, logged [EvUnlocker e] σp)).
  { apply Unlock_ctor_Ok. exists E, c, σp. split_and!; try done.
    apply CpuTimer_Pause_Ok. exists C, E. simpl. by rewrite HCe. }
  eexists _, _. split; [exact Hu|].
  pose proof (step_Enter (KUnlock e) fs σ _ _
    (proj2 (construct_Ok (KUnlock e) _ _ _) (ex_intro _ _ (conj Hu eq_refl))))
    as Hstep.
  pose proof (step_extends _ _ _ _ _ Hstep) as Hext.
  pose proof (step_same_executors (Enter _) _ _ _ _ eq_refl Hstep) as Hsame'.
  split_and!.
  - intros e1. split; intros Hx; [apply Hsame', Hk, Hx|apply Hk, Hsame', Hx].
  - by eapply valid_extends.
  - done.
  - simpl. split_and!; try done. by eapply linked_extends.
  - apply charging_charged. simpl. eapply (charged_plain σp); [|done].
    eapply charged_ext.
    { apply (charged_update (logged [EvRead e f_cpu_timer] σ)); [exact Hch|].
      reflexivity. }
    intros e1 _. simpl. rewrite Hi, HCe. by case_bool_decide.
Qed.

(** After the locker is released: the CpuTimer of the Lock around, if there
    is one, is resumed. *)
Lemma usage_resume σ open fs :
  linked σ open fs → may_lock open = true → charged σ (λ _, None) →
  ∃ σr, when_set (lock_head fs) CpuTimer_Resume σ = Ok ((), σr) ∧
        charging σr open fs ∧
        cpu_timer_thread σr = cpu_timer_thread σ ∧
        current_executor σr = current_executor σ ∧
        same_executors σ σr ∧ extends σ σr.
Proof.
  intros Hl Hml Hidle.
  destruct (may_lock_cases _ Hml) as [Hi|[e' Hi]].
  - rewrite (linked_no_lock _ _ _ Hl Hi). eexists. split; [reflexivity|].
    split_and!; eauto with same ext.
    apply charging_charged. rewrite Hi. done.
  - destruct (linked_lock _ _ _ _ Hl Hi) as (c & C & E & Hlh & Hlt & HC & HCe & HE).
    rewrite Hlh. simpl. exists (resumed c C E σ). split.
    { apply CpuTimer_Resume_Ok. exists C, E. rewrite HCe.
      split_and!; try done. by apply (Hidle e'). }
    split_and!; simpl; try done.
    + apply charging_charged. rewrite Hi, Hlh, <- HCe.
      by apply (charged_update σ).
    + apply same_executors_resumed; [eauto with same|]. by rewrite HCe.
    + apply extends_resumed; [eauto with ext|done|by rewrite HCe].
Qed.

Lemma usage_exit known k open fs σ :
  usage_state known (k :: open) fs σ →
  ∃ f fs' σ', fs = f :: fs' ∧ destroy f σ = Ok ((), σ') ∧
              usage_state known open fs' σ'.
Proof.
  intros (Hk & Hvc & Hhead & Hl & Hch).
  destruct k as [e|e|e|e|e], fs as [|[s|c|w|l|u] fs']; simpl in Hl; try done.
  - (* Scope *)
    destruct Hl as [Hv Hl]. eexists _, _, _. split; [done|].
    split; [apply Scope_dtor_eq|]. split_and!; try done.
    eapply linked_extends; [|done]. eauto with ext.
  - (* Lock *)
    destruct Hl as (Hloc & Hml & Hwe & Hwc & Hlt & (C & HC & HCe & HCl) &
                    [E HE] & Hv & Hl).
    assert (Hinst : cpu_timer E = Some (lk_cpu_timer l)).
    { rewrite (Hch e E HE). simpl. by rewrite bool_decide_eq_true_2. }
    set (σa := logged [EvHandleScopeExit (lk_locker l);
                       EvIsolateScopeExit (lk_locker l)] σ).
    set (σd := stopped (lk_cpu_timer l) C E σa).
    assert (Hd : CpuTimer_dtor (lk_cpu_timer l) σa = Ok ((), σd)).
    { apply CpuTimer_dtor_Ok. exists C, E. simpl. by rewrite HCe. }
    set (σb := logged [EvLockerExit (lk_locker l)] σd).
    assert (Hextb : extends σ σb).
    { unfold σb, σd, σa. apply extends_logged, extends_stopped;
        [eauto with ext|]. simpl. by rewrite HCe. }
    assert (Hidle : charged σb (λ _, None)).
    { eapply (charged_plain σd); [|done]. eapply charged_ext.
      { apply (charged_update σa); [exact Hch|]. reflexivity. }
      intros e1 _. simpl. rewrite HCe. by case_bool_decide. }
    destruct (usage_resume σb open fs' (linked_extends _ _ _ _ Hextb Hl) Hml Hidle)
      as (σr & Hr & Hchr & Hhr & Hcr & Hsr & Hextr).
    assert (HEr : is_Some (executors σr !! wt_executor (lk_wall_timer l))).
    { rewrite Hwe. apply Hsr. destruct Hextb as (_ & _ & Hex & _).
      destruct (Hex e E HE) as (E' & ? & _). eauto. }
    destruct HEr as [Er HEr].
    set (σw := wall_left (lk_wall_timer l) Er σr).
    assert (Hw : WallTimer_dtor (lk_wall_timer l) σb = Ok ((), σw)).
    { apply WallTimer_dtor_Ok. exists σr, Er. rewrite Hwc. done. }
    assert (Hlock : Lock_dtor l σ = Ok ((), rebind (sc_last (lk_scope l)) σw)).
    { apply Lock_dtor_Ok. exists σd, σw. done. }
    eexists _, _, _. split; [done|]. split; [exact Hlock|].
    pose proof (step_Exit (FLock l) fs' σ _ Hlock) as Hstep.
    pose proof (step_extends _ _ _ _ _ Hstep) as Hext.
    pose proof (step_same_executors Exit _ _ _ _ eq_refl Hstep) as Hsame'.
    split_and!.
    + intros e1. split; intros Hx; [apply Hsame', Hk, Hx|apply Hk, Hsame', Hx].
    + simpl. by eapply valid_extends.
    + simpl. unfold σw. rewrite wall_left_head, Hhr. done.
    + by eapply linked_extends.
    + apply charging_charged. eapply (charged_plain σw); [|done].
      by apply charged_wall_left.
  - (* Unlock *)
    destruct Hl as (Hun & Hup & Hi & Hl).
    assert (Hml : may_lock open = true) by (unfold may_lock; by rewrite Hi).
    set (σa := logged [EvUnlockerExit (ul_unlocker u)] σ).
    assert (Hidle : charged σa (λ _, None)) by exact Hch.
    assert (Hexta : extends σ σa) by (unfold σa; eauto with ext).
    destruct (usage_resume σa open fs' (linked_extends _ _ _ _ Hexta Hl) Hml Hidle)
      as (σr & Hr & Hchr & Hhr & Hcr & Hsr & Hextr).
    destruct (linked_lock _ _ _ _ Hl Hi) as (c & _ & _ & Hlh & _).
    assert (Hu : Unlock_dtor u σ = Ok ((), σr)).
    { apply Unlock_dtor_Ok. exists c. rewrite Hup. split; [done|].
      by rewrite Hlh in Hr. }
    eexists _, _, _. split; [done|]. split; [exact Hu|].
    pose proof (step_Exit (FUnlock u) fs' σ _ Hu) as Hstep.
    pose proof (step_extends _ _ _ _ _ Hstep) as Hext.
    pose proof (step_same_executors Exit _ _ _ _ eq_refl Hstep) as Hsame'.
    split_and!; try done.
    + intros e1. split; intros Hx; [apply Hsame', Hk, Hx|apply Hk, Hsame', Hx].
    + rewrite Hcr. by eapply valid_extends.
    + by rewrite Hhr.
    + by eapply linked_extends.
Qed.

Lemma usage_new known open fs σ e :
  usage_state known open fs σ → e ∉ known →
  ∃ σ', Executor_ctor e σ = Ok ((), σ') ∧ usage_state (e :: known) open fs σ'.
Proof.
  intros (Hk & Hvc & Hhead & Hl & Hch) He.
  assert (Hfresh : executors σ !! e = None).
  { apply eq_None_not_Some. intros HE. by apply He, Hk. }
  assert (Hborn : ∃ d thr, Executor_ctor e σ =
            Ok ((), born e d thr (Some d) σ) ∧
            is_Some (<[e := Executor_init e d thr]> (executors σ) !! d)).
  { destruct (current_executor σ) as [d|] eqn:Hcur.
    - destruct (Hvc d eq_refl) as [D HD].
      assert (d ≠ e) by congruence.
      exists d, (default_thread D). split.
      + apply Executor_ctor_Ok. split; [done|]. right. left. by exists d, D.
      + rewrite lookup_insert_ne by done. eauto.
    - exists e, this_thread_get_id. split.
      + apply Executor_ctor_Ok. split; [done|]. by left.
      + rewrite lookup_insert_eq. eauto. }
  destruct Hborn as (d & thr & Hctor & Hd).
  eexists. split; [exact Hctor|].
  assert (Hext : extends σ (born e d thr (Some d) σ)) by eauto with ext.
  split_and!.
  - intros e1. simpl. rewrite elem_of_cons.
    destruct (decide (e1 = e)) as [->|Hne].
    + rewrite lookup_insert_eq. split; eauto.
    + rewrite lookup_insert_ne by done. rewrite <- Hk.
      split; [by intros [?|?]|by right].
  - intros d' [= <-]. exact Hd.
  - done.
  - by eapply linked_extends.
  - apply charging_charged. apply charged_born; [exact Hch|].
    destruct (innermost open) as [[| | |e'|]|] eqn:Hi; try done.
    destruct (linked_lock _ _ _ _ Hl Hi) as (_ & _ & E' & _ & _ & _ & _ & HE').
    rewrite bool_decide_eq_false_2; [done|congruence].
Qed.

Lemma exec_usage acts known open fs σ :
  usage_state known open fs σ → scoped_usage known open acts = true →
  ∃ fs' σ', exec acts fs σ = Ok (fs', σ').
Proof.
  revert known open fs σ. induction acts as [|a acts IH];
    intros known open fs σ HU Hacts; simpl.
  - by eexists _, _.
  - assert (Hstep : ∃ known' open' fs1 σ1,
              step a fs σ = Ok (fs1, σ1) ∧ usage_state known' open' fs1 σ1 ∧
              scoped_usage known' open' acts = true).
    { destruct a as [k| |e]; simpl in Hacts.
      - apply andb_prop in Hacts as [Hk Hacts].
        destruct k as [e|e|e|e|e]; try done.
        + apply bool_decide_eq_true in Hk.
          eexists known, _, _, _. split; [|split; [by apply usage_scope|done]].
          apply step_Enter. by apply construct_Ok.
        + apply andb_prop in Hk as [Hk Hml]. apply bool_decide_eq_true in Hk.
          destruct (usage_lock _ _ _ _ e HU Hk Hml) as (l & σ' & Hl & HU').
          eexists known, _, _, _. split; [|split; [exact HU'|done]].
          apply step_Enter. apply construct_Ok. eauto.
        + apply bool_decide_eq_true in Hk.
          destruct (usage_unlock _ _ _ _ e HU Hk) as (u & σ' & Hu & HU').
          eexists known, _, _, _. split; [|split; [exact HU'|done]].
          apply step_Enter. apply construct_Ok. eauto.
      - destruct open as [|k open]; [done|].
        destruct (usage_exit _ _ _ _ _ HU) as (f & fs' & σ' & -> & Hd & HU').
        eexists known, _, _, _. split; [|split; [exact HU'|done]].
        by apply step_Exit.
      - apply andb_prop in Hacts as [He Hacts].
        apply bool_decide_eq_true in He.
        destruct (usage_new _ _ _ _ e HU He) as (σ' & Hc & HU').
        eexists _, _, _, _. split; [|split; [exact HU'|done]].
        apply step_Ok. done. }
    destruct Hstep as (known' & open' & fs1 & σ1 & Hs & HU1 & Hacts1).
    destruct (IH _ _ _ _ HU1 Hacts1) as (fs' & σ' & He).
    exists fs', σ'. apply bind_Ok. eauto.
Qed.


End Progress.
(** * Further properties of the operations *)

(** ** Construction and destruction of one CpuTimer; Pause and Resume *)

Section RoundTrips.
Context `{Platform}.

Lemma CpuTimer_ctor_dtor e σ E :
  executors σ !! e = Some E → cpu_timer E = None →
  CpuTimer_ctor e σ = Ok (next_object σ, started e E σ) ∧
  CpuTimer_dtor (next_object σ) (started e E σ) =
    Ok ((), stopped (next_object σ)
              (mkCpuTimer e (cpu_timer_thread σ) (cpu_clock (instant σ)))
              (install E (Some (next_object σ))) (started e E σ)).
Proof.
  intros HE Hnone. split.
  - rewrite CpuTimer_ctor_eq, HE. by rewrite bool_decide_eq_true_2.
  - rewrite CpuTimer_dtor_eq. simpl. rewrite !lookup_insert_eq. simpl.
    rewrite ?lookup_insert_eq. simpl. by rewrite bool_decide_eq_true_2.
Qed.

(** X1. A CpuTimer constructed on an executor that has none installed and
    destroyed at once: both steps succeed, the thread's current timer is the
    new one in between and the former one afterwards, and the executor, left
    without a timer, is charged the difference of the two clock readings and
    nothing else changes in any executor. *)
Theorem CpuTimer_charges_its_lifetime e σ E :
  executors σ !! e = Some E → cpu_timer E = None →
  ∃ c σ1 σ2,
    CpuTimer_ctor e σ = Ok (c, σ1) ∧ CpuTimer_dtor c σ1 = Ok ((), σ2) ∧
    cpu_timer_thread σ1 = Some c ∧
    cpu_timer <$> executors σ1 !! e = Some (Some c) ∧
    cpu_timer_thread σ2 = cpu_timer_thread σ ∧
    executors σ2 =
      <[e := mkExecutor (env E) (default_executor E) (default_thread E) None
               (wall_timer E)
               (cpu_time E + (cpu_clock (instant σ1) - cpu_clock (instant σ)))
               (wall_time E)]> (executors σ).
Proof.
  intros HE Hnone. destruct (CpuTimer_ctor_dtor e σ E HE Hnone) as [Hc Hd].
  eexists _, _, _. split; [exact Hc|]. split; [exact Hd|].
  simpl. rewrite lookup_insert_eq. split_and!; try done.
  by rewrite insert_insert_eq.
Qed.

(** X2. A CpuTimer is either installed or paused, and every operation on it is
    legal in one of the two states only. Once Pause has returned, a second
    Pause and the destructor abort and Resume succeeds; once that Resume has
    returned, a second Resume aborts and Pause succeeds again. *)
Theorem Pause_and_Resume_alternate c σ σ1 :
  CpuTimer_Pause c σ = Ok ((), σ1) →
  CpuTimer_Pause c σ1 = Abort AssertPause ∧
  CpuTimer_dtor c σ1 = Abort AssertClear ∧
  ∃ σ2, CpuTimer_Resume c σ1 = Ok ((), σ2) ∧
        CpuTimer_Resume c σ2 = Abort AssertResume ∧
        ∃ σ3, CpuTimer_Pause c σ2 = Ok ((), σ3).
Proof.
  intros (C & E & HC & HE & Hc & ->)%CpuTimer_Pause_Ok.
  rewrite CpuTimer_Pause_eq, CpuTimer_dtor_eq, CpuTimer_Resume_eq. simpl.
  rewrite HC, lookup_insert_eq. simpl. split_and!; try done.
  eexists. split; [reflexivity|].
  rewrite CpuTimer_Pause_eq, CpuTimer_Resume_eq. simpl.
  rewrite !lookup_insert_eq. simpl. rewrite ?lookup_insert_eq. simpl.
  split; [done|]. rewrite bool_decide_eq_true_2 by done. by eexists.
Qed.

(** X3. The constructor of a CpuTimer does not pause the thread's current
    timer. On the executor of the current timer it aborts; on another
    executor both timers are installed at once, and destroying the two in
    turn charges the interval in which the inner one lived to both
    executors. *)
Theorem CpuTimer_ctor_leaves_current_timer_running σ c1 C1 E1 :
  cpu_timer_thread σ = Some c1 → (c1 < next_object σ)%nat →
  cpu_timers σ !! c1 = Some C1 →
  executors σ !! ct_executor C1 = Some E1 → cpu_timer E1 = Some c1 →
  CpuTimer_ctor (ct_executor C1) σ = Abort AssertInstall ∧
  ∀ e2 E2, e2 ≠ ct_executor C1 → executors σ !! e2 = Some E2 →
    cpu_timer E2 = None →
    ∃ c2 σ1 σ2 σ3,
      CpuTimer_ctor e2 σ = Ok (c2, σ1) ∧
      cpu_timer <$> executors σ1 !! ct_executor C1 = Some (Some c1) ∧
      cpu_timer <$> executors σ1 !! e2 = Some (Some c2) ∧
      CpuTimer_dtor c2 σ1 = Ok ((), σ2) ∧ CpuTimer_dtor c1 σ2 = Ok ((), σ3) ∧
      cpu_time <$> executors σ3 !! e2 =
        Some (cpu_time E2 + (cpu_clock (instant σ1) - cpu_clock (instant σ))) ∧
      cpu_time <$> executors σ3 !! ct_executor C1 =
        Some (cpu_time E1 + (cpu_clock (instant σ2) - ct_time C1)).
Proof.
  intros Hhead Hlt HC1 HE1 Hc1. split.
  - rewrite CpuTimer_ctor_eq, HE1, Hc1. done.
  - intros e2 E2 Hne HE2 Hnone.
    destruct (CpuTimer_ctor_dtor e2 σ E2 HE2 Hnone) as [Hc Hd].
    eexists _, _, _, _. split; [exact Hc|].
    split; [simpl; rewrite lookup_insert_ne by done; rewrite HE1; simpl;
            by rewrite Hc1|].
    split; [simpl; by rewrite lookup_insert_eq|].
    split; [exact Hd|].
    rewrite CpuTimer_dtor_eq. simpl.
    rewrite !lookup_insert_ne by (done || lia). rewrite HC1.
    rewrite ?lookup_insert_ne by done.
    rewrite HE1, Hhead. rewrite bool_decide_eq_true_2 by done.
    split; [reflexivity|]. simpl.
    rewrite lookup_insert_ne by done. rewrite !lookup_insert_eq. done.
Qed.

End RoundTrips.

(** ** Installed timers belong to live objects *)

Section Live.
Context `{Platform}.

Lemma exec_always (I : list frame → State → Prop) :
  (∀ a fs σ fs' σ', I fs σ → step a fs σ = Ok (fs', σ') → I fs' σ') →
  ∀ acts fs σ fs' σ', I fs σ → exec acts fs σ = Ok (fs', σ') → I fs' σ'.
Proof.
  intros Hstep acts. induction acts as [|a acts IH]; intros fs σ fs' σ'; simpl.
  - by intros HI [= <- <-].
  - intros HI. rewrite bind_Ok. intros (fs1 & σ1 & Hs & He).
    eapply IH; [by eapply Hstep|exact He].
Qed.

Lemma stacked_store ts ts' L :
  (∀ c C, c ∈ L → ts !! c = Some C →
     ∃ C', ts' !! c = Some C' ∧ ct_last C' = ct_last C) →
  stacked ts L → stacked ts' L.
Proof.
  induction L as [|c L IH]; [done|]. intros Hk [(C & HC & Hl) HS]. split.
  - destruct (Hk c C) as (C' & HC' & Hl'); [by left|done|].
    exists C'. split; [done|congruence].
  - apply IH; [|done]. intros c0 C0 Hin. apply Hk. by right.
Qed.

(* an executor is replaced by one with the same wall timer *)
Lemma wall_installed_update W σ σ' e E E' :
  executors σ !! e = Some E → executors σ' = <[e := E']> (executors σ) →
  wall_timer E' = wall_timer E →
  wall_installed W σ → wall_installed W σ'.
Proof.
  intros HE Hx Hw HW e0 E0 w. rewrite Hx.
  destruct (decide (e0 = e)) as [->|Hne].
  - rewrite lookup_insert_eq. intros [= <-] Hw0. rewrite Hw in Hw0. by eapply HW.
  - rewrite lookup_insert_ne by done. apply HW.
Qed.

Lemma wall_installed_same W σ σ' :
  executors σ' = executors σ → wall_installed W σ → wall_installed W σ'.
Proof. intros Hx HW e E w. rewrite Hx. apply HW. Qed.

Lemma cpu_installed_same O σ σ' :
  executors σ' = executors σ → cpu_timers σ' = cpu_timers σ →
  cpu_installed O σ → cpu_installed O σ'.
Proof. intros Hx Ht HO e E c. rewrite Hx, Ht. apply HO. Qed.

(* an executor is replaced by one with the same CpuTimer, or none *)
Lemma cpu_installed_update O σ σ' e E E' :
  executors σ !! e = Some E → executors σ' = <[e := E']> (executors σ) →
  cpu_timers σ' = cpu_timers σ →
  cpu_timer E' = cpu_timer E ∨ cpu_timer E' = None →
  cpu_installed O σ → cpu_installed O σ'.
Proof.
  intros HE Hx Ht Hc HO e0 E0 c. rewrite Hx, Ht.
  destruct (decide (e0 = e)) as [->|Hne].
  - rewrite lookup_insert_eq. intros [= <-] Hc0.
    destruct Hc as [Hc|Hc]; rewrite Hc in Hc0; [by eapply HO|done].
  - rewrite lookup_insert_ne by done. apply HO.
Qed.

Lemma timers_live_same σ σ' O :
  (next_object σ ≤ next_object σ')%nat → cpu_timers σ' = cpu_timers σ →
  timers_live σ O → timers_live σ' O.
Proof.
  intros Hn Ht Hl. eapply Forall_impl; [exact Hl|].
  intros c [Hlt Hs]. simpl. rewrite Ht. split; [lia|done].
Qed.

Lemma nest_plain O W σ σ' :
  executors σ' = executors σ → cpu_timers σ' = cpu_timers σ →
  cpu_timer_thread σ' = cpu_timer_thread σ →
  (next_object σ ≤ next_object σ')%nat →
  nest O W σ → nest O W σ'.
Proof.
  intros Hx Ht Hh Hn (HO & HW & Hhead & Hl & Hs).
  split_and!; [by eapply cpu_installed_same|by eapply wall_installed_same|
               congruence|by eapply timers_live_same|by rewrite Ht].
Qed.

Lemma nest_logged O W evs σ : nest O W σ → nest O W (logged evs σ).
Proof. by apply nest_plain. Qed.

Lemma nest_rebind O W x σ : nest O W σ → nest O W (rebind x σ).
Proof. by apply nest_plain. Qed.

Lemma nest_alloc O W σ : nest O W σ → nest O W (alloc σ).
Proof. apply nest_plain; simpl; auto. Qed.

Lemma nest_born O W this d thr cur σ :
  nest O W σ → nest O W (born this d thr cur σ).
Proof.
  intros (HO & HW & Hhead & Hl & Hs). split_and!; try done.
  - intros e E c. simpl. destruct (decide (e = this)) as [->|Hne].
    + rewrite lookup_insert_eq. by intros [= <-].
    + rewrite lookup_insert_ne by done. apply HO.
  - intros e E w. simpl. destruct (decide (e = this)) as [->|Hne].
    + rewrite lookup_insert_eq. by intros [= <-].
    + rewrite lookup_insert_ne by done. apply HW.
Qed.

Lemma nest_ctor O W e σ c σ' :
  nest O W σ → CpuTimer_ctor e σ = Ok (c, σ') → nest (c :: O) W σ'.
Proof.
  intros (HO & HW & Hhead & Hl & Hs) (E & HE & Hnone & -> & ->)%CpuTimer_ctor_Ok.
  assert (Hfresh : ∀ c, c ∈ O → c ≠ next_object σ).
  { intros c Hc ->. unfold timers_live in Hl. rewrite Forall_forall in Hl.
    destruct (Hl _ Hc). lia. }
  split_and!.
  - intros e0 E0 c0. simpl. destruct (decide (e0 = e)) as [->|Hne].
    + rewrite lookup_insert_eq. intros [= <-] [= <-]. split; [by left|].
      rewrite lookup_insert_eq. by eexists.
    + rewrite lookup_insert_ne by done. intros HE0 Hc0.
      destruct (HO _ _ _ HE0 Hc0) as (Hin & C0 & HC0 & Hex).
      split; [by right|]. exists C0. rewrite lookup_insert_ne; [done|].
      intros Heq. by apply (Hfresh c0).
  - by eapply (wall_installed_update W σ).
  - done.
  - constructor; simpl.
    + split; [lia|]. by rewrite lookup_insert_eq.
    + unfold timers_live in Hl. rewrite Forall_forall in Hl.
      apply Forall_forall. intros c0 Hc0. destruct (Hl _ Hc0) as [Hlt Hsome].
      split; [lia|]. rewrite lookup_insert_ne; [done|lia].
  - simpl. split.
    + rewrite lookup_insert_eq. eexists. split; [done|]. simpl. done.
    + eapply stacked_store; [|exact Hs]. intros c0 C0 Hc0 HC0.
      exists C0. rewrite lookup_insert_ne; [done|].
      intros Heq. by apply (Hfresh c0).
Qed.

Lemma cpu_installed_flush c O σ σ' C E d :
  cpu_timers σ !! c = Some C → executors σ !! ct_executor C = Some E →
  executors σ' = <[ct_executor C := flush E d]> (executors σ) →
  cpu_timers σ' = cpu_timers σ →
  cpu_installed (c :: O) σ → cpu_installed O σ'.
Proof.
  intros HC HE Hx Ht HO e0 E0 c0. rewrite Hx, Ht.
  destruct (decide (e0 = ct_executor C)) as [->|Hne].
  - rewrite lookup_insert_eq. by intros [= <-].
  - rewrite lookup_insert_ne by done. intros HE0 Hc0.
    destruct (HO _ _ _ HE0 Hc0) as (Hin & C0 & HC0 & Hex). split; [|eauto].
    apply elem_of_cons in Hin as [->|Hin]; [|done]. congruence.
Qed.

Lemma nest_dtor O W σ c σ' :
  nest (c :: O) W σ → CpuTimer_dtor c σ = Ok ((), σ') → nest O W σ'.
Proof.
  intros (HO & HW & Hhead & Hl & Hs)
    (C & E & HC & HE & Hc & ->)%CpuTimer_dtor_Ok.
  destruct Hs as [(C' & HC' & Hlast) Hs]. rewrite HC in HC'. injection HC' as <-.
  split_and!.
  - by eapply (cpu_installed_flush c O σ).
  - by eapply (wall_installed_update W σ).
  - done.
  - by apply Forall_inv_tail in Hl.
  - done.
Qed.

Lemma nest_Pause O W σ c σ' :
  nest O W σ → CpuTimer_Pause c σ = Ok ((), σ') → nest O W σ'.
Proof.
  intros (HO & HW & Hhead & Hl & Hs)
    (C & E & HC & HE & Hc & ->)%CpuTimer_Pause_Ok.
  split_and!; try done.
  - eapply (cpu_installed_update O σ); [exact HE|done|done|by right|done].
  - by eapply (wall_installed_update W σ).
Qed.

Lemma nest_Resume O W σ c σ' :
  nest O W σ → c ∈ O → CpuTimer_Resume c σ = Ok ((), σ') → nest O W σ'.
Proof.
  intros (HO & HW & Hhead & Hl & Hs) Hin
    (C & E & HC & HE & Hc & ->)%CpuTimer_Resume_Ok.
  split_and!.
  - intros e0 E0 c0. simpl.
    destruct (decide (e0 = ct_executor C)) as [->|Hne].
    + rewrite lookup_insert_eq. intros [= <-] [= <-]. split; [done|].
      rewrite lookup_insert_eq. by eexists.
    + rewrite lookup_insert_ne by done. intros HE0 Hc0.
      destruct (HO _ _ _ HE0 Hc0) as (Hin0 & C0 & HC0 & Hex).
      split; [done|]. exists C0. rewrite lookup_insert_ne; [done|].
      intros <-. congruence.
  - by eapply (wall_installed_update W σ).
  - done.
  - eapply Forall_impl; [exact Hl|]. intros c0 [Hlt Hsome]. simpl.
    split; [done|]. destruct (decide (c0 = c)) as [->|Hne].
    + by rewrite lookup_insert_eq.
    + by rewrite lookup_insert_ne.
  - simpl. eapply stacked_store; [|exact Hs]. intros c0 C0 _ HC0.
    destruct (decide (c0 = c)) as [->|Hne].
    + rewrite lookup_insert_eq. eexists. split; [done|]. simpl. congruence.
    + rewrite lookup_insert_ne by done. eauto.
Qed.

Lemma nest_wall_entered O W this e cap E σ :
  executors σ !! e = Some E →
  nest O W σ →
  nest O (wall_object this e cap E σ :: W) (wall_entered this e E σ).
Proof.
  intros HE (HO & HW & Hhead & Hl & Hs). unfold wall_entered.
  case_bool_decide as Hw.
  - split_and!; try done.
    + by eapply (cpu_installed_update O σ); [exact HE|done|done|left|].
    + intros e0 E0 w. simpl. destruct (decide (e0 = e)) as [->|Hne].
      * rewrite lookup_insert_eq. intros [= <-] [= <-].
        eexists. split; [by left|done].
      * rewrite lookup_insert_ne by done. intros HE0 Hw0.
        destruct (HW _ _ _ HE0 Hw0) as (x & Hx & Hx').
        exists x. split; [by right|done].
  - split_and!; try done.
    intros e0 E0 w HE0 Hw0. destruct (HW _ _ _ HE0 Hw0) as (x & Hx & Hx').
    exists x. split; [by right|done].
Qed.

Lemma nest_wall_left O W w E σ :
  executors σ !! wt_executor w = Some E →
  nest O (w :: W) σ → nest O W (wall_left w E σ).
Proof.
  intros HE (HO & HW & Hhead & Hl & Hs). unfold wall_left.
  case_bool_decide as Hw.
  - split_and!; try done.
    + by eapply (cpu_installed_update O σ); [exact HE|done|done|left|].
    + intros e0 E0 w0. simpl.
      destruct (decide (e0 = wt_executor w)) as [->|Hne].
      * rewrite lookup_insert_eq. by intros [= <-].
      * rewrite lookup_insert_ne by done. intros HE0 Hw0.
        destruct (HW _ _ _ HE0 Hw0) as (x & Hx & Hx1 & Hx2).
        exists x. split; [|done].
        apply elem_of_cons in Hx as [->|Hx]; [done|done].
  - split_and!; try done.
    intros e0 E0 w0 HE0 Hw0. simpl in HE0.
    destruct (HW _ _ _ HE0 Hw0) as (x & Hx & Hx1 & Hx2).
    exists x. split; [|done].
    apply elem_of_cons in Hx as [->|Hx]; [|done].
    subst e0. rewrite HE in HE0. injection HE0 as <-. congruence.
Qed.

Lemma nest_head O W σ c : nest O W σ → cpu_timer_thread σ = Some c → c ∈ O.
Proof.
  intros (_ & _ & Hhead & _) Hc. rewrite Hhead in Hc.
  destruct O; [done|]. injection Hc as ->. by left.
Qed.

Lemma nest_WallTimer_ctor O W e σ w σ' :
  nest O W σ → WallTimer_ctor e σ = Ok (w, σ') →
  nest O (w :: W) σ' ∧ ∀ c, wt_cpu_timer w = Some c → c ∈ O.
Proof.
  intros HN (σ1 & E & Hp & HE & -> & ->)%WallTimer_ctor_Ok. split.
  - apply nest_wall_entered; [done|].
    apply when_set_Ok in Hp as [[_ ->]|(c & _ & Hp)].
    + by apply nest_alloc.
    + eapply nest_Pause; [|exact Hp]. by apply nest_alloc.
  - simpl. intros c. by apply (nest_head O W).
Qed.

Lemma nest_WallTimer_dtor O W σ w σ' :
  nest O (w :: W) σ → (∀ c, wt_cpu_timer w = Some c → c ∈ O) →
  WallTimer_dtor w σ = Ok ((), σ') → nest O W σ'.
Proof.
  intros HN Hcap (σ1 & E & Hr & HE & ->)%WallTimer_dtor_Ok.
  apply nest_wall_left; [done|].
  apply when_set_Ok in Hr as [[_ ->]|(c & Hc & Hr)]; [done|].
  eapply nest_Resume; [exact HN|by apply Hcap|exact Hr].
Qed.

Lemma step_nest a fs σ fs' σ' :
  nest (owned fs) (walls fs) σ ∧ captured_below fs →
  step a fs σ = Ok (fs', σ') →
  nest (owned fs') (walls fs') σ' ∧ captured_below fs'.
Proof.
  intros [HN HB] Hs. apply step_Ok in Hs. destruct a as [k| |e].
  - destruct Hs as (f & Hc & ->). apply construct_Ok in Hc.
    destruct k as [e|e|e|e|e].
    + destruct Hc as [-> ->]. split; [by apply nest_rebind|by split].
    + destruct Hc as (c & Hc & ->). split; [by eapply nest_ctor|by split].
    + destruct Hc as (w & Hc & ->).
      destruct (nest_WallTimer_ctor _ _ _ _ _ _ HN Hc) as [HN' Hcap].
      split; [exact HN'|by split].
    + destruct Hc as (l & Hc & ->).
      apply Lock_ctor_Ok in Hc as (w & σ1 & c & σ2 & Hw & Hc & -> & ->).
      eapply nest_WallTimer_ctor in Hw as [HN1 Hcap]; [|by apply nest_rebind].
      eapply nest_ctor in Hc; [|by apply nest_logged].
      split; [by apply nest_logged|by split].
    + destruct Hc as (u & Hc & ->).
      apply Unlock_ctor_Ok in Hc as (E & c & σ1 & HE & Hcpu & Hp & -> & ->).
      split.
      * apply nest_logged. eapply nest_Pause; [|exact Hp]. by apply nest_logged.
      * split; [|done]. simpl. intros c0 [= <-].
        destruct HN as (HO & _). by destruct (HO _ _ _ HE Hcpu).
  - destruct Hs as (f & -> & Hd). destruct HB as [Hcap HB].
    destruct f as [s|c|w|l|u]; simpl in Hd.
    + rewrite Scope_dtor_eq in Hd. injection Hd as <-.
      split; [by apply nest_rebind|done].
    + split; [|done]. eapply nest_dtor; [exact HN|exact Hd].
    + split; [|done]. eapply nest_WallTimer_dtor; [exact HN|exact Hcap|exact Hd].
    + apply Lock_dtor_Ok in Hd as (σ1 & σ2 & Hc & Hw & ->).
      split; [|done]. apply nest_rebind.
      eapply nest_WallTimer_dtor; [|exact Hcap|exact Hw].
      apply nest_logged. eapply nest_dtor; [|exact Hc]. by apply nest_logged.
    + apply Unlock_dtor_Ok in Hd as (c & Hu & Hr). split; [|done].
      eapply nest_Resume; [|by apply Hcap|exact Hr]. by apply nest_logged.
  - destruct Hs as [Hc ->]. split; [|done].
    apply Executor_ctor_Ok in Hc as [Hf [[_ ->]|[(d & D & _ & _ & _ & ->)|[_ ->]]]];
      by apply nest_born.
Qed.

Lemma clean_nest σ : clean σ → nest [] [] σ.
Proof.
  intros [Hhead Hnone]. split_and!; try done.
  - intros e E c HE Hc. destruct (Hnone _ _ HE) as [Hx _]. congruence.
  - intros e E w HE Hw. destruct (Hnone _ _ HE) as [_ Hx]. congruence.
  - constructor.
Qed.

(** X4. On a thread that starts with no timer anywhere, whatever properly
    nested objects it declares and wherever the run stops: the CpuTimer
    installed on an executor and the WallTimer installed on it are owned
    by objects that are still alive and that were constructed on that
    executor. Once every object is destroyed, no executor has a timer
    installed and the thread has no current CpuTimer. *)
Theorem installed_timers_belong_to_live_objects acts σ fs' σ' :
  clean σ → exec acts [] σ = Ok (fs', σ') →
  installed_live fs' σ' ∧ (fs' = [] → clean σ').
Proof.
  intros Hclean He.
  assert (HN : nest (owned fs') (walls fs') σ' ∧ captured_below fs').
  { eapply (exec_always (λ fs σ, nest (owned fs) (walls fs) σ ∧ captured_below fs));
      [apply step_nest| |exact He]. split; [by apply clean_nest|done]. }
  destruct HN as [(HO & HW & Hhead & _) _]. split; [by split|].
  intros ->. split; [done|]. intros e E HE. split.
  - destruct (cpu_timer E) as [c|] eqn:Hc; [|done].
    destruct (HO _ _ _ HE Hc) as [Hin _]. by apply elem_of_nil in Hin.
  - destruct (wall_timer E) as [w|] eqn:Hw; [|done].
    destruct (HW _ _ _ HE Hw) as (x & Hin & _). by apply elem_of_nil in Hin.
Qed.

(** X5. On a thread that starts with no timer anywhere, at every moment of a
    run [cpu_timer_thread] is the innermost live CpuTimer, and the [last]
    link of each live CpuTimer is the live CpuTimer declared just before
    it, null for the outermost: the thread's timers form a stack that
    mirrors the nesting of the scopes. *)
Theorem thread_timers_mirror_the_scopes acts σ fs' σ' :
  clean σ → exec acts [] σ = Ok (fs', σ') →
  cpu_timer_thread σ' = head (owned fs') ∧
  stacked (cpu_timers σ') (owned fs').
Proof.
  intros Hclean He.
  assert (HN : nest (owned fs') (walls fs') σ' ∧ captured_below fs').
  { eapply (exec_always (λ fs σ, nest (owned fs) (walls fs) σ ∧ captured_below fs));
      [apply step_nest| |exact He]. split; [by apply clean_nest|done]. }
  by destruct HN as [(_ & _ & Hhead & _ & Hs) _].
Qed.

End Live.

(** ** Calls on the quota timer are balanced *)

Section Balance.
Context `{Platform}.

Lemma pause_depth_app e a b :
  pause_depth e (a ++ b) = pause_depth e a + pause_depth e b.
Proof.
  unfold pause_depth. rewrite holder_calls_app, !filter_app, !length_app. lia.
Qed.

Lemma pause_depth_quiet e tr evs :
  holder_calls e evs = [] → pause_depth e (tr ++ evs) = pause_depth e tr.
Proof.
  intros Hq. rewrite pause_depth_app. unfold pause_depth at 2. rewrite Hq.
  simpl. lia.
Qed.

Lemma calm_refl σ : calm σ σ.
Proof.
  split; [apply extends_refl|]. split; [done|]. exists [].
  by rewrite app_nil_r.
Qed.

Lemma calm_trans σ1 σ2 σ3 : calm σ1 σ2 → calm σ2 σ3 → calm σ1 σ3.
Proof.
  intros (Hx & Ha & evs & Ht & Hq) (Hx' & Ha' & evs' & Ht' & Hq').
  split; [by eapply extends_trans|]. split; [auto|].
  exists (evs ++ evs'). split; [by rewrite Ht', Ht, app_assoc|].
  intros e. by rewrite holder_calls_app, Hq, Hq'.
Qed.

Lemma calm_logged evs σ :
  (∀ e, holder_calls e evs = []) → calm σ (logged evs σ).
Proof.
  intros Hq. split; [apply extends_logged, extends_refl|].
  split; [done|]. by exists evs.
Qed.

Lemma calm_rebind x σ : calm σ (rebind x σ).
Proof.
  split; [apply extends_rebind, extends_refl|]. split; [done|].
  exists []. by rewrite app_nil_r.
Qed.

Lemma calm_alloc σ : calm σ (alloc σ).
Proof.
  split; [apply extends_alloc, extends_refl|]. split.
  - intros Ha c Hc. specialize (Ha c Hc). simpl. lia.
  - exists []. simpl. by rewrite app_nil_r.
Qed.

Lemma calm_born this d thr cur σ :
  executors σ !! this = None → calm σ (born this d thr cur σ).
Proof.
  intros Hf. split; [by apply extends_born, Hf; apply extends_refl|].
  split; [done|]. exists []. simpl. by rewrite app_nil_r.
Qed.

Lemma calm_ctor e σ c σ' : CpuTimer_ctor e σ = Ok (c, σ') → calm σ σ'.
Proof.
  intros (E & HE & Hnone & -> & ->)%CpuTimer_ctor_Ok.
  split; [by apply extends_started; [apply extends_refl|]|]. split.
  - intros Ha c. simpl. destruct (decide (c = next_object σ)) as [->|Hne]; [lia|].
    rewrite lookup_insert_ne by done. intros Hc. specialize (Ha c Hc). lia.
  - eexists. split; [reflexivity|]. intros e0. reflexivity.
Qed.

Lemma calm_dtor c σ σ' : CpuTimer_dtor c σ = Ok ((), σ') → calm σ σ'.
Proof.
  intros (C & E & HC & HE & Hc & ->)%CpuTimer_dtor_Ok.
  split; [by apply extends_stopped; [apply extends_refl|]|].
  split; [done|]. eexists. split; [reflexivity|]. intros e0. reflexivity.
Qed.

Lemma calm_wall_entered this e E σ :
  executors σ !! e = Some E → calm σ (wall_entered this e E σ).
Proof.
  intros HE. split; [by apply extends_wall_entered; [apply extends_refl|]|].
  unfold wall_entered. case_bool_decide; (split; [done|]);
    eexists; (split; [reflexivity|]); intros e0; reflexivity.
Qed.

Lemma calm_wall_left w E σ :
  executors σ !! wt_executor w = Some E → calm σ (wall_left w E σ).
Proof.
  intros HE. split; [by apply extends_wall_left; [apply extends_refl|]|].
  unfold wall_left. case_bool_decide; (split; [done|]);
    eexists; (split; [reflexivity|]); intros e0; reflexivity.
Qed.

Lemma holder_of_extends σ σ' c h :
  extends σ σ' → (c < next_object σ)%nat →
  holder_of σ c = Some h → holder_of σ' c = Some h.
Proof.
  intros (_ & _ & Hx & Ht) Hlt. unfold holder_of.
  destruct (cpu_timers σ !! c) as [C|] eqn:HC; [|done]. simpl.
  destruct (executors σ !! ct_executor C) as [E|] eqn:HE; [|done]. simpl.
  intros [= <-]. destruct (Ht c C Hlt HC) as (C' & -> & Hex & _). simpl.
  rewrite Hex. destruct (Hx _ _ HE) as (E' & -> & Henv & _). simpl.
  by rewrite Henv.
Qed.

Lemma holder_of_allocated σ c :
  allocated σ → is_Some (holder_of σ c) → (c < next_object σ)%nat.
Proof.
  intros Ha [h Hh]. apply Ha. unfold holder_of in Hh.
  by destruct (cpu_timers σ !! c).
Qed.

Lemma holders_extends σ σ' e L :
  extends σ σ' → allocated σ → Forall (λ c, is_Some (holder_of σ c)) L →
  Forall (λ c, is_Some (holder_of σ' c)) L ∧ holders σ' e L = holders σ e L.
Proof.
  intros Hx Ha. induction 1 as [|c L [h Hh] HL [IH1 IH2]]; [done|].
  assert (Hh' : holder_of σ' c = Some h).
  { eapply holder_of_extends; [exact Hx| |exact Hh].
    apply holder_of_allocated; [done|by eexists]. }
  split; [constructor; [by eexists|done]|].
  unfold holders in *. rewrite !filter_cons, Hh, Hh'.
  destruct (decide (Some h = Some e)); simpl; by rewrite ?IH2.
Qed.

Section Holder.
Variable e : nat.
Variable base : Z.

Lemma balanced_calm L σ σ' : balanced e base L σ → calm σ σ' → balanced e base L σ'.
Proof.
  intros (Ha & HL & Hd) (Hx & Ha' & evs & Ht & Hq).
  destruct (holders_extends σ σ' e L Hx Ha HL) as [HL' Hcount].
  split; [auto|]. split; [done|].
  by rewrite Ht, pause_depth_quiet, Hcount.
Qed.

Lemma balanced_Pause L σ c σ' :
  balanced e base L σ → CpuTimer_Pause c σ = Ok ((), σ') →
  balanced e base (c :: L) σ'.
Proof.
  intros (Ha & HL & Hd) (C & E & HC & HE & Hc & ->)%CpuTimer_Pause_Ok.
  assert (Hx : extends σ (paused c C E σ))
    by (by apply extends_paused; [apply extends_refl|]).
  destruct (holders_extends σ _ e L Hx Ha HL) as [HL' Hcount].
  assert (Hh : holder_of σ c = Some (env E))
    by (unfold holder_of; rewrite HC; simpl; by rewrite HE).
  assert (Hh' : holder_of (paused c C E σ) c = Some (env E)).
  { eapply holder_of_extends; [exact Hx| |exact Hh].
    apply Ha. by rewrite HC. }
  split; [done|]. split; [constructor; [by eexists|done]|].
  unfold holders in *. rewrite filter_cons, Hh'. simpl trace.
  rewrite pause_depth_app, Hd. unfold pause_depth, pause_events. simpl.
  destruct (decide (Some (env E) = Some e)) as [[= ->]|Hne].
  - rewrite bool_decide_eq_true_2 by done. simpl. rewrite Hcount. lia.
  - rewrite bool_decide_eq_false_2 by congruence. simpl. rewrite Hcount. lia.
Qed.

Lemma balanced_Resume L σ c σ' :
  balanced e base (c :: L) σ → CpuTimer_Resume c σ = Ok ((), σ') →
  balanced e base L σ'.
Proof.
  intros (Ha & HL & Hd) (C & E & HC & HE & Hc & ->)%CpuTimer_Resume_Ok.
  assert (Hx : extends σ (resumed c C E σ))
    by (by apply extends_resumed; [apply extends_refl| |]).
  apply Forall_cons in HL as [_ HL].
  destruct (holders_extends σ _ e L Hx Ha HL) as [HL' Hcount].
  assert (Hh : holder_of σ c = Some (env E))
    by (unfold holder_of; rewrite HC; simpl; by rewrite HE).
  split.
  { intros c0. simpl. destruct (decide (c0 = c)) as [->|Hne].
    - intros _. apply Ha. by rewrite HC.
    - rewrite lookup_insert_ne by done. apply Ha. }
  split; [done|].
  unfold holders in *. rewrite filter_cons, Hh in Hd. simpl trace.
  rewrite pause_depth_app, Hd. unfold pause_depth, resume_events. simpl.
  destruct (decide (Some (env E) = Some e)) as [[= ->]|Hne].
  - rewrite bool_decide_eq_true_2 by done. simpl. rewrite Hcount. lia.
  - rewrite bool_decide_eq_false_2 by congruence. simpl. rewrite Hcount. lia.
Qed.

Lemma balanced_WallTimer_ctor L e0 σ w σ' :
  balanced e base L σ → WallTimer_ctor e0 σ = Ok (w, σ') →
  balanced e base (captured [FWallTimer w] ++ L) σ'.
Proof.
  intros HB (σ1 & E & Hp & HE & -> & ->)%WallTimer_ctor_Ok.
  eapply balanced_calm; [|by apply calm_wall_entered].
  unfold captured. simpl.
  apply when_set_Ok in Hp as [[-> ->]|(c & -> & Hp)]; simpl.
  - eapply balanced_calm; [exact HB|apply calm_alloc].
  - eapply balanced_Pause; [|exact Hp].
    eapply balanced_calm; [exact HB|apply calm_alloc].
Qed.

Lemma balanced_WallTimer_dtor L σ w σ' :
  balanced e base (captured [FWallTimer w] ++ L) σ →
  WallTimer_dtor w σ = Ok ((), σ') → balanced e base L σ'.
Proof.
  intros HB (σ1 & E & Hr & HE & ->)%WallTimer_dtor_Ok.
  eapply balanced_calm; [|by apply calm_wall_left].
  unfold captured in HB. simpl in HB.
  apply when_set_Ok in Hr as [[Hn ->]|(c & Hc & Hr)].
  - by rewrite Hn in HB.
  - rewrite Hc in HB. by eapply balanced_Resume.
Qed.

Lemma step_balanced a fs σ fs' σ' :
  balanced e base (captured fs) σ → step a fs σ = Ok (fs', σ') →
  balanced e base (captured fs') σ'.
Proof.
  intros HB Hs. apply step_Ok in Hs. destruct a as [k| |e0].
  - destruct Hs as (f & Hc & ->). apply construct_Ok in Hc.
    destruct k as [e0|e0|e0|e0|e0].
    + destruct Hc as [-> ->]. eapply balanced_calm; [exact HB|apply calm_rebind].
    + destruct Hc as (c & Hc & ->).
      eapply balanced_calm; [exact HB|by eapply calm_ctor].
    + destruct Hc as (w & Hc & ->). rewrite captured_cons.
      by eapply balanced_WallTimer_ctor.
    + destruct Hc as (l & Hc & ->).
      apply Lock_ctor_Ok in Hc as (w & σ1 & c & σ2 & Hw & Hc & -> & ->).
      rewrite captured_cons.
      change (captured [FLock (mkLock (mkScope (current_executor σ)) w e0 c)])
        with (captured [FWallTimer w]).
      eapply balanced_calm; [|by apply calm_logged].
      eapply balanced_calm; [|by eapply calm_ctor].
      eapply balanced_calm; [|by apply calm_logged].
      eapply balanced_WallTimer_ctor; [|exact Hw].
      eapply balanced_calm; [exact HB|apply calm_rebind].
    + destruct Hc as (u & Hc & ->).
      apply Unlock_ctor_Ok in Hc as (E & c & σ1 & HE & Hcpu & Hp & -> & ->).
      eapply balanced_calm; [|by apply calm_logged].
      change (captured (FUnlock (mkUnlock (Some c) e0) :: fs))
        with (c :: captured fs).
      eapply balanced_Pause; [|exact Hp].
      eapply balanced_calm; [exact HB|by apply calm_logged].
  - destruct Hs as (f & -> & Hd). destruct f as [s|c|w|l|u]; simpl in Hd.
    + rewrite Scope_dtor_eq in Hd. injection Hd as <-.
      eapply balanced_calm; [exact HB|apply calm_rebind].
    + eapply balanced_calm; [exact HB|by eapply calm_dtor].
    + rewrite captured_cons in HB. by eapply balanced_WallTimer_dtor.
    + apply Lock_dtor_Ok in Hd as (σ1 & σ2 & Hc & Hw & ->).
      rewrite captured_cons in HB.
      change (captured [FLock l]) with (captured [FWallTimer (lk_wall_timer l)]) in HB.
      eapply balanced_calm; [|apply calm_rebind].
      eapply balanced_WallTimer_dtor; [|exact Hw].
      eapply balanced_calm; [|by apply calm_logged].
      eapply balanced_calm; [|by eapply calm_dtor].
      eapply balanced_calm; [exact HB|by apply calm_logged].
    + apply Unlock_dtor_Ok in Hd as (c & Hu & Hr).
      unfold captured in HB. simpl in HB. rewrite Hu in HB.
      eapply balanced_Resume; [|exact Hr].
      eapply balanced_calm; [exact HB|by apply calm_logged].
  - destruct Hs as [Hc ->].
    apply Executor_ctor_Ok in Hc as [Hf [[_ ->]|[(d & D & _ & _ & _ & ->)|[_ ->]]]];
      (eapply balanced_calm; [exact HB|by apply calm_born]).
Qed.

End Holder.

(** X6. Whatever properly nested objects a thread declares, and wherever the
    run stops, the calls made on the quota timer of an environment are
    balanced: the pauses outnumber the resumes by the number of live
    objects that have paused a CpuTimer of that environment, and by
    nothing once every object is destroyed. *)
Theorem quota_timer_calls_are_balanced acts σ fs' σ' e :
  allocated σ → exec acts [] σ = Ok (fs', σ') →
  pause_depth e (trace σ') =
    pause_depth e (trace σ) + Z.of_nat (pending σ' e fs') ∧
  (fs' = [] → pause_depth e (trace σ') = pause_depth e (trace σ)).
Proof.
  intros Ha He.
  assert (HB : balanced e (pause_depth e (trace σ)) (captured fs') σ').
  { eapply (exec_always (λ fs σ1,
              balanced e (pause_depth e (trace σ)) (captured fs) σ1));
      [intros a fs1 σ1 fs2 σ2; apply step_balanced| |exact He].
    split; [done|]. split; [constructor|]. unfold holders. simpl. lia. }
  destruct HB as (_ & _ & Hd). split; [exact Hd|].
  intros ->. rewrite Hd. unfold pending, holders. simpl. lia.
Qed.

End Balance.

(** ** The trace of a run is a sequence of blocks *)

Create HintDb blocks.

Section Blocks.
Context `{Platform}.

Lemma blockwise_refl σ : blockwise σ σ.
Proof. exists []. split; [constructor|]. simpl. by rewrite app_nil_r. Qed.

Lemma blockwise_trans σ1 σ2 σ3 :
  blockwise σ1 σ2 → blockwise σ2 σ3 → blockwise σ1 σ3.
Proof.
  intros (a & Ha & Hta) (b & Hb & Htb). exists (a ++ b).
  split; [by apply Forall_app|]. by rewrite Htb, Hta, concat_app, app_assoc.
Qed.

Lemma blockwise_emit σ0 σ σ' evs :
  blockwise σ0 σ → block evs → trace σ' = trace σ ++ evs → blockwise σ0 σ'.
Proof.
  intros H0 Hb Ht. eapply blockwise_trans; [exact H0|]. exists [evs].
  split; [by repeat constructor|]. simpl. by rewrite app_nil_r.
Qed.

Lemma blockwise_silent σ0 σ σ' :
  blockwise σ0 σ → trace σ' = trace σ → blockwise σ0 σ'.
Proof.
  intros H0 Ht. eapply blockwise_trans; [exact H0|]. exists [].
  split; [constructor|]. simpl. by rewrite app_nil_r.
Qed.

Lemma blockwise_started σ0 e E σ : blockwise σ0 σ → blockwise σ0 (started e E σ).
Proof. intros. eapply blockwise_emit; [done|apply block_start|done]. Qed.

Lemma blockwise_stopped σ0 c C E σ :
  blockwise σ0 σ → blockwise σ0 (stopped c C E σ).
Proof. intros. eapply blockwise_emit; [done|apply block_stop|done]. Qed.

Lemma blockwise_paused σ0 c C E σ :
  blockwise σ0 σ → blockwise σ0 (paused c C E σ).
Proof. intros. eapply blockwise_emit; [done|apply block_pause|done]. Qed.

Lemma blockwise_resumed σ0 c C E σ :
  blockwise σ0 σ → blockwise σ0 (resumed c C E σ).
Proof. intros. eapply blockwise_emit; [done|apply block_resume|done]. Qed.

Lemma blockwise_wall_entered σ0 this e E σ :
  blockwise σ0 σ → blockwise σ0 (wall_entered this e E σ).
Proof.
  intros. unfold wall_entered. case_bool_decide.
  - eapply blockwise_emit; [done|apply block_wall_enter|done].
  - eapply blockwise_emit; [done|apply block_wall_skip|done].
Qed.

Lemma blockwise_wall_left σ0 w E σ :
  blockwise σ0 σ → blockwise σ0 (wall_left w E σ).
Proof.
  intros. unfold wall_left. case_bool_decide.
  - eapply blockwise_emit; [done|apply block_wall_leave|done].
  - eapply blockwise_emit; [done|apply block_wall_skip|done].
Qed.

Lemma blockwise_rebind σ0 x σ : blockwise σ0 σ → blockwise σ0 (rebind x σ).
Proof. intros. by eapply blockwise_silent. Qed.

Lemma blockwise_alloc σ0 σ : blockwise σ0 σ → blockwise σ0 (alloc σ).
Proof. intros. by eapply blockwise_silent. Qed.

Lemma blockwise_born σ0 this d thr cur σ :
  blockwise σ0 σ → blockwise σ0 (born this d thr cur σ).
Proof. intros. by eapply blockwise_silent. Qed.

Lemma blockwise_logged σ0 evs σ :
  blockwise σ0 σ → block evs → blockwise σ0 (logged evs σ).
Proof. intros. by eapply blockwise_emit. Qed.

Hint Resolve blockwise_refl blockwise_started blockwise_stopped
  blockwise_paused blockwise_resumed blockwise_wall_entered
  blockwise_wall_left blockwise_rebind blockwise_alloc blockwise_born
  : blocks.
Hint Extern 2 (blockwise _ (logged _ _)) =>
  apply blockwise_logged; [|by constructor] : blocks.

Lemma step_blockwise a fs σ fs' σ' :
  step a fs σ = Ok (fs', σ') → blockwise σ σ'.
Proof.
  intros Hs. destruct a as [k| |e].
  - destruct k; inv_step; eauto 12 with blocks.
  - apply step_Ok in Hs as (f & -> & Hd). destruct f; inv_step;
      eauto 12 with blocks.
  - inv_step; eauto with blocks.
Qed.

Lemma exec_blockwise acts fs σ fs' σ' :
  exec acts fs σ = Ok (fs', σ') → blockwise σ σ'.
Proof.
  revert fs σ. induction acts as [|a acts IH]; intros fs σ; simpl.
  - intros [= <- <-]. apply blockwise_refl.
  - rewrite bind_Ok. intros (fs1 & σ1 & Hs & He).
    eapply blockwise_trans; [by eapply step_blockwise|by eapply IH].
Qed.

Lemma out_of_place_app h a b :
  out_of_place h (a ++ b) = out_of_place h a ++ out_of_place (held_after h a) b.
Proof.
  revert h. induction a as [|ev a IH]; intros h; [done|].
  destruct ev; simpl; rewrite ?IH, <- ?app_assoc; done.
Qed.

Lemma block_in_place evs :
  block evs → held_after [] evs = [] ∧ out_of_place [] evs = [].
Proof.
  destruct 1; unfold start_events, stop_events, pause_events, resume_events,
    wall_enter_events, wall_leave_events, wall_skip_events; simpl;
    rewrite ?bool_decide_eq_true_2 by done; done.
Qed.

Lemma blocks_in_place bs :
  Forall block bs →
  held_after [] (concat bs) = [] ∧ out_of_place [] (concat bs) = [].
Proof.
  induction 1 as [|b bs Hb _ [IH1 IH2]]; [done|]. simpl.
  destruct (block_in_place b Hb) as [Hh Ho].
  by rewrite held_after_app, out_of_place_app, Hh, Ho, IH1, IH2.
Qed.

(** X7. In every run, a [timer_mutex] is taken only while the thread holds
    none, the quota timer is called only inside a critical section of a
    [timer_mutex], the thread never waits for the isolate locker while it
    holds a [timer_mutex], and every mutex taken is released. *)
Theorem critical_sections_are_short acts fs σ fs' σ' :
  exec acts fs σ = Ok (fs', σ') →
  ∃ evs, trace σ' = trace σ ++ evs ∧ held_after [] evs = [] ∧
         out_of_place [] evs = [].
Proof.
  intros (bs & Hbs & Ht)%exec_blockwise. exists (concat bs).
  split; [done|]. by apply blocks_in_place.
Qed.

End Blocks.

(** ** Delta *)

Section Delta.
Context `{Platform}.
Hypothesis cputime_monotone : monotone clock_thread_cputime.
Hypothesis steady_monotone : monotone steady_clock_now.

Lemma CpuTimer_Delta_eq c lock σ :
  CpuTimer_Delta c lock σ =
  match cpu_timers σ !! c with
  | None => Abort BadPointer
  | Some C => Ok (cpu_clock (instant σ) - ct_time C,
                  mkState (executors σ) (cpu_timers σ) (current_executor σ)
                          (cpu_timer_thread σ) (next_object σ)
                          (S (instant σ)) (trace σ))
  end.
Proof.
  unfold CpuTimer_Delta. unfold_M. by destruct (cpu_timers σ !! c).
Qed.

(** X8. In a state reached with clocks that never go back, [Delta] of the
    CpuTimer installed on an executor returns a duration that is not
    negative and touches nothing but the clock; a Pause or a destruction
    of the timer that comes next succeeds and charges the executor at
    least that duration. *)
Theorem CpuTimer_Delta_is_charged_later acts fs σ0 fs' σ e E c C :
  timed (walls fs) σ0 → exec acts fs σ0 = Ok (fs', σ) →
  executors σ !! e = Some E → cpu_timer E = Some c →
  cpu_timers σ !! c = Some C → ct_executor C = e →
  ∃ d σ1,
    (∀ lock, CpuTimer_Delta c lock σ = Ok (d, σ1)) ∧ 0 ≤ d ∧
    executors σ1 = executors σ ∧ cpu_timers σ1 = cpu_timers σ ∧
    cpu_timer_thread σ1 = cpu_timer_thread σ ∧ trace σ1 = trace σ ∧
    (∃ σ2 E2, CpuTimer_Pause c σ1 = Ok ((), σ2) ∧
              executors σ2 !! e = Some E2 ∧ cpu_time E + d ≤ cpu_time E2) ∧
    (∃ σ2 E2, CpuTimer_dtor c σ1 = Ok ((), σ2) ∧
              executors σ2 !! e = Some E2 ∧ cpu_time E + d ≤ cpu_time E2).
Proof.
  intros HT He HE Hc HC Hex.
  destruct (exec_timed cputime_monotone steady_monotone _ _ _ _ _ HT He) as (Hpast & _).
  pose proof (cpu_clock_monotone cputime_monotone steady_monotone) as Hmono.
  eexists _, _. split; [intros lock; rewrite CpuTimer_Delta_eq, HC; reflexivity|].
  split; [specialize (Hpast c C (instant σ) HC); lia|].
  split_and!; try done.
  - eexists _, _. rewrite CpuTimer_Pause_eq. simpl. rewrite HC, Hex, HE, Hc.
    rewrite bool_decide_eq_true_2 by done. split; [reflexivity|]. simpl.
    rewrite Hex, lookup_insert_eq. split; [reflexivity|]. simpl.
    specialize (Hmono (instant σ) (S (instant σ))). lia.
  - eexists _, _. rewrite CpuTimer_dtor_eq. simpl. rewrite HC, Hex, HE, Hc.
    rewrite bool_decide_eq_true_2 by done. split; [reflexivity|]. simpl.
    rewrite Hex, lookup_insert_eq. split; [reflexivity|]. simpl.
    specialize (Hmono (instant σ) (S (instant σ))). lia.
Qed.

Lemma when_Resume_instant p σ σ' :
  when_set p CpuTimer_Resume σ = Ok ((), σ') → (instant σ ≤ instant σ')%nat.
Proof.
  intros [[_ ->]|(c & _ & Hr)]%when_set_Ok; [done|].
  apply CpuTimer_Resume_Ok in Hr as (C & E & _ & _ & _ & ->). simpl. lia.
Qed.

(** X9. In a state reached with clocks that never go back, [Delta] of the
    WallTimer installed on an executor returns a duration that is not
    negative and touches nothing but the clock; when the WallTimer is
    destroyed next, the executor's wall time grows by at least that
    duration. *)
Theorem WallTimer_Delta_is_charged_later acts fs σ0 fs' σ w E :
  timed (walls fs) σ0 → exec acts fs σ0 = Ok (fs', σ) →
  w ∈ walls fs' → executors σ !! wt_executor w = Some E →
  wall_timer E = Some (wt_this w) →
  ∃ d σ1,
    (∀ lock, WallTimer_Delta w lock σ = Ok (d, σ1)) ∧ 0 ≤ d ∧
    executors σ1 = executors σ ∧ cpu_timers σ1 = cpu_timers σ ∧
    cpu_timer_thread σ1 = cpu_timer_thread σ ∧ trace σ1 = trace σ ∧
    ∀ σ2, WallTimer_dtor w σ1 = Ok ((), σ2) →
      ∃ E2, executors σ2 !! wt_executor w = Some E2 ∧
            wall_timer E2 = None ∧ wall_time E + d ≤ wall_time E2.
Proof.
  intros HT He Hin HE Hw.
  destruct (exec_timed cputime_monotone steady_monotone _ _ _ _ _ HT He) as (_ & _ & Hpast).
  unfold walls_past in Hpast. rewrite Forall_forall in Hpast.
  destruct (Hpast w Hin) as [_ Hstart].
  eexists _, _. split; [intros lock; reflexivity|]. simpl.
  split; [specialize (Hstart E (instant σ) HE Hw); lia|].
  split_and!; try done.
  intros σ2 (σr & Er & Hr & HEr & ->)%WallTimer_dtor_Ok.
  pose proof (when_Resume_instant _ _ _ Hr) as Hi. simpl in Hi.
  pose proof (when_Resume_wall_view _ _ _ (wt_executor w) Hr) as Hv.
  unfold wall_view in Hv. simpl in Hv. rewrite HEr, HE in Hv.
  injection Hv as Hv1 Hv2.
  unfold wall_left. rewrite bool_decide_eq_true_2 by congruence. simpl.
  rewrite lookup_insert_eq. eexists. split; [reflexivity|]. simpl.
  split; [done|]. specialize (steady_monotone (instant σ) (instant σr)). lia.
Qed.

End Delta.

(** ** The charge of one executor is within the elapsed time *)

Section Bounds.
Context `{Platform}.
Hypothesis cputime_monotone : monotone clock_thread_cputime.
Hypothesis steady_monotone : monotone steady_clock_now.
Variable e : nat.
Variables Bc Bw : Z.

Lemma cpu_clock_le i j : (i ≤ j)%nat → cpu_clock i ≤ cpu_clock j.
Proof. apply (cpu_clock_monotone cputime_monotone steady_monotone). Qed.

Lemma cpu_bound_keep σ σ' :
  cpu_view (executors σ') e = cpu_view (executors σ) e →
  (∀ E c, executors σ !! e = Some E → cpu_timer E = Some c →
     cpu_timers σ' !! c = cpu_timers σ !! c) →
  (instant σ ≤ instant σ')%nat →
  cpu_bound e Bc σ → cpu_bound e Bc σ'.
Proof.
  intros Hv Ht Hi [H1 H2]. unfold cpu_view in Hv.
  pose proof (cpu_clock_le _ _ Hi) as Hclk. split.
  - unfold charged_cpu in *.
    destruct (executors σ' !! e) as [E'|], (executors σ !! e) as [E|];
      simpl in *; try done; [|lia].
    injection Hv as _ Hv. lia.
  - intros E' c C HE' Hc HC. rewrite HE' in Hv.
    destruct (executors σ !! e) as [E|] eqn:HE; [|done]. simpl in Hv.
    injection Hv as Hv1 Hv2. rewrite Hv2.
    apply (H2 E c C); [done|congruence|].
    rewrite <- (Ht E c); [done|done|congruence].
Qed.

Lemma wall_bound_keep W σ σ' :
  wall_view (executors σ') e = wall_view (executors σ) e →
  (instant σ ≤ instant σ')%nat →
  wall_bound e Bw W σ → wall_bound e Bw W σ'.
Proof.
  intros Hv Hi [H1 H2]. unfold wall_view in Hv.
  pose proof (steady_monotone _ _ Hi) as Hclk. split.
  - unfold charged_wall in *.
    destruct (executors σ' !! e) as [E'|], (executors σ !! e) as [E|];
      simpl in *; try done; [|lia].
    injection Hv as _ Hv. lia.
  - intros E' w HE' Hin Hex Hw. rewrite HE' in Hv.
    destruct (executors σ !! e) as [E|] eqn:HE; [|done]. simpl in Hv.
    injection Hv as Hv1 Hv2. rewrite Hv2.
    apply (H2 E w); [done|done|done|congruence].
Qed.

Lemma wall_bound_tail w W σ : wall_bound e Bw (w :: W) σ → wall_bound e Bw W σ.
Proof.
  intros [H1 H2]. split; [done|]. intros E w0 HE Hin. apply H2; [done|by right].
Qed.

Lemma walls_fresh_later W σ σ' :
  (next_object σ ≤ next_object σ')%nat → walls_fresh W σ → walls_fresh W σ'.
Proof.
  intros Hn HF. eapply Forall_impl; [exact HF|]. intros w Hw. simpl in *. lia.
Qed.

(* a step that leaves the executors and the CpuTimers as they are *)
Lemma bounded_plain O W σ σ' :
  executors σ' = executors σ → cpu_timers σ' = cpu_timers σ →
  cpu_timer_thread σ' = cpu_timer_thread σ →
  (next_object σ ≤ next_object σ')%nat → (instant σ ≤ instant σ')%nat →
  bounded e Bc Bw O W σ → bounded e Bc Bw O W σ'.
Proof.
  intros Hx Ht Hh Hn Hi (HN & HF & HC & HW). split_and!.
  - by eapply nest_plain.
  - by eapply walls_fresh_later.
  - eapply cpu_bound_keep; [by rewrite Hx|by rewrite Ht|done|done].
  - eapply wall_bound_keep; [by rewrite Hx|done|done].
Qed.

Lemma bounded_logged O W evs σ :
  bounded e Bc Bw O W σ → bounded e Bc Bw O W (logged evs σ).
Proof. by apply bounded_plain. Qed.

Lemma bounded_rebind O W x σ :
  bounded e Bc Bw O W σ → bounded e Bc Bw O W (rebind x σ).
Proof. by apply bounded_plain. Qed.

Lemma bounded_alloc O W σ :
  bounded e Bc Bw O W σ → bounded e Bc Bw O W (alloc σ).
Proof. apply bounded_plain; simpl; auto. Qed.

Lemma bounded_born O W this d thr cur σ :
  executors σ !! this = None →
  bounded e Bc Bw O W σ → bounded e Bc Bw O W (born this d thr cur σ).
Proof.
  intros Hf (HN & HF & [HC1 HC2] & [HW1 HW2]).
  split_and!; [by apply nest_born|done| |].
  - split.
    + unfold charged_cpu in *. simpl.
      destruct (decide (e = this)) as [->|Hne].
      * rewrite lookup_insert_eq. rewrite Hf in HC1. simpl in *. done.
      * by rewrite lookup_insert_ne.
    + intros E c C. simpl. destruct (decide (e = this)) as [->|Hne].
      * rewrite lookup_insert_eq. by intros [= <-].
      * rewrite lookup_insert_ne by done. apply HC2.
  - split.
    + unfold charged_wall in *. simpl.
      destruct (decide (e = this)) as [->|Hne].
      * rewrite lookup_insert_eq. rewrite Hf in HW1. simpl in *. done.
      * by rewrite lookup_insert_ne.
    + intros E w. simpl. destruct (decide (e = this)) as [->|Hne].
      * rewrite lookup_insert_eq. by intros [= <-].
      * rewrite lookup_insert_ne by done. apply HW2.
Qed.

(* the installed CpuTimer is taken off and its time is charged *)
Lemma cpu_bound_flush σ σ' c C E :
  cpu_bound e Bc σ → cpu_timers σ !! c = Some C →
  executors σ !! ct_executor C = Some E → cpu_timer E = Some c →
  executors σ' =
    <[ct_executor C := flush E (cpu_clock (instant σ) - ct_time C)]>
      (executors σ) →
  cpu_timers σ' = cpu_timers σ → instant σ' = S (instant σ) →
  cpu_bound e Bc σ'.
Proof.
  intros HB HC HE Hc Hx Ht Hi.
  destruct (decide (ct_executor C = e)) as [Heq|Hne].
  - destruct HB as [_ H2]. rewrite Heq in *.
    specialize (H2 E c C HE Hc HC).
    pose proof (cpu_clock_le (instant σ) (S (instant σ))).
    split.
    + unfold charged_cpu. rewrite Hx, lookup_insert_eq, Hi. simpl. lia.
    + intros E' c' C'. rewrite Hx, lookup_insert_eq. by intros [= <-].
  - eapply (cpu_bound_keep σ); [| | |exact HB].
    + rewrite Hx. unfold cpu_view. by rewrite lookup_insert_ne.
    + intros. by rewrite Ht.
    + lia.
Qed.

(* a CpuTimer that starts counting now is installed *)
Lemma cpu_bound_install σ σ' e0 E0 c C' :
  cpu_bound e Bc σ → executors σ !! e0 = Some E0 →
  executors σ' = <[e0 := install E0 (Some c)]> (executors σ) →
  cpu_timers σ' = <[c := C']> (cpu_timers σ) →
  ct_time C' = cpu_clock (instant σ) → instant σ' = S (instant σ) →
  (e0 ≠ e → ∀ E c1, executors σ !! e = Some E → cpu_timer E = Some c1 → c1 ≠ c) →
  cpu_bound e Bc σ'.
Proof.
  intros HB HE0 Hx Ht HC' Hi Hother.
  destruct (decide (e0 = e)) as [->|Hne].
  - destruct HB as [H1 _]. unfold charged_cpu in H1. rewrite HE0 in H1.
    simpl in H1. pose proof (cpu_clock_le (instant σ) (S (instant σ))).
    split.
    + unfold charged_cpu. rewrite Hx, lookup_insert_eq, Hi. simpl. lia.
    + intros E' c' C0. rewrite Hx, Ht, lookup_insert_eq.
      intros [= <-] [= <-]. rewrite lookup_insert_eq. intros [= <-]. simpl. lia.
  - eapply (cpu_bound_keep σ); [| | |exact HB].
    + rewrite Hx. unfold cpu_view. by rewrite lookup_insert_ne.
    + intros E c1 HE Hc1. rewrite Ht.
      rewrite lookup_insert_ne; [done|]. intros <-. by eapply (Hother Hne E c).
    + lia.
Qed.

Lemma bounded_Pause O W σ c σ' :
  bounded e Bc Bw O W σ → CpuTimer_Pause c σ = Ok ((), σ') →
  bounded e Bc Bw O W σ'.
Proof.
  intros (HN & HF & HC & HW) Hp.
  split; [by eapply nest_Pause|].
  apply CpuTimer_Pause_Ok in Hp as (C & E & HC0 & HE & Hc & ->).
  split_and!; [done| |].
  - by eapply (cpu_bound_flush σ _ c C E).
  - eapply (wall_bound_keep W σ); [|simpl; lia|exact HW]. simpl.
    by eapply wall_view_insert.
Qed.

Lemma bounded_dtor O W σ c σ' :
  bounded e Bc Bw (c :: O) W σ → CpuTimer_dtor c σ = Ok ((), σ') →
  bounded e Bc Bw O W σ'.
Proof.
  intros (HN & HF & HC & HW) Hp.
  split; [by eapply nest_dtor|].
  apply CpuTimer_dtor_Ok in Hp as (C & E & HC0 & HE & Hc & ->).
  split_and!; [done| |].
  - by eapply (cpu_bound_flush σ _ c C E).
  - eapply (wall_bound_keep W σ); [|simpl; lia|exact HW]. simpl.
    by eapply wall_view_insert.
Qed.

Lemma bounded_ctor O W e0 σ c σ' :
  bounded e Bc Bw O W σ → CpuTimer_ctor e0 σ = Ok (c, σ') →
  bounded e Bc Bw (c :: O) W σ'.
Proof.
  intros (HN & HF & HC & HW) Hp.
  split; [by eapply nest_ctor|].
  apply CpuTimer_ctor_Ok in Hp as (E & HE & Hnone & -> & ->).
  split_and!.
  - eapply walls_fresh_later; [|exact HF]. simpl. lia.
  - eapply (cpu_bound_install σ _ e0 E (next_object σ)); try done.
    intros _ E1 c1 HE1 Hc1 ->. destruct HN as (HO & _ & _ & Hl & _).
    destruct (HO _ _ _ HE1 Hc1) as [Hin _].
    unfold timers_live in Hl. rewrite Forall_forall in Hl.
    destruct (Hl _ Hin). lia.
  - eapply (wall_bound_keep W σ); [|simpl; lia|exact HW]. simpl.
    by eapply wall_view_insert.
Qed.

Lemma bounded_Resume O W σ c σ' :
  bounded e Bc Bw O W σ → c ∈ O → CpuTimer_Resume c σ = Ok ((), σ') →
  bounded e Bc Bw O W σ'.
Proof.
  intros (HN & HF & HC & HW) Hin Hp.
  split; [by eapply nest_Resume|].
  apply CpuTimer_Resume_Ok in Hp as (C & E & HC0 & HE & Hc & ->).
  split_and!; [done| |].
  - eapply (cpu_bound_install σ _ (ct_executor C) E c); try done.
    intros Hne E1 c1 HE1 Hc1 ->. destruct HN as (HO & _).
    destruct (HO _ _ _ HE1 Hc1) as (_ & C1 & HC1 & Hex). congruence.
  - eapply (wall_bound_keep W σ); [|simpl; lia|exact HW]. simpl.
    by eapply wall_view_insert.
Qed.

Lemma wall_bound_entered W this e0 cap E0 σ :
  wall_installed W σ → Forall (λ w, (wt_this w < this)%nat) W →
  executors σ !! e0 = Some E0 →
  wall_bound e Bw W σ →
  wall_bound e Bw (wall_object this e0 cap E0 σ :: W) (wall_entered this e0 E0 σ).
Proof.
  intros HI HF HE0 [H1 H2]. rewrite Forall_forall in HF.
  unfold wall_entered, wall_object. case_bool_decide as Hnone.
  - pose proof (steady_monotone (instant σ) (S (instant σ))).
    destruct (decide (e0 = e)) as [->|Hne].
    + unfold charged_wall in H1. rewrite HE0 in H1. simpl in H1. split.
      * unfold charged_wall. simpl. rewrite lookup_insert_eq. simpl. lia.
      * intros E w. simpl. rewrite lookup_insert_eq. intros [= <-] Hin Hex.
        simpl. intros [= Hthis].
        apply elem_of_cons in Hin as [->|Hin]; [simpl; lia|].
        specialize (HF w Hin). simpl in HF. lia.
    + split.
      * unfold charged_wall in *. simpl. rewrite lookup_insert_ne by done. lia.
      * intros E w. simpl. rewrite lookup_insert_ne by done. intros HE Hin Hex.
        apply elem_of_cons in Hin as [->|Hin]; [done|]. by apply H2.
  - split; [done|]. intros E w. simpl. intros HE Hin Hex Hw.
    apply elem_of_cons in Hin as [->|Hin]; [|by apply H2].
    simpl in *. subst e0. rewrite HE0 in HE. injection HE as <-.
    destruct (HI _ _ _ HE0 Hw) as (x & Hx & Hthis & _).
    specialize (HF x Hx). simpl in HF. lia.
Qed.

Lemma wall_bound_left W w E σ :
  executors σ !! wt_executor w = Some E →
  wall_bound e Bw (w :: W) σ → wall_bound e Bw W (wall_left w E σ).
Proof.
  intros HE [H1 H2]. unfold wall_left. case_bool_decide as Hw.
  - pose proof (steady_monotone (instant σ) (S (instant σ))).
    destruct (decide (wt_executor w = e)) as [Heq|Hne].
    + pose proof HE as HE'. rewrite Heq in HE'.
      specialize (H2 E w HE' ltac:(by left) Heq Hw). split.
      * unfold charged_wall. simpl. rewrite Heq, lookup_insert_eq. simpl. lia.
      * intros E' w'. simpl. rewrite Heq, lookup_insert_eq. by intros [= <-].
    + split.
      * unfold charged_wall in *. simpl. rewrite lookup_insert_ne by done. lia.
      * intros E' w'. simpl. rewrite lookup_insert_ne by done. intros HE' Hin.
        apply H2; [done|by right].
  - split; [done|]. intros E' w' HE' Hin. apply H2; [done|by right].
Qed.

Lemma bounded_WallTimer_ctor O W e0 σ w σ' :
  bounded e Bc Bw O W σ → WallTimer_ctor e0 σ = Ok (w, σ') →
  bounded e Bc Bw O (w :: W) σ' ∧ ∀ c, wt_cpu_timer w = Some c → c ∈ O.
Proof.
  intros HB Hw. pose proof HB as (HN & HF & _).
  destruct (nest_WallTimer_ctor _ _ _ _ _ _ HN Hw) as [HN' Hcap].
  split; [|exact Hcap]. split; [exact HN'|].
  apply WallTimer_ctor_Ok in Hw as (σ1 & E & Hp & HE & -> & ->).
  assert (HB1 : bounded e Bc Bw O W σ1 ∧ next_object σ1 = S (next_object σ)).
  { apply when_set_Ok in Hp as [[_ ->]|(c & _ & Hp)].
    - split; [by apply bounded_alloc|done].
    - split; [eapply bounded_Pause; [|exact Hp]; by apply bounded_alloc|].
      apply CpuTimer_Pause_Ok in Hp as (? & ? & _ & _ & _ & ->). done. }
  destruct HB1 as [(HN1 & HF1 & HC1 & HW1) Hn1]. split_and!.
  - constructor.
    + simpl. rewrite wall_entered_next. lia.
    + eapply walls_fresh_later; [|exact HF1]. by rewrite wall_entered_next.
  - eapply (cpu_bound_keep σ1); [by apply cpu_view_wall_entered| | |exact HC1].
    + intros. by rewrite wall_entered_timers.
    + unfold wall_entered. case_bool_decide; simpl; lia.
  - destruct HN1 as (_ & HI1 & _). by apply wall_bound_entered.
Qed.

Lemma bounded_WallTimer_dtor O W σ w σ' :
  bounded e Bc Bw O (w :: W) σ → (∀ c, wt_cpu_timer w = Some c → c ∈ O) →
  WallTimer_dtor w σ = Ok ((), σ') → bounded e Bc Bw O W σ'.
Proof.
  intros HB Hcap Hd. pose proof HB as (HN & _).
  split; [by eapply nest_WallTimer_dtor|].
  apply WallTimer_dtor_Ok in Hd as (σ1 & E & Hr & HE & ->).
  assert (HB1 : bounded e Bc Bw O (w :: W) σ1).
  { apply when_set_Ok in Hr as [[_ ->]|(c & Hc & Hr)]; [done|].
    eapply bounded_Resume; [exact HB|by apply Hcap|exact Hr]. }
  destruct HB1 as (HN1 & HF1 & HC1 & HW1). split_and!.
  - apply Forall_inv_tail in HF1. eapply walls_fresh_later; [|exact HF1].
    unfold wall_left. case_bool_decide; simpl; lia.
  - eapply (cpu_bound_keep σ1); [by apply cpu_view_wall_left| | |exact HC1].
    + intros. by rewrite wall_left_timers.
    + unfold wall_left. case_bool_decide; simpl; lia.
  - by apply wall_bound_left.
Qed.

Lemma step_bounded a fs σ fs' σ' :
  bounded e Bc Bw (owned fs) (walls fs) σ ∧ captured_below fs →
  step a fs σ = Ok (fs', σ') →
  bounded e Bc Bw (owned fs') (walls fs') σ' ∧ captured_below fs'.
Proof.
  intros [HB Hbelow] Hs.
  assert (Hbelow' : captured_below fs').
  { destruct HB as (HN & _). by destruct (step_nest _ _ _ _ _ (conj HN Hbelow) Hs). }
  split; [|exact Hbelow']. clear Hbelow'.
  apply step_Ok in Hs. destruct a as [k| |e0].
  - destruct Hs as (f & Hc & ->). apply construct_Ok in Hc.
    destruct k as [e0|e0|e0|e0|e0].
    + destruct Hc as [-> ->]. by apply bounded_rebind.
    + destruct Hc as (c & Hc & ->). by eapply bounded_ctor.
    + destruct Hc as (w & Hc & ->).
      by destruct (bounded_WallTimer_ctor _ _ _ _ _ _ HB Hc).
    + destruct Hc as (l & Hc & ->).
      apply Lock_ctor_Ok in Hc as (w & σ1 & c & σ2 & Hw & Hc & -> & ->).
      eapply bounded_WallTimer_ctor in Hw as [HB1 _]; [|by apply bounded_rebind].
      apply bounded_logged. eapply bounded_ctor; [|exact Hc].
      by apply bounded_logged.
    + destruct Hc as (u & Hc & ->).
      apply Unlock_ctor_Ok in Hc as (E & c & σ1 & HE & Hcpu & Hp & -> & ->).
      apply bounded_logged. eapply bounded_Pause; [|exact Hp].
      by apply bounded_logged.
  - destruct Hs as (f & -> & Hd). destruct Hbelow as [Hcap _].
    destruct f as [s|c|w|l|u]; simpl in Hd.
    + rewrite Scope_dtor_eq in Hd. injection Hd as <-. by apply bounded_rebind.
    + eapply bounded_dtor; [exact HB|exact Hd].
    + eapply bounded_WallTimer_dtor; [exact HB|exact Hcap|exact Hd].
    + apply Lock_dtor_Ok in Hd as (σ1 & σ2 & Hc & Hw & ->).
      apply bounded_rebind.
      eapply bounded_WallTimer_dtor; [|exact Hcap|exact Hw].
      apply bounded_logged. eapply bounded_dtor; [|exact Hc].
      apply bounded_logged. exact HB.
    + apply Unlock_dtor_Ok in Hd as (c & Hu & Hr).
      eapply bounded_Resume; [|by apply Hcap|exact Hr]. by apply bounded_logged.
  - destruct Hs as [Hc ->].
    apply Executor_ctor_Ok in Hc as [Hf [[_ ->]|[(d & D & _ & _ & _ & ->)|[_ ->]]]];
      by apply bounded_born.
Qed.

End Bounds.

Section Elapsed.
Context `{Platform}.
Hypothesis cputime_monotone : monotone clock_thread_cputime.
Hypothesis steady_monotone : monotone steady_clock_now.

(** X12. With clocks that never go back, on a thread that starts with no timer
    anywhere, whatever properly nested objects it declares: over any run
    the CPU time of an executor grows by no more than the time that went
    by on the clock of the CpuTimers, and its wall time by no more than
    the time that went by on the steady clock. An executor constructed
    during the run counts from zero. *)
Theorem accumulated_times_are_within_elapsed_time acts σ fs' σ' e :
  clean σ → exec acts [] σ = Ok (fs', σ') →
  charged_cpu σ' e - charged_cpu σ e ≤
    cpu_clock (instant σ') - cpu_clock (instant σ) ∧
  charged_wall σ' e - charged_wall σ e ≤
    steady_clock_now (instant σ') - steady_clock_now (instant σ).
Proof.
  intros Hclean He.
  set (Bc := charged_cpu σ e - cpu_clock (instant σ)).
  set (Bw := charged_wall σ e - steady_clock_now (instant σ)).
  assert (HI : bounded e Bc Bw (owned fs') (walls fs') σ' ∧ captured_below fs').
  { eapply (exec_always (λ fs σ, bounded e Bc Bw (owned fs) (walls fs) σ ∧
                                 captured_below fs));
      [apply (step_bounded cputime_monotone steady_monotone)| |exact He].
    split; [|done]. split_and!; [by apply clean_nest|constructor| |].
    - split; [unfold Bc; lia|]. intros E c C HE Hc.
      destruct Hclean as [_ Hn]. destruct (Hn e E HE). congruence.
    - split; [unfold Bw; lia|]. intros E w HE Hin. by apply elem_of_nil in Hin. }
  destruct HI as [(_ & _ & [HC _] & [HW _]) _]. unfold Bc, Bw in *. lia.
Qed.

End Elapsed.
(** * One thread among the threads of the process *)

Section Interleaving.
Context `{Platform}.

Lemma concurrent_always (R : list nat) (P : action → bool)
    (I : list frame → State → Prop) :
  (∀ a fs σ fs' σ', P a = true → I fs σ → step a fs σ = Ok (fs', σ') →
     I fs' σ') →
  (∀ fs σ σ', I fs σ → others R (owned fs) σ σ' → I fs σ') →
  ∀ acts fs σ fs' σ', forallb P acts = true → I fs σ →
    concurrent R acts fs σ fs' σ' → I fs' σ'.
Proof.
  intros Hstep Hrely acts fs σ fs' σ' Hacts HI Hc. revert Hacts HI.
  induction Hc as [fs σ|a acts fs σ fs1 σ1 fs' σ' Hs _ IH|
                   acts fs σ σ1 fs' σ' Ho _ IH]; intros Hacts HI.
  - exact HI.
  - simpl in Hacts. apply andb_prop in Hacts as [Ha Hacts].
    apply IH; [exact Hacts|]. by eapply Hstep.
  - apply IH; [exact Hacts|]. by eapply Hrely.
Qed.

Lemma concurrent_every (R : list nat) (I : list frame → State → Prop) :
  (∀ a fs σ fs' σ', I fs σ → step a fs σ = Ok (fs', σ') → I fs' σ') →
  (∀ fs σ σ', I fs σ → others R (owned fs) σ σ' → I fs σ') →
  ∀ acts fs σ fs' σ', I fs σ → concurrent R acts fs σ fs' σ' → I fs' σ'.
Proof.
  intros Hstep Hrely acts fs σ fs' σ' HI Hc. revert HI.
  induction Hc as [fs σ|a acts fs σ fs1 σ1 fs' σ' Hs _ IH|
                   acts fs σ σ1 fs' σ' Ho _ IH]; intros HI.
  - exact HI.
  - apply IH. by eapply Hstep.
  - apply IH. by eapply Hrely.
Qed.

(** A run in which the other threads do nothing. *)
Lemma exec_concurrent R acts fs σ fs' σ' :
  exec acts fs σ = Ok (fs', σ') → concurrent R acts fs σ fs' σ'.
Proof.
  revert fs σ. induction acts as [|a acts IH]; intros fs σ; simpl.
  - intros [= <- <-]. constructor.
  - rewrite bind_Ok. intros (fs1 & σ1 & Hs & He).
    eapply concurrent_step; [exact Hs|by apply IH].
Qed.

Lemma concurrent_app R acts1 acts2 fs σ fs1 σ1 fs' σ' :
  concurrent R acts1 fs σ fs1 σ1 → concurrent R acts2 fs1 σ1 fs' σ' →
  concurrent R (acts1 ++ acts2) fs σ fs' σ'.
Proof.
  intros H1 H2.
  induction H1 as [fs σ|a acts fs σ fs0 σ0 fs1 σ1 Hs _ IH|
                   acts fs σ σ0 fs1 σ1 Ho _ IH].
  - exact H2.
  - simpl. eapply concurrent_step; [exact Hs|by apply IH].
  - eapply concurrent_others; [exact Ho|by apply IH].
Qed.

(** A run of the thread, then the other threads, then a run of the
    thread. *)
Lemma concurrent_meet R acts1 acts2 fs σ fs1 σ1 σ2 fs' σ' :
  exec acts1 fs σ = Ok (fs1, σ1) → others R (owned fs1) σ1 σ2 →
  exec acts2 fs1 σ2 = Ok (fs', σ') →
  concurrent R (acts1 ++ acts2) fs σ fs' σ'.
Proof.
  intros H1 Ho H2. eapply concurrent_app; [by apply exec_concurrent|].
  eapply concurrent_others; [exact Ho|by apply exec_concurrent].
Qed.

(** The conditions of [others] in a form that can be evaluated. *)
Lemma others_checked R O σ σ' :
  current_executor σ' = current_executor σ →
  cpu_timer_thread σ' = cpu_timer_thread σ →
  (next_object σ ≤ next_object σ')%nat →
  (instant σ ≤ instant σ')%nat →
  map_Forall (λ c _, (c < next_object σ')%nat) (cpu_timers σ') →
  map_Forall (λ c C, ct_executor <$> cpu_timers σ' !! c = Some (ct_executor C))
             (cpu_timers σ) →
  Forall (λ c, cpu_timers σ' !! c = cpu_timers σ !! c ∧
               installed σ' c = installed σ c) O →
  Forall (λ e, executors σ' !! e = executors σ !! e) R →
  others R O σ σ'.
Proof.
  intros Hcur Hhead Hn Hi Hall Hex Hown Hres. split_and!; try done.
  - intros _ c [C HC]. by apply (Hall c C).
  - intros c C HC. specialize (Hex c C HC). simpl in Hex.
    destruct (cpu_timers σ' !! c) as [C'|]; [|done].
    injection Hex as Hex. by exists C'.
  - by apply Forall_forall.
  - by apply Forall_forall.
Qed.

Lemma installed_true σ c :
  installed σ c = true ↔
  ∃ C E, cpu_timers σ !! c = Some C ∧ executors σ !! ct_executor C = Some E ∧
         cpu_timer E = Some c.
Proof.
  unfold installed. split.
  - destruct (cpu_timers σ !! c) as [C|]; [|done].
    destruct (executors σ !! ct_executor C) as [E|] eqn:HE; [|done].
    intros Hb%bool_decide_eq_true. eauto.
  - intros (C & E & -> & -> & Hc). by apply bool_decide_eq_true.
Qed.

Lemma installed_plain σ σ' c :
  executors σ' = executors σ → cpu_timers σ' = cpu_timers σ →
  installed σ' c = installed σ c.
Proof. intros Hx Ht. unfold installed. by rewrite Hx, Ht. Qed.

(* an executor is replaced by one with the same CpuTimer *)
Lemma installed_update σ σ' e E E' c :
  executors σ !! e = Some E → executors σ' = <[e := E']> (executors σ) →
  cpu_timers σ' = cpu_timers σ → cpu_timer E' = cpu_timer E →
  installed σ' c = installed σ c.
Proof.
  intros HE Hx Ht Hc. unfold installed. rewrite Hx, Ht.
  destruct (cpu_timers σ !! c) as [C|]; [|done].
  destruct (decide (ct_executor C = e)) as [->|Hne].
  - by rewrite lookup_insert_eq, HE, Hc.
  - by rewrite lookup_insert_ne.
Qed.

Lemma installed_wall_entered this e E σ c :
  executors σ !! e = Some E →
  installed (wall_entered this e E σ) c = installed σ c.
Proof.
  intros HE. unfold wall_entered. case_bool_decide.
  - by eapply installed_update.
  - by apply installed_plain.
Qed.

Lemma installed_wall_left w E σ c :
  executors σ !! wt_executor w = Some E →
  installed (wall_left w E σ) c = installed σ c.
Proof.
  intros HE. unfold wall_left. case_bool_decide.
  - by eapply installed_update.
  - by apply installed_plain.
Qed.

(* the CpuTimer installed on an executor is taken off *)
Lemma installed_flush σ σ' c0 C0 E0 d c :
  cpu_timers σ !! c0 = Some C0 → executors σ !! ct_executor C0 = Some E0 →
  executors σ' = <[ct_executor C0 := flush E0 d]> (executors σ) →
  cpu_timers σ' = cpu_timers σ →
  installed σ' c = true → installed σ c = true ∧ c ≠ c0.
Proof.
  intros HC0 HE0 Hx Ht (C & E & HC & HE & Hc)%installed_true.
  rewrite Ht in HC. rewrite Hx in HE.
  destruct (decide (ct_executor C = ct_executor C0)) as [Heq|Hne].
  - rewrite Heq, lookup_insert_eq in HE. injection HE as <-. done.
  - rewrite lookup_insert_ne in HE by done. split.
    + apply installed_true. eauto.
    + intros ->. congruence.
Qed.

(* a CpuTimer is installed on an executor *)
Lemma installed_install σ σ' e0 E0 c0 C0 c :
  executors σ' = <[e0 := install E0 (Some c0)]> (executors σ) →
  cpu_timers σ' = <[c0 := C0]> (cpu_timers σ) →
  installed σ' c = true → c = c0 ∨ installed σ c = true.
Proof.
  intros Hx Ht (C & E & HC & HE & Hc)%installed_true.
  destruct (decide (c = c0)) as [->|Hne]; [by left|right].
  rewrite Ht, lookup_insert_ne in HC by done. rewrite Hx in HE.
  destruct (decide (ct_executor C = e0)) as [Heq|Hne0].
  - rewrite Heq, lookup_insert_eq in HE. injection HE as <-. simpl in Hc.
    congruence.
  - rewrite lookup_insert_ne in HE by done. apply installed_true. eauto.
Qed.

Lemma installed_born this d thr cur σ c :
  executors σ !! this = None →
  installed (born this d thr cur σ) c = true → installed σ c = true.
Proof.
  intros Hf (C & E & HC & HE & Hc)%installed_true. simpl in HC, HE.
  destruct (decide (ct_executor C = this)) as [Heq|Hne].
  - rewrite Heq, lookup_insert_eq in HE. by injection HE as <-.
  - rewrite lookup_insert_ne in HE by done. apply installed_true. eauto.
Qed.

Lemma all_paused_own_head O σ :
  cpu_timer_thread σ = head O → timers_live σ O →
  stacked (cpu_timers σ) O → all_paused O σ → own O σ.
Proof.
  intros Hh Hl Hs Hp. split_and!; try done.
  intros c Hin Hc. by rewrite (Hp c Hin) in Hc.
Qed.

(* a step that installs no CpuTimer of the thread *)
Lemma own_keep O σ σ' :
  cpu_timer_thread σ' = cpu_timer_thread σ →
  (next_object σ ≤ next_object σ')%nat →
  (∀ c C, c ∈ O → cpu_timers σ !! c = Some C →
     ∃ C', cpu_timers σ' !! c = Some C' ∧ ct_last C' = ct_last C) →
  fewer O σ σ' → own O σ → own O σ'.
Proof.
  intros Hh Hn Ht Hf (Hhead & Hl & Hs & Hi). split_and!.
  - congruence.
  - unfold timers_live in *. rewrite Forall_forall in Hl.
    apply Forall_forall. intros c Hin. destruct (Hl c Hin) as [Hlt [C HC]].
    split; [lia|]. destruct (Ht c C Hin HC) as (C' & HC' & _). by eexists.
  - by eapply stacked_store.
  - intros c Hin Hc. rewrite Hh. apply Hi; [done|]. by apply Hf.
Qed.

Lemma own_plain O σ σ' :
  executors σ' = executors σ → cpu_timers σ' = cpu_timers σ →
  cpu_timer_thread σ' = cpu_timer_thread σ →
  (next_object σ ≤ next_object σ')%nat → own O σ → own O σ'.
Proof.
  intros Hx Ht Hh Hn. apply own_keep; [done|done| |].
  - intros c C _ HC. exists C. by rewrite Ht.
  - intros c _. by rewrite (installed_plain σ σ').
Qed.

Lemma own_logged O evs σ : own O σ → own O (logged evs σ).
Proof. by apply own_plain. Qed.

Lemma own_rebind O x σ : own O σ → own O (rebind x σ).
Proof. by apply own_plain. Qed.

Lemma own_alloc O σ : own O σ → own O (alloc σ).
Proof. apply own_plain; simpl; auto. Qed.

Lemma own_born O this d thr cur σ :
  executors σ !! this = None → own O σ → own O (born this d thr cur σ).
Proof.
  intros Hf. apply own_keep; simpl; [done|done|eauto|].
  intros c _. by apply installed_born.
Qed.

Lemma own_wall_entered O this e E σ :
  executors σ !! e = Some E → own O σ → own O (wall_entered this e E σ).
Proof.
  intros HE. apply own_keep.
  - unfold wall_entered. by case_bool_decide.
  - unfold wall_entered. case_bool_decide; simpl; lia.
  - intros c C _ HC. exists C. split; [|done].
    unfold wall_entered. by case_bool_decide.
  - intros c _. by rewrite installed_wall_entered.
Qed.

Lemma own_wall_left O w E σ :
  executors σ !! wt_executor w = Some E → own O σ → own O (wall_left w E σ).
Proof.
  intros HE. apply own_keep.
  - unfold wall_left. by case_bool_decide.
  - unfold wall_left. case_bool_decide; simpl; lia.
  - intros c C _ HC. exists C. split; [|done].
    unfold wall_left. by case_bool_decide.
  - intros c _. by rewrite installed_wall_left.
Qed.

Lemma all_paused_plain O σ σ' :
  executors σ' = executors σ → cpu_timers σ' = cpu_timers σ →
  all_paused O σ → all_paused O σ'.
Proof. intros Hx Ht Hp c Hin. rewrite (installed_plain σ σ') by done. auto. Qed.

Lemma all_paused_logged O evs σ : all_paused O σ → all_paused O (logged evs σ).
Proof. by apply all_paused_plain. Qed.

Lemma all_paused_rebind O x σ : all_paused O σ → all_paused O (rebind x σ).
Proof. by apply all_paused_plain. Qed.

Lemma all_paused_wall_entered O this e E σ :
  executors σ !! e = Some E → all_paused O σ →
  all_paused O (wall_entered this e E σ).
Proof. intros HE Hp c Hin. rewrite installed_wall_entered by done. auto. Qed.

(** Pause takes a CpuTimer off its executor; when it is the thread's
    current one, no CpuTimer of the thread is left installed. *)
Lemma own_Pause O σ c σ' :
  own O σ → CpuTimer_Pause c σ = Ok ((), σ') →
  own O σ' ∧ installed σ c = true ∧
  (cpu_timer_thread σ = Some c → all_paused O σ').
Proof.
  intros HO (C & E & HC & HE & Hc & ->)%CpuTimer_Pause_Ok.
  assert (Hf : ∀ c', installed (paused c C E σ) c' = true →
                     installed σ c' = true ∧ c' ≠ c).
  { intros c'. eapply (installed_flush σ (paused c C E σ) c C E);
      [exact HC|exact HE|reflexivity|reflexivity]. }
  split_and!.
  - eapply own_keep; [| | | |exact HO]; simpl; [done|done|eauto|].
    intros c' _ Hc'. by destruct (Hf c' Hc').
  - apply installed_true. eauto.
  - intros Hh c' Hin. destruct (installed (paused c C E σ) c') eqn:Hc'; [|done].
    destruct (Hf c' Hc') as [Hi Hne]. destruct HO as (_ & _ & _ & Hown).
    specialize (Hown c' Hin Hi). congruence.
Qed.

Lemma own_dtor O σ c σ' :
  own (c :: O) σ → CpuTimer_dtor c σ = Ok ((), σ') →
  own O σ' ∧ all_paused O σ'.
Proof.
  intros (Hh & Hl & [(C' & HC' & Hlast) Hs] & Hown)
         (C & E & HC & HE & Hc & ->)%CpuTimer_dtor_Ok.
  rewrite HC in HC'. injection HC' as <-.
  assert (Hp : all_paused O (stopped c C E σ)).
  { intros c' Hin. destruct (installed (stopped c C E σ) c') eqn:Hc'; [|done].
    assert (Hi : installed σ c' = true ∧ c' ≠ c).
    { eapply (installed_flush σ (stopped c C E σ) c C E);
        [exact HC|exact HE|reflexivity|reflexivity|exact Hc']. }
    destruct Hi as [Hi Hne].
    specialize (Hown c' ltac:(by right) Hi). simpl in Hh. congruence. }
  split; [|exact Hp]. apply all_paused_own_head; simpl; try done.
  unfold timers_live in *. by apply Forall_cons in Hl as [_ Hl].
Qed.

Lemma own_ctor O e σ c σ' :
  own O σ → all_paused O σ → CpuTimer_ctor e σ = Ok (c, σ') →
  own (c :: O) σ'.
Proof.
  intros (Hh & Hl & Hs & _) Hp (E & HE & Hnone & -> & ->)%CpuTimer_ctor_Ok.
  assert (Hfresh : ∀ c, c ∈ O → c ≠ next_object σ).
  { intros c Hc ->. unfold timers_live in Hl. rewrite Forall_forall in Hl.
    destruct (Hl _ Hc). lia. }
  split_and!.
  - done.
  - constructor; simpl.
    + split; [lia|]. by rewrite lookup_insert_eq.
    + unfold timers_live in Hl. rewrite Forall_forall in Hl.
      apply Forall_forall. intros c0 Hc0. destruct (Hl _ Hc0) as [Hlt Hsome].
      split; [lia|]. rewrite lookup_insert_ne; [done|lia].
  - simpl. split.
    + rewrite lookup_insert_eq. eexists. split; [done|]. simpl. done.
    + eapply stacked_store; [|exact Hs]. intros c0 C0 Hc0 HC0.
      exists C0. rewrite lookup_insert_ne; [done|].
      intros Heq. by apply (Hfresh c0).
  - intros c Hin Hc. simpl.
    assert (Hi : c = next_object σ ∨ installed σ c = true).
    { eapply (installed_install σ (started e E σ) e E);
        [reflexivity|reflexivity|exact Hc]. }
    destruct Hi as [->|Hi]; [done|].
    apply elem_of_cons in Hin as [->|Hin].
    + done.
    + by rewrite (Hp c Hin) in Hi.
Qed.

Lemma own_Resume O σ c σ' :
  own O σ → (c ∈ O → head O = Some c) →
  CpuTimer_Resume c σ = Ok ((), σ') → own O σ'.
Proof.
  intros (Hh & Hl & Hs & Hown) Htop (C & E & HC & HE & Hc & ->)%CpuTimer_Resume_Ok.
  split_and!.
  - done.
  - unfold timers_live in *. rewrite Forall_forall in Hl.
    apply Forall_forall. intros c0 Hc0. destruct (Hl _ Hc0) as [Hlt Hsome].
    split; [done|]. simpl. destruct (decide (c0 = c)) as [->|Hne].
    + by rewrite lookup_insert_eq.
    + by rewrite lookup_insert_ne.
  - eapply stacked_store; [|exact Hs]. intros c0 C0 _ HC0. simpl.
    destruct (decide (c0 = c)) as [->|Hne].
    + rewrite lookup_insert_eq. eexists. split; [done|]. simpl. congruence.
    + rewrite lookup_insert_ne by done. eauto.
  - intros c0 Hin Hc0. simpl.
    assert (Hi : c0 = c ∨ installed σ c0 = true).
    { eapply (installed_install σ (resumed c C E σ) (ct_executor C) E);
        [reflexivity|reflexivity|exact Hc0]. }
    destruct Hi as [->|Hi].
    + rewrite Hh. by apply Htop.
    + by apply Hown.
Qed.

Lemma own_head_nil O σ : own O σ → cpu_timer_thread σ = None → O = [].
Proof. intros (Hh & _) Hn. rewrite Hh in Hn. by destruct O. Qed.

(** The constructor of a WallTimer captures the thread's current CpuTimer
    and leaves no CpuTimer of the thread installed. *)
Lemma own_WallTimer_ctor O e σ w σ' :
  own O σ → WallTimer_ctor e σ = Ok (w, σ') →
  own O σ' ∧ all_paused O σ' ∧ wt_cpu_timer w = head O ∧ wt_executor w = e.
Proof.
  intros HO (σ1 & E & Hp & HE & -> & ->)%WallTimer_ctor_Ok.
  pose proof HO as (Hh & _).
  assert (H1 : own O σ1 ∧ all_paused O σ1).
  { apply when_set_Ok in Hp as [[Hn ->]|(c & Hc & Hp)].
    - split; [by apply own_alloc|].
      rewrite (own_head_nil O σ HO Hn). intros c Hin.
      by apply elem_of_nil in Hin.
    - destruct (own_Pause O (alloc σ) c σ1) as (HO1 & _ & Hall);
        [by apply own_alloc|exact Hp|].
      split; [exact HO1|]. by apply Hall. }
  destruct H1 as [HO1 Hp1]. split_and!.
  - by apply own_wall_entered.
  - by apply all_paused_wall_entered.
  - done.
  - done.
Qed.

Lemma own_WallTimer_dtor O σ w σ' :
  own O σ → (∀ c, wt_cpu_timer w = Some c → c ∈ O → head O = Some c) →
  WallTimer_dtor w σ = Ok ((), σ') → own O σ'.
Proof.
  intros HO Hcap (σ1 & E & Hr & HE & ->)%WallTimer_dtor_Ok.
  apply own_wall_left; [done|].
  apply when_set_Ok in Hr as [[_ ->]|(c & Hc & Hr)]; [done|].
  eapply own_Resume; [exact HO|by apply Hcap|exact Hr].
Qed.

(** The operations of the thread keep its CpuTimers as [own] says, when no
    CpuTimer is declared on its own. *)
Lemma step_own a fs σ fs' σ' :
  bare_timer a = false →
  own (owned fs) σ ∧ captured_top fs →
  step a fs σ = Ok (fs', σ') →
  own (owned fs') σ' ∧ captured_top fs'.
Proof.
  intros Ha [HO HT] Hs. apply step_Ok in Hs. destruct a as [k| |e].
  - destruct Hs as (f & Hc & ->). apply construct_Ok in Hc.
    destruct k as [e|e|e|e|e]; [|done| | |].
    + destruct Hc as [-> ->]. split; [by apply own_rebind|by split].
    + destruct Hc as (w & Hc & ->).
      destruct (own_WallTimer_ctor _ _ _ _ _ HO Hc) as (HO' & _ & Hcap & _).
      split; [exact HO'|]. split; [|done]. simpl. intros c. by rewrite Hcap.
    + destruct Hc as (l & Hc & ->).
      apply Lock_ctor_Ok in Hc as (w & σ1 & c & σ2 & Hw & Hc & -> & ->).
      eapply own_WallTimer_ctor in Hw as (HO1 & Hp1 & Hcap & _);
        [|by apply own_rebind].
      eapply own_ctor in Hc;
        [|by apply own_logged|by apply all_paused_logged].
      split; [by apply own_logged|]. split; [|done]. simpl.
      intros c0. by rewrite Hcap.
    + destruct Hc as (u & Hc & ->).
      apply Unlock_ctor_Ok in Hc as (E & c & σ1 & HE & Hcpu & Hp & -> & ->).
      destruct (own_Pause (owned fs) _ c σ1 (own_logged _ _ _ HO) Hp)
        as (HO1 & Hi & _).
      split; [by apply own_logged|]. split; [|done]. simpl.
      intros c0 [= <-] Hin. destruct HO as (Hh & _ & _ & Hown).
      rewrite <- Hh. apply Hown; [done|].
      by rewrite <- (installed_plain σ (logged [EvRead e f_cpu_timer] σ)).
  - destruct Hs as (f & -> & Hd). destruct HT as [Hcap HT].
    destruct f as [s|c|w|l|u]; simpl in Hd.
    + rewrite Scope_dtor_eq in Hd. injection Hd as <-.
      split; [by apply own_rebind|done].
    + split; [|done]. by destruct (own_dtor _ _ _ _ HO Hd).
    + split; [|done]. eapply own_WallTimer_dtor; [exact HO|exact Hcap|exact Hd].
    + apply Lock_dtor_Ok in Hd as (σ1 & σ2 & Hc & Hw & ->).
      split; [|done]. apply own_rebind.
      eapply own_WallTimer_dtor; [|exact Hcap|exact Hw].
      apply own_logged.
      eapply (own_dtor (owned fs')); [|exact Hc]. by apply own_logged.
    + apply Unlock_dtor_Ok in Hd as (c & Hu & Hr). split; [|done].
      eapply own_Resume; [|by apply Hcap|exact Hr]. by apply own_logged.
  - destruct Hs as [Hc ->]. split; [|done].
    apply Executor_ctor_Ok in Hc as [Hf [[_ ->]|[(d & D & _ & _ & _ & ->)|[_ ->]]]];
      by apply own_born.
Qed.

(** What the other threads do keeps them as well. *)
Lemma others_own R O σ σ' : own O σ → others R O σ σ' → own O σ'.
Proof.
  intros HO (_ & Hh & Hn & _ & _ & _ & Hmine & _).
  eapply own_keep; [exact Hh|exact Hn| | |exact HO].
  - intros c C Hin HC. destruct (Hmine c Hin) as [Hc _].
    exists C. split; [congruence|done].
  - intros c Hin Hc. destruct (Hmine c Hin) as [_ Hi]. congruence.
Qed.

Lemma concurrent_own R acts σ fs' σ' :
  cpu_timer_thread σ = None →
  forallb (λ a, negb (bare_timer a)) acts = true →
  concurrent R acts [] σ fs' σ' →
  own (owned fs') σ' ∧ captured_top fs'.
Proof.
  intros Hn Hacts Hc.
  eapply (concurrent_always R (λ a, negb (bare_timer a))
            (λ fs σ, own (owned fs) σ ∧ captured_top fs));
    [| |exact Hacts| |exact Hc].
  - intros a fs1 σ1 fs2 σ2 Ha. apply step_own. by destruct (bare_timer a).
  - intros fs1 σ1 σ2 [HO HT] Ho. split; [by eapply others_own|done].
  - split; [|done]. split_and!; [done|constructor|done|].
    intros c Hin. by apply elem_of_nil in Hin.
Qed.

(** X10. Whatever the other threads do between the operations of a thread
    that has no CpuTimer when the run starts and that declares Scope,
    WallTimer, Lock and Unlock objects but no CpuTimer of its own: at
    every moment [cpu_timer_thread] is the CpuTimer of the innermost live
    Lock of the thread, and of the CpuTimers of its live Locks none but
    this one is installed on its executor. The thread has at most one
    CpuTimer installed: it is never charged to two executors at once. *)
Theorem a_thread_charges_one_executor_at_a_time acts σ fs' σ' :
  cpu_timer_thread σ = None →
  forallb (λ a, negb (bare_timer a)) acts = true →
  concurrent [] acts [] σ fs' σ' →
  cpu_timer_thread σ' = head (owned fs') ∧
  (∀ c, c ∈ owned fs' → installed σ' c = true → cpu_timer_thread σ' = Some c) ∧
  (∀ c1 c2, c1 ∈ owned fs' → c2 ∈ owned fs' →
     installed σ' c1 = true → installed σ' c2 = true → c1 = c2).
Proof.
  intros Hn Hacts Hc.
  destruct (concurrent_own [] acts σ fs' σ' Hn Hacts Hc)
    as [(Hh & _ & _ & Hown) _].
  split_and!; [done|done|].
  intros c1 c2 H1 H2 Hi1 Hi2.
  pose proof (Hown c1 H1 Hi1). pose proof (Hown c2 H2 Hi2). congruence.
Qed.

End Interleaving.
(** ** The WallTimer installed on an executor that one thread enters *)

Section Outermost.
Context `{Platform}.
Variable e : nat.

Lemma installed_wall_plain σ σ' :
  executors σ' = executors σ → installed_wall σ' e = installed_wall σ e.
Proof. intros Hx. unfold installed_wall. by rewrite Hx. Qed.

(* an executor is replaced by one with the same WallTimer *)
Lemma installed_wall_update σ σ' e0 E E' :
  executors σ !! e0 = Some E → executors σ' = <[e0 := E']> (executors σ) →
  wall_timer E' = wall_timer E → installed_wall σ' e = installed_wall σ e.
Proof.
  intros HE Hx Hw. unfold installed_wall. rewrite Hx.
  destruct (decide (e = e0)) as [->|Hne].
  - rewrite lookup_insert_eq, HE. simpl. done.
  - by rewrite lookup_insert_ne.
Qed.

Lemma installed_wall_born this d thr cur σ :
  executors σ !! this = None →
  installed_wall (born this d thr cur σ) e = installed_wall σ e.
Proof.
  intros Hf. unfold installed_wall. simpl.
  destruct (decide (e = this)) as [->|Hne].
  - by rewrite lookup_insert_eq, Hf.
  - by rewrite lookup_insert_ne.
Qed.

Lemma installed_wall_ctor e0 σ c σ' :
  CpuTimer_ctor e0 σ = Ok (c, σ') → installed_wall σ' e = installed_wall σ e.
Proof.
  intros (E & HE & _ & _ & ->)%CpuTimer_ctor_Ok.
  by eapply installed_wall_update.
Qed.

Lemma installed_wall_dtor c σ σ' :
  CpuTimer_dtor c σ = Ok ((), σ') → installed_wall σ' e = installed_wall σ e.
Proof.
  intros (C & E & _ & HE & _ & ->)%CpuTimer_dtor_Ok.
  by eapply installed_wall_update.
Qed.

Lemma installed_wall_Pause c σ σ' :
  CpuTimer_Pause c σ = Ok ((), σ') → installed_wall σ' e = installed_wall σ e.
Proof.
  intros (C & E & _ & HE & _ & ->)%CpuTimer_Pause_Ok.
  by eapply installed_wall_update.
Qed.

Lemma installed_wall_Resume c σ σ' :
  CpuTimer_Resume c σ = Ok ((), σ') → installed_wall σ' e = installed_wall σ e.
Proof.
  intros (C & E & _ & HE & _ & ->)%CpuTimer_Resume_Ok.
  by eapply installed_wall_update.
Qed.

Lemma walls_on_cons w W :
  walls_on e (w :: W) =
  if decide (wt_executor w = e) then w :: walls_on e W else walls_on e W.
Proof. unfold walls_on. by rewrite filter_cons. Qed.

Lemma walls_on_elem w W : w ∈ walls_on e W → w ∈ W ∧ wt_executor w = e.
Proof. unfold walls_on. intros Hin%list_elem_of_filter. tauto. Qed.

(* a step that leaves the WallTimer of [e] as it is *)
Lemma outermost_keep W σ σ' :
  installed_wall σ' e = installed_wall σ e →
  (next_object σ ≤ next_object σ')%nat →
  outermost e W σ → outermost e W σ'.
Proof.
  intros Hw Hn (HF & HD & HI). split_and!; [|done|congruence].
  eapply Forall_impl; [exact HF|]. intros w Hlt. simpl in *. lia.
Qed.

Lemma outermost_plain W σ σ' :
  executors σ' = executors σ → (next_object σ ≤ next_object σ')%nat →
  outermost e W σ → outermost e W σ'.
Proof. intros Hx. apply outermost_keep. by apply installed_wall_plain. Qed.

Lemma outermost_logged W evs σ : outermost e W σ → outermost e W (logged evs σ).
Proof. by apply outermost_plain. Qed.

Lemma outermost_rebind W x σ : outermost e W σ → outermost e W (rebind x σ).
Proof. by apply outermost_plain. Qed.

Lemma outermost_alloc W σ : outermost e W σ → outermost e W (alloc σ).
Proof. apply outermost_plain; simpl; auto. Qed.

Lemma outermost_born W this d thr cur σ :
  executors σ !! this = None →
  outermost e W σ → outermost e W (born this d thr cur σ).
Proof. intros Hf. apply outermost_keep; [by apply installed_wall_born|done]. Qed.

Lemma outermost_ctor W e0 σ c σ' :
  outermost e W σ → CpuTimer_ctor e0 σ = Ok (c, σ') → outermost e W σ'.
Proof.
  intros HW Hc. eapply outermost_keep; [by eapply installed_wall_ctor| |exact HW].
  apply CpuTimer_ctor_Ok in Hc as (E & _ & _ & _ & ->). simpl. lia.
Qed.

Lemma outermost_dtor W σ c σ' :
  outermost e W σ → CpuTimer_dtor c σ = Ok ((), σ') → outermost e W σ'.
Proof.
  intros HW Hc. eapply outermost_keep; [by eapply installed_wall_dtor| |exact HW].
  apply CpuTimer_dtor_Ok in Hc as (C & E & _ & _ & _ & ->). done.
Qed.

Lemma outermost_Pause W σ c σ' :
  outermost e W σ → CpuTimer_Pause c σ = Ok ((), σ') → outermost e W σ'.
Proof.
  intros HW Hc. eapply outermost_keep; [by eapply installed_wall_Pause| |exact HW].
  apply CpuTimer_Pause_Ok in Hc as (C & E & _ & _ & _ & ->). done.
Qed.

Lemma outermost_Resume W σ c σ' :
  outermost e W σ → CpuTimer_Resume c σ = Ok ((), σ') → outermost e W σ'.
Proof.
  intros HW Hc. eapply outermost_keep; [by eapply installed_wall_Resume| |exact HW].
  apply CpuTimer_Resume_Ok in Hc as (C & E & _ & _ & _ & ->). done.
Qed.

(** A WallTimer installs itself on an executor that has none installed:
    it is then the only live one on it. On an executor that has one it is
    an inner one. *)
Lemma outermost_wall_entered W this e0 cap E σ :
  executors σ !! e0 = Some E →
  Forall (λ w, (wt_this w < this)%nat) W → (this < next_object σ)%nat →
  outermost e W σ →
  outermost e (wall_object this e0 cap E σ :: W) (wall_entered this e0 E σ).
Proof.
  intros HE Hold Hthis (HF & HD & HI). split_and!.
  - constructor.
    + unfold wall_object, wall_entered. simpl. by case_bool_decide.
    + eapply Forall_impl; [exact HF|]. intros w Hlt. simpl in *.
      unfold wall_entered. by case_bool_decide.
  - rewrite fmap_cons. apply NoDup_cons. split; [|done]. simpl.
    intros (w & Hid & Hin)%list_elem_of_fmap. rewrite Forall_forall in Hold.
    specialize (Hold w Hin). simpl in Hold. lia.
  - rewrite walls_on_cons. unfold installed_wall in *.
    unfold wall_object, wall_entered. simpl.
    destruct (decide (e0 = e)) as [->|Hne].
    + rewrite HE in HI. simpl in HI. case_bool_decide as Hnone.
      * simpl. rewrite lookup_insert_eq. simpl. rewrite Hnone in HI.
        destruct (last (walls_on e W)) as [x|] eqn:Hl; [done|].
        apply last_None in Hl. by rewrite Hl.
      * simpl. rewrite HE. simpl. rewrite HI, last_cons.
        destruct (last (walls_on e W)); [done|]. simpl in HI. congruence.
    + case_bool_decide.
      * simpl. by rewrite lookup_insert_ne.
      * done.
Qed.

(** The destructor of the WallTimer installed on an executor clears the
    pointer: it is the outermost one, and no other is left. *)
Lemma outermost_wall_left W w E σ :
  executors σ !! wt_executor w = Some E →
  outermost e (w :: W) σ → outermost e W (wall_left w E σ).
Proof.
  intros HE (HF & HD & HI).
  apply Forall_cons in HF as [_ HF]. rewrite fmap_cons in HD.
  apply NoDup_cons in HD as [Hnew HD]. split_and!.
  - eapply Forall_impl; [exact HF|]. intros x Hlt. simpl in *.
    unfold wall_left. by case_bool_decide.
  - done.
  - rewrite walls_on_cons in HI. unfold installed_wall in *.
    unfold wall_left. destruct (decide (wt_executor w = e)) as [Heq|Hne].
    + rewrite <- Heq in HI. rewrite HE in HI. simpl in HI.
      rewrite last_cons in HI. case_bool_decide as Hthis.
      * simpl. rewrite <- Heq, lookup_insert_eq. simpl.
        destruct (last (walls_on (wt_executor w) W)) as [x|] eqn:Hl; [|done].
        exfalso. apply Hnew. apply last_Some_elem_of in Hl.
        rewrite Heq in Hl. apply walls_on_elem in Hl as [Hin _].
        apply list_elem_of_fmap. exists x. split; [|done]. simpl in HI.
        congruence.
      * simpl. rewrite <- Heq, HE. simpl. rewrite HI.
        destruct (last (walls_on (wt_executor w) W)) as [x|] eqn:Hl; [done|].
        simpl in HI. congruence.
    + case_bool_decide.
      * simpl. by rewrite lookup_insert_ne.
      * done.
Qed.

Lemma outermost_WallTimer_ctor W e0 σ w σ' :
  outermost e W σ → WallTimer_ctor e0 σ = Ok (w, σ') →
  outermost e (w :: W) σ'.
Proof.
  intros HW (σ1 & E & Hp & HE & -> & ->)%WallTimer_ctor_Ok.
  assert (H1 : outermost e W σ1 ∧ next_object σ1 = S (next_object σ)).
  { apply when_set_Ok in Hp as [[_ ->]|(c & _ & Hp)].
    - split; [by apply outermost_alloc|done].
    - split; [eapply outermost_Pause; [|exact Hp]; by apply outermost_alloc|].
      apply CpuTimer_Pause_Ok in Hp as (C & E' & _ & _ & _ & ->). done. }
  destruct H1 as [HW1 Hn]. apply outermost_wall_entered; [done| |lia|done].
  by destruct HW as (HF & _).
Qed.

Lemma outermost_WallTimer_dtor W σ w σ' :
  outermost e (w :: W) σ → WallTimer_dtor w σ = Ok ((), σ') →
  outermost e W σ'.
Proof.
  intros HW (σ1 & E & Hr & HE & ->)%WallTimer_dtor_Ok.
  apply outermost_wall_left; [done|].
  apply when_set_Ok in Hr as [[_ ->]|(c & _ & Hr)]; [done|].
  by eapply outermost_Resume.
Qed.

Lemma step_outermost a fs σ fs' σ' :
  outermost e (walls fs) σ → step a fs σ = Ok (fs', σ') →
  outermost e (walls fs') σ'.
Proof.
  intros HW Hs. apply step_Ok in Hs. destruct a as [k| |e0].
  - destruct Hs as (f & Hc & ->). apply construct_Ok in Hc.
    destruct k as [e0|e0|e0|e0|e0].
    + destruct Hc as [-> ->]. by apply outermost_rebind.
    + destruct Hc as (c & Hc & ->). by eapply outermost_ctor.
    + destruct Hc as (w & Hc & ->). by eapply outermost_WallTimer_ctor.
    + destruct Hc as (l & Hc & ->).
      apply Lock_ctor_Ok in Hc as (w & σ1 & c & σ2 & Hw & Hc & -> & ->).
      eapply outermost_WallTimer_ctor in Hw; [|by apply outermost_rebind].
      apply outermost_logged. eapply outermost_ctor; [|exact Hc].
      by apply outermost_logged.
    + destruct Hc as (u & Hc & ->).
      apply Unlock_ctor_Ok in Hc as (E & c & σ1 & HE & Hcpu & Hp & -> & ->).
      apply outermost_logged. eapply outermost_Pause; [|exact Hp].
      by apply outermost_logged.
  - destruct Hs as (f & -> & Hd). destruct f as [s|c|w|l|u]; simpl in Hd.
    + rewrite Scope_dtor_eq in Hd. injection Hd as <-. by apply outermost_rebind.
    + by eapply outermost_dtor.
    + change (walls (FWallTimer w :: fs')) with (w :: walls fs') in HW.
      by eapply outermost_WallTimer_dtor.
    + apply Lock_dtor_Ok in Hd as (σ1 & σ2 & Hc & Hw & ->).
      change (walls (FLock l :: fs')) with (lk_wall_timer l :: walls fs') in HW.
      apply outermost_rebind. eapply outermost_WallTimer_dtor; [|exact Hw].
      apply outermost_logged. eapply outermost_dtor; [|exact Hc].
      by apply outermost_logged.
    + apply Unlock_dtor_Ok in Hd as (c & Hu & Hr).
      eapply outermost_Resume; [|exact Hr]. by apply outermost_logged.
  - destruct Hs as [Hc ->].
    apply Executor_ctor_Ok in Hc as [Hf [[_ ->]|[(d & D & _ & _ & _ & ->)|[_ ->]]]];
      by apply outermost_born.
Qed.

(** What the other threads do leaves the WallTimer of an executor that
    they do not enter. *)
Lemma others_outermost R O W σ σ' :
  e ∈ R → outermost e W σ → others R O σ σ' → outermost e W σ'.
Proof.
  intros Hin HW (_ & _ & Hn & _ & _ & _ & _ & Hx).
  eapply outermost_keep; [|exact Hn|exact HW].
  unfold installed_wall. by rewrite (Hx e Hin).
Qed.

Lemma concurrent_outermost R acts σ fs' σ' :
  e ∈ R → installed_wall σ e = None →
  concurrent R acts [] σ fs' σ' → outermost e (walls fs') σ'.
Proof.
  intros Hin Hnone Hc.
  eapply (concurrent_every R (λ fs σ, outermost e (walls fs) σ));
    [| | |exact Hc].
  - intros a fs1 σ1 fs2 σ2. apply step_outermost.
  - intros fs1 σ1 σ2 HW Ho. by eapply others_outermost.
  - split_and!; [constructor|constructor|by rewrite Hnone].
Qed.

End Outermost.

Section Outer.
Context `{Platform}.

(** X14. On an executor that one thread only enters, whatever the other
    threads do elsewhere between its operations: if the executor has no
    WallTimer installed when the run starts, then at every moment
    [wall_timer] points to the outermost live WallTimer that the thread
    has constructed on it, by itself or as the member of a Lock, and is
    null when there is none. The WallTimers nested inside the outermost
    one never install themselves. *)
Theorem outermost_WallTimer_is_installed acts σ fs' σ' e :
  installed_wall σ e = None →
  concurrent [e] acts [] σ fs' σ' →
  installed_wall σ' e = wt_this <$> last (walls_on e (walls fs')).
Proof.
  intros Hnone Hc.
  by destruct (concurrent_outermost e [e] acts σ fs' σ' ltac:(by left) Hnone Hc)
    as (_ & _ & HI).
Qed.

End Outer.
(** ** Executors that one thread enters *)

Create HintDb handed.

Section Alone.
Context `{Platform}.

Lemma allocated_same σ σ' :
  cpu_timers σ' = cpu_timers σ → (next_object σ ≤ next_object σ')%nat →
  allocated σ → allocated σ'.
Proof. intros Ht Hn Ha c. rewrite Ht. intros Hc. specialize (Ha c Hc). lia. Qed.

Lemma allocated_logged evs σ : allocated σ → allocated (logged evs σ).
Proof. by apply allocated_same. Qed.

Lemma allocated_rebind x σ : allocated σ → allocated (rebind x σ).
Proof. by apply allocated_same. Qed.

Lemma allocated_alloc σ : allocated σ → allocated (alloc σ).
Proof. apply allocated_same; simpl; auto. Qed.

Lemma allocated_born this d thr cur σ :
  allocated σ → allocated (born this d thr cur σ).
Proof. by apply allocated_same. Qed.

Lemma allocated_stopped c C E σ : allocated σ → allocated (stopped c C E σ).
Proof. by apply allocated_same. Qed.

Lemma allocated_paused c C E σ : allocated σ → allocated (paused c C E σ).
Proof. by apply allocated_same. Qed.

Lemma allocated_wall_entered this e E σ :
  allocated σ → allocated (wall_entered this e E σ).
Proof. unfold wall_entered. case_bool_decide; by apply allocated_same. Qed.

Lemma allocated_wall_left w E σ : allocated σ → allocated (wall_left w E σ).
Proof. unfold wall_left. case_bool_decide; by apply allocated_same. Qed.

Lemma allocated_started e E σ : allocated σ → allocated (started e E σ).
Proof.
  intros Ha c. simpl. destruct (decide (c = next_object σ)) as [->|Hne]; [lia|].
  rewrite lookup_insert_ne by done. intros Hc. specialize (Ha c Hc). lia.
Qed.

Lemma allocated_resumed c C E σ :
  cpu_timers σ !! c = Some C → allocated σ → allocated (resumed c C E σ).
Proof.
  intros HC Ha c0. simpl. destruct (decide (c0 = c)) as [->|Hne].
  - intros _. apply Ha. by rewrite HC.
  - rewrite lookup_insert_ne by done. apply Ha.
Qed.

Hint Resolve allocated_logged allocated_rebind allocated_alloc
  allocated_born allocated_stopped allocated_paused allocated_wall_entered
  allocated_wall_left allocated_started allocated_resumed : handed.

Lemma step_allocated a fs σ fs' σ' :
  allocated σ → step a fs σ = Ok (fs', σ') → allocated σ'.
Proof.
  intros HA Hs. destruct a as [k| |e].
  - destruct k; inv_step; eauto 12 with handed.
  - apply step_Ok in Hs as (f & -> & Hd). destruct f; inv_step;
      eauto 12 with handed.
  - inv_step; eauto with handed.
Qed.

Variable R : list nat.

(* a step after which an executor has the CpuTimer it had, or none *)
Lemma mine_keep O σ σ' :
  (∀ e E', e ∈ R → executors σ' !! e = Some E' →
     cpu_timer E' = None ∨
     ∃ E, executors σ !! e = Some E ∧ cpu_timer E = cpu_timer E') →
  (∀ c C, c ∈ O → cpu_timers σ !! c = Some C →
     ∃ C', cpu_timers σ' !! c = Some C' ∧ ct_executor C' = ct_executor C) →
  mine R O σ → mine R O σ'.
Proof.
  intros Hx Ht HM e E' c Hin HE' Hc.
  destruct (Hx e E' Hin HE') as [Hn|(E & HE & Heq)]; [congruence|].
  destruct (HM e E c Hin HE) as (HinO & C & HC & Hex); [congruence|].
  split; [done|]. destruct (Ht c C HinO HC) as (C' & HC' & Hex').
  exists C'. split; [done|congruence].
Qed.

Lemma mine_plain O σ σ' :
  executors σ' = executors σ → cpu_timers σ' = cpu_timers σ →
  mine R O σ → mine R O σ'.
Proof.
  intros Hx Ht. apply mine_keep.
  - intros e E' _. rewrite Hx. eauto.
  - intros c C _. rewrite Ht. eauto.
Qed.

Lemma mine_logged O evs σ : mine R O σ → mine R O (logged evs σ).
Proof. by apply mine_plain. Qed.

Lemma mine_rebind O x σ : mine R O σ → mine R O (rebind x σ).
Proof. by apply mine_plain. Qed.

Lemma mine_alloc O σ : mine R O σ → mine R O (alloc σ).
Proof. by apply mine_plain. Qed.

(* an executor is replaced by one with the same CpuTimer, or with none *)
Lemma mine_update O σ σ' e0 E0 E0' :
  executors σ !! e0 = Some E0 →
  executors σ' = <[e0 := E0']> (executors σ) →
  cpu_timers σ' = cpu_timers σ →
  cpu_timer E0' = cpu_timer E0 ∨ cpu_timer E0' = None →
  mine R O σ → mine R O σ'.
Proof.
  intros HE Hx Ht Hc. apply mine_keep.
  - intros e E' _. rewrite Hx. destruct (decide (e = e0)) as [->|Hne].
    + rewrite lookup_insert_eq. intros [= <-].
      destruct Hc as [Hc|Hc]; [right; eauto|by left].
    + rewrite lookup_insert_ne by done. eauto.
  - intros c C _. rewrite Ht. eauto.
Qed.

Lemma mine_wall_entered O this e E σ :
  executors σ !! e = Some E → mine R O σ → mine R O (wall_entered this e E σ).
Proof.
  intros HE. unfold wall_entered. case_bool_decide.
  - eapply mine_update; [exact HE|reflexivity|reflexivity|by left].
  - by apply mine_plain.
Qed.

Lemma mine_wall_left O w E σ :
  executors σ !! wt_executor w = Some E →
  mine R O σ → mine R O (wall_left w E σ).
Proof.
  intros HE. unfold wall_left. case_bool_decide.
  - eapply mine_update; [exact HE|reflexivity|reflexivity|by left].
  - by apply mine_plain.
Qed.

Lemma mine_born O this d thr cur σ :
  executors σ !! this = None → mine R O σ → mine R O (born this d thr cur σ).
Proof.
  intros Hf. apply mine_keep; simpl; [|eauto].
  intros e E' _. destruct (decide (e = this)) as [->|Hne].
  - rewrite lookup_insert_eq. intros [= <-]. by left.
  - rewrite lookup_insert_ne by done. eauto.
Qed.

Lemma mine_Pause O σ c σ' :
  mine R O σ → CpuTimer_Pause c σ = Ok ((), σ') → mine R O σ'.
Proof.
  intros HM (C & E & HC & HE & Hc & ->)%CpuTimer_Pause_Ok.
  eapply mine_update; [exact HE|reflexivity|reflexivity|by right|exact HM].
Qed.

Lemma mine_dtor O σ c σ' :
  mine R (c :: O) σ → CpuTimer_dtor c σ = Ok ((), σ') → mine R O σ'.
Proof.
  intros HM (C & E & HC & HE & Hc & ->)%CpuTimer_dtor_Ok e0 E0 c0 Hin.
  simpl. destruct (decide (e0 = ct_executor C)) as [->|Hne].
  - rewrite lookup_insert_eq. by intros [= <-].
  - rewrite lookup_insert_ne by done. intros HE0 Hc0.
    destruct (HM e0 E0 c0 Hin HE0 Hc0) as (Hin0 & C0 & HC0 & Hex).
    split; [|eauto]. apply elem_of_cons in Hin0 as [->|Hin0]; [|done].
    congruence.
Qed.

Lemma mine_ctor O e σ c σ' :
  timers_live σ O → mine R O σ → CpuTimer_ctor e σ = Ok (c, σ') →
  mine R (c :: O) σ'.
Proof.
  intros Hl HM (E & HE & Hnone & -> & ->)%CpuTimer_ctor_Ok e0 E0 c0 Hin.
  simpl. destruct (decide (e0 = e)) as [->|Hne].
  - rewrite lookup_insert_eq. intros [= <-] [= <-]. split; [by left|].
    rewrite lookup_insert_eq. by eexists.
  - rewrite lookup_insert_ne by done. intros HE0 Hc0.
    destruct (HM e0 E0 c0 Hin HE0 Hc0) as (Hin0 & C0 & HC0 & Hex).
    split; [by right|]. exists C0. split; [|done].
    rewrite lookup_insert_ne; [done|]. intros <-.
    unfold timers_live in Hl. rewrite Forall_forall in Hl.
    destruct (Hl _ Hin0). lia.
Qed.

Lemma mine_Resume O σ c σ' :
  mine R O σ →
  (∀ C, cpu_timers σ !! c = Some C → ct_executor C ∈ R → c ∈ O) →
  CpuTimer_Resume c σ = Ok ((), σ') → mine R O σ'.
Proof.
  intros HM Hown (C & E & HC & HE & Hc & ->)%CpuTimer_Resume_Ok e0 E0 c0 Hin.
  simpl. destruct (decide (e0 = ct_executor C)) as [->|Hne].
  - rewrite lookup_insert_eq. intros [= <-] [= <-]. split; [by apply (Hown C)|].
    rewrite lookup_insert_eq. by eexists.
  - rewrite lookup_insert_ne by done. intros HE0 Hc0.
    destruct (HM e0 E0 c0 Hin HE0 Hc0) as (Hin0 & C0 & HC0 & Hex).
    split; [done|]. exists C0. split; [|done].
    rewrite lookup_insert_ne; [done|]. intros <-. congruence.
Qed.

Lemma mine_WallTimer_ctor O e σ w σ' :
  mine R O σ → WallTimer_ctor e σ = Ok (w, σ') → mine R O σ'.
Proof.
  intros HM (σ1 & E & Hp & HE & -> & ->)%WallTimer_ctor_Ok.
  apply mine_wall_entered; [done|].
  apply when_set_Ok in Hp as [[_ ->]|(c & _ & Hp)].
  - by apply mine_alloc.
  - eapply mine_Pause; [|exact Hp]. by apply mine_alloc.
Qed.

Lemma mine_WallTimer_dtor O σ w σ' :
  mine R O σ →
  (∀ c C, wt_cpu_timer w = Some c → cpu_timers σ !! c = Some C →
     ct_executor C ∈ R → c ∈ O) →
  WallTimer_dtor w σ = Ok ((), σ') → mine R O σ'.
Proof.
  intros HM Hown (σ1 & E & Hr & HE & ->)%WallTimer_dtor_Ok.
  apply mine_wall_left; [done|].
  apply when_set_Ok in Hr as [[_ ->]|(c & Hc & Hr)]; [done|].
  eapply mine_Resume; [exact HM| |exact Hr]. intros C. by apply Hown.
Qed.

Lemma captured_mine_extends σ σ' fs :
  extends σ σ' → allocated σ → captured_mine R σ fs → captured_mine R σ' fs.
Proof.
  intros (_ & _ & _ & Ht) HA. induction fs as [|f fs IH]; [done|].
  intros [Hc HC]. split; [|auto]. intros c Hcap.
  destruct (Hc c Hcap) as [Hin|(C & HCc & Hex)]; [by left|right].
  destruct (Ht c C) as (C' & HC' & Hex' & _); [|done|].
  - apply HA. by rewrite HCc.
  - exists C'. split; [done|congruence].
Qed.

(* the CpuTimer a live object has paused is the thread's own when it is on
   an executor of [R] *)
Lemma captured_mine_own σ f fs c C :
  captured_mine R σ (f :: fs) → frame_captured f = Some c →
  cpu_timers σ !! c = Some C → ct_executor C ∈ R → c ∈ owned fs.
Proof.
  intros [Hc _] Hcap HC Hin.
  destruct (Hc c Hcap) as [Hown|(C' & HC' & Hex)]; [done|]. congruence.
Qed.

Lemma head_elem (O : list nat) c : head O = Some c → c ∈ O.
Proof. destruct O; [done|]. intros [= ->]. by left. Qed.

(** The operations of the thread keep what it knows of the executors it
    enters alone, when no CpuTimer is declared on its own. *)
Lemma step_alone a fs σ fs' σ' :
  bare_timer a = false → alone R fs σ → step a fs σ = Ok (fs', σ') →
  alone R fs' σ'.
Proof.
  intros Ha (HA & HO & HT & HM & HC) Hs.
  pose proof (step_allocated _ _ _ _ _ HA Hs) as HA'.
  destruct (step_own _ _ _ _ _ Ha (conj HO HT) Hs) as [HO' HT'].
  pose proof (captured_mine_extends _ _ _ (step_extends _ _ _ _ _ Hs) HA HC)
    as HC'.
  split; [done|]. split; [done|]. split; [done|].
  pose proof HO as (_ & Hl & _).
  apply step_Ok in Hs. destruct a as [k| |e].
  - destruct Hs as (f & Hc & ->). apply construct_Ok in Hc.
    destruct k as [e|e|e|e|e]; [|done| | |].
    + destruct Hc as [-> ->]. split; [by apply mine_rebind|by split].
    + destruct Hc as (w & Hc & ->).
      destruct (own_WallTimer_ctor _ _ _ _ _ HO Hc) as (_ & _ & Hcap & _).
      split; [by eapply mine_WallTimer_ctor|]. split; [|done]. simpl.
      intros c. rewrite Hcap. intros Hh. left. by apply head_elem.
    + destruct Hc as (l & Hc & ->).
      apply Lock_ctor_Ok in Hc as (w & σ1 & c & σ2 & Hw & Hc & -> & ->).
      destruct (own_WallTimer_ctor _ _ _ _ _ (own_rebind _ (Some e) _ HO) Hw)
        as ((_ & Hl1 & _) & _ & Hcap & _).
      eapply mine_WallTimer_ctor in Hw; [|by apply mine_rebind].
      split.
      * apply mine_logged. eapply mine_ctor; [|by apply mine_logged|exact Hc].
        done.
      * split; [|done]. simpl. intros c0. rewrite Hcap. intros Hh. left.
        by apply head_elem.
    + destruct Hc as (u & Hc & ->).
      apply Unlock_ctor_Ok in Hc as (E & c & σ1 & HE & Hcpu & Hp & -> & ->).
      split.
      * apply mine_logged. eapply mine_Pause; [|exact Hp]. by apply mine_logged.
      * split; [|done]. simpl. intros c0 [= <-].
        apply CpuTimer_Pause_Ok in Hp as (C & E' & HCc & HE' & Hc' & ->).
        simpl in HCc, HE'.
        destruct (decide (ct_executor C ∈ R)) as [Hin|Hout].
        -- left. by destruct (HM _ _ _ Hin HE' Hc').
        -- right. exists C. done.
  - destruct Hs as (f & -> & Hd). pose proof HC as [Hcap _].
    destruct HC' as [_ HC']. split; [|done].
    destruct f as [s|c|w|l|u]; simpl in Hd.
    + rewrite Scope_dtor_eq in Hd. injection Hd as <-. by apply mine_rebind.
    + change (owned (FCpuTimer c :: fs')) with (c :: owned fs') in HM.
      eapply mine_dtor; [exact HM|exact Hd].
    + eapply mine_WallTimer_dtor; [exact HM| |exact Hd].
      intros c C Hc HCc Hin. by eapply (captured_mine_own σ (FWallTimer w)).
    + apply Lock_dtor_Ok in Hd as (σ1 & σ2 & Hc & Hw & ->).
      change (owned (FLock l :: fs')) with (lk_cpu_timer l :: owned fs') in HM.
      apply mine_rebind. eapply mine_WallTimer_dtor; [| |exact Hw].
      * apply mine_logged. eapply (mine_dtor (owned fs')); [|exact Hc].
        by apply mine_logged.
      * intros c C Hcc HCc Hin.
        apply CpuTimer_dtor_Ok in Hc as (C1 & E1 & _ & _ & _ & ->).
        simpl in HCc. by eapply (captured_mine_own σ (FLock l)).
    + apply Unlock_dtor_Ok in Hd as (c & Hu & Hr).
      eapply mine_Resume; [| |exact Hr]; [by apply mine_logged|].
      intros C HCc Hin. simpl in HCc.
      by eapply (captured_mine_own σ (FUnlock u)).
  - destruct Hs as [Hc ->]. split; [|done].
    apply Executor_ctor_Ok in Hc as [Hf [[_ ->]|[(d & D & _ & _ & _ & ->)|[_ ->]]]];
      by apply mine_born.
Qed.

(** What the other threads do keeps it. *)
Lemma others_alone fs σ σ' :
  alone R fs σ → others R (owned fs) σ σ' → alone R fs σ'.
Proof.
  intros (HA & HO & HT & HM & HC) Ho.
  pose proof Ho as (_ & _ & _ & _ & Hall & Hex & Hmine & Hx).
  split; [auto|]. split; [by eapply others_own|]. split; [done|]. split.
  - intros e E c Hin. rewrite (Hx e Hin). intros HE Hc.
    destruct (HM e E c Hin HE Hc) as (Hown & C & HCc & Hexc).
    split; [done|]. exists C. destruct (Hmine c Hown) as [Heq _].
    split; [congruence|done].
  - clear HT HO HM Ho Hmine. induction fs as [|f fs IH]; [done|].
    destruct HC as [Hc HC]. split.
    + intros c Hcap. destruct (Hc c Hcap) as [Hin|(C & HCc & Hout)]; [by left|].
      right. destruct (Hex c C HCc) as (C' & HC' & Heq).
      exists C'. split; [done|congruence].
    + by apply IH.
Qed.

End Alone.

(** ** CPU time and wall time of an executor that one thread enters *)

Section Within.
Context `{Platform}.
Hypothesis steady_monotone : monotone steady_clock_now.
Hypothesis slower : cpu_clock_slower.
Variable e : nat.
Variable B : Z.

Lemma cpu_pending_later σ σ' E :
  (∀ c, cpu_timer E = Some c → cpu_timers σ' !! c = cpu_timers σ !! c) →
  (instant σ ≤ instant σ')%nat →
  cpu_pending σ' E - cpu_pending σ E ≤
    steady_clock_now (instant σ') - steady_clock_now (instant σ).
Proof.
  intros Ht Hi. pose proof (steady_monotone _ _ Hi). pose proof (slower _ _ Hi).
  unfold cpu_pending. destruct (cpu_timer E) as [c|]; [|lia].
  rewrite (Ht c eq_refl). destruct (cpu_timers σ !! c); lia.
Qed.

(* a step that leaves [e] as it is, and the CpuTimer installed on it *)
Lemma ratio_keep W σ σ' :
  executors σ' !! e = executors σ !! e →
  (∀ E c, executors σ !! e = Some E → cpu_timer E = Some c →
     cpu_timers σ' !! c = cpu_timers σ !! c) →
  (instant σ ≤ instant σ')%nat →
  ratio e B W σ → ratio e B W σ'.
Proof.
  intros Hx Ht Hi [H0 H1]. split; [by rewrite Hx|].
  intros E. rewrite Hx. intros HE. destruct (H1 E HE) as [Hn Hw].
  split; [done|]. intros w Hin Hex Hthis. specialize (Hw w Hin Hex Hthis).
  pose proof (cpu_pending_later σ σ' E (λ c Hc, Ht E c HE Hc) Hi). lia.
Qed.

Lemma ratio_plain W σ σ' :
  executors σ' = executors σ → cpu_timers σ' = cpu_timers σ →
  (instant σ ≤ instant σ')%nat → ratio e B W σ → ratio e B W σ'.
Proof.
  intros Hx Ht Hi. apply ratio_keep; [by rewrite Hx|by rewrite Ht|done].
Qed.

Lemma ratio_tail w W σ : ratio e B (w :: W) σ → ratio e B W σ.
Proof.
  intros [H0 H1]. split; [done|]. intros E HE. destruct (H1 E HE) as [Hn Hw].
  split; [done|]. intros w0 Hin. apply Hw. by right.
Qed.

(* a WallTimer that is not the one installed on [e] *)
Lemma ratio_cons w W σ :
  (∀ E, executors σ !! e = Some E → wt_executor w = e →
     wall_timer E ≠ Some (wt_this w)) →
  ratio e B W σ → ratio e B (w :: W) σ.
Proof.
  intros Hidle [H0 H1]. split; [done|]. intros E HE.
  destruct (H1 E HE) as [Hn Hw]. split; [done|]. intros w0 Hin Hex Hthis.
  apply elem_of_cons in Hin as [->|Hin]; [|by apply Hw].
  by destruct (Hidle E HE Hex).
Qed.

Lemma ratio_born W this d thr cur σ :
  executors σ !! this = None →
  ratio e B W σ → ratio e B W (born this d thr cur σ).
Proof.
  intros Hf HR. destruct (decide (this = e)) as [->|Hne].
  - destruct HR as [H0 _]. specialize (H0 Hf). split.
    + simpl. by rewrite lookup_insert_eq.
    + intros E. simpl. rewrite lookup_insert_eq. intros [= <-]. simpl.
      split; [split; [done|lia]|done].
  - eapply ratio_keep; [| | |exact HR]; simpl; [|done|done].
    by rewrite lookup_insert_ne.
Qed.

(* the installed CpuTimer is taken off and its time is charged *)
Lemma ratio_flush W σ σ' c C E0 :
  ratio e B W σ → cpu_timers σ !! c = Some C →
  executors σ !! ct_executor C = Some E0 → cpu_timer E0 = Some c →
  executors σ' =
    <[ct_executor C := flush E0 (cpu_clock (instant σ) - ct_time C)]>
      (executors σ) →
  cpu_timers σ' = cpu_timers σ → instant σ' = S (instant σ) →
  ratio e B W σ'.
Proof.
  intros HR HC HE0 Hc Hx Ht Hi.
  destruct (decide (ct_executor C = e)) as [Heq|Hne].
  - destruct HR as [_ H1]. rewrite Heq in *.
    destruct (H1 E0 HE0) as [Hn Hw]. split.
    + by rewrite Hx, lookup_insert_eq.
    + intros E. rewrite Hx, lookup_insert_eq. intros [= <-]. simpl. split.
      * intros Hnone. destruct (Hn Hnone). congruence.
      * intros w Hin Hex Hthis. specialize (Hw w Hin Hex Hthis).
        unfold cpu_pending in *. simpl. rewrite Hc, HC in Hw. rewrite Hi.
        pose proof (steady_monotone (instant σ) (S (instant σ))). lia.
  - eapply ratio_keep; [| | |exact HR].
    + rewrite Hx. by rewrite lookup_insert_ne.
    + intros. by rewrite Ht.
    + lia.
Qed.

(* a CpuTimer that starts counting now is installed *)
Lemma ratio_install W σ σ' e0 E0 c C' :
  ratio e B W σ → executors σ !! e0 = Some E0 → cpu_timer E0 = None →
  (e0 = e → wall_timer E0 ≠ None) →
  executors σ' = <[e0 := install E0 (Some c)]> (executors σ) →
  cpu_timers σ' = <[c := C']> (cpu_timers σ) →
  ct_time C' = cpu_clock (instant σ) → instant σ' = S (instant σ) →
  (e0 ≠ e → ∀ E c1, executors σ !! e = Some E → cpu_timer E = Some c1 → c1 ≠ c) →
  ratio e B W σ'.
Proof.
  intros HR HE0 Hnone Hwall Hx Ht HC' Hi Hother.
  destruct (decide (e0 = e)) as [->|Hne].
  - destruct HR as [_ H1]. destruct (H1 E0 HE0) as [Hn Hw]. split.
    + by rewrite Hx, lookup_insert_eq.
    + intros E. rewrite Hx, lookup_insert_eq. intros [= <-]. simpl. split.
      * intros Hw0. by destruct (Hwall eq_refl).
      * intros w Hin Hex Hthis. specialize (Hw w Hin Hex Hthis).
        unfold cpu_pending in *. simpl. rewrite Hnone in Hw.
        rewrite Ht, lookup_insert_eq, HC', Hi.
        pose proof (slower (instant σ) (S (instant σ))). lia.
  - eapply ratio_keep; [| | |exact HR].
    + rewrite Hx. by rewrite lookup_insert_ne.
    + intros E c1 HE Hc1. rewrite Ht.
      rewrite lookup_insert_ne; [done|]. intros <-. by eapply (Hother Hne E c).
    + lia.
Qed.

Lemma ratio_entered W this e0 cap E0 σ :
  (e0 = e → wall_timer E0 ≠ Some this) →
  Forall (λ w, (wt_this w < this)%nat) W →
  executors σ !! e0 = Some E0 →
  ratio e B W σ →
  ratio e B (wall_object this e0 cap E0 σ :: W) (wall_entered this e0 E0 σ).
Proof.
  intros Hnew HF HE0 HR. rewrite Forall_forall in HF.
  unfold wall_entered, wall_object. case_bool_decide as Hnone.
  - destruct (decide (e0 = e)) as [->|Hne].
    + destruct HR as [_ H1]. destruct (H1 E0 HE0) as [Hn _].
      destruct (Hn Hnone) as [Hcpu Hle]. split.
      * simpl. by rewrite lookup_insert_eq.
      * intros E. simpl. rewrite lookup_insert_eq. intros [= <-]. simpl.
        split; [done|]. intros w Hin Hex [= Hthis].
        apply elem_of_cons in Hin as [->|Hin].
        -- unfold cpu_pending. simpl. rewrite Hcpu.
           pose proof (steady_monotone (instant σ) (S (instant σ))). lia.
        -- specialize (HF w Hin). simpl in HF. lia.
    + apply ratio_cons; [intros E _ Hex; by destruct Hne|].
      eapply ratio_keep; [| | |exact HR]; simpl; [|done|lia].
      by rewrite lookup_insert_ne.
  - apply ratio_cons.
    + intros E HE. simpl in *. intros <-. rewrite HE0 in HE. injection HE as <-.
      by apply Hnew.
    + by eapply ratio_plain; [| | |exact HR].
Qed.

Lemma ratio_left W w E0 σ :
  executors σ !! wt_executor w = Some E0 →
  (wt_executor w = e → wall_timer E0 = Some (wt_this w) → cpu_timer E0 = None) →
  ratio e B (w :: W) σ → ratio e B W (wall_left w E0 σ).
Proof.
  intros HE0 Hcpu HR. unfold wall_left. case_bool_decide as Hthis.
  - destruct (decide (wt_executor w = e)) as [Heq|Hne].
    + destruct HR as [_ H1]. pose proof HE0 as HE0'. rewrite Heq in HE0'.
      destruct (H1 E0 HE0') as [_ Hw].
      specialize (Hw w ltac:(by left) Heq Hthis).
      specialize (Hcpu Heq Hthis). unfold cpu_pending in Hw. rewrite Hcpu in Hw.
      split.
      * simpl. by rewrite Heq, lookup_insert_eq.
      * intros E. simpl. rewrite Heq, lookup_insert_eq. intros [= <-]. simpl.
        split; [|done]. intros _. split; [done|lia].
    + apply (ratio_tail w). eapply ratio_keep; [| | |exact HR]; simpl; [|done|lia].
      by rewrite lookup_insert_ne.
  - apply (ratio_tail w). by eapply ratio_plain; [| | |exact HR].
Qed.

(* the WallTimer installed on [e] when the list has one on [e] *)
Lemma outermost_installed W σ x E :
  outermost e W σ → x ∈ W → wt_executor x = e →
  executors σ !! e = Some E → ∃ y, y ∈ W ∧ wall_timer E = Some (wt_this y).
Proof.
  intros (_ & _ & HI) Hin Hex HE. unfold installed_wall in HI.
  rewrite HE in HI. simpl in HI.
  destruct (last (walls_on e W)) as [y|] eqn:Hl.
  - exists y. split; [|done]. apply last_Some_elem_of in Hl.
    by apply walls_on_elem in Hl as [? _].
  - apply last_None in Hl.
    assert (Hx : x ∈ walls_on e W) by (by apply list_elem_of_filter).
    rewrite Hl in Hx. by apply elem_of_nil in Hx.
Qed.

Lemma rated_plain O W σ σ' :
  executors σ' = executors σ → cpu_timers σ' = cpu_timers σ →
  (next_object σ ≤ next_object σ')%nat → (instant σ ≤ instant σ')%nat →
  rated e B O W σ → rated e B O W σ'.
Proof.
  intros Hx Ht Hn Hi (Hl & HM & HW & HR). split_and!.
  - by eapply timers_live_same.
  - by eapply mine_plain.
  - by eapply outermost_plain.
  - by eapply ratio_plain.
Qed.

Lemma rated_logged O W evs σ : rated e B O W σ → rated e B O W (logged evs σ).
Proof. by apply rated_plain. Qed.

Lemma rated_rebind O W x σ : rated e B O W σ → rated e B O W (rebind x σ).
Proof. by apply rated_plain. Qed.

Lemma rated_alloc O W σ : rated e B O W σ → rated e B O W (alloc σ).
Proof. apply rated_plain; simpl; auto. Qed.

Lemma rated_born O W this d thr cur σ :
  executors σ !! this = None →
  rated e B O W σ → rated e B O W (born this d thr cur σ).
Proof.
  intros Hf (Hl & HM & HW & HR). split_and!.
  - by eapply timers_live_same.
  - by apply mine_born.
  - by apply outermost_born.
  - by apply ratio_born.
Qed.

Lemma rated_Pause O W σ c σ' :
  rated e B O W σ → CpuTimer_Pause c σ = Ok ((), σ') → rated e B O W σ'.
Proof.
  intros (Hl & HM & HW & HR) Hp.
  split_and!; [|by eapply mine_Pause|by eapply outermost_Pause|].
  - apply CpuTimer_Pause_Ok in Hp as (C & E & HC & HE & Hc & ->).
    by eapply timers_live_same.
  - apply CpuTimer_Pause_Ok in Hp as (C & E & HC & HE & Hc & ->).
    by eapply (ratio_flush W σ _ c C E).
Qed.

Lemma rated_dtor O W σ c σ' :
  rated e B (c :: O) W σ → CpuTimer_dtor c σ = Ok ((), σ') → rated e B O W σ'.
Proof.
  intros (Hl & HM & HW & HR) Hp.
  split_and!; [|by eapply mine_dtor|by eapply outermost_dtor|].
  - apply CpuTimer_dtor_Ok in Hp as (C & E & HC & HE & Hc & ->).
    unfold timers_live in *. apply Forall_cons in Hl as [_ Hl].
    by eapply timers_live_same.
  - apply CpuTimer_dtor_Ok in Hp as (C & E & HC & HE & Hc & ->).
    by eapply (ratio_flush W σ _ c C E).
Qed.

Lemma rated_ctor O W e0 w σ c σ' :
  rated e B O W σ → w ∈ W → wt_executor w = e0 →
  CpuTimer_ctor e0 σ = Ok (c, σ') → rated e B (c :: O) W σ'.
Proof.
  intros (Hl & HM & HW & HR) Hin Hex Hp.
  split_and!; [|by eapply mine_ctor|by eapply outermost_ctor|].
  - apply CpuTimer_ctor_Ok in Hp as (E & HE & Hnone & -> & ->).
    unfold timers_live in *. rewrite Forall_forall in Hl.
    constructor; simpl.
    + split; [lia|]. by rewrite lookup_insert_eq.
    + apply Forall_forall. intros c0 Hc0. destruct (Hl _ Hc0) as [Hlt Hsome].
      split; [lia|]. rewrite lookup_insert_ne; [done|lia].
  - apply CpuTimer_ctor_Ok in Hp as (E & HE & Hnone & -> & ->).
    eapply (ratio_install W σ _ e0 E (next_object σ)); try done.
    + intros ->. destruct (outermost_installed W σ w E HW Hin Hex HE)
        as (y & _ & Hy). congruence.
    + intros _ E1 c1 HE1 Hc1 ->.
      destruct (HM e E1 _ ltac:(by left) HE1 Hc1) as [Hin1 _].
      unfold timers_live in Hl. rewrite Forall_forall in Hl.
      destruct (Hl _ Hin1). lia.
Qed.

Lemma rated_Resume O W σ c σ' :
  rated e B O W σ → covered O W σ →
  (∀ C, cpu_timers σ !! c = Some C → ct_executor C = e → c ∈ O) →
  CpuTimer_Resume c σ = Ok ((), σ') → rated e B O W σ'.
Proof.
  intros (Hl & HM & HW & HR) Hcov Hown Hp.
  split_and!; [| |by eapply outermost_Resume|].
  - apply CpuTimer_Resume_Ok in Hp as (C & E & HC & HE & Hc & ->).
    unfold timers_live in *. rewrite Forall_forall in Hl.
    apply Forall_forall. intros c0 Hc0. destruct (Hl _ Hc0) as [Hlt Hsome].
    split; [done|]. simpl. destruct (decide (c0 = c)) as [->|Hne].
    + by rewrite lookup_insert_eq.
    + by rewrite lookup_insert_ne.
  - eapply mine_Resume; [exact HM| |exact Hp].
    intros C HC Hin. apply list_elem_of_singleton in Hin. by apply (Hown C).
  - apply CpuTimer_Resume_Ok in Hp as (C & E & HC & HE & Hc & ->).
    eapply (ratio_install W σ _ (ct_executor C) E c); try done.
    + intros Hex. destruct (Hcov c C (Hown C HC Hex) HC) as (w & Hw & Hexw).
      rewrite Hex in HE, Hexw.
      destruct (outermost_installed W σ w E HW Hw Hexw HE) as (y & _ & Hy).
      congruence.
    + intros Hne E1 c1 HE1 Hc1 ->.
      destruct (HM e E1 _ ltac:(by left) HE1 Hc1) as (_ & C1 & HC1 & Hex).
      congruence.
Qed.

Lemma rated_WallTimer_ctor O W e0 σ w σ' :
  rated e B O W σ → WallTimer_ctor e0 σ = Ok (w, σ') →
  rated e B O (w :: W) σ' ∧ wt_executor w = e0.
Proof.
  intros HB Hw. pose proof HB as (Hl & HM & HW & _).
  pose proof (outermost_WallTimer_ctor _ _ _ _ _ _ HW Hw) as HW'.
  pose proof (mine_WallTimer_ctor _ _ _ _ _ _ HM Hw) as HM'.
  apply WallTimer_ctor_Ok in Hw as (σ1 & E & Hp & HE & -> & ->).
  split; [|done].
  assert (HB1 : rated e B O W σ1 ∧ next_object σ1 = S (next_object σ)).
  { apply when_set_Ok in Hp as [[_ ->]|(c & _ & Hp)].
    - split; [by apply rated_alloc|done].
    - split; [eapply rated_Pause; [|exact Hp]; by apply rated_alloc|].
      apply CpuTimer_Pause_Ok in Hp as (C & E' & _ & _ & _ & ->). done. }
  destruct HB1 as [(Hl1 & _ & HW1 & HR1) Hn]. split_and!; [|done|done|].
  - eapply timers_live_same; [| |exact Hl1].
    + unfold wall_entered. case_bool_decide; simpl; lia.
    + unfold wall_entered. by case_bool_decide.
  - destruct HW as (HF & _). apply ratio_entered; [|done|done|done].
    intros ->. destruct HW1 as (_ & _ & HI). unfold installed_wall in HI.
    rewrite HE in HI. simpl in HI. rewrite HI.
    destruct (last (walls_on e W)) as [y|] eqn:Hlast; [|done].
    apply last_Some_elem_of, walls_on_elem in Hlast as [Hy _].
    unfold walls_fresh in HF. rewrite Forall_forall in HF.
    specialize (HF y Hy). simpl in *. intros [= Heq]. lia.
Qed.

Lemma covered_Resume O W σ c σ' :
  covered O W σ → CpuTimer_Resume c σ = Ok ((), σ') → covered O W σ'.
Proof.
  intros Hcov (C & E & HC & HE & Hc & ->)%CpuTimer_Resume_Ok c0 C0 Hin. simpl.
  destruct (decide (c0 = c)) as [->|Hne].
  - rewrite lookup_insert_eq. intros [= <-]. simpl. by apply (Hcov c C).
  - rewrite lookup_insert_ne by done. by apply Hcov.
Qed.

Lemma rated_WallTimer_dtor O W σ w σ' :
  rated e B O (w :: W) σ → covered O W σ →
  (∀ c C, wt_cpu_timer w = Some c → cpu_timers σ !! c = Some C →
     ct_executor C = e → c ∈ O) →
  WallTimer_dtor w σ = Ok ((), σ') → rated e B O W σ'.
Proof.
  intros HB Hcov Hcap Hd. pose proof HB as (Hl & HM & HW & _).
  apply WallTimer_dtor_Ok in Hd as (σ1 & E & Hr & HE & ->).
  assert (H1 : rated e B O (w :: W) σ1 ∧ covered O W σ1).
  { apply when_set_Ok in Hr as [[_ ->]|(c & Hc & Hr)]; [done|]. split.
    - eapply rated_Resume; [exact HB| | |exact Hr].
      + intros c0 C0 Hin HC0. destruct (Hcov c0 C0 Hin HC0) as (x & Hx & Hex).
        exists x. split; [by right|done].
      + intros C. by apply Hcap.
    - by eapply covered_Resume. }
  destruct H1 as [(Hl1 & HM1 & HW1 & HR1) Hcov1]. split_and!.
  - eapply timers_live_same; [| |exact Hl1].
    + unfold wall_left. case_bool_decide; simpl; lia.
    + unfold wall_left. by case_bool_decide.
  - by apply mine_wall_left.
  - by apply outermost_wall_left.
  - apply ratio_left; [done| |done].
    intros Hex Hthis. destruct (cpu_timer E) as [c0|] eqn:Hc0; [|done].
    exfalso. rewrite Hex in HE.
    destruct (HM1 e E c0 ltac:(by left) HE Hc0) as (Hin & C0 & HC0 & Hex0).
    destruct (Hcov1 c0 C0 Hin HC0) as (x & Hx & Hexx).
    destruct HW1 as (_ & HD & HI). unfold installed_wall in HI.
    rewrite HE in HI. simpl in HI. rewrite walls_on_cons in HI.
    rewrite decide_True in HI by done. rewrite last_cons in HI.
    destruct (last (walls_on e W)) as [y|] eqn:Hlast.
    + apply last_Some_elem_of, walls_on_elem in Hlast as [Hy _].
      rewrite fmap_cons in HD. apply NoDup_cons in HD as [Hnew _].
      apply Hnew. apply list_elem_of_fmap. exists y. split; [|done].
      simpl in HI. congruence.
    + apply last_None in Hlast.
      assert (Hxe : x ∈ walls_on e W).
      { apply list_elem_of_filter. split; [congruence|done]. }
      rewrite Hlast in Hxe. by apply elem_of_nil in Hxe.
Qed.

Lemma paired_covered σ fs : paired σ fs → covered (owned fs) (walls fs) σ.
Proof.
  induction fs as [|f fs IH]; simpl.
  - intros _ c C Hin. by apply elem_of_nil in Hin.
  - destruct f as [s|c|w|l|u]; try done.
    + intros HP c C Hin HC. destruct (IH HP c C Hin HC) as (x & Hx & Hex).
      exists x. split; [by right|done].
    + intros [(C & HC & Hex) HP] c0 C0 Hin HC0.
      apply elem_of_cons in Hin as [->|Hin].
      * exists (lk_wall_timer l). split; [by left|]. simpl in HC0. congruence.
      * destruct (IH HP c0 C0 Hin HC0) as (x & Hx & Hexx).
        exists x. split; [by right|done].
Qed.

Lemma paired_owned σ fs c : paired σ fs → c ∈ owned fs → is_Some (cpu_timers σ !! c).
Proof.
  induction fs as [|f fs IH]; simpl.
  - intros _ Hin. by apply elem_of_nil in Hin.
  - destruct f as [s|c0|w|l|u]; try done.
    intros [(C & HC & _) HP] Hin. apply elem_of_cons in Hin as [->|Hin]; [|auto].
    simpl. by rewrite HC.
Qed.

Lemma paired_extends σ σ' fs :
  extends σ σ' → timers_live σ (owned fs) → paired σ fs → paired σ' fs.
Proof.
  intros (_ & _ & _ & Ht). induction fs as [|f fs IH]; [done|].
  destruct f as [s|c|w|l|u]; simpl; try done; try exact IH.
  intros Hl [(C & HC & Hex) HP].
  change (owned (FLock l :: fs)) with (lk_cpu_timer l :: owned fs) in Hl.
  apply Forall_cons in Hl as [[Hlt _] Hl].
  split; [|auto]. destruct (Ht _ _ Hlt HC) as (C' & HC' & Hex' & _).
  exists C'. split; [done|congruence].
Qed.

Lemma covered_same O W σ σ' :
  cpu_timers σ' = cpu_timers σ → covered O W σ → covered O W σ'.
Proof. intros Ht Hcov c C. rewrite Ht. apply Hcov. Qed.

Lemma paired_tail σ f fs : paired σ (f :: fs) → paired σ fs.
Proof. destruct f; simpl; tauto. Qed.

Lemma step_paired a fs σ fs' σ' :
  bare_timer a = false → timers_live σ (owned fs) → paired σ fs →
  step a fs σ = Ok (fs', σ') → paired σ' fs'.
Proof.
  intros Ha Hl HP Hs. pose proof (step_extends _ _ _ _ _ Hs) as Hx.
  pose proof (paired_extends _ _ _ Hx Hl HP) as HP'.
  apply step_Ok in Hs. destruct a as [k| |e0].
  - destruct Hs as (f & Hc & ->). apply construct_Ok in Hc.
    destruct k as [e0|e0|e0|e0|e0]; [|done| | |].
    + by destruct Hc as [-> ->].
    + by destruct Hc as (w & Hc & ->).
    + destruct Hc as (l & Hc & ->). simpl. split; [|done].
      apply Lock_ctor_Ok in Hc as (w & σ1 & c & σ2 & Hw & Hc & -> & ->).
      apply WallTimer_ctor_Ok in Hw as (σ3 & E3 & _ & _ & -> & _).
      apply CpuTimer_ctor_Ok in Hc as (E & _ & _ & -> & ->). simpl.
      rewrite lookup_insert_eq. by eexists.
    + by destruct Hc as (u & Hc & ->).
  - destruct Hs as (f & -> & Hd). apply paired_tail in HP'. done.
  - by destruct Hs as [Hc ->].
Qed.

Lemma timers_live_tail σ f fs :
  timers_live σ (owned (f :: fs)) → timers_live σ (owned fs).
Proof.
  unfold owned. simpl. destruct (frame_timer f); [|done].
  by intros [_ ?]%Forall_cons.
Qed.

Lemma step_rated a fs σ fs' σ' :
  bare_timer a = false →
  alone [e] fs σ ∧ paired σ fs ∧ rated e B (owned fs) (walls fs) σ →
  step a fs σ = Ok (fs', σ') →
  alone [e] fs' σ' ∧ paired σ' fs' ∧ rated e B (owned fs') (walls fs') σ'.
Proof.
  intros Ha (HA & HP & HB) Hs.
  pose proof HB as (Hl & _).
  split; [by eapply step_alone|]. split; [by eapply step_paired|].
  destruct HA as (_ & HO & _ & _ & HC).
  apply step_Ok in Hs. destruct a as [k| |e0].
  - destruct Hs as (f & Hc & ->). apply construct_Ok in Hc.
    destruct k as [e0|e0|e0|e0|e0]; [|done| | |].
    + destruct Hc as [-> ->]. by apply rated_rebind.
    + destruct Hc as (w & Hc & ->).
      by destruct (rated_WallTimer_ctor _ _ _ _ _ _ HB Hc).
    + destruct Hc as (l & Hc & ->).
      apply Lock_ctor_Ok in Hc as (w & σ1 & c & σ2 & Hw & Hc & -> & ->).
      eapply rated_WallTimer_ctor in Hw as (HB1 & Hex);
        [|by apply rated_rebind].
      apply rated_logged.
      eapply (rated_ctor _ _ e0 w); [|by left|done|exact Hc].
      by apply rated_logged.
    + destruct Hc as (u & Hc & ->).
      apply Unlock_ctor_Ok in Hc as (E & c & σ1 & HE & Hcpu & Hp & -> & ->).
      apply rated_logged. eapply rated_Pause; [|exact Hp].
      by apply rated_logged.
  - destruct Hs as (f & -> & Hd).
    pose proof (paired_tail _ _ _ HP) as HP'.
    pose proof (timers_live_tail _ _ _ Hl) as Hl'.
    destruct f as [s|c|w|l|u]; simpl in Hd.
    + rewrite Scope_dtor_eq in Hd. injection Hd as <-. by apply rated_rebind.
    + done.
    + eapply rated_WallTimer_dtor; [exact HB| | |exact Hd].
      * by apply paired_covered.
      * intros c C Hc HCc Hex.
        eapply (captured_mine_own [e] σ (FWallTimer w)); [done|done|done|].
        rewrite Hex. by left.
    + apply Lock_dtor_Ok in Hd as (σ1 & σ2 & Hc & Hw & ->).
      apply rated_rebind.
      eapply rated_WallTimer_dtor; [| | |exact Hw].
      * apply rated_logged. eapply rated_dtor; [|exact Hc].
        apply rated_logged. exact HB.
      * eapply covered_same; [|apply paired_covered]; [done|].
        eapply paired_extends; [| |exact HP'].
        -- apply extends_logged.
           eapply extends_trans; [|by eapply CpuTimer_dtor_extends].
           apply extends_logged, extends_refl.
        -- done.
      * intros c0 C Hcc HCc Hex.
        apply CpuTimer_dtor_Ok in Hc as (C1 & E1 & _ & _ & _ & ->).
        simpl in HCc.
        eapply (captured_mine_own [e] σ (FLock l)); [done|done|done|].
        rewrite Hex. by left.
    + apply Unlock_dtor_Ok in Hd as (c & Hu & Hr).
      eapply rated_Resume; [| | |exact Hr].
      * by apply rated_logged.
      * eapply covered_same; [|by apply paired_covered]. done.
      * intros C HCc Hex. simpl in HCc.
        eapply (captured_mine_own [e] σ (FUnlock u)); [done|done|done|].
        rewrite Hex. by left.
  - destruct Hs as [Hc ->].
    apply Executor_ctor_Ok in Hc as [Hf [[_ ->]|[(d & D & _ & _ & _ & ->)|[_ ->]]]];
      by apply rated_born.
Qed.

(** What the other threads do keeps it. *)
Lemma others_rated fs σ σ' :
  alone [e] fs σ ∧ paired σ fs ∧ rated e B (owned fs) (walls fs) σ →
  others [e] (owned fs) σ σ' →
  alone [e] fs σ' ∧ paired σ' fs ∧ rated e B (owned fs) (walls fs) σ'.
Proof.
  intros (HA & HP & Hl & HM & HW & HR) Ho.
  pose proof (others_alone [e] fs σ σ' HA Ho) as HA'.
  pose proof Ho as (_ & _ & Hn & Hi & _ & _ & Hmine & Hx).
  specialize (Hx e ltac:(by left)).
  split; [done|]. split; [|split_and!].
  - clear HA HA' HM HW HR Ho. induction fs as [|f fs IH]; [done|].
    destruct f as [s|c|w|l|u]; simpl in *; try done.
    + apply IH; try done.
    + apply IH; try done.
    + destruct HP as [(C & HC & Hex) HP].
      apply Forall_cons in Hl as [_ Hl]. split.
      * exists C. split; [|done].
        destruct (Hmine (lk_cpu_timer l) ltac:(by left)) as [Heq _]. congruence.
      * apply IH; try done. intros c Hin. apply Hmine. by right.
    + apply IH; try done.
  - by destruct HA' as (_ & (_ & Hl' & _) & _).
  - by destruct HA' as (_ & _ & _ & HM' & _).
  - by eapply (others_outermost e [e]); [left| |exact Ho].
  - eapply ratio_keep; [exact Hx| |exact Hi|exact HR].
    intros E c HE Hc. destruct (HM e E c ltac:(by left) HE Hc) as [Hown _].
    by destruct (Hmine c Hown).
Qed.

End Within.

Section Fraction.
Context `{Platform}.
Hypothesis steady_monotone : monotone steady_clock_now.
Hypothesis slower : cpu_clock_slower.

(** X15. On an executor that one thread only enters, whatever the other
    threads do elsewhere between its operations, with a steady clock that
    never goes back and a CpuTimer clock that advances no faster than it:
    when the thread starts with no CpuTimer and the executor with no timer
    installed, and the thread declares Scope, WallTimer, Lock and Unlock
    objects but no CpuTimer of its own, the executor has a CpuTimer
    installed only while it has a WallTimer installed, and whenever it has
    no WallTimer installed, in particular once every object of the thread
    is destroyed, its CPU time has grown by no more than its wall time. *)
Theorem cpu_time_is_within_wall_time acts σ fs' σ' e :
  allocated σ → cpu_timer_thread σ = None →
  (∀ E, executors σ !! e = Some E → cpu_timer E = None ∧ wall_timer E = None) →
  forallb (λ a, negb (bare_timer a)) acts = true →
  concurrent [e] acts [] σ fs' σ' →
  (∀ E, executors σ' !! e = Some E → wall_timer E = None →
     cpu_timer E = None ∧
     cpu_time E - wall_time E ≤ charged_cpu σ e - charged_wall σ e) ∧
  (fs' = [] →
     charged_cpu σ' e - charged_cpu σ e ≤ charged_wall σ' e - charged_wall σ e).
Proof.
  intros HA Hhead Hnone Hacts Hc.
  set (B := charged_cpu σ e - charged_wall σ e).
  assert (HI : alone [e] fs' σ' ∧ paired σ' fs' ∧
               rated e B (owned fs') (walls fs') σ').
  { eapply (concurrent_always [e] (λ a, negb (bare_timer a))
              (λ fs σ, alone [e] fs σ ∧ paired σ fs ∧
                       rated e B (owned fs) (walls fs) σ));
      [| |exact Hacts| |exact Hc].
    - intros a fs1 σ1 fs2 σ2 Ha.
      apply (step_rated steady_monotone slower). by destruct (bare_timer a).
    - intros fs1 σ1 σ2. apply (others_rated steady_monotone slower).
    - assert (HM : mine [e] [] σ).
      { intros e0 E c Hin HE Hc0. apply list_elem_of_singleton in Hin as ->.
        destruct (Hnone E HE). congruence. }
      split; [|split; [done|]].
      + split_and!; [exact HA| |done|exact HM|done].
        split_and!; [done|constructor|done|].
        intros c Hin. by apply elem_of_nil in Hin.
      + split_and!; [constructor|exact HM| |].
        * split_and!; [constructor|constructor|].
          unfold installed_wall.
          destruct (executors σ !! e) as [E|] eqn:HE; [|done].
          simpl. by destruct (Hnone E eq_refl).
        * unfold B, charged_cpu, charged_wall. split.
          -- intros ->. simpl. lia.
          -- intros E HE. rewrite HE. simpl. destruct (Hnone E HE) as [Hc0 Hw0].
             split; [intros _; split; [done|lia]|].
             intros w Hin. by apply elem_of_nil in Hin. }
  destruct HI as (_ & _ & _ & _ & (_ & _ & HW) & [H0 H1]). split.
  - intros E HE Hw. by destruct (H1 E HE) as [Hn _]; apply Hn.
  - intros ->. unfold B, charged_cpu, charged_wall in *.
    destruct (executors σ' !! e) as [E'|] eqn:HE'; simpl.
    + destruct (H1 E' eq_refl) as [Hn _].
      assert (Hw : wall_timer E' = None).
      { unfold installed_wall in HW. by rewrite HE' in HW. }
      destruct (Hn Hw). lia.
    + specialize (H0 eq_refl). lia.
Qed.

End Fraction.
(** ** The total charge of the executors that one thread enters *)

Section Sums.

Lemma total_same (L : list nat) σ σ' :
  (∀ e, e ∈ L → charged_cpu σ' e = charged_cpu σ e) →
  total_on L σ' = total_on L σ.
Proof.
  induction L as [|e L IH]; [done|]. intros Hx.
  change (total_on (e :: L) σ') with (charged_cpu σ' e + total_on L σ').
  change (total_on (e :: L) σ) with (charged_cpu σ e + total_on L σ).
  rewrite (Hx e) by (by left). rewrite IH; [done|].
  intros e0 Hin. apply Hx. by right.
Qed.

Lemma total_add (L : list nat) σ σ' e0 d :
  NoDup L → e0 ∈ L → charged_cpu σ' e0 = charged_cpu σ e0 + d →
  (∀ e, e ≠ e0 → charged_cpu σ' e = charged_cpu σ e) →
  total_on L σ' = total_on L σ + d.
Proof.
  intros HD Hin H0 Hx. induction L as [|e L IH].
  - by apply elem_of_nil in Hin.
  - apply NoDup_cons in HD as [Hnew HD].
    change (total_on (e :: L) σ') with (charged_cpu σ' e + total_on L σ').
    change (total_on (e :: L) σ) with (charged_cpu σ e + total_on L σ).
    destruct (decide (e = e0)) as [->|Hne].
    + rewrite H0, (total_same L σ σ'); [lia|].
      intros x Hx'. apply Hx. by intros ->.
    + rewrite (Hx e Hne). apply elem_of_cons in Hin as [->|Hin]; [done|].
      rewrite (IH HD Hin). lia.
Qed.

End Sums.

Section Total.
Context `{Platform}.
Hypothesis cputime_monotone : monotone clock_thread_cputime.
Hypothesis steady_monotone : monotone steady_clock_now.
Variable R : list nat.
Hypothesis S_NoDup : NoDup R.
Variable B : Z.

Lemma clock_later i j : (i ≤ j)%nat → cpu_clock i ≤ cpu_clock j.
Proof. apply (cpu_clock_monotone cputime_monotone steady_monotone). Qed.

Lemma total_on_same σ σ' :
  (∀ e, e ∈ R → charged_cpu σ' e = charged_cpu σ e) →
  total_on R σ' = total_on R σ.
Proof. apply total_same. Qed.

Lemma total_on_add σ σ' e0 d :
  e0 ∈ R → charged_cpu σ' e0 = charged_cpu σ e0 + d →
  (∀ e, e ≠ e0 → charged_cpu σ' e = charged_cpu σ e) →
  total_on R σ' = total_on R σ + d.
Proof. by apply total_add. Qed.

Lemma charged_cpu_insert σ σ' e0 E' e :
  executors σ' = <[e0 := E']> (executors σ) →
  charged_cpu σ' e =
    if decide (e = e0) then cpu_time E' else charged_cpu σ e.
Proof.
  intros Hx. unfold charged_cpu. rewrite Hx.
  destruct (decide (e = e0)) as [->|Hne].
  - by rewrite lookup_insert_eq.
  - by rewrite lookup_insert_ne.
Qed.

(* an executor is replaced by one with the same CPU time *)
Lemma total_on_update σ σ' e0 E E' :
  executors σ !! e0 = Some E → executors σ' = <[e0 := E']> (executors σ) →
  cpu_time E' = cpu_time E → total_on R σ' = total_on R σ.
Proof.
  intros HE Hx Hc. apply total_on_same. intros e _.
  rewrite (charged_cpu_insert σ σ' e0 E' e Hx).
  destruct (decide (e = e0)) as [->|Hne]; [|done].
  unfold charged_cpu. by rewrite HE, Hc.
Qed.

(* an executor is charged *)
Lemma total_on_flush σ σ' e0 E d :
  executors σ !! e0 = Some E →
  executors σ' = <[e0 := flush E d]> (executors σ) →
  total_on R σ' = total_on R σ + (if decide (e0 ∈ R) then d else 0).
Proof.
  intros HE Hx. destruct (decide (e0 ∈ R)) as [Hin|Hout].
  - apply (total_on_add σ σ' e0 d Hin).
    + rewrite (charged_cpu_insert σ σ' e0 _ e0 Hx), decide_True by done.
      unfold charged_cpu. by rewrite HE.
    + intros e Hne. rewrite (charged_cpu_insert σ σ' e0 _ e Hx).
      by rewrite decide_False.
  - rewrite Z.add_0_r. apply total_on_same. intros e Hin.
    rewrite (charged_cpu_insert σ σ' e0 _ e Hx).
    rewrite decide_False; [done|]. by intros ->.
Qed.

Lemma total_on_wall_entered this e E σ :
  executors σ !! e = Some E →
  total_on R (wall_entered this e E σ) = total_on R σ.
Proof.
  intros HE. unfold wall_entered. case_bool_decide.
  - by eapply total_on_update.
  - by apply total_on_same.
Qed.

Lemma total_on_wall_left w E σ :
  executors σ !! wt_executor w = Some E →
  total_on R (wall_left w E σ) = total_on R σ.
Proof.
  intros HE. unfold wall_left. case_bool_decide.
  - by eapply total_on_update.
  - by apply total_on_same.
Qed.

Lemma total_on_born this d thr cur σ :
  executors σ !! this = None →
  total_on R (born this d thr cur σ) = total_on R σ.
Proof.
  intros Hf. apply total_on_same. intros e _.
  rewrite (charged_cpu_insert σ (born this d thr cur σ) this
             (Executor_init this d thr) e eq_refl).
  destruct (decide (e = this)) as [->|Hne]; [|done].
  unfold charged_cpu. by rewrite Hf.
Qed.

(* a step that charges nothing and installs no CpuTimer *)
Lemma budget_keep σ σ' :
  total_on R σ' = total_on R σ →
  cpu_timer_thread σ' = cpu_timer_thread σ →
  (∀ c, cpu_timer_thread σ = Some c → installed σ' c = true →
     installed σ c = true ∧ cpu_timers σ' !! c = cpu_timers σ !! c) →
  (instant σ ≤ instant σ')%nat →
  budget R B σ → budget R B σ'.
Proof.
  intros Ht Hh Hk Hi [H1 H2]. pose proof (clock_later _ _ Hi). split.
  - rewrite Ht. lia.
  - intros c C Hc HC Hinst. rewrite Hh in Hc.
    destruct (Hk c Hc Hinst) as [Hinst' Heq]. rewrite Heq in HC.
    rewrite Ht. by apply (H2 c C).
Qed.

Lemma budget_plain σ σ' :
  executors σ' = executors σ → cpu_timers σ' = cpu_timers σ →
  cpu_timer_thread σ' = cpu_timer_thread σ →
  (instant σ ≤ instant σ')%nat → budget R B σ → budget R B σ'.
Proof.
  intros Hx Ht Hh Hi. apply budget_keep; [|done| |done].
  - apply total_on_same. intros e _. unfold charged_cpu. by rewrite Hx.
  - intros c _. rewrite (installed_plain σ σ') by done. by rewrite Ht.
Qed.

Lemma budget_logged evs σ : budget R B σ → budget R B (logged evs σ).
Proof. by apply budget_plain. Qed.

Lemma budget_rebind x σ : budget R B σ → budget R B (rebind x σ).
Proof. by apply budget_plain. Qed.

Lemma budget_alloc σ : budget R B σ → budget R B (alloc σ).
Proof. by apply budget_plain. Qed.

(* the thread's current CpuTimer is not installed *)
Lemma budget_idle σ σ' :
  total_on R σ' = total_on R σ → (instant σ ≤ instant σ')%nat →
  (∀ c, cpu_timer_thread σ' = Some c → installed σ' c = false) →
  budget R B σ → budget R B σ'.
Proof.
  intros Ht Hi Hidle [H1 _]. pose proof (clock_later _ _ Hi). split.
  - rewrite Ht. lia.
  - intros c C Hc _ Hinst. by rewrite (Hidle c Hc) in Hinst.
Qed.

Lemma budget_wall_entered this e E σ :
  executors σ !! e = Some E →
  budget R B σ → budget R B (wall_entered this e E σ).
Proof.
  intros HE. apply budget_keep.
  - by apply total_on_wall_entered.
  - unfold wall_entered. by case_bool_decide.
  - intros c _. rewrite installed_wall_entered by done. intros Hc.
    split; [done|]. unfold wall_entered. by case_bool_decide.
  - unfold wall_entered. case_bool_decide; simpl; lia.
Qed.

Lemma budget_wall_left w E σ :
  executors σ !! wt_executor w = Some E →
  budget R B σ → budget R B (wall_left w E σ).
Proof.
  intros HE. apply budget_keep.
  - by apply total_on_wall_left.
  - unfold wall_left. by case_bool_decide.
  - intros c _. rewrite installed_wall_left by done. intros Hc.
    split; [done|]. unfold wall_left. by case_bool_decide.
  - unfold wall_left. case_bool_decide; simpl; lia.
Qed.

Lemma budget_born this d thr cur σ :
  executors σ !! this = None →
  budget R B σ → budget R B (born this d thr cur σ).
Proof.
  intros Hf [H1 H2]. split.
  - rewrite total_on_born by done. done.
  - intros c C Hc HC Hinst. rewrite total_on_born by done.
    apply (H2 c C); [done|done|]. by eapply installed_born.
Qed.

(** Pause charges the executor of the timer: when the executor is one of
    [R], the timer is the thread's current one, and the charge was counted
    in already. *)
Lemma budget_Pause O σ c σ' :
  own O σ → mine R O σ → budget R B σ →
  CpuTimer_Pause c σ = Ok ((), σ') → budget R B σ'.
Proof.
  intros HO HM [H1 H2] (C & E & HC & HE & Hc & ->)%CpuTimer_Pause_Ok.
  pose proof (total_on_flush σ (paused c C E σ) (ct_executor C) E
                (cpu_clock (instant σ) - ct_time C) HE eq_refl) as Ht.
  assert (Hidle : ∀ c1, installed (paused c C E σ) c1 = true →
                        installed σ c1 = true ∧ c1 ≠ c).
  { intros c1. eapply (installed_flush σ (paused c C E σ) c C E);
      [exact HC|exact HE|reflexivity|reflexivity]. }
  pose proof (clock_later (instant σ) (S (instant σ)) ltac:(lia)) as Hlater.
  destruct (decide (ct_executor C ∈ R)) as [Hin|Hout].
  - destruct (HM _ _ _ Hin HE Hc) as [Hown _].
    destruct HO as (_ & _ & _ & Htop).
    assert (Hcur : cpu_timer_thread σ = Some c).
    { apply Htop; [done|]. apply installed_true. eauto. }
    assert (Hinst : installed σ c = true) by (apply installed_true; eauto).
    specialize (H2 c C Hcur HC Hinst). split.
    + rewrite Ht. simpl. lia.
    + intros c1 C1 Hc1 _ Hinst1. simpl in Hc1.
      destruct (Hidle c1 Hinst1) as [_ Hne]. congruence.
  - split.
    + rewrite Ht, Z.add_0_r. simpl. lia.
    + intros c1 C1 Hc1 HC1 Hinst1. rewrite Ht, Z.add_0_r.
      destruct (Hidle c1 Hinst1) as [Hi1 _]. by apply (H2 c1 C1).
Qed.

Lemma budget_dtor O σ c σ' :
  own (c :: O) σ → mine R (c :: O) σ → budget R B σ →
  CpuTimer_dtor c σ = Ok ((), σ') → budget R B σ'.
Proof.
  intros HO HM [H1 H2] Hd.
  destruct (own_dtor O σ c σ' HO Hd) as [(Hh' & _) Hp'].
  apply CpuTimer_dtor_Ok in Hd as (C & E & HC & HE & Hc & ->).
  pose proof (total_on_flush σ (stopped c C E σ) (ct_executor C) E
                (cpu_clock (instant σ) - ct_time C) HE eq_refl) as Ht.
  pose proof (clock_later (instant σ) (S (instant σ)) ltac:(lia)) as Hlater.
  destruct HO as (Hh & _ & _ & Htop).
  assert (Hinst : installed σ c = true) by (apply installed_true; eauto).
  specialize (H2 c C Hh HC Hinst). split.
  - rewrite Ht. simpl. destruct (decide (ct_executor C ∈ R)); lia.
  - intros c1 C1 Hc1 _ Hinst1. rewrite Hh' in Hc1.
    apply head_elem in Hc1. by rewrite (Hp' c1 Hc1) in Hinst1.
Qed.

(** A CpuTimer that is installed starts counting at a reading of the
    clock. *)
Lemma budget_ctor e σ c σ' :
  budget R B σ → CpuTimer_ctor e σ = Ok (c, σ') → budget R B σ'.
Proof.
  intros [H1 H2] (E & HE & Hnone & -> & ->)%CpuTimer_ctor_Ok.
  assert (Ht : total_on R (started e E σ) = total_on R σ).
  { by eapply total_on_update. }
  pose proof (clock_later (instant σ) (S (instant σ)) ltac:(lia)) as Hlater.
  split.
  - rewrite Ht. simpl. lia.
  - intros c C. simpl. intros [= <-]. rewrite lookup_insert_eq.
    intros [= <-] _. rewrite Ht. simpl. lia.
Qed.

Lemma budget_Resume σ c σ' :
  budget R B σ → CpuTimer_Resume c σ = Ok ((), σ') → budget R B σ'.
Proof.
  intros [H1 H2] (C & E & HC & HE & Hc & ->)%CpuTimer_Resume_Ok.
  assert (Ht : total_on R (resumed c C E σ) = total_on R σ).
  { by eapply total_on_update. }
  pose proof (clock_later (instant σ) (S (instant σ)) ltac:(lia)) as Hlater.
  split.
  - rewrite Ht. simpl. lia.
  - intros c1 C1 Hc1 HC1 Hinst1. rewrite Ht. simpl in Hc1, HC1.
    destruct (decide (c1 = c)) as [->|Hne].
    + rewrite lookup_insert_eq in HC1. injection HC1 as <-. simpl. lia.
    + rewrite lookup_insert_ne in HC1 by done.
      apply (H2 c1 C1); [done|done|].
      assert (Hi : c1 = c ∨ installed σ c1 = true).
      { eapply (installed_install σ (resumed c C E σ) (ct_executor C) E);
          [reflexivity|reflexivity|exact Hinst1]. }
      by destruct Hi.
Qed.

Lemma budget_WallTimer_ctor O e σ w σ' :
  own O σ → mine R O σ → budget R B σ →
  WallTimer_ctor e σ = Ok (w, σ') → budget R B σ'.
Proof.
  intros HO HM HB (σ1 & E & Hp & HE & -> & ->)%WallTimer_ctor_Ok.
  apply budget_wall_entered; [done|].
  apply when_set_Ok in Hp as [[_ ->]|(c & _ & Hp)].
  - by apply budget_alloc.
  - eapply (budget_Pause O); [| | |exact Hp].
    + by apply own_alloc.
    + by apply mine_alloc.
    + by apply budget_alloc.
Qed.

Lemma budget_WallTimer_dtor σ w σ' :
  budget R B σ → WallTimer_dtor w σ = Ok ((), σ') → budget R B σ'.
Proof.
  intros HB (σ1 & E & Hr & HE & ->)%WallTimer_dtor_Ok.
  apply budget_wall_left; [done|].
  apply when_set_Ok in Hr as [[_ ->]|(c & Hc & Hr)]; [done|].
  by eapply budget_Resume.
Qed.

Lemma step_budget a fs σ fs' σ' :
  bare_timer a = false →
  alone R fs σ ∧ budget R B σ → step a fs σ = Ok (fs', σ') →
  alone R fs' σ' ∧ budget R B σ'.
Proof.
  intros Ha [HA HB] Hs. split; [by eapply step_alone|].
  destruct HA as (_ & HO & _ & HM & _).
  apply step_Ok in Hs. destruct a as [k| |e].
  - destruct Hs as (f & Hc & ->). apply construct_Ok in Hc.
    destruct k as [e|e|e|e|e]; [|done| | |].
    + destruct Hc as [-> ->]. by apply budget_rebind.
    + destruct Hc as (w & Hc & ->). by eapply budget_WallTimer_ctor.
    + destruct Hc as (l & Hc & ->).
      apply Lock_ctor_Ok in Hc as (w & σ1 & c & σ2 & Hw & Hc & -> & ->).
      apply budget_logged. eapply budget_ctor; [|exact Hc].
      apply budget_logged.
      eapply (budget_WallTimer_ctor (owned fs)); [| | |exact Hw].
      * by apply own_rebind.
      * by apply mine_rebind.
      * by apply budget_rebind.
    + destruct Hc as (u & Hc & ->).
      apply Unlock_ctor_Ok in Hc as (E & c & σ1 & HE & Hcpu & Hp & -> & ->).
      apply budget_logged. eapply (budget_Pause (owned fs)); [| | |exact Hp].
      * by apply own_logged.
      * by apply mine_logged.
      * by apply budget_logged.
  - destruct Hs as (f & -> & Hd). destruct f as [s|c|w|l|u]; simpl in Hd.
    + rewrite Scope_dtor_eq in Hd. injection Hd as <-. by apply budget_rebind.
    + eapply (budget_dtor (owned fs')); [exact HO|exact HM|exact HB|exact Hd].
    + by eapply budget_WallTimer_dtor.
    + apply Lock_dtor_Ok in Hd as (σ1 & σ2 & Hc & Hw & ->).
      apply budget_rebind.
      eapply budget_WallTimer_dtor; [|exact Hw]. apply budget_logged.
      eapply (budget_dtor (owned fs')); [| | |exact Hc].
      * by apply own_logged.
      * by apply mine_logged.
      * by apply budget_logged.
    + apply Unlock_dtor_Ok in Hd as (c & Hu & Hr).
      eapply budget_Resume; [|exact Hr]. by apply budget_logged.
  - destruct Hs as [Hc ->].
    apply Executor_ctor_Ok in Hc as [Hf [[_ ->]|[(d & D & _ & _ & _ & ->)|[_ ->]]]];
      by apply budget_born.
Qed.

(** What the other threads do keeps it: they leave the executors of [R]
    and the thread's current CpuTimer as they are, and time goes on. *)
Lemma others_budget fs σ σ' :
  alone R fs σ ∧ budget R B σ → others R (owned fs) σ σ' →
  alone R fs σ' ∧ budget R B σ'.
Proof.
  intros [HA HB] Ho. split; [by eapply others_alone|].
  destruct HA as (_ & (Hh & _) & _).
  destruct Ho as (_ & Hhead & _ & Hi & _ & _ & Hmine & Hx).
  eapply budget_keep; [|exact Hhead| |exact Hi|exact HB].
  - apply total_on_same. intros e Hin. unfold charged_cpu. by rewrite (Hx e Hin).
  - intros c Hc Hinst. rewrite Hh in Hc. apply head_elem in Hc.
    destruct (Hmine c Hc) as [Heq Hsame]. split; [congruence|done].
Qed.

End Total.

Section Charge.
Context `{Platform}.
Hypothesis cputime_monotone : monotone clock_thread_cputime.
Hypothesis steady_monotone : monotone steady_clock_now.

(** X11. No over-charging by a thread: with clocks that never go back, on
    the executors that one thread only enters, whatever the other threads
    do elsewhere between its operations: when the thread starts with no
    CpuTimer and these executors with no CpuTimer installed, and the
    thread declares Scope, WallTimer, Lock and Unlock objects but no
    CpuTimer of its own, the CPU times of these executors grow together by
    at most the time elapsed on the clock of the CpuTimers, even when the
    time that the thread's current CpuTimer has yet to charge is counted
    in. *)
Theorem total_charge_is_within_elapsed_time acts R σ fs' σ' :
  NoDup R → allocated σ → cpu_timer_thread σ = None →
  (∀ e E, e ∈ R → executors σ !! e = Some E → cpu_timer E = None) →
  forallb (λ a, negb (bare_timer a)) acts = true →
  concurrent R acts [] σ fs' σ' →
  total_on R σ' - total_on R σ ≤ cpu_clock (instant σ') - cpu_clock (instant σ) ∧
  ∀ c C, cpu_timer_thread σ' = Some c → cpu_timers σ' !! c = Some C →
    installed σ' c = true →
    total_on R σ' + (cpu_clock (instant σ') - ct_time C) - total_on R σ ≤
      cpu_clock (instant σ') - cpu_clock (instant σ).
Proof.
  intros HD HA Hhead Hnone Hacts Hc.
  set (B := total_on R σ - cpu_clock (instant σ)).
  assert (HI : alone R fs' σ' ∧ budget R B σ').
  { eapply (concurrent_always R (λ a, negb (bare_timer a))
              (λ fs σ, alone R fs σ ∧ budget R B σ));
      [| |exact Hacts| |exact Hc].
    - intros a fs1 σ1 fs2 σ2 Ha.
      apply (step_budget cputime_monotone steady_monotone R HD).
      by destruct (bare_timer a).
    - intros fs1 σ1 σ2.
      apply (others_budget cputime_monotone steady_monotone).
    - split.
      + split_and!; [exact HA| |done| |done].
        * split_and!; [done|constructor|done|].
          intros c Hin. by apply elem_of_nil in Hin.
        * intros e E c Hin HE Hc0. rewrite (Hnone e E Hin HE) in Hc0. done.
      + split; [unfold B; lia|]. intros c C Hc0. congruence. }
  destruct HI as [_ [H1 H2]]. unfold B in *. split; [lia|].
  intros c C Hc0 HC Hinst. specialize (H2 c C Hc0 HC Hinst). lia.
Qed.

End Charge.

(** ** A Lock on an idle thread *)

Section EmptyLock.
Context `{Platform}.

(** X16. Lock(e) declared on a thread that has no current CpuTimer, for an
    executor that has no timer installed, and destroyed before anything
    else is declared: both steps succeed; inside the Lock [e] is the
    current executor and has the timers of the Lock installed; afterwards
    the thread-local state is as before, no timer is installed, [e] has
    been charged the CPU time between the construction and the destruction
    of the CpuTimer and the wall time between the construction and the
    destruction of the WallTimer, which encloses the former, and no other
    executor has changed. *)
Theorem empty_Lock_charges_its_lifetime e σ E :
  executors σ !! e = Some E → cpu_timer E = None → wall_timer E = None →
  cpu_timer_thread σ = None →
  ∃ l σ1 σ2,
    Lock_ctor e σ = Ok (l, σ1) ∧ Lock_dtor l σ1 = Ok ((), σ2) ∧
    current_executor σ1 = Some e ∧
    cpu_timer_thread σ1 = Some (lk_cpu_timer l) ∧
    cpu_view (executors σ1) e = Some (Some (lk_cpu_timer l), cpu_time E) ∧
    wall_view (executors σ1) e =
      Some (Some (wt_this (lk_wall_timer l)), wall_time E) ∧
    current_executor σ2 = current_executor σ ∧
    cpu_timer_thread σ2 = None ∧
    executors σ2 =
      <[e := mkExecutor (env E) (default_executor E) (default_thread E)
               None None
               (cpu_time E + (cpu_clock (S (S (instant σ))) -
                              cpu_clock (S (instant σ))))
               (wall_time E + (steady_clock_now (S (S (S (instant σ)))) -
                               steady_clock_now (instant σ)))]>
        (executors σ).
Proof.
  intros HE Hcpu Hwall Hhead.
  assert (Hw : WallTimer_ctor e (rebind (Some e) σ) =
               Ok (wall_object (next_object σ) e None E (alloc (rebind (Some e) σ)),
                   wall_entered (next_object σ) e E (alloc (rebind (Some e) σ)))).
  { rewrite WallTimer_ctor_eq. simpl. rewrite Hhead. simpl. by rewrite HE. }
  unfold wall_entered, wall_object in Hw.
  rewrite !bool_decide_eq_true_2 in Hw by done. simpl in Hw.
  eexists _, _, _. split.
  { rewrite Lock_ctor_eq, Hw, CpuTimer_ctor_eq. simpl.
    rewrite lookup_insert_eq. simpl.
    rewrite bool_decide_eq_true_2 by done. reflexivity. }
  split.
  { rewrite Lock_dtor_eq, CpuTimer_dtor_eq. simpl.
    rewrite !lookup_insert_eq. simpl. rewrite ?lookup_insert_eq. simpl.
    rewrite bool_decide_eq_true_2 by done.
    rewrite WallTimer_dtor_eq. simpl. rewrite ?lookup_insert_eq. reflexivity. }
  unfold wall_left. simpl. rewrite bool_decide_eq_true_2 by done. simpl.
  unfold cpu_view, wall_view. rewrite !lookup_insert_eq. simpl.
  split_and!; try done. rewrite !insert_insert_eq. reflexivity.
Qed.

End EmptyLock.
(** * The claims on concrete runs *)

Lemma demo_cputime_monotone : monotone (@clock_thread_cputime demo).
Proof. intros i j Hij. simpl. lia. Qed.

Lemma demo_steady_monotone : monotone (@steady_clock_now demo).
Proof. intros i j Hij. simpl. lia. Qed.

Lemma initial_timed : @timed demo [] initial.
Proof.
  split_and!.
  - intros c C k HC. unfold initial in HC. simpl in HC.
    by rewrite lookup_empty in HC.
  - intros e E w HE. unfold initial in HE. simpl in HE.
    by rewrite lookup_empty in HE.
  - constructor.
Qed.

Lemma initial_idle : idle initial.
Proof.
  split; [done|]. intros e E HE. unfold initial in HE. simpl in HE.
  by rewrite lookup_empty in HE.
Qed.

Lemma initial_known e : e ∈ @nil nat ↔ is_Some (executors initial !! e).
Proof.
  unfold initial. simpl. rewrite lookup_empty.
  split; [by intros ?%elem_of_nil|by intros [? ?]].
Qed.

(** Lock(6) inside Lock(5): the timer of isolate 5 is paused before the
    locker of isolate 6 is requested, the timer of isolate 6 starts after. *)
Lemma Lock_order_witness :
  @Lock_ctor demo 6 inside_five = Ok (lock_six, inside_six) ∧
  ∃ pre, trace inside_six =
           trace inside_five ++ pre ++ [EvLocker 6] ++
           start_events (lk_cpu_timer lock_six) 6 ++
           [EvIsolateScope 6; EvHandleScope 6] ∧
         quiet is_start pre.
Proof.
  assert (Hl : @Lock_ctor demo 6 inside_five = Ok (lock_six, inside_six))
    by (vm_compute; reflexivity).
  split; [exact Hl|].
  destruct (proj1 (@Lock_pauses_before_and_starts_after_the_locker demo)
              6%nat inside_five lock_six inside_six Hl)
    as (pre & σ1 & _ & _ & Htr & Hq & _).
  exists pre. split; [exact Htr|exact Hq].
Defined.

(** C2: inside Lock(5) nested in Lock(5), the inner CpuTimer (object 3) is
    installed on executor 5 and charges it, while the only call made on the
    quota timer of isolate 5 is the pause issued for the outer CpuTimer:
    the quota timer is left paused, whether pauses are counted or not. *)
Theorem nested_Lock_leaves_quota_timer_paused :
  live (demo_run nested_same) ≠ [] ∧
  cpu_timer <$> executors (final (demo_run nested_same)) !! 5%nat
    = Some (Some 3%nat) ∧
  holder_calls 5 (trace (final (demo_run nested_same))) = [true] ∧
  left_paused 5 (trace (final (demo_run nested_same))) = true ∧
  pause_depth 5 (trace (final (demo_run nested_same))) = 1.
Proof. vm_compute. split_and!; done. Qed.

(** C3, as stated, fails: the constructor of a WallTimer reads
    [wall_timer] before it takes [timer_mutex]. *)
Lemma WallTimer_reads_wall_timer_unlocked :
  ∃ w σ', @WallTimer_ctor demo 5 two_isolates = Ok (w, σ') ∧
          unguarded [] (trace σ') = [EvRead 5 f_wall_timer].
Proof. eexists _, _. split; vm_compute; reflexivity. Qed.

(** Over the callbacks example the accesses made without the mutex are
    the tests of the WallTimers of Lock(5) and of Lock(6), at their
    construction and at their destruction, and the read of Unlock(5). *)
Lemma timer_mutex_witness :
  demo_run (New 5 :: New 6 :: callbacks) = Ok ([], served) ∧
  ∃ evs, trace served = [] ++ evs ∧ held_after [] evs = [] ∧
         unguarded [] evs =
           [EvRead 5 f_wall_timer; EvRead 6 f_wall_timer;
            EvRead 6 f_wall_timer; EvRead 5 f_cpu_timer;
            EvRead 5 f_wall_timer] ∧
         Forall (λ ev, pointer_read ev = true) (unguarded [] evs).
Proof.
  assert (He : demo_run (New 5 :: New 6 :: callbacks) = Ok ([], served))
    by (vm_compute; reflexivity).
  split; [exact He|].
  exact (proj1 (@timer_fields_written_under_timer_mutex demo) _ [] [] _ _ _
           (Forall2_nil_2 _ _ declared_as) He).
Defined.

(** A second WallTimer on isolate 5 inside Lock(5) leaves the wall
    accounting of isolate 5 alone. *)
Lemma nested_WallTimer_witness :
  @WallTimer_ctor demo 5 inside_five = Ok (inner_wall, inside_inner_wall) ∧
  wall_view (executors inside_inner_wall) 5 = wall_view (executors inside_five) 5.
Proof.
  assert (Hw : @WallTimer_ctor demo 5 inside_five = Ok (inner_wall, inside_inner_wall))
    by (vm_compute; reflexivity).
  split; [exact Hw|].
  refine (proj1 (proj1 (@nested_WallTimer_leaves_wall_time demo 5%nat inside_five
            (mkExecutor 5 5 1 (Some 1%nat) (Some 0%nat) 0 0) inner_wall
            inside_inner_wall _ Hw) 0%nat _ _)).
  - vm_compute. reflexivity.
  - reflexivity.
  - vm_compute. lia.
Defined.

(** C5, as stated, fails when the Lock entered is on the same executor:
    inside Lock(5) nested in Lock(5) the outer CpuTimer (object 1) is paused
    and not resumed yet, and executor 5 has a CpuTimer installed. *)
Lemma paused_timer_same_executor_is_charged :
  (∃ l, last (live (demo_run nested_same)) = Some (FLock l) ∧
        lk_cpu_timer l = 1%nat) ∧
  is_paused 1 (trace (final (demo_run nested_same))) = true ∧
  cpu_view (executors (final (demo_run nested_same))) 5 = Some (Some 3%nat, 7) ∧
  ∃ σ', @CpuTimer_dtor demo 3 (final (demo_run nested_same)) = Ok ((), σ') ∧
        is_paused 1 (trace σ') = true ∧
        cpu_view (executors σ') 5 = Some (None, 14).
Proof.
  split; [eexists; split; vm_compute; reflexivity|].
  split; [vm_compute; reflexivity|].
  split; [vm_compute; reflexivity|].
  eexists. split; [vm_compute; reflexivity|]. split; vm_compute; reflexivity.
Qed.

Lemma paused_executor_witness :
  @Lock_ctor demo 6 inside_five = Ok (lock_six, inside_six) ∧
  ∃ v, cpu_view (executors inside_six) 5 = Some (None, v).
Proof.
  assert (Hl : @Lock_ctor demo 6 inside_five = Ok (lock_six, inside_six))
    by (vm_compute; reflexivity).
  split; [exact Hl|].
  destruct (@paused_executor_accrues_nothing demo inside_five 5%nat 6%nat 1%nat
              (mkCpuTimer 5 None 57) lock_six inside_six)
    as (v & Hv & _).
  - lia.
  - vm_compute. reflexivity.
  - vm_compute. lia.
  - vm_compute. reflexivity.
  - reflexivity.
  - exact Hl.
  - by exists v.
Defined.

Lemma served_timed : @timed demo [] served.
Proof.
  apply (@exec_timed demo demo_cputime_monotone demo_steady_monotone
           (New 5 :: New 6 :: callbacks) [] initial [] served initial_timed).
  vm_compute. reflexivity.
Qed.

(** The callbacks example run a second time: isolate 5 has accumulated
    28 ns of CPU time and 110 ns of wall time in the first run, and has
    56 ns and 220 ns after the second. *)
Lemma accumulated_times_witness :
  @exec demo callbacks [] served = Ok ([], served_again) ∧
  executors served !! 5%nat = Some (mkExecutor 5 5 1 None None 28 110) ∧
  ∃ E', executors served_again !! 5%nat = Some E' ∧
        28 ≤ cpu_time E' ∧ 110 ≤ wall_time E'.
Proof.
  assert (He : @exec demo callbacks [] served = Ok ([], served_again))
    by (vm_compute; reflexivity).
  assert (HE : executors served !! 5%nat = Some (mkExecutor 5 5 1 None None 28 110))
    by (vm_compute; reflexivity).
  split; [exact He|]. split; [exact HE|].
  exact (@accumulated_times_never_decrease demo demo_cputime_monotone
           demo_steady_monotone callbacks [] served [] served_again
           served_timed He 5%nat _ HE).
Defined.

Lemma nested_scopes_witness :
  @exec demo callbacks [] two_isolates =
    Ok ([], final (@exec demo callbacks [] two_isolates)) ∧
  cpu_timer_thread (final (@exec demo callbacks [] two_isolates)) =
    cpu_timer_thread two_isolates ∧
  current_executor (final (@exec demo callbacks [] two_isolates)) =
    current_executor two_isolates.
Proof.
  assert (He : @exec demo callbacks [] two_isolates =
               Ok ([], final (@exec demo callbacks [] two_isolates)))
    by (vm_compute; reflexivity).
  split; [exact He|].
  apply (@nested_scopes_restore_thread_state demo callbacks); [reflexivity|exact He].
Defined.



Lemma Executor_defaults_witness :
  @Executor_ctor demo 6 (final (demo_run [New 5])) = Ok ((), two_isolates) ∧
  ∃ E, executors two_isolates !! 6%nat = Some E ∧
       default_executor E = 5%nat ∧ default_thread E = 1%nat.
Proof.
  assert (Hc : @Executor_ctor demo 6 (final (demo_run [New 5])) = Ok ((), two_isolates))
    by (vm_compute; reflexivity).
  split; [exact Hc|].
  destruct (@Executor_ctor_defaults demo (final (demo_run [New 5])) 6%nat
              two_isolates) as (E & HE & _ & Hsome & _).
  - intros d Hd. vm_compute in Hd. injection Hd as <-. vm_compute. eauto.
  - exact Hc.
  - exists E. split; [exact HE|].
    destruct (Hsome 5%nat) as (Hd & D & HD & Ht); [vm_compute; reflexivity|].
    split; [exact Hd|]. rewrite Ht. vm_compute in HD. injection HD as <-.
    reflexivity.
Defined.

Lemma Executor_current_witness :
  @Executor_ctor demo 5 initial = Ok ((), final (demo_run [New 5])) ∧
  current_executor (final (demo_run [New 5])) = Some 5%nat.
Proof.
  assert (Hc : @Executor_ctor demo 5 initial = Ok ((), final (demo_run [New 5])))
    by (vm_compute; reflexivity).
  split; [exact Hc|].
  apply (proj1 (@Executor_ctor_sets_current_executor demo [] initial []
                  initial 5%nat _ eq_refl Hc)).
  reflexivity.
Defined.

(** * Further properties on concrete runs *)

Lemma initial_clean : clean initial.
Proof.
  split; [done|]. intros e E HE. unfold initial in HE. simpl in HE.
  by rewrite lookup_empty in HE.
Qed.

Lemma initial_allocated : allocated initial.
Proof.
  intros c [C HC]. unfold initial in HC. simpl in HC.
  by rewrite lookup_empty in HC.
Qed.

Lemma enter_five_runs :
  demo_run enter_five = Ok (live (demo_run enter_five), inside_five).
Proof. vm_compute. reflexivity. Qed.

Lemma full_run_runs : demo_run full_run = Ok ([], final (demo_run full_run)).
Proof. vm_compute. reflexivity. Qed.

(** A CpuTimer on isolate 5, constructed and destroyed outside of any
    Lock, charges isolate 5 and leaves the thread without current timer. *)
Lemma CpuTimer_lifetime_witness :
  ∃ c σ1 σ2,
    @CpuTimer_ctor demo 5 two_isolates = Ok (c, σ1) ∧
    @CpuTimer_dtor demo c σ1 = Ok ((), σ2) ∧
    cpu_timer_thread σ2 = None.
Proof.
  destruct (@CpuTimer_charges_its_lifetime demo 5%nat two_isolates
              (mkExecutor 5 5 1 None None 0 0))
    as (c & σ1 & σ2 & Hc & Hd & _ & _ & Hh & _).
  - vm_compute. reflexivity.
  - reflexivity.
  - exists c, σ1, σ2. split; [exact Hc|]. split; [exact Hd|]. exact Hh.
Defined.

(** The CpuTimer of Lock(5), once paused, can neither be paused again nor
    be destroyed. *)
Lemma Pause_twice_witness :
  @CpuTimer_Pause demo 1 inside_five = Ok ((), paused_five) ∧
  @CpuTimer_Pause demo 1 paused_five = Abort AssertPause ∧
  @CpuTimer_dtor demo 1 paused_five = Abort AssertClear.
Proof.
  assert (Hp : @CpuTimer_Pause demo 1 inside_five = Ok ((), paused_five))
    by (vm_compute; reflexivity).
  split; [exact Hp|].
  destruct (@Pause_and_Resume_alternate demo 1%nat inside_five paused_five Hp)
    as (H1 & H2 & _).
  split; [exact H1|exact H2].
Defined.

(** Inside Lock(5) a second CpuTimer on isolate 5 aborts. *)
Lemma bare_timer_witness :
  @CpuTimer_ctor demo 5 inside_five = Abort AssertInstall.
Proof.
  refine (proj1 (@CpuTimer_ctor_leaves_current_timer_running demo inside_five
                   1%nat timer_one executor_five _ _ _ _ _)).
  - vm_compute. reflexivity.
  - vm_compute. lia.
  - vm_compute. reflexivity.
  - vm_compute. reflexivity.
  - vm_compute. reflexivity.
Defined.

(** After the callbacks example no executor has a timer installed. *)
Lemma live_objects_witness : clean (final (demo_run full_run)).
Proof.
  exact (proj2 (@installed_timers_belong_to_live_objects demo full_run initial
                  [] _ initial_clean full_run_runs) eq_refl).
Defined.

(** Inside Lock(5) the thread's current timer is the timer of the Lock. *)
Lemma timer_stack_witness :
  cpu_timer_thread inside_five = head (owned (live (demo_run enter_five))).
Proof.
  exact (proj1 (@thread_timers_mirror_the_scopes demo enter_five initial _ _
                  initial_clean enter_five_runs)).
Defined.

(** Over the callbacks example the quota timer of isolate 5 is resumed as
    often as it is paused. *)
Lemma balanced_witness :
  pause_depth 5 (trace (final (demo_run full_run))) = pause_depth 5 (trace initial).
Proof.
  exact (proj2 (@quota_timer_calls_are_balanced demo full_run initial [] _ 5%nat
                  initial_allocated full_run_runs) eq_refl).
Defined.

Lemma critical_sections_witness :
  ∃ evs, trace (final (demo_run full_run)) = trace initial ++ evs ∧
         held_after [] evs = [] ∧ out_of_place [] evs = [].
Proof.
  exact (@critical_sections_are_short demo full_run [] initial [] _ full_run_runs).
Defined.

(** Inside Lock(5), [Delta] of the timer of the Lock is not negative. *)
Lemma CpuTimer_Delta_witness :
  ∃ d σ1, @CpuTimer_Delta demo 1 5 inside_five = Ok (d, σ1) ∧ 0 ≤ d.
Proof.
  destruct (@CpuTimer_Delta_is_charged_later demo demo_cputime_monotone
              demo_steady_monotone enter_five [] initial _ inside_five 5%nat
              executor_five 1%nat timer_one initial_timed enter_five_runs)
    as (d & σ1 & Hd & Hpos & _).
  - vm_compute. reflexivity.
  - vm_compute. reflexivity.
  - vm_compute. reflexivity.
  - vm_compute. reflexivity.
  - exists d, σ1. split; [apply Hd|exact Hpos].
Defined.

Lemma WallTimer_Delta_witness :
  ∃ d σ1, @WallTimer_Delta demo wall_zero 5 inside_five = Ok (d, σ1) ∧ 0 ≤ d.
Proof.
  destruct (@WallTimer_Delta_is_charged_later demo demo_cputime_monotone
              demo_steady_monotone enter_five [] initial _ inside_five
              wall_zero executor_five initial_timed enter_five_runs)
    as (d & σ1 & Hd & Hpos & _).
  - vm_compute. left.
  - vm_compute. reflexivity.
  - vm_compute. reflexivity.
  - exists d, σ1. split; [apply Hd|exact Hpos].
Defined.

Lemma demo_slower : @cpu_clock_slower demo.
Proof. intros i j Hij. unfold cpu_clock. simpl. lia. Qed.

Lemma nested_five_runs :
  demo_run nested_five =
    Ok (live (demo_run nested_five), final (demo_run nested_five)).
Proof. vm_compute. reflexivity. Qed.

Lemma left_five_runs :
  @exec demo [Exit] (live (demo_run enter_five)) met_six = Ok ([], left_five).
Proof. vm_compute. reflexivity. Qed.

(** Lock(6) entered by another thread while the thread is inside Lock(5)
    is one of the things the other threads may do, isolate 5 being entered
    by the thread alone. *)
Lemma met_six_others :
  others [5%nat] (owned (live (demo_run enter_five))) inside_five met_six.
Proof.
  replace (owned (live (demo_run enter_five))) with [1%nat]
    by (vm_compute; reflexivity).
  apply others_checked.
  - vm_compute. reflexivity.
  - vm_compute. reflexivity.
  - vm_compute. lia.
  - vm_compute. lia.
  - apply (bool_decide_unpack _). vm_compute. exact I.
  - apply (bool_decide_unpack _). vm_compute. exact I.
  - constructor; [|constructor]. split; vm_compute; reflexivity.
  - constructor; [|constructor]. vm_compute. reflexivity.
Qed.

Lemma met_nested_others :
  others [5%nat] (owned (live (demo_run nested_five)))
    (final (demo_run nested_five)) met_nested.
Proof.
  replace (owned (live (demo_run nested_five))) with [3%nat; 1%nat]
    by (vm_compute; reflexivity).
  apply others_checked.
  - vm_compute. reflexivity.
  - vm_compute. reflexivity.
  - vm_compute. lia.
  - vm_compute. lia.
  - apply (bool_decide_unpack _). vm_compute. exact I.
  - apply (bool_decide_unpack _). vm_compute. exact I.
  - constructor; [|constructor; [|constructor]]; split; vm_compute; reflexivity.
  - constructor; [|constructor]. vm_compute. reflexivity.
Qed.

Lemma others_any R O σ σ' : others R O σ σ' → others [] O σ σ'.
Proof.
  intros (H1 & H2 & H3 & H4 & H5 & H6 & H7 & _). split_and!; try done.
  intros e Hin. by apply elem_of_nil in Hin.
Qed.

(** The thread is inside Lock(5) and another thread inside Lock(6): the
    CpuTimer of each is installed, and of the CpuTimers of the thread the
    one installed is its current one. *)
Lemma one_executor_witness :
  installed met_six 1 = true ∧ installed met_six 3 = true ∧
  ∀ c, c ∈ owned (live (demo_run enter_five)) → installed met_six c = true →
       cpu_timer_thread met_six = Some c.
Proof.
  split; [vm_compute; reflexivity|]. split; [vm_compute; reflexivity|].
  refine (proj1 (proj2 (@a_thread_charges_one_executor_at_a_time demo
            (enter_five ++ []) initial _ met_six eq_refl eq_refl _))).
  eapply concurrent_meet;
    [exact enter_five_runs|exact (others_any _ _ _ _ met_six_others)|
     reflexivity].
Defined.

(** Over Lock(5), with another thread entering Lock(6) meanwhile, isolate
    5 is charged no more than the time elapsed on the clock of the
    CpuTimers. *)
Lemma total_charge_witness :
  total_on [5%nat] left_five - total_on [5%nat] initial ≤
    @cpu_clock demo (instant left_five) - @cpu_clock demo (instant initial).
Proof.
  refine (proj1 (@total_charge_is_within_elapsed_time demo
            demo_cputime_monotone demo_steady_monotone
            (enter_five ++ [Exit]) [5%nat] initial [] left_five
            _ initial_allocated eq_refl _ eq_refl _)).
  - apply NoDup_singleton.
  - intros e E _ HE. vm_compute in HE. discriminate HE.
  - eapply concurrent_meet;
      [exact enter_five_runs|exact met_six_others|exact left_five_runs].
Defined.

Lemma elapsed_time_witness :
  charged_wall (final (demo_run full_run)) 5 - charged_wall initial 5 ≤
    @steady_clock_now demo (instant (final (demo_run full_run))) -
    @steady_clock_now demo (instant initial).
Proof.
  exact (proj2 (@accumulated_times_are_within_elapsed_time demo
                  demo_cputime_monotone demo_steady_monotone full_run initial
                  [] _ 5%nat initial_clean full_run_runs)).
Defined.

(** Inside Lock(5) nested in Lock(5), with another thread inside Lock(6):
    the WallTimer installed on isolate 5 is the one of the outer Lock
    (object 0). *)
Lemma outermost_witness : installed_wall met_nested 5 = Some 0%nat.
Proof.
  refine (@outermost_WallTimer_is_installed demo (nested_five ++ []) initial
            (live (demo_run nested_five)) met_nested 5%nat eq_refl _).
  eapply concurrent_meet;
    [exact nested_five_runs|exact met_nested_others|reflexivity].
Defined.

(** Over Lock(5), with another thread entering Lock(6) meanwhile, isolate
    5 is charged no more CPU time than wall time. *)
Lemma cpu_within_wall_witness :
  charged_cpu left_five 5 - charged_cpu initial 5 ≤
  charged_wall left_five 5 - charged_wall initial 5.
Proof.
  refine (proj2 (@cpu_time_is_within_wall_time demo demo_steady_monotone
            demo_slower (enter_five ++ [Exit]) initial [] left_five 5%nat
            initial_allocated eq_refl _ eq_refl _) eq_refl).
  - intros E HE. vm_compute in HE. discriminate HE.
  - eapply concurrent_meet;
      [exact enter_five_runs|exact met_six_others|exact left_five_runs].
Defined.

(** Lock(5) on the idle thread, left at once: isolate 5 is charged 7 ns of
    CPU time and 30 ns of wall time. *)
Lemma empty_Lock_witness :
  ∃ l σ1 σ2,
    @Lock_ctor demo 5 two_isolates = Ok (l, σ1) ∧
    @Lock_dtor demo l σ1 = Ok ((), σ2) ∧
    cpu_view (executors σ2) 5 = Some (None, 7) ∧
    wall_view (executors σ2) 5 = Some (None, 30).
Proof.
  destruct (@empty_Lock_charges_its_lifetime demo 5%nat two_isolates
              (mkExecutor 5 5 1 None None 0 0))
    as (l & σ1 & σ2 & Hc & Hd & _ & _ & _ & _ & _ & _ & Hx).
  - vm_compute. reflexivity.
  - reflexivity.
  - reflexivity.
  - vm_compute. reflexivity.
  - exists l, σ1, σ2. split; [exact Hc|]. split; [exact Hd|].
    rewrite Hx. unfold cpu_view, wall_view. rewrite lookup_insert_eq.
    split; vm_compute; reflexivity.
Defined.
